(* ===== verification/_CoqProject ===== *)
-Q . S2P
Prelude.v
JsStrings.v
Errors.v
JsNumbers.v
ScalingLab.v
ScalingLabSpec.v
LabPhaseSpec.v
LabReportSpec.v
Effects.v
Prisma.v
Schema.v
Orders.v
OrdersSpec.v
Payments.v
Evolution.v
OrderFlow.v
PaymentsSpec.v
Auth.v
AuthFlow.v
AuthSpec.v
Seed.v
Http.v
Routes.v
OpenApi.v
Throttle.v
Environment.v
Restaurants.v
System.v
Cache.v
CacheSpec.v
Outbox.v
OutboxSpec.v
Connection.v
ConnectionSpec.v
Health.v
Pipeline.v
Workers.v
WorkersFlow.v
Rabbit.v
RabbitSpec.v
Consumers.v
ConsumersSpec.v
Startup.v
Modules.v
Shutdown.v
Validation.v
ValidationSpec.v
ValidationWritten.v
Reading.v
DeliveryQueue.v
DeliveryQueueSpec.v
DeliveryOutcome.v
Journey.v
App.v
Api.v
ApiSpec.v
ApiJourney.v
Platform.v
Scenario.v
Races.v
Witnesses.v
ServiceWitnesses.v
ProcessWitnesses.v
ValidationPlatform.v
LabWitnesses.v
ApiWitnesses.v
