(* ===== verification/Prelude.v ===== *)
(** * ScaleForge: a verification development

    ScaleForge is a NestJS modular monolith (src/src/): an HTTP API for accounts, restaurants,
    orders and payments on PostgreSQL, and a worker process that moves domain events through
    RabbitMQ to an audit trail and to notifications. This library models its services and
    proves what makes them correct, alone and interleaved.

    ** How the program is modelled

    The program is single-threaded [async] code: between two [await]s anything else may run,
    in this process or another. A database statement, or a [$transaction] callback, is one
    atomic step of the shared state, a [tx]: it returns a value and the new state or throws and
    keeps nothing. A method is a [prog]: a tree of such steps with what it does on every value
    and on every exception (Effects.v). [run] executes a program alone; [perform] executes one
    action of a scheduler on any number of running programs: start one, run one step of one,
    make a step fail, commit a step and lose its answer, kill a program, let the environment
    move. Errors are values of [result]; the exceptions are those of NestJS and Prisma by what
    AllExceptionsFilter reads of them (Errors.v).

    The state is the database, the clock and the supply of UUIDs ([world], Schema.v, after
    prisma/schema.prisma and its migrations, with the unique indexes, foreign keys and column
    ranges), and around it the [system] of System.v: the log of what the message broker, the
    BullMQ queue and the consumers' channels have been told, the [running] flags of the
    publishers, whether RabbitMQ can be reached, and the Redis cache. A message that has been
    published is only written to a channel: it is with the broker, [broker_has], once
    [waitForConfirms] has seen it [Confirmed].

    Code that is not in the repository is a parameter: a class with the operations the program
    calls and a class of laws, the documented behaviour it relies on. These are [Prisma],
    [Uuids], [Decimals], [Dates], [Jwt], [Argon2], [AuthConfig], [HttpPlatform], [ErrorText],
    [TopicMatching], [Redis], [BullMQ], [ClassValidator], [ValidationLibrary], [NestLibrary],
    [PromClient], [Router], [Throttler], [NestPipes], [UrlParser], [UrlParts] and [Collation].
    Platform.v, ValidationPlatform.v and ApiWitnesses.v instantiate each of them with a concrete
    one that satisfies the laws (the in-memory database client is in Prisma.v), so that every
    definition also runs, by [vm_compute].

    ** The files

    - Prelude.v (this one): lists, strings, sorted permutations. JsStrings.v: the methods of
      JavaScript's [String] the code uses, and the normal form of an email.
    - JsNumbers.v: JavaScript's numbers: IEEE doubles with their rounding, [Number(text)],
      [toString], [toFixed], and the lemmas on them (rounding is monotone and exact on what is
      representable, a printed number reads back, integers of 53 bits are exact).
    - ScalingLab.v, ScalingLabSpec.v, LabPhaseSpec.v, LabReportSpec.v: scripts/scaling-lab.ts.
      The command line, a phase of requests as a state machine, the report, the exit code.
    - Effects.v: transactions, programs, the scheduler, and a rely/guarantee judgement
      [guarded] with its rules and its soundness for every interleaving.
    - Errors.v: exceptions, and AllExceptionsFilter (src/src/common/filters/).
    - Prisma.v, Schema.v: the database client and the tables.
    - Orders.v, OrdersSpec.v, OrderFlow.v: src/src/orders/. Creation priced from the menu on
      every branch, listing and pagination, status updates on every branch; what they do to
      the shared state in any interleaving.
    - Payments.v, PaymentsSpec.v: src/src/payments/. Idempotent completion; retries and reused
      keys in every later state.
    - Auth.v, AuthFlow.v, AuthSpec.v: src/src/users/ and src/src/auth/. Registration, login,
      rotation and revocation of refresh tokens.
    - Seed.v: prisma/seed.ts.
    - Http.v: the guards, the decorators of the controllers (method, path, metadata, status,
      limit), the correlation middleware. Routes.v: the table of routes below the version of
      setup-application.ts, and the handler a URL leads to. OpenApi.v: what the document says
      of the routes. Throttle.v: the limits of the routes, and the throttler that keeps them.
    - Environment.v: src/src/configuration/env.validation.ts, and what AuthService reads of it.
    - Evolution.v: [evolves], the one relation that says what a single step of anything may do
      to the database, and the invariant [wf] it keeps; [quiet] is the part the request
      handlers and consumers keep to.
    - Restaurants.v, Cache.v, CacheSpec.v: src/src/restaurants/ and
      src/src/common/cache/redis-cache.service.ts.
    - System.v: messages, the log, and [sys_evolves], the relation of a step of the whole.
    - Outbox.v, OutboxSpec.v: src/src/queue/outbox-publisher.service.ts and
      rabbit-publisher.service.ts. Connection.v, ConnectionSpec.v: the connection of that
      publisher as a state machine of the event loop, and the refinement that allows the rest
      to take connecting for one step.
    - Health.v: src/src/health/health.controller.ts.
    - Pipeline.v: a request from the socket to its answer: src/src/common/request-context/,
      the throttler, the guards, src/src/observability/ and the exceptions filter, around any
      handler.
    - Workers.v, WorkersFlow.v: src/src/audit/ and src/src/notifications/.
    - Rabbit.v, RabbitSpec.v: src/src/queue/rabbit-topology.ts and rabbit-consumers.service.ts,
      a method as a program. Consumers.v, ConsumersSpec.v: the same service as a state machine
      of its events: its start, the messages delivered to it, the end of their work, the
      confirms, a channel that closes or fails, the counter of failures, its shutdown.
    - Startup.v: src/src/main.ts, worker.ts, instrumentation.ts and the [onModuleInit] hooks
      of both processes, on the environment that was validated; scripts/generate-openapi.ts.
      Modules.v: every *.module.ts and every constructor as data, what may be injected where,
      and the order in which the classes can be made. Shutdown.v: the
      [onApplicationShutdown] hooks.
    - Validation.v, ValidationSpec.v, ValidationWritten.v: the DTO classes (every dto/*.dto.ts)
      with their decorators as data, and the global ValidationPipe of
      src/src/bootstrap/setup-application.ts: what it lets through, and that every request of
      the model gets through. Reading.v: the typed request in an instance the pipe hands on.
    - DeliveryQueue.v, DeliveryQueueSpec.v, DeliveryOutcome.v: notification-queue.service.ts
      with its BullMQ queue: the jobs the consumers and the recovery add, the processors, their
      attempts, failures and deaths, interleaved with all the rest.
    - Journey.v: the way of an event from the outbox through the broker and the consumer to the
      notification of the user who has ordered.
    - App.v: everything together: what may be started, and the theorems about every state of
      every execution.
    - Api.v: the controllers: a request as it comes from the socket, its route, the pipes on its
      parameters, the handler with the service it calls, the answer. ApiSpec.v: the executions
      in which such requests arrive beside all the rest; ApiJourney.v: an order over HTTP.
    - Platform.v, Scenario.v, Races.v, Witnesses.v, ServiceWitnesses.v, ProcessWitnesses.v,
      ValidationPlatform.v, LabWitnesses.v, ApiWitnesses.v: a concrete platform and a concrete run; two
      interleavings that should not be possible and are; each theorem applied to the run, or to
      inputs of its own.

    Names follow the source: a class is a Module, a method a Definition of it.

    ** What the theorems show

    In every interleaving (App.v): orders follow their transitions, one version a step, and are
    accounted for by their lines, events and audit records; payments are for the total of an
    order, one per key; emails are unique and revoked tokens stay revoked; an event marked
    as published has been confirmed by the broker; an acknowledged message has been worked, or
    a copy of it confirmed; a notification follows its state machine; a cached listing is true.

    Run alone, per component: the outcome of an operation on its branches, and, for the
    operations that promise something about later requests (idempotent payments, registered
    accounts, used or revoked tokens, processed events), that outcome in every state the system
    may evolve to.

    Around the services: the validation of the configuration accepts exactly the environments it
    describes, and these give tokens their promised strength, and the processes the settings
    they start with; every request
    is answered and, past the guards, counted once; a probe names exactly the dependencies that
    are down; the seed leaves one administrator who can log in; the publisher's connection is
    never used while it is not there, and refines the single step the rest takes it for.

    Over HTTP (ApiSpec.v, ApiJourney.v): the guarantees of App.v hold of whatever clients send;
    a request without a route, beyond a limit, refused by the guards or by the pipes gets its
    404, 429, 401, 403 or 400 and stores nothing, and any other what its handler comes to (a list
    with null for an item passes the pipes and makes its handler fail, storing nothing); the
    limits of the routes are kept in every window of their time; the table of routes is
    unambiguous; a client's JSON becomes an order at the menu's prices.

    From end to end (Journey.v): the event of an order, once in a batch, becomes a delivery to
    the user who has ordered, whatever goes on between the stages.

    Notifications and messages to their end: an owed notification whose job waits, or that has
    no job and that the recovery finds, can be delivered from any state, while one whose job
    has failed five times is stuck, and one whose processor has claimed it and gets no further
    is lost; a message is settled once whatever happens to the channel, a consumer works on no
    more messages than it has asked for, and consumers whose channel has closed do not come
    back. The publisher makes one attempt to connect at a time, which all its calls share.

    The edges of the processes: every class gets what its constructor asks for, with one
    instance in a process; what a start opens a shutdown closes; what the validation pipe lets
    through stands for a request the services can work with, or has a gap in its list, and the
    others get a 400.

    The scaling lab: what is accepted is well formed and every well-formed configuration can be
    given; a phase accounts for every request and comes to an end; percentiles are nearest-rank
    ones in spite of the rounding of doubles; the exit code is what the thresholds say.

    The service does not check that the version a status update names is one the order has had.
    So the theorems of App.v and ApiSpec.v come in two parts: what holds of every order whatever
    versions its clients send (one step, one version more, never back to PENDING), and what holds
    of the orders whose clients are [informed] (Evolution.v), that is, name only versions the
    order has had: the transition table, and the bound of the version by the status. Which
    orders these are is a parameter, so the first part asks nothing of anybody. Races.v shows
    the transition table broken otherwise, and what two simultaneous refreshes with one token do.

    ** Bounds and abstractions

    - A transaction is one atomic step. The payment transaction is Serializable in the code;
      the others run at PostgreSQL's default level, where what they write is protected by row
      locks, unique indexes and conditional updates, and what order creation reads (restaurants
      and menus) never change once stored.
    - The fuel of the [SCAN] loop of the cache is one unit a turn; CacheSpec.v says how much is
      enough. The search for the exponent of a double has 330 units, which [magnitude_spec]
      shows to be enough. Everything else is structural; a load phase is a step function on its
      events, and LabPhaseSpec.v bounds their number.
    - Text is ASCII; a DECIMAL(12,2) is a number of cents; an INTEGER column is checked for its
      32 bits; times are milliseconds. Log lines and traces are left out, except for what
      AllExceptionsFilter logs and reports.
    - The body of a message, and a value of the cache, is represented by what [JSON.parse] makes
      of it.
    - The queue of deliveries is what [getJob] shows; a job is delayed by the exponential backoff
      the options ask for, and the laws of [BullMQ] let finished jobs be forgotten only beyond
      the counts of the options. There may be any number of workers, so the ten jobs each of them
      works on at a time bound nothing. The depth of the imports of the modules is at most four.
    - The throttler's memory is that of one process, and its address for a client is given with
      the request. The three checks of the readiness probe are concurrent in Health.v and one
      after the other in Api.v. A handler that needs a caller reads it off the claims of the
      token, which are those the service signs. The parts of a URL stand for themselves (no
      percent-encoding), and a path has the methods the controllers declare.
    - A body is a JSON object or missing, a query has texts and repeated texts; the lists of a
      body may hold anything. Numbers are doubles; the laws of [ValidationLibrary] speak, for
      decimals, of up to six places and 10^15 units.
    - Timers of the lab may fire early by a given number of milliseconds: Node cuts off the
      fraction of a delay, and counts whole milliseconds.

    ** Not modelled

    The order in which NestJS runs the hooks of a start (those of a shutdown may come in any
    order); the connections of Prisma, ioredis and BullMQ after the start; the text SwaggerModule
    generates and its page; helmet; HEAD, OPTIONS and other methods no controller declares; a
    body that is a JSON list; log lines with their redaction, and traces. The code leaves all of
    this to its libraries, and the repository has no more of it than their settings. *)

From Stdlib Require Export ZArith Lia.
From stdpp Require Export base decidable option list list_numbers gmap strings pretty sorting.

#[global] Open Scope Z_scope.

(** ** Strings: the lexicographic order is a total order *)

Lemma string_leb_trans (x y z : string) :
  String.leb x y = true -> String.leb y z = true -> String.leb x z = true.
Proof.
  unfold String.leb. revert y z.
  induction x as [|a x IH]; intros [|b y] [|c z]; simpl; try done.
  unfold Ascii.compare.
  destruct (N.compare_spec (Ascii.N_of_ascii a) (Ascii.N_of_ascii b)) as [Hab|Hab|Hab];
    destruct (N.compare_spec (Ascii.N_of_ascii b) (Ascii.N_of_ascii c)) as [Hbc|Hbc|Hbc];
    destruct (N.compare_spec (Ascii.N_of_ascii a) (Ascii.N_of_ascii c)) as [Hac|Hac|Hac];
    try done; try lia.
  apply IH.
Qed.

(** ** Lists: pages *)

(** Page [i] (from 0) of [l], with [n] elements a page. *)
Definition page_of {A : Type} (n i : nat) (l : list A) : list A := take n (drop (i * n) l).

Lemma concat_pages {A : Type} (n m : nat) (l : list A) :
  concat (map (fun i => page_of n i l) (seq 0 m)) = take (m * n) l.
Proof.
  induction m as [|m IH]; [done|].
  rewrite seq_S, map_app, concat_app, IH. simpl. rewrite app_nil_r. unfold page_of.
  rewrite take_take_drop. f_equal. lia.
Qed.

(** ** Lists: a sorted permutation is unique *)

Lemma sorted_perm_unique {A : Type} (R : relation A) (l1 l2 : list A) :
  Transitive R ->
  (forall x y, x ∈ l1 -> y ∈ l2 -> R x y -> R y x -> x = y) ->
  Sorted R l1 -> Sorted R l2 -> l1 ≡ₚ l2 -> l1 = l2.
Proof.
  intros Ht Ha H1 H2 Hp.
  apply (StronglySorted_unique_strong R); [done|by apply Sorted_StronglySorted..|done].
Qed.
