(* ===== verification/JsStrings.v ===== *)
(** * JavaScript strings

    The operations of [String.prototype] the program uses, on ASCII text: [trim],
    [toLowerCase], [split] on a space, [slice]. *)
From S2P Require Import Prelude.
From Stdlib Require Import Ascii.

Definition space : ascii := " "%char.
Definition chars (s : string) : list ascii := String.list_ascii_of_string s.
Definition text (l : list ascii) : string := String.string_of_list_ascii l.

(** White space of [trim]: tab, line feed, vertical tab, form feed, carriage return, space. *)
Definition is_space (a : ascii) : bool :=
  let n := N_of_ascii a in ((9 <=? n)%N && (n <=? 13)%N) || (n =? 32)%N.

Fixpoint drop_spaces (l : list ascii) : list ascii :=
  match l with
  | a :: l' => if is_space a then drop_spaces l' else l
  | [] => []
  end.
Definition trim_chars (l : list ascii) : list ascii := rev (drop_spaces (rev (drop_spaces l))).
Definition js_trim (s : string) : string := text (trim_chars (chars s)).

Definition lower_char (a : ascii) : ascii :=
  let n := N_of_ascii a in
  if (65 <=? n)%N && (n <=? 90)%N then ascii_of_N (n + 32) else a.
Definition upper_char (a : ascii) : ascii :=
  let n := N_of_ascii a in
  if (97 <=? n)%N && (n <=? 122)%N then ascii_of_N (n - 32) else a.
Definition js_toLowerCase (s : string) : string := text (map lower_char (chars s)).
Definition js_toUpperCase (s : string) : string := text (map upper_char (chars s)).

(** [s.split(c)] for a single character [c]. *)
Fixpoint split_chars (c : ascii) (l : list ascii) : list (list ascii) :=
  match l with
  | [] => [[]]
  | a :: l =>
      if Ascii.eqb a c then [] :: split_chars c l
      else match split_chars c l with
           | w :: ws => (a :: w) :: ws
           | [] => [[a]]
           end
  end.
Definition js_split (c : ascii) (s : string) : list string := map text (split_chars c (chars s)).

(** [s.slice(0, n)]. *)
Definition js_slice (n : nat) (s : string) : string := String.substring 0 n s.

(** [s.slice(n)] and [s.startsWith(prefix)]. *)
Definition js_slice_from (n : nat) (s : string) : string := text (drop n (chars s)).
Definition js_startsWith (prefix s : string) : bool := String.prefix prefix s.

(** [l.join(separator)]. *)
Fixpoint js_join (separator : string) (l : list string) : string :=
  match l with
  | [] => ""
  | [s] => s
  | s :: l => String.append s (String.append separator (js_join separator l))
  end.

(** JavaScript's truthiness of an optional string. *)
Definition truthy (s : option string) : option string :=
  match s with Some "" => None | _ => s end.

(** ** Lemmas *)

Lemma text_chars s : text (chars s) = s.
Proof. apply String.string_of_list_ascii_of_string. Qed.
Lemma chars_text l : chars (text l) = l.
Proof. apply String.list_ascii_of_string_of_list_ascii. Qed.

Lemma lower_char_idem a : lower_char (lower_char a) = lower_char a.
Proof. destruct a as [[] [] [] [] [] [] [] []]; reflexivity. Qed.
Lemma lower_char_space a : is_space (lower_char a) = is_space a.
Proof. destruct a as [[] [] [] [] [] [] [] []]; reflexivity. Qed.

Lemma drop_spaces_lower l : drop_spaces (map lower_char l) = map lower_char (drop_spaces l).
Proof. induction l as [|a l IH]; simpl; [done|]. rewrite lower_char_space. by destruct (is_space a). Qed.

Lemma trim_lower l : trim_chars (map lower_char l) = map lower_char (trim_chars l).
Proof. unfold trim_chars. by rewrite drop_spaces_lower, <- map_rev, drop_spaces_lower, map_rev. Qed.

(** Either nothing is dropped or the list starts with a space. *)
Lemma drop_spaces_idem l : drop_spaces (drop_spaces l) = drop_spaces l.
Proof. induction l as [|a l IH]; simpl; [done|]. destruct (is_space a) eqn:Ha; [done|]. simpl. by rewrite Ha. Qed.

Definition no_leading_space (l : list ascii) : Prop :=
  match l with a :: _ => is_space a = false | [] => True end.

Lemma drop_spaces_leading l : no_leading_space (drop_spaces l).
Proof. induction l as [|a l IH]; simpl; [done|]. by destruct (is_space a) eqn:Ha. Qed.
Lemma no_leading_drop l : no_leading_space l -> drop_spaces l = l.
Proof. destruct l as [|a l]; simpl; [done|]. by intros ->. Qed.

(** Dropping spaces at the end keeps the first character, unless it drops everything. *)
Lemma drop_end_leading l :
  no_leading_space l -> no_leading_space (rev (drop_spaces (rev l))).
Proof.
  destruct l as [|a l]; [done|]. intros Ha. simpl in Ha. simpl.
  assert (H : exists m, drop_spaces (rev l ++ [a]) = m ++ [a]).
  { induction (rev l) as [|b m [m' IH]]; simpl; [rewrite Ha; by exists []|].
    destruct (is_space b); [by exists m'|by exists (b :: m)]. }
  destruct H as [m ->]. rewrite rev_app_distr. exact Ha.
Qed.

Lemma trim_chars_idem l : trim_chars (trim_chars l) = trim_chars l.
Proof.
  unfold trim_chars.
  rewrite (no_leading_drop (rev (drop_spaces (rev (drop_spaces l)))))
    by apply drop_end_leading, drop_spaces_leading.
  by rewrite rev_involutive, drop_spaces_idem.
Qed.

Lemma split_chars_none c l : c ∉ l -> split_chars c l = [l].
Proof.
  induction l as [|a l IH]; intros Hc; [done|]. simpl.
  apply not_elem_of_cons in Hc as [Hne Hc]. destruct (Ascii.eqb_spec a c); [congruence|].
  by rewrite IH.
Qed.

Lemma split_chars_app c l l' : c ∉ l -> split_chars c (l ++ c :: l') = l :: split_chars c l'.
Proof.
  induction l as [|a l IH]; intros Hc; simpl; [by rewrite Ascii.eqb_refl|].
  apply not_elem_of_cons in Hc as [Hne Hc]. destruct (Ascii.eqb_spec a c); [congruence|].
  by rewrite IH.
Qed.

Lemma chars_append s s' : chars (String.append s s') = chars s ++ chars s'.
Proof. unfold chars. induction s as [|a s IH]; simpl; [done|]. by f_equal. Qed.

Lemma js_split_none c s : c ∉ chars s -> js_split c s = [s].
Proof. intros. unfold js_split. rewrite split_chars_none by done. simpl. by rewrite text_chars. Qed.

Lemma js_split_append c s s' :
  c ∉ chars s -> js_split c (String.append s (String c s')) = s :: js_split c s'.
Proof.
  intros. unfold js_split. rewrite chars_append. simpl. fold (chars s').
  rewrite split_chars_app by done. simpl. by rewrite text_chars.
Qed.

(** The form in which an email is stored and looked up. *)
Definition normalize_email (s : string) : string := js_toLowerCase (js_trim s).
Definition normalized (s : string) : Prop := normalize_email s = s.

Lemma normalize_idem s : normalized (normalize_email s).
Proof.
  unfold normalized, normalize_email, js_toLowerCase, js_trim. rewrite !chars_text.
  f_equal. rewrite trim_lower, map_map, trim_chars_idem.
  apply map_ext, lower_char_idem.
Qed.
