(* ===== verification/Errors.v ===== *)
(** * Exceptions and the HTTP error contract

    JSON values, the exceptions the services throw, the [result] type their operations
    return, and [AllExceptionsFilter] (src/src/common/filters/all-exceptions.filter.ts),
    the one place where an exception becomes an HTTP answer.

    NestJS and Prisma are not part of the repository: an exception of theirs is modelled
    by what the filter reads of it (the status and the response of an [HttpException],
    the code of a [PrismaClientKnownRequestError], the message of any other [Error]). *)
From S2P Require Import Prelude.

(** ** Data *)

(** JSON values; the numbers the program puts in JSON are integers. *)
Inductive json : Type :=
| JNull
| JBool (b : bool)
| JNum (n : Z)
| JStr (s : string)
| JArr (l : list json)
| JObj (fields : list (string * json)).

(** [exception.getResponse()]: a string, or an object that may have a [message] and other
    fields. *)
Inductive http_response : Type :=
| ResponseString (s : string)
| ResponseObject (message : option json) (others : list (string * json)).

Inductive exn : Type :=
| HttpException (status : Z) (response : http_response)
| PrismaClientKnownRequestError (code : string)
| JsError (message : string).

(** What an effectful operation yields: a value or the exception it throws. *)
Inductive result (A : Type) : Type :=
| Ok (a : A)
| Err (e : exn).
Arguments Ok {A} a.
Arguments Err {A} e.

#[export] Instance result_ret : MRet result := fun A => Ok.
#[export] Instance result_bind : MBind result := fun A B f r =>
  match r with Ok a => f a | Err e => Err e end.

Lemma result_bind_Ok {A B : Type} (r : result A) (f : A -> result B) a :
  r = Ok a -> (r ≫= f) = f a.
Proof. by intros ->. Qed.

(** The exception classes of NestJS the services construct from a message. *)
Definition nest_exception (status : Z) (message : string) : exn :=
  HttpException status (ResponseObject (Some (JStr message)) []).
Definition BadRequestException := nest_exception 400.
Definition UnauthorizedException := nest_exception 401.
Definition ForbiddenException := nest_exception 403.
Definition NotFoundException := nest_exception 404.
Definition ConflictException := nest_exception 409.

Definition is_http (e : exn) : bool :=
  match e with HttpException _ _ => true | _ => false end.

(** [obj[field]] on a parsed JSON object: the last field of that name wins. *)
Definition json_get (field : string) (j : json) : option json :=
  match j with
  | JObj fields =>
      foldl (fun acc '(f, v) => if String.eqb f field then Some v else acc) None fields
  | _ => None
  end.

(** JavaScript's truthiness of a field of a parsed object. *)
Definition json_truthy (j : option json) : bool :=
  match j with
  | None | Some JNull | Some (JBool false) | Some (JNum 0) | Some (JStr "") => false
  | _ => true
  end.

(** JavaScript's [String(v)] on the values a JSON document can hold. *)
Fixpoint js_String (j : json) : string :=
  match j with
  | JNull => "null"
  | JBool true => "true"
  | JBool false => "false"
  | JNum n => pretty n
  | JStr s => s
  | JArr l =>
      (fix join (l : list json) : string :=
         match l with
         | [] => ""
         | [JNull] => ""
         | [x] => js_String x
         | JNull :: xs => String.append "," (join xs)
         | x :: xs => String.append (js_String x) (String.append "," (join xs))
         end) l
  | JObj _ => "[object Object]"
  end.

(** The message of a JavaScript [Error]. *)
Class ErrorText := { error_message : exn -> string }.

(** What the filter uses of NestJS and of JavaScript's [Date]: the reverse mapping of the
    enum [HttpStatus] and the rendering of a time. *)
Class HttpPlatform := {
  HttpStatus_name : Z -> option string;
  toISOString : Z -> string;
}.

(** ** The filter *)
Module AllExceptionsFilter.

(** The body of the answer, [{ error: { ... } }]. *)
Record error_body := mkErrorBody {
  code : string;
  message : string;
  details : option (list json);
  correlationId : option string;
  timestamp : string;
  path : string;
}.

(** What [catch] does: it logs (as an error or as a warning), reports to Sentry under a
    correlation tag or not, and replies with a status and a body. *)
Inductive log_level := LogError | LogWarn.
Record outcome := mkOutcome {
  logged : log_level;
  sentry_tag : option string;
  replied_status : Z;
  replied_body : error_body;
}.

Section filter.
Context `{HttpPlatform}.

Definition statusOf (e : exn) : Z :=
  match e with
  | HttpException status _ => status
  | PrismaClientKnownRequestError c => if String.eqb c "P2002" then 409 else 500
  | JsError _ => 500
  end.

Definition codeOf (e : exn) (status : Z) : string :=
  match e with
  | PrismaClientKnownRequestError c => c
  | _ => default "INTERNAL_SERVER_ERROR" (HttpStatus_name status)
  end.

Definition messageOf (e : exn) (status : Z) : string :=
  match e with
  | HttpException _ response =>
      match response with
      | ResponseObject (Some m) _ =>
          match m with
          | JArr _ => "Request validation failed"
          | _ => js_String m
          end
      | ResponseString s => s
      | ResponseObject None _ => "Request failed"
      end
  | _ =>
      if status =? 409 then "A resource with the same unique value already exists"
      else "An unexpected error occurred"
  end.

Definition detailsOf (e : exn) : option (list json) :=
  match e with
  | HttpException _ (ResponseObject (Some (JArr l)) _) => Some l
  | _ => None
  end.

Definition catch (e : exn) (correlationId : option string) (url : string) (now : Z) : outcome :=
  let status := statusOf e in
  let details := detailsOf e in
  let body := {| code := codeOf e status;
                 message := messageOf e status;
                 details := details;
                 correlationId := correlationId;
                 timestamp := toISOString now;
                 path := url |} in
  if 500 <=? status
  then {| logged := LogError;
          sentry_tag := Some (default "unknown" correlationId);
          replied_status := status;
          replied_body := body |}
  else {| logged := LogWarn;
          sentry_tag := None;
          replied_status := status;
          replied_body := body |}.

End filter.
End AllExceptionsFilter.
