(* ===== verification/JsNumbers.v ===== *)
(** * JavaScript numbers

    The [Number] type: IEEE 754 doubles, rounded to nearest, ties to even. Every finite double
    is an integral multiple of the smallest one, 2^-1074, so [Finite z] is the double of value
    [z * 2^-1074]: equality and order are those of [Z], and an operation is the exact result,
    a fraction of two integers, rounded once. The two zeros are one (nothing in the program
    tells them apart).

    Then the conversions the program uses: [Number(text)], [String(number)] with the shortest
    digits that read back, and [toFixed]. The lemmas below give rounding by what it keeps: the
    order, and the numbers that need no rounding. *)
From S2P Require Import Prelude JsStrings.
From Stdlib Require Import Ascii.

(** ** Doubles *)

Inductive number : Type :=
| NaN
| Infinity (negative : bool)
| Finite (z : Z).

#[export] Instance number_eq_dec : EqDecision number.
Proof. solve_decision. Defined.

(** 1, and the first power of two that is too large, in units of 2^-1074. *)
Definition one : Z := 2 ^ 1074.
Definition too_large : Z := 2 ^ (1024 + 1074).

(** The integer nearest to [n / d], the even one of two. *)
Definition nearest (n d : Z) : Z :=
  let q := n / d in
  let r := n mod d in
  match 2 * r ?= d with
  | Lt => q
  | Gt => q + 1
  | Eq => if Z.even q then q else q + 1
  end.

(** [n / d], not negative, to the 53 binary digits of a double. *)
Definition round_nonneg (n d : Z) : Z :=
  let k := Z.max 0 (Z.log2 (n / d) - 52) in
  nearest n (d * 2 ^ k) * 2 ^ k.

(** The double nearest to [n / d] units, for [0 < d]. *)
Definition round (n d : Z) : number :=
  let m := round_nonneg (Z.abs n) d in
  if too_large <=? m then Infinity (n <? 0) else Finite (Z.sgn n * m).

(** The numeral [m * 10^e]. *)
Definition decimal (m e : Z) : number :=
  if 0 <=? e then round (m * 10 ^ e * one) 1 else round (m * one) (10 ^ (- e)).

Definition of_Z (n : Z) : number := round (n * one) 1.

(** ** Arithmetic *)

Definition add (x y : number) : number :=
  match x, y with
  | NaN, _ | _, NaN => NaN
  | Finite a, Finite b => round (a + b) 1
  | Infinity s, Infinity t => if Bool.eqb s t then Infinity s else NaN
  | Infinity s, Finite _ | Finite _, Infinity s => Infinity s
  end.

Definition neg (x : number) : number :=
  match x with NaN => NaN | Infinity s => Infinity (negb s) | Finite z => Finite (- z) end.

Definition sub (x y : number) : number := add x (neg y).

Definition mul (x y : number) : number :=
  match x, y with
  | NaN, _ | _, NaN => NaN
  | Finite a, Finite b => round (a * b) one
  | Infinity s, Infinity t => Infinity (xorb s t)
  | Infinity s, Finite z | Finite z, Infinity s =>
      if z =? 0 then NaN else Infinity (xorb s (z <? 0))
  end.

Definition div (x y : number) : number :=
  match x, y with
  | NaN, _ | _, NaN => NaN
  | Finite a, Finite b =>
      if b =? 0 then (if a =? 0 then NaN else Infinity (a <? 0))
      else round (a * one * Z.sgn b) (Z.abs b)
  | Infinity _, Infinity _ => NaN
  | Infinity s, Finite b => Infinity (xorb s (b <? 0))
  | Finite _, Infinity _ => Finite 0
  end.

(** [x < y] and [x <= y]: false when one of them is [NaN]. *)
Definition ltb (x y : number) : bool :=
  match x, y with
  | NaN, _ | _, NaN => false
  | Finite a, Finite b => a <? b
  | Infinity true, Infinity true => false
  | Infinity true, _ => true
  | _, Infinity false => match x with Infinity false => false | _ => true end
  | _, _ => false
  end.
Definition leb (x y : number) : bool :=
  match x, y with
  | NaN, _ | _, NaN => false
  | _, _ => negb (ltb y x)
  end.

Definition isFinite (x : number) : bool := match x with Finite _ => true | _ => false end.

(** [Math.floor], [Math.ceil], [Math.max]. *)
Definition floor (x : number) : number :=
  match x with Finite z => Finite (z / one * one) | _ => x end.
Definition ceil (x : number) : number :=
  match x with Finite z => Finite (- (- z / one) * one) | _ => x end.
Definition max (x y : number) : number :=
  match x, y with NaN, _ | _, NaN => NaN | _, _ => if ltb x y then y else x end.
Definition min (x y : number) : number :=
  match x, y with NaN, _ | _, NaN => NaN | _, _ => if ltb y x then y else x end.

(** ** [Number(text)] *)

Definition digit_value (a : ascii) : Z := Z.of_N (N_of_ascii a) - 48.
Definition is_digit (a : ascii) : bool := (0 <=? digit_value a) && (digit_value a <=? 9).

Fixpoint span_digits (l : list ascii) : list ascii * list ascii :=
  match l with
  | a :: l' => if is_digit a then let '(ds, r) := span_digits l' in (a :: ds, r) else ([], l)
  | [] => ([], [])
  end.

Definition digits_value (l : list ascii) : Z :=
  foldl (fun acc a => 10 * acc + digit_value a) 0 l.

(** A sequence of digits in another base, none of them missing. *)
Definition base_digit (a : ascii) : Z :=
  let n := Z.of_N (N_of_ascii (lower_char a)) in
  if is_digit a then digit_value a
  else if (97 <=? n) && (n <=? 122) then n - 87 else 36.
Definition based (base : Z) (l : list ascii) : number :=
  if bool_decide (l <> []) && forallb (fun a => base_digit a <? base) l
  then of_Z (foldl (fun acc a => base * acc + base_digit a) 0 l) else NaN.

(** The exponent part, if any, up to the end of the text. *)
Definition exponent (l : list ascii) : option Z :=
  match l with
  | [] => Some 0
  | a :: l =>
      if Ascii.eqb (lower_char a) "e" then
        let '(s, l) := match l with
                       | "+"%char :: l => (1, l)
                       | "-"%char :: l => (-1, l)
                       | _ => (1, l)
                       end in
        let '(ds, r) := span_digits l in
        if bool_decide (ds <> []) && bool_decide (r = []) then Some (s * digits_value ds) else None
      else None
  end.

Definition unsigned (l : list ascii) : number :=
  if bool_decide (l = chars "Infinity") then Infinity false
  else
    let '(ip, r) := span_digits l in
    let '(fp, r) := match r with "."%char :: r => span_digits r | _ => ([], r) end in
    match exponent r with
    | Some e => if bool_decide (ip ++ fp = []) then NaN
                else decimal (digits_value (ip ++ fp)) (e - Z.of_nat (length fp))
    | None => NaN
    end.

Definition signed (l : list ascii) : number :=
  match l with
  | "-"%char :: l => neg (unsigned l)
  | "+"%char :: l => unsigned l
  | _ => unsigned l
  end.

Definition Number (s : string) : number :=
  match trim_chars (chars s) with
  | [] => Finite 0
  | "0"%char :: a :: l =>
      let a' := lower_char a in
      if Ascii.eqb a' "x" then based 16 l
      else if Ascii.eqb a' "o" then based 8 l
      else if Ascii.eqb a' "b" then based 2 l
      else signed ("0"%char :: a :: l)
  | l => signed l
  end.

(** ** [String(number)] *)

(** The decimal digits of [n], not negative. *)
Definition digits (n : Z) : list ascii := chars (pretty (Z.to_N n)).
Definition zeros (n : Z) : list ascii := replicate (Z.to_nat n) "0"%char.

(** The least [e] with [z < 10^e], counting up from 1 or down from it. *)
Fixpoint up (fuel : nat) (z p e : Z) : Z :=
  match fuel with
  | O => e
  | S fuel => if z <? p then e else up fuel z (p * 10) (e + 1)
  end.
Fixpoint down (fuel : nat) (z e : Z) : Z :=
  match fuel with
  | O => e
  | S fuel => if z * 10 <? one then down fuel (z * 10) (e - 1) else e
  end.
Definition magnitude (z : Z) : Z := if z <? one then down 330 z 0 else up 330 z one 0.

(** [k] significant digits of [z], of magnitude [e]. *)
Definition significand (z e k : Z) : Z :=
  if e <=? k then nearest (z * 10 ^ (k - e)) one else nearest z (10 ^ (e - k) * one).

(** The fewest digits, 17 at most, that read back as [z]: a significand and an exponent. *)
Fixpoint shortest (more : nat) (z e k : Z) : Z * Z :=
  let s := significand z e k in
  match more with
  | O => (s, e - k)
  | S more => if bool_decide (decimal s (e - k) = Finite z) then (s, e - k)
              else shortest more z e (k + 1)
  end.

(** The text of [s * 10^x]. *)
Definition layout (s x : Z) : list ascii :=
  let ds := digits s in
  let k := Z.of_nat (length ds) in
  let n := k + x in
  if (k <=? n) && (n <=? 21) then ds ++ zeros (n - k)
  else if (0 <? n) && (n <=? 21) then take (Z.to_nat n) ds ++ "."%char :: drop (Z.to_nat n) ds
  else if (-6 <? n) && (n <=? 0) then "0"%char :: "."%char :: zeros (- n) ++ ds
  else
    let m := n - 1 in
    take 1 ds ++ (if k =? 1 then [] else "."%char :: drop 1 ds) ++
    "e"%char :: (if m <? 0 then "-"%char else "+"%char) :: digits (Z.abs m).

(** A power of ten has one digit. *)
Definition normal_digits (sx : Z * Z) : Z * Z :=
  let '(s, x) := sx in
  let k := Z.of_nat (length (digits s)) - 1 in
  if s =? 10 ^ k then (1, x + k) else (s, x).

Definition positive_text (z : Z) : list ascii :=
  let '(s, x) := normal_digits (shortest 16 z (magnitude z) 1) in layout s x.

Definition toString (x : number) : string :=
  match x with
  | NaN => "NaN"
  | Infinity false => "Infinity"
  | Infinity true => "-Infinity"
  | Finite z =>
      if z =? 0 then "0"
      else if z <? 0 then String "-" (text (positive_text (- z))) else text (positive_text z)
  end.

(** ** [x.toFixed(f)] *)

(** [n * 10^-f] with its [f] decimals. *)
Definition fixed_text (f n : Z) : list ascii :=
  let ds := digits n in
  let ds := zeros (f + 1 - Z.of_nat (length ds)) ++ ds in
  let k := (length ds - Z.to_nat f)%nat in
  take k ds ++ (if f =? 0 then [] else "."%char :: drop k ds).

Definition toFixed (f : Z) (x : number) : string :=
  match x with
  | Finite z =>
      if 10 ^ 21 * one <=? Z.abs z then toString x
      else
        let n := (2 * Z.abs z * 10 ^ f + one) / (2 * one) in
        text ((if z <? 0 then ["-"%char] else []) ++ fixed_text f n)
  | _ => toString x
  end.

(** ** Rounding *)

Lemma one_pos : 0 < one.
Proof. by apply Z.pow_pos_nonneg. Qed.
Lemma too_large_pos : 0 < too_large.
Proof. by apply Z.pow_pos_nonneg. Qed.

#[global] Opaque one too_large.

(** [nearest] is within a half of the fraction. *)
Lemma nearest_spec n d : 0 < d -> - d <= 2 * (nearest n d * d - n) <= d.
Proof.
  intros Hd. unfold nearest. pose proof (Z.mod_pos_bound n d Hd) as Hr.
  pose proof (Z.div_mod n d ltac:(lia)) as Hn.
  destruct (Z.compare_spec (2 * (n mod d)) d) as [H|H|H]; [destruct (Z.even (n / d))| |]; nia.
Qed.

Lemma nearest_floor n d : 0 < d -> n / d <= nearest n d <= n / d + 1.
Proof.
  intros Hd. unfold nearest.
  destruct (2 * (n mod d) ?= d); [destruct (Z.even (n / d))| |]; lia.
Qed.

Lemma nearest_mono a b d : 0 < d -> a <= b -> nearest a d <= nearest b d.
Proof.
  intros Hd Hab. destruct (Z.eq_dec (a / d) (b / d)) as [He|Hne].
  - unfold nearest. rewrite He. pose proof (Z.div_mod a d ltac:(lia)) as Ha.
    pose proof (Z.div_mod b d ltac:(lia)) as Hb.
    destruct (Z.compare_spec (2 * (a mod d)) d), (Z.compare_spec (2 * (b mod d)) d),
      (Z.even (b / d)); nia.
  - assert (a / d < b / d) by (pose proof (Z.div_le_mono a b d Hd Hab); lia).
    pose proof (nearest_floor a d Hd). pose proof (nearest_floor b d Hd). lia.
Qed.

Lemma nearest_exact m d : 0 < d -> nearest (m * d) d = m.
Proof.
  intros Hd. unfold nearest. rewrite Z.div_mul, Z.mod_mul by lia.
  destruct (Z.compare_spec (2 * 0) d); [lia|done|lia].
Qed.

Lemma nearest_scale n d c : 0 < d -> 0 < c -> nearest (n * c) (d * c) = nearest n d.
Proof.
  intros Hd Hc. unfold nearest. rewrite Z.div_mul_cancel_r by lia.
  rewrite Z.mul_mod_distr_r by lia.
  replace (2 * (n mod d * c) ?= d * c) with (2 * (n mod d) ?= d); [done|].
  rewrite Z.mul_assoc. apply Zmult_compare_compat_r. lia.
Qed.

Lemma nearest_0 d : 0 < d -> nearest 0 d = 0.
Proof. apply (nearest_exact 0). Qed.

(** The binade of a fraction. *)
Definition binade (n d : Z) : Z := Z.max 0 (Z.log2 (n / d) - 52).

Lemma round_nonneg_eq n d : round_nonneg n d = nearest n (d * 2 ^ binade n d) * 2 ^ binade n d.
Proof. done. Qed.

Lemma binade_mono a b d : 0 < d -> a <= b -> binade a d <= binade b d.
Proof.
  intros Hd Hab. unfold binade. pose proof (Z.log2_le_mono (a / d) (b / d)) as H.
  pose proof (Z.div_le_mono a b d Hd Hab). lia.
Qed.

Lemma binade_nonneg n d : 0 <= binade n d.
Proof. unfold binade. lia. Qed.

(** In its binade a fraction has at most 53 digits; it has 53, but in the lowest one. *)
Lemma binade_upper n d : 0 < d -> 0 <= n -> n < 2 ^ (53 + binade n d) * d.
Proof.
  intros Hd Hn. unfold binade.
  assert (n < (n / d + 1) * d) by (pose proof (Z.mul_succ_div_gt n d Hd); lia).
  assert (0 <= n / d) by (apply Z.div_pos; lia).
  assert (n / d < 2 ^ (53 + Z.max 0 (Z.log2 (n / d) - 52))); [|nia].
  destruct (Z.eq_dec (n / d) 0) as [->|]; [by apply Z.pow_pos_nonneg|].
  eapply Z.lt_le_trans; [apply Z.log2_spec; lia|]. apply Z.pow_le_mono_r; lia.
Qed.

Lemma binade_lower n d : 0 < d -> 0 < binade n d -> 2 ^ (52 + binade n d) * d <= n.
Proof.
  intros Hd Hb. unfold binade in *.
  assert (0 < n / d) by (destruct (Z.le_gt_cases (n / d) 0) as [H|]; [rewrite Z.log2_nonpos in Hb|]; lia).
  assert (2 ^ (52 + Z.max 0 (Z.log2 (n / d) - 52)) <= n / d).
  { replace (52 + Z.max 0 (Z.log2 (n / d) - 52)) with (Z.log2 (n / d)) by lia.
    by apply Z.log2_spec. }
  pose proof (Z.mul_div_le n d Hd). nia.
Qed.

(** The doubles, but for their bound: 53 digits and an exponent. *)
Definition representable (z : Z) : Prop := exists m e, 0 <= e /\ Z.abs m <= 2 ^ 53 /\ z = m * 2 ^ e.

Lemma representable_small z : Z.abs z <= 2 ^ 53 -> representable z.
Proof. intros. exists z, 0. lia. Qed.

Lemma representable_mul_pow z e : 0 <= e -> representable z -> representable (z * 2 ^ e).
Proof.
  intros He (m & f & Hf & Hm & ->). exists m, (f + e). rewrite Z.pow_add_r by lia. lia.
Qed.

Lemma pow2_pos k : 0 <= k -> 0 < 2 ^ k.
Proof. by apply Z.pow_pos_nonneg. Qed.

Lemma one_pow2 : one = 2 ^ 1074.
Proof. Transparent one. reflexivity. Opaque one. Qed.
Lemma too_large_pow2 : too_large = 2 ^ 1024 * one.
Proof. Transparent one too_large. unfold too_large, one. by rewrite Z.pow_add_r. Opaque one too_large. Qed.

(** An integer and a half, a quarter, ... of a small one are doubles. *)
Lemma representable_one m k :
  0 <= k <= 1074 -> Z.abs m <= 2 ^ 53 -> representable (m * 2 ^ (1074 - k)).
Proof. intros Hk Hm. exists m, (1074 - k). lia. Qed.

Lemma representable_integer m : Z.abs m <= 2 ^ 53 -> representable (m * one).
Proof. intros Hm. rewrite one_pow2. by apply (representable_one m 0). Qed.

Lemma round_nonneg_nonneg n d : 0 < d -> 0 <= n -> 0 <= round_nonneg n d.
Proof.
  intros Hd Hn. rewrite round_nonneg_eq. pose proof (pow2_pos _ (binade_nonneg n d)) as Hp.
  assert (0 <= nearest n (d * 2 ^ binade n d)); [|nia].
  rewrite <- (nearest_0 (d * 2 ^ binade n d)) by nia. apply nearest_mono; nia.
Qed.

Lemma nearest_digits n d : 0 < d -> 0 <= n -> nearest n (d * 2 ^ binade n d) <= 2 ^ 53.
Proof.
  intros Hd Hn. pose proof (binade_upper n d Hd Hn) as Hu.
  pose proof (binade_nonneg n d) as Hb. pose proof (pow2_pos _ Hb) as Hp.
  rewrite Z.pow_add_r in Hu by lia.
  rewrite <- (nearest_exact (2 ^ 53) (d * 2 ^ binade n d)) by nia.
  apply nearest_mono; nia.
Qed.

Lemma round_representable n d : 0 < d -> 0 <= n -> representable (round_nonneg n d).
Proof.
  intros Hd Hn. rewrite round_nonneg_eq. exists (nearest n (d * 2 ^ binade n d)), (binade n d).
  split_and!; [apply binade_nonneg| |done]. pose proof (nearest_digits n d Hd Hn).
  assert (0 <= nearest n (d * 2 ^ binade n d)); [|lia].
  pose proof (pow2_pos _ (binade_nonneg n d)).
  rewrite <- (nearest_0 (d * 2 ^ binade n d)) by nia. apply nearest_mono; nia.
Qed.

(** Rounding keeps the order. *)
Lemma round_mono a b d : 0 < d -> 0 <= a -> a <= b -> round_nonneg a d <= round_nonneg b d.
Proof.
  intros Hd Ha Hab. rewrite !round_nonneg_eq.
  pose proof (binade_mono a b d Hd Hab) as Hm. pose proof (binade_nonneg a d) as Hb.
  pose proof (pow2_pos _ Hb) as Hp.
  destruct (Z.eq_dec (binade a d) (binade b d)) as [He|Hne].
  { rewrite <- He. assert (nearest a (d * 2 ^ binade a d) <= nearest b (d * 2 ^ binade a d)); [|nia].
    apply nearest_mono; nia. }
  (* the lower binade ends where the higher one begins *)
  pose proof (nearest_digits a d Hd Ha) as Hu.
  assert (2 ^ 52 <= nearest b (d * 2 ^ binade b d)).
  { pose proof (pow2_pos (binade b d) ltac:(lia)) as Hpb.
    rewrite <- (nearest_exact (2 ^ 52) (d * 2 ^ binade b d)) by nia.
    apply nearest_mono; [nia|]. pose proof (binade_lower b d Hd ltac:(lia)) as Hl.
    rewrite Z.pow_add_r in Hl by lia. nia. }
  assert (2 * 2 ^ binade a d <= 2 ^ binade b d).
  { rewrite <- Z.pow_succ_r by lia. apply Z.pow_le_mono_r; lia. }
  nia.
Qed.

Lemma round_scale n d c : 0 < d -> 0 < c -> round_nonneg (n * c) (d * c) = round_nonneg n d.
Proof.
  intros Hd Hc. rewrite !round_nonneg_eq. unfold binade.
  rewrite Z.div_mul_cancel_r by lia.
  pose proof (pow2_pos (Z.max 0 (Z.log2 (n / d) - 52)) ltac:(lia)).
  f_equal. rewrite <- Z.mul_assoc, (Z.mul_comm c), Z.mul_assoc. apply nearest_scale; nia.
Qed.

(** A number of 53 digits needs no rounding. *)
Lemma round_exact z d : 0 < d -> 0 <= z -> representable z -> round_nonneg (z * d) d = z.
Proof.
  intros Hd Hz (m & e & He & Hm & Hz').
  assert (H1 : round_nonneg (z * d) d = round_nonneg z 1).
  { rewrite <- (round_scale z 1 d) by lia. f_equal. lia. }
  rewrite H1, round_nonneg_eq, Z.mul_1_l. clear H1 Hd d.
  pose proof (binade_nonneg z 1) as Hk0. pose proof (binade_lower z 1 ltac:(lia)) as Hl.
  destruct (binade z 1) as [|p|p] eqn:Ek; [|  |lia].
  { rewrite Z.pow_0_r, Z.mul_1_r. rewrite <- (Z.mul_1_r z) at 1. by apply nearest_exact. }
  specialize (Hl ltac:(lia)). set (k := Z.pos p) in *.
  assert (Hk : (2 ^ k | z)).
  { destruct (Z.le_gt_cases k e) as [Hke|Hke].
    - exists (m * 2 ^ (e - k)). rewrite Hz', <- Z.mul_assoc, <- Z.pow_add_r by lia. do 2 f_equal. lia.
    - pose proof (pow2_pos e He). assert (Hu : z <= 2 ^ 53 * 2 ^ e) by nia.
      rewrite <- Z.pow_add_r in Hu by lia.
      assert (52 + k <= 53 + e) by (apply (Z.pow_le_mono_r_iff 2); lia).
      assert (He' : 53 + e = 52 + k) by lia. rewrite He' in Hu.
      exists (2 ^ 52). rewrite <- Z.pow_add_r by lia. lia. }
  destruct Hk as [q ->]. rewrite nearest_exact; [done|]. by apply pow2_pos.
Qed.

(** The double nearest to a fraction that is close enough to it. *)
Lemma nearest_unique n q d : 0 < d -> 2 * Z.abs (n - q * d) < d -> nearest n d = q.
Proof. intros Hd Hq. pose proof (nearest_spec n d Hd). nia. Qed.

(** The exponent of a double: its last digit counts [2 ^ k]. *)
Lemma representable_normal z :
  0 < z -> representable z ->
  exists q k, 0 <= k /\ z = q * 2 ^ k /\ q < 2 ^ 53 /\ (k = 0 \/ 2 ^ 52 <= q).
Proof.
  intros Hz Hr. pose proof (round_exact z 1 ltac:(lia) ltac:(lia) Hr) as He.
  rewrite Z.mul_1_r, round_nonneg_eq, Z.mul_1_l in He.
  pose proof (binade_nonneg z 1) as Hk. pose proof (pow2_pos _ Hk) as Hp.
  pose proof (binade_upper z 1 ltac:(lia) ltac:(lia)) as Hu.
  rewrite Z.pow_add_r in Hu by lia.
  exists (nearest z (2 ^ binade z 1)), (binade z 1). split_and!; [done|done|nia|].
  destruct (Z.eq_dec (binade z 1) 0); [by left|right].
  pose proof (binade_lower z 1 ltac:(lia) ltac:(lia)) as Hl.
  rewrite Z.pow_add_r in Hl by lia. nia.
Qed.

Lemma binade_between n d k :
  0 < d -> 0 <= k -> (k = 0 \/ 2 ^ (52 + k) * d <= n) -> 0 <= n -> n < 2 ^ (53 + k) * d ->
  binade n d = k.
Proof.
  intros Hd Hk Hl Hn Hu. apply Z.le_antisymm.
  - destruct (Z.le_gt_cases (binade n d) k) as [|Hb]; [done|exfalso].
    pose proof (binade_lower n d Hd ltac:(lia)) as Hb'.
    assert (2 ^ (53 + k) <= 2 ^ (52 + binade n d)) by (apply Z.pow_le_mono_r; lia). nia.
  - destruct (Z.le_gt_cases k (binade n d)) as [|Hb]; [done|exfalso].
    pose proof (binade_nonneg n d). destruct Hl as [|Hl]; [lia|].
    pose proof (binade_upper n d Hd Hn) as Hb'.
    assert (2 ^ (53 + binade n d) <= 2 ^ (52 + k)) by (apply Z.pow_le_mono_r; lia). nia.
Qed.

Lemma round_near z n d :
  0 < d -> 0 < z -> representable z -> 2 ^ 54 * Z.abs (n - z * d) < z * d ->
  round_nonneg n d = z.
Proof.
  intros Hd Hz Hr Hnear. destruct (representable_normal z Hz Hr) as (q & k & Hk & -> & Hq & Hl).
  pose proof (pow2_pos k Hk) as Hp.
  assert (Hn : 0 <= n) by nia.
  assert (Hhalf : 2 * Z.abs (n - q * (d * 2 ^ k)) < d * 2 ^ k) by nia.
  destruct (Z.le_gt_cases (2 ^ (52 + k) * d) n) as [Hge|Hlt].
  - assert (Hb : binade n d = k).
    { apply binade_between; [done|done|by right|done|].
      rewrite Z.pow_add_r by lia. change (2 ^ 53) with 9007199254740992 in *. nia. }
    rewrite round_nonneg_eq, Hb, (nearest_unique n q); [done|nia|done].
  - destruct (Z.eq_dec k 0) as [->|Hk0].
    { assert (Hb : binade n d = 0).
      { apply binade_between; [done|done|by left|done|].
        rewrite Z.pow_add_r in * by lia. nia. }
      rewrite round_nonneg_eq, Hb, (nearest_unique n q); [done|lia|lia]. }
    (* the power of two at the bottom of the binade, from below *)
    destruct Hl as [?|Hl]; [lia|].
    rewrite Z.pow_add_r in Hlt by lia.
    assert (q = 2 ^ 52) as ->.
    { change (2 ^ 52) with 4503599627370496 in *. change (2 ^ 54) with 18014398509481984 in *. nia. }
    assert (Hs : 2 ^ k = 2 * 2 ^ (k - 1)) by (rewrite <- Z.pow_succ_r by lia; f_equal; lia).
    pose proof (pow2_pos (k - 1) ltac:(lia)).
    assert (Hb : binade n d = k - 1).
    { apply binade_between; [done|lia|right|done|]; rewrite Z.pow_add_r by lia; nia. }
    rewrite round_nonneg_eq, Hb, (nearest_unique n (2 ^ 53)); [|nia|nia].
    change (2 ^ 53) with (2 ^ 52 * 2). lia.
Qed.

(** ** Arithmetic on numbers in range *)

(** The finite doubles. *)
Definition valid (x : number) : Prop :=
  match x with Finite z => representable z /\ Z.abs z < too_large | _ => False end.

Lemma round_finite n d z :
  0 < d -> 0 <= n -> round_nonneg n d = z -> z < too_large -> round n d = Finite z.
Proof.
  intros Hd Hn Hz Hlt. unfold round. rewrite (Z.abs_eq n), Hz by done.
  rewrite (proj2 (Z.leb_gt _ _)) by done.
  f_equal. destruct (Z.eq_dec n 0) as [->|]; [|by rewrite Z.sgn_pos, Z.mul_1_l by lia].
  rewrite <- Hz. symmetry. rewrite <- (Z.mul_0_l d). apply round_exact; [done|done|].
  by apply representable_small.
Qed.

Lemma integer_in_range m : Z.abs m <= 2 ^ 53 -> Z.abs (m * one) < too_large.
Proof.
  intros Hm. rewrite too_large_pow2, Z.abs_mul, (Z.abs_eq one) by (pose proof one_pos; lia).
  apply Z.mul_lt_mono_pos_r; [apply one_pos|]. eapply Z.le_lt_trans; [exact Hm|].
  by apply Z.pow_lt_mono_r.
Qed.

Lemma of_Z_exact m : 0 <= m <= 2 ^ 53 -> of_Z m = Finite (m * one).
Proof.
  intros Hm. pose proof one_pos. unfold of_Z. apply round_finite; [lia|nia| |].
  - rewrite <- (Z.mul_1_r (m * one)) at 1. apply round_exact; [lia|nia|].
    apply representable_integer. lia.
  - pose proof (integer_in_range m ltac:(lia)). lia.
Qed.

(** Arithmetic on integers of up to 53 bits is exact. *)
Lemma round_integer m d : 0 < d -> 0 <= m <= 2 ^ 53 -> round (m * one * d) d = of_Z m.
Proof.
  intros Hd Hm. pose proof one_pos. rewrite of_Z_exact by done. apply round_finite; [done|nia| |].
  - apply round_exact; [done|nia|]. apply representable_integer. lia.
  - pose proof (integer_in_range m ltac:(lia)). lia.
Qed.

Lemma add_of_Z a b c :
  a + b = c -> 0 <= a -> 0 <= b -> c <= 2 ^ 53 -> add (of_Z a) (of_Z b) = of_Z c.
Proof.
  intros <- Ha Hb Hc. rewrite !(of_Z_exact a), !(of_Z_exact b) by lia. cbn [add].
  rewrite <- (round_integer (a + b) 1) by lia. f_equal. lia.
Qed.

Lemma mul_of_Z a b c :
  a * b = c -> 0 <= a <= 2 ^ 53 -> 0 <= b <= 2 ^ 53 -> c <= 2 ^ 53 -> mul (of_Z a) (of_Z b) = of_Z c.
Proof.
  intros <- Ha Hb Hc. rewrite !(of_Z_exact a), !(of_Z_exact b) by lia. cbn [mul].
  rewrite <- (round_integer (a * b) one) by (apply one_pos || nia). f_equal. lia.
Qed.

Lemma div_of_Z a b c :
  a = c * b -> 0 < b <= 2 ^ 53 -> 0 <= c <= 2 ^ 53 -> a <= 2 ^ 53 -> div (of_Z a) (of_Z b) = of_Z c.
Proof.
  intros -> Hb Hc Ha. pose proof one_pos. rewrite !(of_Z_exact (c * b)), !(of_Z_exact b) by nia.
  cbn [div]. rewrite (proj2 (Z.eqb_neq _ _)) by nia. rewrite Z.sgn_pos, Z.abs_eq by nia.
  rewrite <- (round_integer c (b * one)) by nia. f_equal. lia.
Qed.

Lemma leb_of_Z a b : 0 <= a <= 2 ^ 53 -> 0 <= b <= 2 ^ 53 -> leb (of_Z a) (of_Z b) = (a <=? b).
Proof.
  intros Ha Hb. rewrite !of_Z_exact by done. cbn [leb ltb]. rewrite <- Z.leb_antisym.
  pose proof one_pos. destruct (Z.leb_spec (a * one) (b * one)), (Z.leb_spec a b); nia.
Qed.

(** The sign of a rounded number is that of the exact one. *)
Lemma round_positive n d : 0 < d -> d <= n -> 1 <= round_nonneg n d.
Proof.
  intros Hd Hn.
  rewrite <- (round_exact 1 d) by (lia || by apply representable_small).
  apply round_mono; lia.
Qed.

Lemma sub_sign a b : ltb (Finite 0) (sub (Finite a) (Finite b)) = (b <? a).
Proof.
  unfold sub, add, neg, round. destruct (Z.ltb_spec b a) as [H|H].
  - pose proof (round_positive (Z.abs (a + - b)) 1 ltac:(lia) ltac:(lia)) as Hp.
    destruct (Z.leb_spec too_large (round_nonneg (Z.abs (a + - b)) 1)); simpl.
    + by rewrite (proj2 (Z.ltb_ge _ _)) by lia.
    + rewrite Z.sgn_pos by lia. apply Z.ltb_lt. lia.
  - destruct (Z.leb_spec too_large (round_nonneg (Z.abs (a + - b)) 1)) as [Hb|]; simpl.
    + destruct (Z.eq_dec a b) as [->|]; [|by rewrite (proj2 (Z.ltb_lt _ _)) by lia].
      replace (Z.abs (b + - b)) with (0 * 1) in Hb by lia.
      rewrite round_exact in Hb by (lia || by apply representable_small).
      pose proof too_large_pos. lia.
    + apply Z.ltb_ge.
      pose proof (round_nonneg_nonneg (Z.abs (a + - b)) 1 ltac:(lia) ltac:(lia)). nia.
Qed.

Lemma sub_sign_of_Z a b : 0 <= a <= 2 ^ 53 -> 0 <= b <= 2 ^ 53 ->
  ltb (of_Z 0) (sub (of_Z a) (of_Z b)) = (b <? a).
Proof.
  intros Ha Hb. pose proof one_pos. rewrite !of_Z_exact by lia. change (0 * one) with 0.
  rewrite sub_sign. destruct (Z.ltb_spec (b * one) (a * one)), (Z.ltb_spec b a); nia.
Qed.

Lemma leb_total x y : leb x y = false -> x <> NaN -> y <> NaN -> leb y x = true.
Proof.
  destruct x as [|[]|a], y as [|[]|b]; simpl; try done.
  rewrite negb_false_iff, Z.ltb_lt, negb_true_iff, Z.ltb_ge. lia.
Qed.

Lemma leb_Finite a b : leb (Finite a) (Finite b) = (a <=? b).
Proof. simpl. by rewrite Z.leb_antisym. Qed.

(** ** Decimal texts *)

Lemma decimal_shift m e j : 0 <= j -> decimal (m * 10 ^ j) e = decimal m (e + j).
Proof.
  intros Hj. pose proof (Z.pow_pos_nonneg 10 j ltac:(lia) Hj) as Hp.
  assert (Hr : forall n d c, 0 < d -> 0 < c -> round (n * c) (d * c) = round n d).
  { intros n d c Hd Hc. unfold round. rewrite Z.abs_mul, (Z.abs_eq c), round_scale by lia.
    rewrite Z.sgn_mul, (Z.sgn_pos c), Z.mul_1_r by lia.
    replace (n * c <? 0) with (n <? 0); [done|].
    destruct (Z.ltb_spec n 0), (Z.ltb_spec (n * c) 0); nia. }
  unfold decimal. destruct (Z.leb_spec 0 e), (Z.leb_spec 0 (e + j)); [|lia| |].
  - f_equal. rewrite Z.pow_add_r by lia. lia.
  - rewrite <- (Hr (m * 10 ^ (e + j) * one) 1 (10 ^ (- e))) by (lia || by apply Z.pow_pos_nonneg; lia).
    f_equal; [|lia]. replace j with ((e + j) + - e) at 1 by lia.
    rewrite Z.pow_add_r by lia. lia.
  - rewrite <- (Hr (m * one) (10 ^ (- (e + j))) (10 ^ j)) by (lia || by apply Z.pow_pos_nonneg; lia).
    rewrite <- Z.pow_add_r by lia. f_equal; [lia|]. f_equal. lia.
Qed.

Lemma digits_value_app l l' :
  digits_value (l ++ l') = digits_value l * 10 ^ Z.of_nat (length l') + digits_value l'.
Proof.
  unfold digits_value. rewrite foldl_app. generalize (foldl (fun acc a => 10 * acc + digit_value a) 0 l).
  induction l' as [|a l' IH]; intros v; simpl foldl; [simpl; lia|].
  rewrite (IH (10 * v + _)), (IH (0 + _)). simpl length. rewrite Nat2Z.inj_succ, Z.pow_succ_r by lia.
  lia.
Qed.

Lemma digits_value_zeros n : digits_value (zeros n) = 0.
Proof. unfold digits_value, zeros. by induction (Z.to_nat n). Qed.

Lemma digits_value_cons0 l : digits_value ("0"%char :: l) = digits_value l.
Proof. done. Qed.

Lemma pretty_N_char_digit x :
  (x < 10)%N -> is_digit (pretty_N_char x) = true /\ digit_value (pretty_N_char x) = Z.of_N x.
Proof.
  intros Hx. assert (H : In x (map N.of_nat (seq 0 10))).
  { apply in_map_iff. exists (N.to_nat x). rewrite in_seq. lia. }
  simpl in H. repeat (destruct H as [<-|H]; [done|]). done.
Qed.

Lemma pretty_N_go_digits x s :
  exists l, chars (pretty_N_go x s) = l ++ chars s /\ Forall (fun a => is_digit a = true) l /\
    digits_value l = Z.of_N x.
Proof.
  revert s. induction (N.lt_wf_0 x) as [x _ IH]. intros s.
  destruct (decide (x = 0)%N) as [->|Hx].
  { rewrite pretty_N_go_0. by exists []. }
  rewrite pretty_N_go_step by lia.
  destruct (IH (x / 10)%N ltac:(apply N.div_lt; lia) (String (pretty_N_char (x mod 10)) s))
    as (l & -> & Hl & Hv).
  destruct (pretty_N_char_digit (x mod 10) ltac:(apply N.mod_lt; lia)) as [Hd Hdv].
  exists (l ++ [pretty_N_char (x mod 10)]). split_and!.
  - by rewrite <- app_assoc.
  - apply Forall_app. split; [done|]. by constructor.
  - rewrite digits_value_app, Hv. unfold digits_value at 1. cbn [foldl length].
    rewrite Hdv. change (10 ^ Z.of_nat 1) with 10.
    rewrite N2Z.inj_div, N2Z.inj_mod. pose proof (Z.div_mod (Z.of_N x) 10 ltac:(lia)). lia.
Qed.

Lemma digits_spec n : 0 <= n ->
  Forall (fun a => is_digit a = true) (digits n) /\ digits_value (digits n) = n /\ digits n <> [].
Proof.
  intros Hn. unfold digits, pretty, pretty_N. case_decide as Hz.
  { split_and!; [by repeat constructor| |done]. change (0 = n). lia. }
  destruct (pretty_N_go_digits (Z.to_N n) "") as (l & -> & Hl & Hv).
  change (chars "") with (@nil ascii). rewrite app_nil_r. split_and!; [done|lia|].
  intros ->. unfold digits_value in Hv. simpl in Hv. lia.
Qed.

Lemma span_digits_app l r :
  Forall (fun a => is_digit a = true) l ->
  match r with a :: _ => is_digit a = false | [] => True end ->
  span_digits (l ++ r) = (l, r).
Proof.
  intros Hl Hr. induction Hl as [|a l Ha _ IH]; simpl.
  - destruct r as [|a r]; [done|]. simpl. by rewrite Hr.
  - by rewrite Ha, IH.
Qed.

(** A numeral: digits, decimals and an exponent. *)
Lemma unsigned_numeral ip fp r (e : Z) :
  Forall (fun a => is_digit a = true) ip -> Forall (fun a => is_digit a = true) fp ->
  ip <> [] -> exponent r = Some e ->
  unsigned (ip ++ (match fp with [] => [] | _ => "."%char :: fp end) ++ r) =
    decimal (digits_value (ip ++ fp)) (e - Z.of_nat (length fp)).
Proof.
  intros Hip Hfp Hne Hr. unfold unsigned.
  assert (Hr' : match r with a :: _ => is_digit a = false /\ a <> "."%char | [] => True end).
  { destruct r as [|a r]; [done|]. simpl in Hr. destruct (Ascii.eqb_spec (lower_char a) "e") as [H|]; [|done].
    split; [|by intros ->]. clear Hr. destruct a as [[] [] [] [] [] [] [] []]; done. }
  assert (Hr'' : match r with a :: _ => is_digit a = false | [] => True end).
  { destruct r as [|a r]; [done|]. apply Hr'. }
  rewrite bool_decide_eq_false_2.
  2:{ destruct Hip as [|a ip Ha _]; [done|]. intros [= -> _]. done. }
  destruct fp as [|c fp].
  - simpl. rewrite span_digits_app by done.
    replace (match r with "."%char :: r0 => span_digits r0 | _ => ([], r) end) with (@nil ascii, r).
    2:{ destruct r as [|[[] [] [] [] [] [] [] []] r]; first [done|by destruct Hr']. }
    simpl. rewrite Hr, app_nil_r, bool_decide_eq_false_2 by done. done.
  - rewrite span_digits_app by done. cbn [app].
    change (c :: fp ++ r) with ((c :: fp) ++ r).
    rewrite span_digits_app by done.
    rewrite Hr, bool_decide_eq_false_2; [done|]. by destruct ip.
Qed.

(** The characters of a printed number. *)
Definition plain (a : ascii) : bool :=
  is_digit a || existsb (Ascii.eqb a) ["."%char; "e"%char; "+"%char; "-"%char].

Lemma digits_plain l : Forall (fun a => is_digit a = true) l -> Forall (fun a => plain a = true) l.
Proof. intros Hl. eapply Forall_impl; [exact Hl|]. intros a Ha. unfold plain. by rewrite Ha. Qed.

Lemma zeros_digits n : Forall (fun a => is_digit a = true) (zeros n).
Proof. by apply Forall_replicate. Qed.

Lemma plain_not_space a : plain a = true -> is_space a = false.
Proof. destruct a as [[] [] [] [] [] [] [] []]; done. Qed.

Lemma drop_spaces_plain l : Forall (fun a => plain a = true) l -> drop_spaces l = l.
Proof. destruct 1 as [|a l Ha _]; [done|]. simpl. by rewrite plain_not_space. Qed.

Lemma trim_plain l : Forall (fun a => plain a = true) l -> trim_chars l = l.
Proof.
  intros Hl. unfold trim_chars. rewrite (drop_spaces_plain l) by done.
  rewrite drop_spaces_plain; [apply rev_involutive|by apply Forall_rev].
Qed.

(** [Number] of a plain text is that of its numeral. *)
Lemma Number_plain a l :
  is_digit a = true -> Forall (fun a => plain a = true) l ->
  Number (text (a :: l)) = unsigned (a :: l).
Proof.
  intros Ha Hl. unfold Number. rewrite chars_text, trim_plain.
  2:{ constructor; [|done]. unfold plain. by rewrite Ha. }
  assert (Hs : signed (a :: l) = unsigned (a :: l)).
  { destruct a as [[] [] [] [] [] [] [] []]; done. }
  destruct Hl as [|b l Hb _].
  - destruct a as [[] [] [] [] [] [] [] []]; done.
  - assert (Hx : Ascii.eqb (lower_char b) "x" = false /\ Ascii.eqb (lower_char b) "o" = false /\
      Ascii.eqb (lower_char b) "b" = false).
    { clear Hs. destruct b as [[] [] [] [] [] [] [] []]; done. }
    destruct Hx as (-> & -> & ->).
    destruct a as [[] [] [] [] [] [] [] []]; done.
Qed.

Lemma exponent_text m :
  exponent ("e"%char :: (if m <? 0 then "-"%char else "+"%char) :: digits (Z.abs m)) = Some m.
Proof.
  destruct (digits_spec (Z.abs m) ltac:(lia)) as (Hd & Hv & Hne).
  pose proof (span_digits_app _ [] Hd I) as Hs. rewrite app_nil_r in Hs.
  unfold exponent. change (Ascii.eqb (lower_char "e") "e") with true. cbn [negb].
  destruct (Z.ltb_spec m 0); rewrite Hs, !bool_decide_eq_true_2, Hv by done; simpl; f_equal; lia.
Qed.

(** A text that starts with a digit and has nothing to trim. *)
Definition numeral_text (l : list ascii) : Prop :=
  exists a l', l = a :: l' /\ is_digit a = true /\ Forall (fun a => plain a = true) l'.

Lemma Number_numeral l : numeral_text l -> Number (text l) = unsigned l.
Proof. intros (a & l' & -> & Ha & Hl). by apply Number_plain. Qed.

(** The four ways to lay out digits. *)
Section layouts.
Context (d : ascii) (ds : list ascii).
Context (Hd1 : is_digit d = true) (Hd2 : Forall (fun a => is_digit a = true) ds).

Let Hd : Forall (fun a => is_digit a = true) (d :: ds).
Proof. by constructor. Qed.

Lemma padded_numeral j : 0 <= j ->
  unsigned ((d :: ds) ++ zeros j) = decimal (digits_value (d :: ds)) j /\
  numeral_text ((d :: ds) ++ zeros j).
Proof.
  intros Hj. assert (Hz : Forall (fun a => is_digit a = true) ((d :: ds) ++ zeros j)).
  { apply Forall_app. split; [done|apply zeros_digits]. }
  split.
  - pose proof (unsigned_numeral _ [] [] 0 Hz ltac:(done) ltac:(done) eq_refl) as Hu.
    rewrite !app_nil_r in Hu. rewrite Hu, digits_value_app, digits_value_zeros, Z.add_0_r.
    unfold zeros. rewrite length_replicate, decimal_shift by lia. f_equal. simpl. lia.
  - exists d, (ds ++ zeros j). split_and!; [done..|]. apply digits_plain. by inversion Hz.
Qed.

Lemma pointed_numeral i : (i < length ds)%nat ->
  unsigned (take (S i) (d :: ds) ++ "."%char :: drop (S i) (d :: ds)) =
    decimal (digits_value (d :: ds)) (Z.of_nat i - Z.of_nat (length ds)) /\
  numeral_text (take (S i) (d :: ds) ++ "."%char :: drop (S i) (d :: ds)).
Proof.
  intros Hi. cbn [take drop app]. pose proof (length_drop ds i) as Hl. split.
  - pose proof (unsigned_numeral (d :: take i ds) (drop i ds) [] 0 ltac:(by constructor; [|apply Forall_take])
      ltac:(by apply Forall_drop) ltac:(done) eq_refl) as Hu.
    change ((d :: take i ds) ++ drop i ds) with (d :: (take i ds ++ drop i ds)) in Hu.
    rewrite take_drop in Hu. destruct (drop i ds) as [|c fp]; [simpl in Hl; lia|].
    rewrite app_nil_r in Hu. etransitivity; [exact Hu|]. f_equal. lia.
  - eexists _, _. split_and!; [reflexivity|done|]. apply Forall_app.
    split; [by apply digits_plain, Forall_take|]. constructor; [done|by apply digits_plain, Forall_drop].
Qed.

Lemma fraction_numeral j : 0 <= j ->
  unsigned ("0"%char :: "."%char :: zeros j ++ d :: ds) =
    decimal (digits_value (d :: ds)) (- (j + 1 + Z.of_nat (length ds))) /\
  numeral_text ("0"%char :: "."%char :: zeros j ++ d :: ds).
Proof.
  intros Hj. assert (Hz : Forall (fun a => is_digit a = true) (zeros j ++ d :: ds)).
  { apply Forall_app. split; [apply zeros_digits|done]. }
  split.
  - pose proof (unsigned_numeral ["0"%char] _ [] 0 ltac:(by repeat constructor) Hz ltac:(done) eq_refl) as Hu.
    destruct (zeros j ++ d :: ds) as [|c fp] eqn:Ez; [by destruct (zeros j)|].
    rewrite app_nil_r in Hu. etransitivity; [exact Hu|].
    cbn [app]. rewrite digits_value_cons0, <- Ez, digits_value_app, digits_value_zeros, length_app.
    unfold zeros. rewrite length_replicate. f_equal. simpl. lia.
  - eexists _, _. split_and!; [reflexivity|done|]. constructor; [done|]. by apply digits_plain.
Qed.

Lemma scientific_numeral m :
  let t := take 1 (d :: ds) ++
    (if Z.of_nat (length (d :: ds)) =? 1 then [] else "."%char :: drop 1 (d :: ds)) ++
    "e"%char :: (if m <? 0 then "-"%char else "+"%char) :: digits (Z.abs m) in
  unsigned t = decimal (digits_value (d :: ds)) (m - Z.of_nat (length ds)) /\ numeral_text t.
Proof.
  cbn [take drop app]. rewrite firstn_O, drop_0. cbn [app]. split.
  - pose proof (unsigned_numeral [d] ds _ m ltac:(by repeat constructor) Hd2 ltac:(done)
      (exponent_text m)) as Hu.
    etransitivity; [|exact Hu]. f_equal. cbn [app]. f_equal. f_equal.
    destruct ds; [done|]. destruct (Z.eqb_spec (Z.of_nat (length (d :: a :: l))) 1) as [H|]; [simpl in H; lia|done].
  - eexists _, _. split_and!; [reflexivity|done|]. apply Forall_app. split.
    + destruct (_ =? 1); [constructor|]. constructor; [done|by apply digits_plain].
    + constructor; [done|]. constructor; [by destruct (m <? 0)|].
      apply digits_plain, digits_spec. lia.
Qed.

End layouts.

(** A number laid out in text reads back. *)
Lemma layout_numeral s x : 0 <= s ->
  unsigned (layout s x) = decimal s x /\ numeral_text (layout s x).
Proof.
  intros Hs. destruct (digits_spec s Hs) as (Hd & Hv & Hne). unfold layout.
  destruct (digits s) as [|d ds]; [done|]. clear Hne. rewrite <- Hv. inversion_clear Hd.
  set (k := Z.of_nat (length (d :: ds))). assert (Hk : k = 1 + Z.of_nat (length ds)) by (unfold k; simpl; lia).
  destruct (Z.leb_spec k (k + x)), (Z.leb_spec (k + x) 21); simpl andb.
  1:{ destruct (padded_numeral d ds H H0 (k + x - k)) as [-> Ht]; [lia|].
      split; [f_equal; lia|done]. }
  all: destruct (Z.ltb_spec 0 (k + x)); simpl andb.
  all: try (replace (Z.to_nat (k + x)) with (S (Z.to_nat (k + x - 1))) by lia;
    destruct (pointed_numeral d ds H H0 (Z.to_nat (k + x - 1))) as [-> Ht]; [lia|];
    split; [f_equal; lia|done]).
  all: destruct (Z.ltb_spec (-6) (k + x)), (Z.leb_spec (k + x) 0); simpl andb; try lia.
  all: try (destruct (fraction_numeral d ds H H0 (- (k + x))) as [-> Ht]; [lia|];
    split; [f_equal; lia|done]).
  all: destruct (scientific_numeral d ds H H0 (k + x - 1)) as [Hu Ht]; split; [|exact Ht].
  all: etransitivity; [exact Hu|]; f_equal; lia.
Qed.

(** ** Printing and reading back *)

Lemma pow10_pos k : 0 <= k -> 0 < 10 ^ k.
Proof. by apply Z.pow_pos_nonneg. Qed.

(** [magnitude z] is between the digits of [z]: [10^(e-1) <= z < 10^e], in units of 2^-1074. *)
Definition of_magnitude (z e : Z) : Prop :=
  (0 <= e -> z < 10 ^ e * one) /\ (1 <= e -> 10 ^ (e - 1) * one <= z) /\
  (e <= 0 -> one <= z * 10 ^ (1 - e)) /\ (e <= 0 -> z * 10 ^ (- e) < one).

Lemma up_magnitude fuel z e :
  0 <= e -> (1 <= e -> 10 ^ (e - 1) * one <= z) -> one <= z ->
  z < 10 ^ (e + Z.of_nat fuel) * one -> of_magnitude z (up fuel z (10 ^ e * one) e).
Proof.
  pose proof one_pos. revert e. induction fuel as [|fuel IH]; intros e He Hl Hone Hu.
  - simpl. rewrite Z.add_0_r in Hu. split_and!; [done|done| |]; intros; replace e with 0 in * by lia; lia.
  - cbn [up]. destruct (Z.ltb_spec z (10 ^ e * one)).
    + split_and!; [done|done| |]; intros; replace e with 0 in * by lia; lia.
    + replace (10 ^ e * one * 10) with (10 ^ (e + 1) * one) by (rewrite Z.pow_add_r by lia; lia).
      apply IH; [lia| |done|].
      * intros _. by replace (e + 1 - 1) with e by lia.
      * by replace (e + 1 + Z.of_nat fuel) with (e + Z.of_nat (S fuel)) by lia.
Qed.

Lemma down_magnitude fuel z e :
  e <= 0 -> z * 10 ^ (- e) < one -> one <= z * 10 ^ (- e + Z.of_nat fuel) -> 0 < z ->
  of_magnitude z (down fuel (z * 10 ^ (- e)) e).
Proof.
  pose proof one_pos. revert e. induction fuel as [|fuel IH]; intros e He Hu Hl Hz.
  - simpl in Hl. rewrite Z.add_0_r in Hl. lia.
  - cbn [down]. assert (Hs : z * 10 ^ (- e) * 10 = z * 10 ^ (- (e - 1))).
    { replace (- (e - 1)) with (- e + 1) by lia. rewrite Z.pow_add_r by lia. lia. }
    rewrite Hs. destruct (Z.ltb_spec (z * 10 ^ (- (e - 1))) one).
    + apply IH; [lia|done| |done].
      by replace (- (e - 1) + Z.of_nat fuel) with (- e + Z.of_nat (S fuel)) by lia.
    + split_and!; [|lia| |done].
      * intros. replace e with 0 in * by lia. lia.
      * intros _. by replace (1 - e) with (- (e - 1)) by lia.
Qed.

Lemma magnitude_spec z : 0 < z -> z < too_large -> of_magnitude z (magnitude z).
Proof.
  intros Hz Hb. pose proof one_pos. unfold magnitude. destruct (Z.ltb_spec z one).
  - rewrite <- (Z.mul_1_r z) at 2. apply (down_magnitude 330 z 0); [done|lia| |done].
    assert (one <= 10 ^ 330); [|change (- 0 + Z.of_nat 330) with 330; nia].
    rewrite one_pow2. by vm_compute.
  - rewrite <- (Z.mul_1_l one). apply (up_magnitude 330 z 0); [done|lia|done|].
    eapply Z.lt_le_trans; [exact Hb|]. rewrite too_large_pow2.
    apply Z.mul_le_mono_nonneg_r; [lia|]. by vm_compute.
Qed.

(** Seventeen digits are enough. *)
Lemma significand_17 z e :
  0 < z -> z < too_large -> representable z -> of_magnitude z e ->
  decimal (significand z e 17) (e - 17) = Finite z.
Proof.
  intros Hz Hb Hr (_ & Hl1 & Hl2 & _). pose proof one_pos as Ho. unfold significand, decimal.
  change (2 ^ 54) with 18014398509481984 in *.
  destruct (Z.leb_spec e 17) as [He|He].
  - set (j := 17 - e). pose proof (pow10_pos j ltac:(lia)) as Hj.
    set (s := nearest (z * 10 ^ j) one).
    pose proof (nearest_spec (z * 10 ^ j) one Ho) as Hs. fold s in Hs.
    assert (Hlow : 10 ^ 16 * one <= z * 10 ^ j).
    { destruct (Z.le_gt_cases 1 e) as [He1|He1].
      - specialize (Hl1 He1). replace 16 with ((e - 1) + j) by lia.
        rewrite Z.pow_add_r by lia. nia.
      - specialize (Hl2 ltac:(lia)). replace j with (16 + (1 - e)) by lia.
        rewrite Z.pow_add_r by lia. pose proof (pow10_pos 16). nia. }
    change (10 ^ 16) with 10000000000000000 in Hlow.
    assert (Hround : round (s * one) (10 ^ j) = Finite z).
    { apply round_finite; [done|nia| |done]. apply round_near; [done..|]. lia. }
    destruct (Z.leb_spec 0 (e - 17)).
    + assert (e = 17) as -> by lia. change (10 ^ (17 - 17)) with 1. rewrite Z.mul_1_r. exact Hround.
    + replace (- (e - 17)) with j by lia. exact Hround.
  - rewrite (proj2 (Z.leb_le _ _)) by lia. set (j := e - 17).
    pose proof (pow10_pos j ltac:(lia)) as Hj. set (s := nearest z (10 ^ j * one)).
    pose proof (nearest_spec z (10 ^ j * one) ltac:(nia)) as Hs. fold s in Hs.
    specialize (Hl1 ltac:(lia)). replace (e - 1) with (16 + j) in Hl1 by lia.
    rewrite Z.pow_add_r in Hl1 by lia. change (10 ^ 16) with 10000000000000000 in Hl1.
    apply round_finite; [done|nia| |done]. apply round_near; [done..|]. nia.
Qed.

Lemma shortest_reads_back more z e k :
  0 < z -> z < too_large -> representable z -> of_magnitude z e -> k + Z.of_nat more = 17 ->
  let '(s, x) := shortest more z e k in decimal s x = Finite z.
Proof.
  intros Hz Hb Hr He. revert k. induction more as [|more IH]; intros k Hk; simpl.
  - assert (k = 17) as -> by lia. by apply significand_17.
  - case_bool_decide; [done|]. apply IH. lia.
Qed.

Lemma significand_nonneg z e k : 0 < z -> 0 <= significand z e k.
Proof.
  intros Hz. pose proof one_pos. unfold significand. destruct (Z.leb_spec e k).
  - rewrite <- (nearest_0 one) by done. apply nearest_mono; [done|].
    pose proof (pow10_pos (k - e)). nia.
  - assert (0 < 10 ^ (e - k) * one) by (pose proof (pow10_pos (e - k)); nia).
    rewrite <- (nearest_0 (10 ^ (e - k) * one)) by done. apply nearest_mono; lia.
Qed.

Lemma shortest_nonneg more z e k : 0 < z -> 0 <= fst (shortest more z e k).
Proof.
  intros Hz. revert k. induction more as [|more IH]; intros k; simpl; [by apply significand_nonneg|].
  case_bool_decide; [by apply significand_nonneg|apply IH].
Qed.

Lemma positive_text_numeral z :
  0 < z -> z < too_large -> representable z ->
  unsigned (positive_text z) = Finite z /\ numeral_text (positive_text z).
Proof.
  intros Hz Hb Hr. unfold positive_text.
  pose proof (shortest_reads_back 16 z _ 1 Hz Hb Hr (magnitude_spec z Hz Hb) eq_refl) as Hs.
  pose proof (shortest_nonneg 16 z (magnitude z) 1 Hz) as Hn.
  destruct (shortest 16 z (magnitude z) 1) as [s x]. simpl in Hn. unfold normal_digits.
  destruct (digits_spec s Hn) as (_ & _ & Hne).
  assert (0 <= Z.of_nat (length (digits s)) - 1) by (destruct (digits s); [done|simpl; lia]).
  destruct (Z.eqb_spec s (10 ^ (Z.of_nat (length (digits s)) - 1))) as [E|_].
  - destruct (layout_numeral 1 (x + (Z.of_nat (length (digits s)) - 1)) ltac:(lia)) as [-> Ht].
    split; [|done]. rewrite <- decimal_shift, Z.mul_1_l, <- E by done. exact Hs.
  - destruct (layout_numeral s x Hn) as [-> Ht]. done.
Qed.

(** A finite number that is not negative reads back from its text. *)
Lemma Number_toString z :
  0 <= z -> z < too_large -> representable z -> Number (toString (Finite z)) = Finite z.
Proof.
  intros Hz Hb Hr. simpl. destruct (Z.eqb_spec z 0) as [->|Hne].
  { change "0"%string with (text (["0"%char] ++ zeros 0)).
    destruct (padded_numeral "0" [] eq_refl ltac:(constructor) 0 ltac:(done)) as [Hu Ht].
    rewrite Number_numeral, Hu by done. by vm_compute. }
  rewrite (proj2 (Z.ltb_ge _ _)) by done.
  destruct (positive_text_numeral z ltac:(lia) Hb Hr) as [Hu Ht].
  by rewrite Number_numeral.
Qed.

(** What the text of such a number looks like. *)
Lemma toString_numeral z :
  0 <= z -> z < too_large -> representable z -> numeral_text (chars (toString (Finite z))).
Proof.
  intros Hz Hb Hr. simpl. destruct (Z.eqb_spec z 0) as [->|Hne].
  { by exists "0"%char, []. }
  rewrite (proj2 (Z.ltb_ge _ _)), chars_text by done.
  by apply positive_text_numeral; [lia|..].
Qed.

(** ** The numbers that come out of the operations are doubles *)

Lemma round_valid n d : 0 < d -> isFinite (round n d) = true -> valid (round n d).
Proof.
  intros Hd. unfold round. destruct (Z.leb_spec too_large (round_nonneg (Z.abs n) d)); [done|].
  intros _. pose proof (round_nonneg_nonneg (Z.abs n) d Hd ltac:(lia)).
  destruct (round_representable (Z.abs n) d Hd ltac:(lia)) as (m & e & He & Hm & Hz).
  simpl. rewrite Hz in *. split; [|rewrite Z.abs_mul; lia].
  exists (Z.sgn n * m), e. split_and!; [done| |lia].
  rewrite Z.abs_mul. pose proof (Z.sgn_spec n). nia.
Qed.

Lemma decimal_valid m e : isFinite (decimal m e) = true -> valid (decimal m e).
Proof.
  unfold decimal. destruct (Z.leb_spec 0 e); apply round_valid; [done|]. apply pow10_pos. lia.
Qed.

Lemma of_Z_valid n : isFinite (of_Z n) = true -> valid (of_Z n).
Proof. by apply round_valid. Qed.

Lemma neg_valid x : valid x -> valid (neg x).
Proof.
  destruct x as [| |z]; [done..|]. intros [(m & e & He & Hm & ->) Hb]. simpl.
  split; [|by rewrite Z.abs_opp]. exists (- m), e. rewrite Z.abs_opp. split_and!; [done..|lia].
Qed.

Lemma based_valid base l : isFinite (based base l) = true -> valid (based base l).
Proof. unfold based. destruct (_ && _); [|done]. apply of_Z_valid. Qed.

Lemma unsigned_valid l : isFinite (unsigned l) = true -> valid (unsigned l).
Proof.
  unfold unsigned. case_bool_decide; [done|]. destruct (span_digits l) as [ip r].
  destruct (match r with "."%char :: r => span_digits r | _ => ([], r) end) as [fp r'].
  destruct (exponent r'); [|done]. case_bool_decide; [done|]. apply decimal_valid.
Qed.

Lemma signed_valid l : isFinite (signed l) = true -> valid (signed l).
Proof.
  assert (Hn : forall l, isFinite (neg (unsigned l)) = true -> valid (neg (unsigned l))).
  { intros k Hk. apply neg_valid, unsigned_valid. by destruct (unsigned k). }
  destruct l as [|[[] [] [] [] [] [] [] []] l]; cbn [signed]; auto using unsigned_valid.
Qed.

(** What [Number] reads is a double. *)
Lemma Number_valid s : isFinite (Number s) = true -> valid (Number s).
Proof.
  assert (H0 : valid (Finite 0)).
  { split; [by apply representable_small|]. pose proof too_large_pos. simpl. lia. }
  unfold Number. destruct (trim_chars (chars s)) as [|a l]; [done|].
  assert (Hs : forall k, isFinite (signed k) = true -> valid (signed k)) by apply signed_valid.
  destruct a as [[] [] [] [] [] [] [] []]; try apply Hs.
  destruct l as [|b l]; [apply Hs|].
  repeat (destruct (Ascii.eqb _ _); [apply based_valid|]). apply Hs.
Qed.

(** [Math.floor] of a double that is not negative. *)
Lemma floor_valid z :
  0 <= z -> valid (Finite z) -> valid (Finite (z / one * one)) /\ 0 <= z / one.
Proof.
  pose proof one_pos. intros Hz [(m & e & He & Hm & ->) Hb].
  assert (0 <= m * 2 ^ e / one) by (apply Z.div_pos; lia). split; [|done].
  pose proof (Z.mul_div_le (m * 2 ^ e) one ltac:(done)). split; [|simpl in *; lia].
  pose proof (pow2_pos e He). assert (0 <= m) by nia.
  destruct (Z.le_gt_cases 1074 e).
  - exists m, e. split_and!; [done..|]. rewrite one_pow2. replace e with ((e - 1074) + 1074) by lia.
    rewrite Z.pow_add_r, Z.mul_assoc, Z.div_mul by (lia || done). lia.
  - exists (m / 2 ^ (1074 - e)), 1074. rewrite one_pow2.
    assert (2 ^ 1074 = 2 ^ (1074 - e) * 2 ^ e) as -> by (rewrite <- Z.pow_add_r by lia; f_equal; lia).
    rewrite Z.div_mul_cancel_r by (try (pose proof (pow2_pos (1074 - e))); lia).
    split_and!; [done| |done]. pose proof (pow2_pos (1074 - e) ltac:(lia)).
    assert (0 <= m / 2 ^ (1074 - e) <= m); [|lia].
    split; [apply Z.div_pos; lia|]. apply Z.div_le_upper_bound; nia.
Qed.

Lemma floor_integer c : floor (Finite (c * one)) = Finite (c * one).
Proof. simpl. pose proof one_pos. by rewrite Z.div_mul by lia. Qed.

(** ** Order *)

Lemma leb_trans x y z : leb x y = true -> leb y z = true -> leb x z = true.
Proof.
  destruct x as [|[]|a], y as [|[]|b], z as [|[]|c]; simpl; try done.
  rewrite !negb_true_iff, !Z.ltb_ge. lia.
Qed.

(** Rounding keeps the order of exact results, whatever their signs. *)
Lemma round_leb a b : a <= b -> leb (round a 1) (round b 1) = true.
Proof.
  intros Hab. unfold round.
  pose proof (round_nonneg_nonneg (Z.abs a) 1 ltac:(lia) ltac:(lia)) as Ha.
  pose proof (round_nonneg_nonneg (Z.abs b) 1 ltac:(lia) ltac:(lia)) as Hb.
  pose proof (fun H => round_mono (Z.abs a) (Z.abs b) 1 ltac:(lia) ltac:(lia) H) as Hm1.
  pose proof (fun H => round_mono (Z.abs b) (Z.abs a) 1 ltac:(lia) ltac:(lia) H) as Hm2.
  set (ra := round_nonneg (Z.abs a) 1) in *. set (rb := round_nonneg (Z.abs b) 1) in *.
  assert (Hb0 : b = 0 -> rb = 0).
  { intros ->. unfold rb. rewrite <- (Z.mul_1_r (Z.abs 0)).
    by rewrite round_exact by (lia || by apply representable_small). }
  pose proof too_large_pos.
  destruct (Z.leb_spec too_large ra), (Z.leb_spec too_large rb), (Z.ltb_spec a 0), (Z.ltb_spec b 0);
    simpl; try done; try lia; rewrite ?negb_true_iff, ?Z.ltb_ge; nia.
Qed.

Lemma add_leb s x y : leb x y = true -> leb (add (Finite s) x) (add (Finite s) y) = true.
Proof.
  assert (H1 : forall n, leb (round n 1) (Infinity false) = true).
  { intros n. unfold round. by destruct (too_large <=? _), (n <? 0). }
  assert (H2 : forall n, leb (Infinity true) (round n 1) = true).
  { intros n. unfold round. by destruct (too_large <=? _), (n <? 0). }
  destruct x as [|[]|a], y as [|[]|b]; simpl; try done; intros H; try apply H1; try apply H2.
  apply round_leb. rewrite negb_true_iff, Z.ltb_ge in H. lia.
Qed.
