(* ===== verification/ScalingLab.v ===== *)
(** * The scaling lab

    scripts/scaling-lab.ts: a load generator with an open-loop offered rate and a bound on the
    requests in flight. Its command line, one request, a phase of requests as a state machine
    (the loop, its timers, the requests in flight and what they settle to), the report with
    its percentiles and thresholds, and the exit code.

    Times and rates are doubles (JsNumbers.v). [performance.now()], the timers and the
    requests are the environment of a phase: what they give is the sequence of its events. The
    WHATWG URL parser and [localeCompare] are the platform's. *)
From Stdlib Require Import Ascii.
From S2P Require Import Prelude JsStrings Errors JsNumbers.

#[local] Infix "+:+" := String.append (at level 60, right associativity).

(** [new URL(text)]: its protocol, or nothing when it throws. *)
Class UrlParser := { URL_protocol : string -> option string }.
Class Collation := { localeCompare : string -> string -> Z }.

Record LabConfig := mkLabConfig {
  url : string;
  ratePerSecond : number;
  durationSeconds : number;
  warmupSeconds : number;
  concurrency : number;
  timeoutMs : number;
  json : bool;
  sloP99Ms : option number;
  maxErrorRate : option number;
}.

Inductive failure := network | timeout.
#[export] Instance failure_eq_dec : EqDecision failure.
Proof. solve_decision. Defined.

Record RequestSample := mkRequestSample {
  durationMs : number;
  status : option Z;
  error : option failure;
}.

Record PhaseResult := mkPhaseResult {
  samples : list RequestSample;
  scheduled : Z;
  clientBackpressureDrops : Z;
  elapsedMs : number;
}.

(** ** The command line *)

(** A value of [Map<string, string | boolean>]. *)
Inductive value := Text (s : string) | Flag.

Definition allowed : list string :=
  ["url"; "rate"; "duration"; "warmup"; "concurrency"; "timeout"; "slo-p99"; "max-error-rate";
   "json"; "help"]%string.

Definition needs_value {A : Type} (key : string) : result A :=
  Err (JsError ("--" +:+ key +:+ " needs a value")).

Definition is_flag (key : string) : bool := String.eqb key "json" || String.eqb key "help".

(** [const value = ...; if (!value || value.startsWith('--')) throw ...]. *)
Definition usable (v : string) : bool := negb (String.eqb v "") && negb (js_startsWith "--" v).

(** [argument.slice(2).split('=', 2)]: a key, and what is between the first two [=]. *)
Definition split_argument (argument : string) : string * option string :=
  match take 2 (js_split "=" (js_slice_from 2 argument)) with
  | key :: v :: _ => (key, Some v)
  | [key] => (key, None)
  | [] => (EmptyString, None)
  end.

Fixpoint collect (argv : list string) (values : gmap string value) : result (gmap string value) :=
  match argv with
  | [] => Ok values
  | argument :: rest =>
      if negb (js_startsWith "--" argument) then Err (JsError ("Unexpected argument: " +:+ argument))
      else
        let '(rawKey, inlineValue) := split_argument argument in
        if String.eqb rawKey "" || negb (bool_decide (rawKey ∈ allowed))
        then Err (JsError ("Unknown option: --" +:+ rawKey))
        else if is_flag rawKey then
          match inlineValue with
          | Some _ => Err (JsError ("--" +:+ rawKey +:+ " does not take a value"))
          | None => collect rest (<[rawKey := Flag]> values)
          end
        else
          match inlineValue, rest with
          | Some v, _ =>
              if usable v then collect rest (<[rawKey := Text v]> values) else needs_value rawKey
          | None, v :: rest =>
              if usable v then collect rest (<[rawKey := Text v]> values) else needs_value rawKey
          | None, [] => needs_value rawKey
          end
  end.

Definition collectArguments (argv : list string) : result (gmap string value) := collect argv ∅.

(** [{ min, max? }]; a [max] of 0 would count as none. *)
Definition truthy_number (x : option number) : option number :=
  match x with Some (Finite 0) | Some NaN => None | _ => x end.

Definition range_text (minimum : number) (maximum : option number) : string :=
  match truthy_number maximum with
  | Some m => toString minimum +:+ ".." +:+ toString m
  | None => "at least " +:+ toString minimum
  end.

Definition in_range (minimum : number) (maximum : option number) (x : number) : bool :=
  isFinite x && negb (ltb x minimum) &&
  match truthy_number maximum with Some m => negb (ltb m x) | None => true end.

Definition readNumber (values : gmap string value) (key : string) (fallback minimum : number)
    (maximum : option number) : result number :=
  match values !! key with
  | None => Ok fallback
  | Some Flag => needs_value key
  | Some (Text raw) =>
      if String.eqb (js_trim raw) "" then needs_value key
      else
        let parsed := Number raw in
        if in_range minimum maximum parsed then Ok parsed
        else Err (JsError ("--" +:+ key +:+ " must be " +:+ range_text minimum maximum))
  end.

Definition tenth : number := decimal 1 (-1).

Inductive parsed := Help | Config (config : LabConfig).

Section arguments.
Context `{UrlParser}.

Definition default_url : string := "http://localhost:3000/v1/health/live".

Definition http_url (u : string) : bool :=
  match URL_protocol u with
  | Some protocol => bool_decide (protocol ∈ ["http:"; "https:"]%string)
  | None => false
  end.

(** A threshold that is only read when it was given. *)
Definition read_optional (values : gmap string value) (key : string) (maximum : option number) :
    result (option number) :=
  match values !! key with
  | None => Ok None
  | Some _ => x ← readNumber values key (of_Z 0) (of_Z 0) maximum; Ok (Some x)
  end.

Definition parseArgs (argv : list string) (SCALEFORGE_LAB_URL : option string) : result parsed :=
  values ← collectArguments argv;
  match values !! "help"%string with
  | Some _ => Ok Help
  | None =>
      let url := match values !! "url"%string with
                 | Some (Text u) => u
                 | Some Flag => default_url
                 | None => default default_url SCALEFORGE_LAB_URL
                 end in
      if negb (http_url url) then Err (JsError "--url must be a valid HTTP(S) URL")
      else
        sloP99 ← read_optional values "slo-p99" None;
        maxErrorRate ← read_optional values "max-error-rate" (Some (of_Z 1));
        rate ← readNumber values "rate" (of_Z 5) tenth None;
        duration ← readNumber values "duration" (of_Z 10) tenth None;
        warmup ← readNumber values "warmup" (of_Z 2) (of_Z 0) None;
        concurrency ← readNumber values "concurrency" (of_Z 10) (of_Z 1) None;
        timeout ← readNumber values "timeout" (of_Z 2000) (of_Z 1) None;
        Ok (Config {| url := url; ratePerSecond := rate; durationSeconds := duration;
                      warmupSeconds := warmup; concurrency := floor concurrency;
                      timeoutMs := timeout;
                      json := bool_decide (is_Some (values !! "json"%string));
                      sloP99Ms := sloP99; maxErrorRate := maxErrorRate |})
  end.

End arguments.

(** ** One request *)

(** What [fetch] and reading the body come to. *)
Inductive fetched := Response (status : Z) | AbortError | OtherError.

Definition request_headers (token : option string) (uuid : string) : list (string * string) :=
  [("accept", "application/json"); ("x-correlation-id", "scaling-lab-" +:+ uuid)]%string ++
  match truthy token with
  | Some t => [("authorization", "Bearer " +:+ t)]%string
  | None => []
  end.

Definition executeRequest (config : LabConfig) (SCALEFORGE_LAB_TOKEN : option string) (uuid : string)
    (fetch : string -> list (string * string) -> fetched) (started finished : number) : RequestSample :=
  let elapsed := sub finished started in
  match fetch (url config) (request_headers SCALEFORGE_LAB_TOKEN uuid) with
  | Response s => mkRequestSample elapsed (Some s) None
  | AbortError => mkRequestSample elapsed None (Some timeout)
  | OtherError => mkRequestSample elapsed None (Some network)
  end.

(** ** A phase

    The event loop gives the code the readings of the clock it asks for, and, where it waits,
    timers that fire and requests that settle. Tasks are numbered in the order they start. *)

Inductive event :=
| Clock (now : number)
| TimerFires
| Settles (task : nat) (sample : RequestSample)
| Rejects (task : nat) (e : exn).

Inductive control :=
| Starting
| LoopTop
| Waiting
| CheckingDeadline
| Draining
| Returned (r : PhaseResult)
| Failed (e : exn).

Record phase := mkPhase {
  ph_control : control;
  ph_started : number;
  ph_scheduled : Z;
  ph_drops : Z;
  ph_samples : list RequestSample;
  ph_active : gset nat;
  ph_tasks : nat;
}.

Definition phase_init : phase := mkPhase Starting (Finite 0) 0 0 [] ∅ 0.

Definition go (c : control) (ph : phase) : phase :=
  mkPhase c (ph_started ph) (ph_scheduled ph) (ph_drops ph) (ph_samples ph) (ph_active ph)
    (ph_tasks ph).

(** A request has settled: [samples.push(sample)], and [finally], [active.delete(task)]. *)
Definition settle (i : nat) (sample : RequestSample) (ph : phase) : phase :=
  mkPhase (ph_control ph) (ph_started ph) (ph_scheduled ph) (ph_drops ph)
    (ph_samples ph ++ [sample]) (ph_active ph ∖ {[i]}) (ph_tasks ph).

Section phase.
Variables (duration rate limit : number).

Definition deadline (started : number) : number := add started (mul duration (of_Z 1000)).
Definition intervalMs : number := div (of_Z 1000) rate.
Definition scheduledAt (started : number) (k : Z) : number :=
  add started (mul (of_Z k) intervalMs).

(** [scheduled += 1], and the request: dropped or started. *)
Definition schedule (ph : phase) : phase :=
  if leb limit (of_Z (Z.of_nat (size (ph_active ph)))) then
    mkPhase LoopTop (ph_started ph) (ph_scheduled ph + 1) (ph_drops ph + 1) (ph_samples ph)
      (ph_active ph) (ph_tasks ph)
  else
    mkPhase LoopTop (ph_started ph) (ph_scheduled ph + 1) (ph_drops ph) (ph_samples ph)
      ({[ph_tasks ph]} ∪ ph_active ph) (S (ph_tasks ph)).

Definition result_of (ph : phase) (now : number) : PhaseResult :=
  mkPhaseResult (ph_samples ph) (ph_scheduled ph) (ph_drops ph) (sub now (ph_started ph)).

Definition runPhase_step (e : event) (ph : phase) : option phase :=
  match ph_control ph, e with
  | Starting, Clock now =>
      Some (mkPhase LoopTop now (ph_scheduled ph) (ph_drops ph) (ph_samples ph) (ph_active ph)
              (ph_tasks ph))
  | LoopTop, Clock now =>
      let waitMs := sub (scheduledAt (ph_started ph) (ph_scheduled ph)) now in
      Some (go (if ltb (of_Z 0) waitMs then Waiting else CheckingDeadline) ph)
  | Waiting, TimerFires => Some (go CheckingDeadline ph)
  | CheckingDeadline, Clock now =>
      if leb (deadline (ph_started ph)) now then Some (go Draining ph) else Some (schedule ph)
  | Draining, Clock now =>
      if bool_decide (ph_active ph = ∅) then Some (go (Returned (result_of ph now)) ph) else None
  | (Waiting | Draining), Settles i sample =>
      if bool_decide (i ∈ ph_active ph) then Some (settle i sample ph) else None
  | (Waiting | Draining), Rejects i e =>
      if bool_decide (i ∈ ph_active ph) then Some (go (Failed e) ph) else None
  | _, _ => None
  end.

Fixpoint runPhase_from (events : list event) (ph : phase) : option phase :=
  match events with
  | [] => Some ph
  | e :: events => runPhase_step e ph ≫= runPhase_from events
  end.

Definition runPhase (events : list event) : option phase := runPhase_from events phase_init.

End phase.

(** ** The report *)

Record LatencySummary := mkLatencySummary {
  min : option number; p50 : option number; p95 : option number; p99 : option number;
  max : option number;
}.

Record Traffic := mkTraffic {
  t_scheduled : Z; completed : Z; successful : Z; httpFailures : Z; networkFailures : Z;
  timeouts : Z; t_drops : Z; achievedRequestsPerSecond : number; errorRate : number;
}.

Record LabReport := mkLabReport {
  target : string;
  offeredRatePerSecond : number;
  w_durationSeconds : number;
  concurrencyLimit : number;
  w_timeoutMs : number;
  traffic : Traffic;
  statusCodes : gmap Z Z;
  latencyMs : LatencySummary;
  successfulLatencyMs : LatencySummary;
  configured : bool;
  passed : bool;
  failures : list string;
}.

(** [Number(x.toFixed(2))]. *)
Definition fixed2 (x : number) : number := Number (toFixed 2 x).

(** [values.sort((left, right) => left - right)]. *)
Definition before (left right : number) : Prop := ltb (of_Z 0) (sub left right) = false.
#[export] Instance before_dec left right : Decision (before left right).
Proof. unfold before. apply _. Defined.
Definition sorted_values (values : list number) : list number := merge_sort before values.

(** [sorted[index]?.toFixed(2)], as a number: an index out of range reads [undefined]. *)
Definition rank_index (fraction : number) (n : nat) : number :=
  JsNumbers.max (of_Z 0) (sub (ceil (mul fraction (of_Z (Z.of_nat n)))) (of_Z 1)).
Definition at_index (l : list number) (index : number) : number :=
  match index with
  | Finite z =>
      if (0 <=? z) && (z mod one =? 0) then from_option fixed2 NaN (l !! Z.to_nat (z / one)) else NaN
  | _ => NaN
  end.

Definition percentile (values : list number) (fraction : number) : option number :=
  match values with
  | [] => None
  | _ => Some (at_index (sorted_values values) (rank_index fraction (length values)))
  end.

Definition half : number := decimal 5 (-1).
Definition f95 : number := decimal 95 (-2).
Definition f99 : number := decimal 99 (-2).

Definition latencySummary (samples : list RequestSample) : LatencySummary :=
  let values := map durationMs samples in
  match values with
  | [] => mkLatencySummary None None None None None
  | _ => {| min := Some (fixed2 (foldl JsNumbers.min (Infinity false) values));
            p50 := percentile values half; p95 := percentile values f95;
            p99 := percentile values f99;
            max := Some (fixed2 (foldl JsNumbers.max (Infinity true) values)) |}
  end.

Definition is_success (sample : RequestSample) : bool :=
  match status sample with Some s => (200 <=? s) && (s <? 400) | None => false end.
Definition is_http_failure (sample : RequestSample) : bool :=
  match status sample with Some s => (s <? 200) || (400 <=? s) | None => false end.
Definition has_error (f : failure) (sample : RequestSample) : bool :=
  bool_decide (error sample = Some f).

Definition count (p : RequestSample -> bool) (l : list RequestSample) : Z :=
  Z.of_nat (length (List.filter p l)).

Definition count_status (codes : gmap Z Z) (sample : RequestSample) : gmap Z Z :=
  match status sample with
  | Some s => <[s := default 0 (codes !! s) + 1]> codes
  | None => codes
  end.

Definition percent (x : number) : string := toFixed 2 (mul x (of_Z 100)) +:+ "%".

(** [${x ?? text}]. *)
Definition show_or (text : string) (x : option number) : string :=
  match x with Some x => toString x | None => text end.

Definition slo_failure (config : LabConfig) (latency : LatencySummary) : list string :=
  match sloP99Ms config with
  | Some slo =>
      if match p99 latency with None => true | Some x => ltb slo x end
      then ["successful p99 " +:+ show_or "unavailable" (p99 latency) +:+ "ms exceeds " +:+
            toString slo +:+ "ms"]
      else []
  | None => []
  end.

Definition error_rate_failure (config : LabConfig) (rate : number) : list string :=
  match maxErrorRate config with
  | Some m => if ltb m rate then ["error rate " +:+ percent rate +:+ " exceeds " +:+ percent m] else []
  | None => []
  end.

Definition drop_failure (drops : Z) : list string :=
  if 0 <? drops
  then [pretty drops +:+
        " scheduled requests were not started because the concurrency limit was full"]
  else [].

Definition summarize (config : LabConfig) (phase : PhaseResult) : LabReport :=
  let successfulSamples := List.filter is_success (samples phase) in
  let httpFailures := count is_http_failure (samples phase) in
  let networkFailures := count (has_error network) (samples phase) in
  let timeouts := count (has_error timeout) (samples phase) in
  let completed := Z.of_nat (length (samples phase)) in
  let failures := httpFailures + networkFailures + timeouts in
  let statusCodes := foldl count_status ∅ (samples phase) in
  let successfulLatency := latencySummary successfulSamples in
  let errorRate := if completed =? 0 then of_Z 1 else div (of_Z failures) (of_Z completed) in
  let thresholdFailures := slo_failure config successfulLatency ++
    error_rate_failure config errorRate ++ drop_failure (clientBackpressureDrops phase) in
  {| target := url config;
     offeredRatePerSecond := ratePerSecond config;
     w_durationSeconds := durationSeconds config;
     concurrencyLimit := concurrency config;
     w_timeoutMs := timeoutMs config;
     traffic :=
       {| t_scheduled := scheduled phase; completed := completed;
          successful := Z.of_nat (length successfulSamples);
          httpFailures := httpFailures; networkFailures := networkFailures; timeouts := timeouts;
          t_drops := clientBackpressureDrops phase;
          achievedRequestsPerSecond :=
            fixed2 (div (of_Z completed) (div (elapsedMs phase) (of_Z 1000)));
          errorRate := Number (toFixed 4 errorRate) |};
     statusCodes := statusCodes;
     latencyMs := latencySummary (samples phase);
     successfulLatencyMs := successfulLatency;
     configured := bool_decide (is_Some (sloP99Ms config)) || bool_decide (is_Some (maxErrorRate config));
     passed := bool_decide (thresholdFailures = []);
     failures := thresholdFailures |}.

(** ** The text of the report *)

Section format.
Context `{Collation}.

(** [Object.entries(statusCodes)]: integer keys in ascending order, then sorted as texts. *)
Definition by_code (x y : Z * Z) : Prop := fst x <= fst y.
#[export] Instance by_code_dec x y : Decision (by_code x y).
Proof. unfold by_code. apply _. Defined.
Definition by_text (x y : Z * Z) : Prop := localeCompare (pretty (fst x)) (pretty (fst y)) <= 0.
#[export] Instance by_text_dec x y : Decision (by_text x y).
Proof. unfold by_text. apply _. Defined.

Definition statuses (codes : gmap Z Z) : string :=
  js_join ", " (map (fun '(s, n) => pretty s +:+ "=" +:+ pretty n)
    (merge_sort by_text (merge_sort by_code (map_to_list codes)))).

Definition thresholds_text (report : LabReport) : string :=
  if negb (configured report) && bool_decide (failures report = []) then "NOT SET"
  else if passed report then "PASS"
  else "FAIL - " +:+ js_join "; " (failures report).

Definition newline : string := String "010" EmptyString.

Definition formatReport (report : LabReport) : string :=
  let latency := successfulLatencyMs report in
  let t := traffic report in
  let statuses := statuses (statusCodes report) in
  js_join newline [
    "ScaleForge scaling lab";
    "Target: " +:+ target report;
    "Workload: " +:+ toString (offeredRatePerSecond report) +:+ " req/s for " +:+
      toString (w_durationSeconds report) +:+ "s, concurrency <= " +:+
      toString (concurrencyLimit report);
    "Traffic: scheduled=" +:+ pretty (t_scheduled t) +:+ ", completed=" +:+ pretty (completed t) +:+
      ", successful=" +:+ pretty (successful t) +:+ ", achieved=" +:+
      toString (achievedRequestsPerSecond t) +:+ " req/s";
    "Status: " +:+ (if String.eqb statuses "" then "none" else statuses) +:+ "; network=" +:+
      pretty (networkFailures t) +:+ ", timeouts=" +:+ pretty (timeouts t) +:+ ", client-dropped=" +:+
      pretty (t_drops t);
    "Successful latency (ms): min=" +:+ show_or "-" (min latency) +:+ ", p50=" +:+
      show_or "-" (p50 latency) +:+ ", p95=" +:+ show_or "-" (p95 latency) +:+ ", p99=" +:+
      show_or "-" (p99 latency) +:+ ", max=" +:+ show_or "-" (max latency);
    "Error rate: " +:+ percent (errorRate t);
    "Thresholds: " +:+ thresholds_text report ]%string.

End format.

(** ** The program *)

Definition USAGE : string :=
"ScaleForge scaling lab

Usage:
  npm run lab:scale -- [options]

Options:
  --url <url>                  Target URL (default: SCALEFORGE_LAB_URL or /v1/health/live)
  --rate <requests/second>     Offered request rate (default: 5)
  --duration <seconds>         Measured phase duration (default: 10)
  --warmup <seconds>           Unreported warm-up duration (default: 2)
  --concurrency <count>        Maximum in-flight requests (default: 10)
  --timeout <milliseconds>     Per-request timeout (default: 2000)
  --slo-p99 <milliseconds>     Optional successful-request p99 threshold
  --max-error-rate <0..1>      Optional HTTP/transport error-rate threshold
  --json                       Print machine-readable JSON
  --help                       Show this help

Environment:
  SCALEFORGE_LAB_TOKEN         Optional bearer token; never printed
  SCALEFORGE_LAB_URL           Optional default target URL
".

(** A line of text, or a report as indented JSON. *)
Inductive output := Line (s : string) | JsonReport (report : LabReport).

Record process := mkProcess { stdout : list output; stderr : list string; exitCode : Z }.

Section main.
Context `{UrlParser} `{Collation} `{ErrorText}.

(** [main(argv).catch(error => ...)]. *)
Definition failed (e : exn) (stderr : list string) : process :=
  mkProcess [] (stderr ++ [match e with JsError m => m | _ => error_message e end]) 1.

(** What a run does with the report. *)
Definition conclude (config : LabConfig) (stderr : list string) (phase : PhaseResult) : process :=
  let report := summarize config phase in
  mkProcess [if json config then JsonReport report else Line (formatReport report)] stderr
    (if passed report then 0 else 2).

(** A phase that has come to an end. *)
Definition phase_end (config : LabConfig) (duration : number) (events : list event) :
    option (result PhaseResult) :=
  ph ← runPhase duration (ratePerSecond config) (concurrency config) events;
  match ph_control ph with
  | Returned r => Some (Ok r)
  | Failed e => Some (Err e)
  | _ => None
  end.

Definition warmup_line (config : LabConfig) : list string :=
  if ltb (of_Z 0) (warmupSeconds config)
  then ["Warming up for " +:+ toString (warmupSeconds config) +:+ "s (samples are discarded)..."]
  else [].

(** The process run on the events of its two phases; nothing if it has not ended. *)
Definition main (argv : list string) (SCALEFORGE_LAB_URL : option string)
    (warmup_events events : list event) : option process :=
  match parseArgs argv SCALEFORGE_LAB_URL with
  | Err e => Some (failed e [])
  | Ok Help => Some (mkProcess [Line USAGE] [] 0)
  | Ok (Config config) =>
      let stderr := warmup_line config in
      warmup ← (if ltb (of_Z 0) (warmupSeconds config)
                then phase_end config (warmupSeconds config) warmup_events
                else Some (Ok (mkPhaseResult [] 0 0 (of_Z 0))));
      match warmup with
      | Err e => Some (failed e stderr)
      | Ok _ =>
          measured ← phase_end config (durationSeconds config) events;
          match measured with
          | Err e => Some (failed e stderr)
          | Ok phase => Some (conclude config stderr phase)
          end
      end
  end.

End main.
