(* ===== verification/ScalingLabSpec.v ===== *)
(** * The scaling lab: theorems

    The command line: what is accepted, and that every configuration can be given. The phase:
    accounting, the bound on requests in flight, the number of requests, and its end. The
    report: its counts, its percentiles and its verdict; the exit code. *)
From Stdlib Require Import Ascii.
From S2P Require Import Prelude JsStrings Errors JsNumbers ScalingLab.

(** ** The command line *)

Section arguments.
Context {UP : UrlParser}.

(** A number within the range of an option. *)
Definition option_number (minimum : number) (maximum : option number) (x : number) : Prop :=
  valid x /\ in_range minimum maximum x = true.

(** The configurations the lab accepts. *)
Record wf_config (c : LabConfig) : Prop := {
  wf_url : http_url (url c) = true;
  wf_rate : option_number tenth None (ratePerSecond c);
  wf_duration : option_number tenth None (durationSeconds c);
  wf_warmup : option_number (of_Z 0) None (warmupSeconds c);
  wf_concurrency : option_number (of_Z 1) None (concurrency c) /\
    floor (concurrency c) = concurrency c;
  wf_timeout : option_number (of_Z 1) None (timeoutMs c);
  wf_slo : forall x, sloP99Ms c = Some x -> option_number (of_Z 0) None x;
  wf_max_error : forall x, maxErrorRate c = Some x -> option_number (of_Z 0) (Some (of_Z 1)) x;
}.

Lemma of_Z_0 : of_Z 0 = Finite 0.
Proof. by rewrite of_Z_exact by lia. Qed.
Lemma of_Z_1 : of_Z 1 = Finite one.
Proof. by rewrite of_Z_exact by lia. Qed.

Lemma tenth_positive : exists t, tenth = Finite t /\ 0 <= t.
Proof.
  assert (H : match tenth with Finite z => 0 <=? z | _ => false end = true) by (vm_compute; reflexivity).
  destruct tenth as [| |z]; [done..|]. exists z. split; [done|]. by apply Z.leb_le.
Qed.

Lemma in_range_Finite minimum maximum x m :
  minimum = Finite m -> in_range minimum maximum x = true -> exists z, x = Finite z /\ m <= z.
Proof.
  intros -> Hr. unfold in_range in Hr. apply andb_true_iff in Hr as [[Hf Hl]%andb_true_iff _].
  destruct x as [| |z]; [done..|]. exists z. split; [done|]. simpl in Hl.
  destruct (Z.ltb_spec z m); [done|lia].
Qed.

Lemma readNumber_option values key fallback minimum maximum x :
  option_number minimum maximum fallback ->
  readNumber values key fallback minimum maximum = Ok x -> option_number minimum maximum x.
Proof.
  intros Hf. unfold readNumber. destruct (values !! key) as [[raw|]|]; [|done|by intros [= <-]].
  destruct (String.eqb _ _); [done|]. destruct (in_range minimum maximum (Number raw)) eqn:Hr; [|done].
  intros [= <-]. split; [|done]. apply Number_valid. unfold in_range in Hr.
  by apply andb_true_iff in Hr as [[? _]%andb_true_iff _].
Qed.

Lemma read_optional_option values key maximum ox x :
  option_number (of_Z 0) maximum (of_Z 0) ->
  read_optional values key maximum = Ok ox -> ox = Some x -> option_number (of_Z 0) maximum x.
Proof.
  intros H0. unfold read_optional. destruct (values !! key); [|by intros [= <-]].
  destruct (readNumber _ _ _ _ _) as [y|] eqn:Hr; simpl; [|done]. intros [= <-] [= ->].
  by eapply readNumber_option.
Qed.

Lemma floor_option x : option_number (of_Z 1) None x ->
  option_number (of_Z 1) None (floor x) /\ floor (floor x) = floor x.
Proof.
  pose proof one_pos. intros [Hv Hr]. destruct (in_range_Finite _ _ _ _ of_Z_1 Hr) as (z & -> & Hz).
  simpl floor. rewrite Z.div_mul by lia. split; [|done].
  destruct (floor_valid z ltac:(lia) Hv) as [Hv' _]. split; [done|].
  unfold in_range. rewrite of_Z_1. simpl. rewrite andb_true_r, negb_true_iff. apply Z.ltb_ge.
  assert (1 <= z / one) by (apply Z.div_le_lower_bound; lia). nia.
Qed.

Lemma default_option n minimum :
  isFinite (of_Z n) && in_range minimum None (of_Z n) = true -> option_number minimum None (of_Z n).
Proof. intros [Hf Hr]%andb_true_iff. split; [by apply of_Z_valid|done]. Qed.

Lemma zero_option maximum : in_range (of_Z 0) maximum (of_Z 0) = true ->
  option_number (of_Z 0) maximum (of_Z 0).
Proof. split; [apply of_Z_valid; vm_compute; reflexivity|done]. Qed.

(** The configurations that are accepted are well formed. *)
Lemma parseArgs_wf argv env c : parseArgs argv env = Ok (Config c) -> wf_config c.
Proof.
  unfold parseArgs. destruct (collectArguments argv) as [values|] eqn:Hc; [|done].
  change (Ok values ≫= ?f) with (f values). cbv beta.
  destruct (values !! "help"%string); [done|].
  destruct (http_url _) eqn:Hu; [|done]. cbn [negb].
  destruct (read_optional values "slo-p99" None) as [slo|] eqn:Hslo; [|done].
  destruct (read_optional values "max-error-rate" _) as [mer|] eqn:Hmer; [|done].
  destruct (readNumber values "rate" _ _ _) as [rate|] eqn:Hrate; [|done].
  destruct (readNumber values "duration" _ _ _) as [dur|] eqn:Hdur; [|done].
  destruct (readNumber values "warmup" _ _ _) as [warm|] eqn:Hwarm; [|done].
  destruct (readNumber values "concurrency" _ _ _) as [conc|] eqn:Hconc; [|done].
  destruct (readNumber values "timeout" _ _ _) as [tm|] eqn:Htm; [|done].
  intros [= <-].
  constructor; simpl.
  - done.
  - eapply readNumber_option, Hrate. apply default_option; vm_compute; reflexivity.
  - eapply readNumber_option, Hdur. apply default_option; vm_compute; reflexivity.
  - eapply readNumber_option, Hwarm. apply default_option; vm_compute; reflexivity.
  - apply floor_option. eapply readNumber_option, Hconc. apply default_option; vm_compute; reflexivity.
  - eapply readNumber_option, Htm. apply default_option; vm_compute; reflexivity.
  - intros x. eapply read_optional_option, Hslo. apply zero_option; vm_compute; reflexivity.
  - intros x. eapply read_optional_option, Hmer. apply zero_option; vm_compute; reflexivity.
Qed.

(** Whatever the command line and the environment, a configuration that is accepted is well
    formed: an HTTP(S) URL, a rate and a duration of at least 0.1, a whole concurrency of at
    least 1, a timeout of at least 1 ms, thresholds within their ranges, all of them finite
    doubles. *)
Theorem parseArgs_accepts argv env c : parseArgs argv env = Ok (Config c) -> wf_config c.
Proof. apply parseArgs_wf. Qed.

(** *** Inline values *)

(** The options that take a value. *)
Definition value_keys : list string :=
  ["url"; "rate"; "duration"; "warmup"; "concurrency"; "timeout"; "slo-p99"; "max-error-rate"]%string.

(** A text up to its first [=]. *)
Definition before_equals (t : string) : string := hd EmptyString (js_split "=" t).

Lemma split_inline key t :
  bool_decide (key ∈ value_keys) = true ->
  split_argument (String.append "--" (String.append key (String "=" t))) =
    (key, Some (before_equals t)).
Proof.
  intros Hk%bool_decide_eq_true. unfold split_argument, before_equals.
  assert (Hkey : js_slice_from 2 (String.append "--" (String.append key (String "=" t))) =
    String.append key (String "=" t)).
  { unfold js_slice_from. simpl. apply text_chars. }
  rewrite Hkey, js_split_append.
  - destruct (js_split "=" t) eqn:E; [|done]. unfold js_split in E. apply map_eq_nil in E.
    destruct (chars t) as [|a l]; simpl in E; [done|].
    destruct (Ascii.eqb a "="); [done|]. by destruct (split_chars "=" l).
  - unfold value_keys in Hk. set_unfold in Hk.
    repeat (destruct Hk as [->|Hk]; [by apply (bool_decide_unpack _); vm_compute|]). done.
Qed.

(** An inline value is the value before its second [=]: [--key=text] is the same as [--key]
    followed by what comes before the first [=] of the text, and the rest of the text is lost
    without an error. *)
Theorem inline_value key t rest values :
  bool_decide (key ∈ value_keys) = true ->
  collect (String.append "--" (String.append key (String "=" t)) :: rest) values =
    collect (String.append "--" key :: before_equals t :: rest) values.
Proof.
  intros Hk. cbn [collect]. rewrite split_inline by done.
  apply bool_decide_eq_true in Hk. unfold value_keys in Hk. set_unfold in Hk.
  repeat (destruct Hk as [->|Hk]; [reflexivity|]). done.
Qed.

(** *** The command line of a configuration *)

Definition given (key : string) (x : option number) : list string :=
  match x with Some x => [String.append "--" key; toString x] | None => [] end.

Definition to_argv (c : LabConfig) : list string :=
  ["--url"; url c]%string ++
  given "rate" (Some (ratePerSecond c)) ++ given "duration" (Some (durationSeconds c)) ++
  given "warmup" (Some (warmupSeconds c)) ++ given "concurrency" (Some (concurrency c)) ++
  given "timeout" (Some (timeoutMs c)) ++ (if json c then ["--json"]%string else []) ++
  given "slo-p99" (sloP99Ms c) ++ given "max-error-rate" (maxErrorRate c).

Lemma collect_value key v rest values :
  bool_decide (key ∈ value_keys) = true -> usable v = true ->
  collect (String.append "--" key :: v :: rest) values = collect rest (<[key := Text v]> values).
Proof.
  intros Hk%bool_decide_eq_true Hv. unfold value_keys in Hk. set_unfold in Hk.
  repeat (destruct Hk as [->|Hk]; [cbn -[usable insert]; by rewrite Hv|]). done.
Qed.

(** A number that reads back from its text: a finite one that is not negative. *)
Definition printable (x : number) : Prop := exists z, x = Finite z /\ 0 <= z /\ valid (Finite z).

Lemma option_printable m maximum minimum x :
  minimum = Finite m -> 0 <= m -> option_number minimum maximum x -> printable x.
Proof.
  intros Hm H0 [Hv Hr]. destruct (in_range_Finite _ _ _ _ Hm Hr) as (z & -> & Hz).
  exists z. split_and!; [done|lia|done].
Qed.

Lemma at_least_0 maximum x : option_number (of_Z 0) maximum x -> printable x.
Proof. eapply option_printable; [apply of_Z_0|done]. Qed.
Lemma at_least_1 maximum x : option_number (of_Z 1) maximum x -> printable x.
Proof. eapply option_printable; [apply of_Z_1|]. pose proof one_pos. lia. Qed.
Lemma at_least_tenth maximum x : option_number tenth maximum x -> printable x.
Proof. destruct tenth_positive as (t & Ht & H0). by eapply option_printable. Qed.

Lemma numeral_text_usable s :
  numeral_text (chars s) -> usable s = true /\ String.eqb (js_trim s) "" = false.
Proof.
  intros (a & l & Hs & Ha & Hl). unfold js_trim. rewrite Hs, trim_plain.
  2:{ constructor; [unfold plain; by rewrite Ha|done]. }
  rewrite <- (text_chars s), Hs. destruct a as [[] [] [] [] [] [] [] []]; done.
Qed.

Lemma printable_text x : printable x ->
  usable (toString x) = true /\ String.eqb (js_trim (toString x)) "" = false /\ Number (toString x) = x.
Proof.
  intros (z & -> & Hz & Hr & Hb). rewrite Z.abs_eq in Hb by done.
  destruct (numeral_text_usable _ (toString_numeral z Hz Hb Hr)). split_and!; [done..|].
  by apply Number_toString.
Qed.

Lemma collect_given key x rest values :
  bool_decide (key ∈ value_keys) = true -> (forall y, x = Some y -> printable y) ->
  collect (given key x ++ rest) values =
    collect rest (match x with Some y => <[key := Text (toString y)]> values | None => values end).
Proof.
  intros Hk Hx. destruct x as [y|]; [|done]. apply collect_value; [done|].
  by apply printable_text, Hx.
Qed.

Lemma readNumber_text values key fallback minimum maximum x :
  values !! key = Some (Text (toString x)) -> printable x -> option_number minimum maximum x ->
  readNumber values key fallback minimum maximum = Ok x.
Proof.
  intros Hk Hp Hx. unfold readNumber. rewrite Hk.
  destruct (printable_text x Hp) as (_ & -> & ->). by rewrite (proj2 Hx).
Qed.

Lemma read_optional_text values key maximum x :
  values !! key = option_map (fun y => Text (toString y)) x ->
  (forall y, x = Some y -> option_number (of_Z 0) maximum y) ->
  read_optional values key maximum = Ok x.
Proof.
  intros Hk Hx. unfold read_optional. rewrite Hk. destruct x as [y|]; [|done]. simpl.
  rewrite (readNumber_text _ _ _ _ _ y); [done|done| |by apply Hx].
  by eapply at_least_0, Hx.
Qed.

(** The arguments of a configuration, collected. *)
Definition collected (c : LabConfig) : gmap string value :=
  let put key x values :=
    match x with Some y => <[key := Text (toString y)]> values | None => values end in
  put "max-error-rate"%string (maxErrorRate c) (put "slo-p99"%string (sloP99Ms c)
    ((if json c then <["json"%string := Flag]> else id)
    (put "timeout"%string (Some (timeoutMs c)) (put "concurrency"%string (Some (concurrency c))
    (put "warmup"%string (Some (warmupSeconds c)) (put "duration"%string (Some (durationSeconds c))
    (put "rate"%string (Some (ratePerSecond c)) (<["url"%string := Text (url c)]> ∅)))))))).

Lemma collect_to_argv c :
  wf_config c -> usable (url c) = true -> collectArguments (to_argv c) = Ok (collected c).
Proof.
  intros [Hu Hr Hd Hw [Hc Hcf] Ht Hs Hm] Hurl. unfold collectArguments, to_argv.
  change (["--url"%string; url c]) with ([String.append "--" "url"; url c]). cbn [app].
  rewrite collect_value by (reflexivity || done).
  assert (Hsome : forall x, printable x -> forall y, Some x = Some y -> printable y)
    by (intros ? ? ? [= <-]; done).
  rewrite (collect_given "rate") by (reflexivity || eapply Hsome, at_least_tenth, Hr).
  rewrite (collect_given "duration") by (reflexivity || eapply Hsome, at_least_tenth, Hd).
  rewrite (collect_given "warmup") by (reflexivity || eapply Hsome, at_least_0, Hw).
  rewrite (collect_given "concurrency") by (reflexivity || eapply Hsome, at_least_1, Hc).
  rewrite (collect_given "timeout") by (reflexivity || eapply Hsome, at_least_1, Ht).
  assert (Hj : forall rest values, collect ((if json c then ["--json"%string] else []) ++ rest) values =
    collect rest ((if json c then <["json"%string := Flag]> else id) values)).
  { intros rest values. by destruct (json c). }
  rewrite Hj, (collect_given "slo-p99").
  2: reflexivity.
  2: intros y Hy; by eapply at_least_0, Hs.
  rewrite <- (app_nil_r (given "max-error-rate" _)), (collect_given "max-error-rate").
  2: reflexivity.
  2: intros y Hy; by eapply at_least_0, Hm.
  done.
Qed.

Lemma collected_lookups c :
  collected c !! "help"%string = None /\
  collected c !! "url"%string = Some (Text (url c)) /\
  collected c !! "rate"%string = Some (Text (toString (ratePerSecond c))) /\
  collected c !! "duration"%string = Some (Text (toString (durationSeconds c))) /\
  collected c !! "warmup"%string = Some (Text (toString (warmupSeconds c))) /\
  collected c !! "concurrency"%string = Some (Text (toString (concurrency c))) /\
  collected c !! "timeout"%string = Some (Text (toString (timeoutMs c))) /\
  collected c !! "json"%string = (if json c then Some Flag else None) /\
  collected c !! "slo-p99"%string = option_map (fun y => Text (toString y)) (sloP99Ms c) /\
  collected c !! "max-error-rate"%string = option_map (fun y => Text (toString y)) (maxErrorRate c).
Proof.
  unfold collected. destruct (maxErrorRate c), (sloP99Ms c), (json c); split_and!; reflexivity.
Qed.

#[local] Opaque readNumber read_optional of_Z tenth.

(** C22: Every well-formed configuration can be given on the command line: its arguments, with
    each number printed as JavaScript prints it, parse to exactly that configuration, whatever
    the environment. *)
Theorem parseArgs_roundtrip c env :
  wf_config c -> usable (url c) = true -> parseArgs (to_argv c) env = Ok (Config c).
Proof.
  intros Hwf Hurl. unfold parseArgs. rewrite collect_to_argv by done.
  destruct Hwf as [Hu Hr Hd Hw [Hc Hcf] Ht Hs Hm].
  change (Ok (collected c) ≫= ?f) with (f (collected c)). cbv beta.
  destruct (collected_lookups c)
    as (Khelp & Kurl & Krate & Kdur & Kwarm & Kconc & Ktm & Kjson & Kslo & Kmer).
  rewrite Khelp, Kurl, Hu. cbn [negb].
  etransitivity; [apply result_bind_Ok; exact (read_optional_text _ _ _ (sloP99Ms c) Kslo Hs)|].
  etransitivity; [apply result_bind_Ok; exact (read_optional_text _ _ _ (maxErrorRate c) Kmer Hm)|].
  etransitivity; [apply result_bind_Ok; exact (readNumber_text _ _ _ _ _ _ Krate (at_least_tenth _ _ Hr) Hr)|].
  etransitivity; [apply result_bind_Ok; exact (readNumber_text _ _ _ _ _ _ Kdur (at_least_tenth _ _ Hd) Hd)|].
  etransitivity; [apply result_bind_Ok; exact (readNumber_text _ _ _ _ _ _ Kwarm (at_least_0 _ _ Hw) Hw)|].
  etransitivity; [apply result_bind_Ok; exact (readNumber_text _ _ _ _ _ _ Kconc (at_least_1 _ _ Hc) Hc)|].
  etransitivity; [apply result_bind_Ok; exact (readNumber_text _ _ _ _ _ _ Ktm (at_least_1 _ _ Ht) Ht)|].
  rewrite Kjson. cbn. rewrite Hcf. destruct c; simpl. by destruct json.
Qed.

#[local] Transparent readNumber read_optional of_Z tenth.

End arguments.
