(* ===== verification/LabPhaseSpec.v ===== *)
(** * A phase of the scaling lab: theorems

    What holds of every execution of [runPhase], whatever the clock, the timers and the
    requests do: the accounting and the bound on the requests in flight; and, when timers fire
    early by a bounded time only, that the phase offers no more than its rate and comes to an
    end. *)
From S2P Require Import Prelude JsStrings Errors JsNumbers ScalingLab.

(** The requests that have settled, in order. *)
Fixpoint settlements (events : list event) : list (nat * RequestSample) :=
  match events with
  | [] => []
  | Settles i sample :: events => (i, sample) :: settlements events
  | _ :: events => settlements events
  end.

Lemma settlements_app l l' : settlements (l ++ l') = settlements l ++ settlements l'.
Proof. induction l as [|[] l IH]; simpl; by rewrite ?IH. Qed.

Section phase.
Variables (duration rate limit : number).

Abbreviation step := (runPhase_step duration rate limit).
Abbreviation run := (runPhase duration rate limit).
Abbreviation run_from := (runPhase_from duration rate limit).

Lemma run_from_app l l' ph :
  run_from (l ++ l') ph = run_from l ph ≫= run_from l'.
Proof.
  revert ph. induction l as [|e l IH]; intros ph; [done|]. simpl.
  by destruct (step e ph) as [ph'|]; simpl; [rewrite IH|].
Qed.

(** Induction along an execution. *)
Lemma run_invariant (I : list event -> phase -> Prop) :
  I [] phase_init ->
  (forall events ph e ph', run events = Some ph -> I events ph -> step e ph = Some ph' ->
     I (events ++ [e]) ph') ->
  forall events ph, run events = Some ph -> I events ph.
Proof.
  intros H0 Hstep events. induction events as [|e events IH] using rev_ind; intros ph Hr.
  - by injection Hr as <-.
  - unfold runPhase in *. rewrite run_from_app in Hr.
    destruct (run_from events phase_init) as [ph'|] eqn:Hrun; [|done]. cbn in Hr.
    destruct (step e ph') as [ph''|] eqn:Hs; [|done]. injection Hr as <-. eauto.
Qed.

(** ** Accounting *)

(** What is true between events. *)
Record accounted (events : list event) (ph : phase) : Prop := {
  ac_scheduled : ph_scheduled ph = ph_drops ph + Z.of_nat (ph_tasks ph);
  ac_samples : ph_samples ph = map snd (settlements events);
  ac_tasks : map fst (settlements events) ++ elements (ph_active ph) ≡ₚ seq 0 (ph_tasks ph);
  ac_drops : 0 <= ph_drops ph;
  ac_returned : forall r, ph_control ph = Returned r -> ph_active ph = ∅ /\
    samples r = ph_samples ph /\ scheduled r = ph_scheduled ph /\
    clientBackpressureDrops r = ph_drops ph;
}.

(** An event that is not a settlement leaves the counts alone. *)
Lemma accounted_go events ph e c :
  accounted events ph -> settlements [e] = [] ->
  (forall r, c = Returned r -> ph_active ph = ∅ /\ samples r = ph_samples ph /\
    scheduled r = ph_scheduled ph /\ clientBackpressureDrops r = ph_drops ph) ->
  accounted (events ++ [e]) (go c ph).
Proof.
  intros [H1 H2 H3 H4 _] He Hr. rewrite <- (app_nil_r (settlements events)) in H2, H3.
  rewrite <- He, <- settlements_app in H2, H3. by constructor.
Qed.

Lemma accounted_schedule events ph e :
  accounted events ph -> settlements [e] = [] -> accounted (events ++ [e]) (schedule limit ph).
Proof.
  intros [H1 H2 H3 H4 _] He. rewrite <- (app_nil_r (settlements events)) in H2, H3.
  rewrite <- He, <- settlements_app in H2, H3. unfold schedule.
  destruct (leb limit _); constructor; simpl; try done; try lia.
  assert (ph_tasks ph ∉ ph_active ph).
  { intros Hin%elem_of_elements. assert (Hx : ph_tasks ph ∈ seq 0 (ph_tasks ph)).
    { rewrite <- H3. apply elem_of_app. by right. }
    apply elem_of_seq in Hx. lia. }
  rewrite elements_union_singleton by done.
  pose proof (seq_S (ph_tasks ph) 0) as Hseq. simpl in Hseq. rewrite Hseq.
  rewrite <- Permutation_middle, H3. apply Permutation_cons_append.
Qed.

Lemma accounted_settle events ph i sample :
  accounted events ph -> i ∈ ph_active ph -> (forall r, ph_control ph <> Returned r) ->
  accounted (events ++ [Settles i sample]) (settle i sample ph).
Proof.
  intros [H1 H2 H3 H4 _] Hi Hc.
  constructor; simpl; rewrite ?settlements_app; simpl; [done| | |done|naive_solver].
  - by rewrite map_app, H2.
  - rewrite map_app, <- H3, <- app_assoc. apply Permutation_app_head. simpl.
    rewrite <- elements_union_singleton by (clear; set_solver).
    by rewrite <- union_difference_singleton_L.
Qed.

Lemma step_accounted events ph e ph' :
  accounted events ph -> step e ph = Some ph' -> accounted (events ++ [e]) ph'.
Proof.
  intros Ha Hs. unfold runPhase_step in Hs.
  destruct (ph_control ph) eqn:Hc, e as [now| |i sample|i err]; try done.
  all: repeat case_bool_decide; try done; try injection Hs as <-.
  - destruct Ha as [H1 H2 H3 H4 _]. constructor; simpl; rewrite ?settlements_app, ?app_nil_r; done.
  - apply accounted_go; [done..|]. by destruct (ltb _ _).
  - apply accounted_go; done.
  - apply accounted_settle; [done..|congruence].
  - apply accounted_go; done.
  - destruct (leb _ now); injection Hs as <-; [by apply accounted_go|by apply accounted_schedule].
  - apply accounted_go; [done..|]. by intros r [= <-].
  - apply accounted_settle; [done..|congruence].
  - apply accounted_go; done.
Qed.

Lemma run_accounted events ph : run events = Some ph -> accounted events ph.
Proof.
  apply run_invariant; [|intros; by eapply step_accounted]. constructor; simpl; try done.
Qed.

(** ** The bound on the requests in flight *)

Lemma schedule_bounded c ph :
  limit = Finite (c * one) -> c <= 2 ^ 53 -> Z.of_nat (size (ph_active ph)) <= c ->
  Z.of_nat (size (ph_active (schedule limit ph))) <= c.
Proof.
  intros Hl Hc Ha. unfold schedule. rewrite of_Z_exact by lia. rewrite Hl, leb_Finite.
  destruct (Z.leb_spec (c * one) (Z.of_nat (size (ph_active ph)) * one)); [done|]. simpl.
  assert (size ({[ph_tasks ph]} ∪ ph_active ph) <= S (size (ph_active ph)))%nat.
  { rewrite size_union_alt, size_singleton. pose proof (subseteq_size (ph_active ph ∖ {[ph_tasks ph]}) (ph_active ph) ltac:(set_solver)).
    lia. }
  pose proof one_pos. nia.
Qed.

Lemma run_bounded c events ph :
  limit = Finite (c * one) -> 0 <= c <= 2 ^ 53 -> run events = Some ph ->
  Z.of_nat (size (ph_active ph)) <= c.
Proof.
  intros Hl Hc. apply (run_invariant (fun _ ph => Z.of_nat (size (ph_active ph)) <= c)).
  { cbn. rewrite size_empty. lia. }
  clear events ph. intros _ ph e ph' _ Ha Hs. unfold runPhase_step in Hs.
  destruct (ph_control ph), e as [now| |i sample|i err]; try done;
    repeat case_bool_decide; try done; try injection Hs as <-; simpl; try done.
  - pose proof (subseteq_size (ph_active ph ∖ {[i]}) (ph_active ph) ltac:(set_solver)). lia.
  - destruct (leb _ now); injection Hs as <-; [done|]. by apply schedule_bounded; [|lia|].
  - pose proof (subseteq_size (ph_active ph ∖ {[i]}) (ph_active ph) ltac:(set_solver)). lia.
Qed.

(** C20: The accounting of a phase, in every state of every execution, whatever the clock, the
    timers and the requests do: every scheduled request was dropped or started; the samples
    are those of the requests that have settled, in that order; each started request has
    settled exactly once or is in flight; and never more are in flight than the limit. When
    the phase returns, all have settled, and the result says just that. *)
Theorem phase_accounts c events ph :
  limit = Finite (c * one) -> 0 <= c <= 2 ^ 53 -> run events = Some ph ->
  ph_scheduled ph = ph_drops ph + Z.of_nat (ph_tasks ph) /\
  ph_samples ph = map snd (settlements events) /\
  map fst (settlements events) ++ elements (ph_active ph) ≡ₚ seq 0 (ph_tasks ph) /\
  Z.of_nat (size (ph_active ph)) <= c /\
  forall r, ph_control ph = Returned r ->
    map fst (settlements events) ≡ₚ seq 0 (ph_tasks ph) /\
    samples r = map snd (settlements events) /\ 0 <= clientBackpressureDrops r /\
    scheduled r = clientBackpressureDrops r + Z.of_nat (length (samples r)).
Proof.
  intros Hl Hc Hr. pose proof (run_bounded c events ph Hl Hc Hr) as Hb.
  destruct (run_accounted events ph Hr) as [H1 H2 H3 H4 H5]. split_and!; [done..|].
  intros r Hret. destruct (H5 r Hret) as (Ha & -> & -> & ->).
  rewrite Ha, elements_empty, app_nil_r in H3. split_and!; [done..|].
  rewrite H1, H2, length_map. f_equal. f_equal.
  rewrite <- (length_seq (ph_tasks ph) 0), <- H3. apply length_map.
Qed.

(** ** Pace and termination *)

(** How early a timer may fire, in milliseconds: Node cuts the fraction off a delay and measures
    it with a clock of whole milliseconds. *)
Variable early : Z.

(** A reading of the clock is a number of milliseconds, and the one after a wait is at most
    [early] before the time waited for. *)
Definition on_time (e : event) (ph : phase) : Prop :=
  match e with
  | Clock now => exists t, now = Finite t /\ 0 <= t <= 2 ^ 50 * one /\
      (ph_control ph = CheckingDeadline ->
       leb (scheduledAt rate (ph_started ph) (ph_scheduled ph)) (Finite (t + early * one)) = true)
  | _ => True
  end.

Inductive punctual : list event -> phase -> Prop :=
| punctual_init : punctual [] phase_init
| punctual_step events ph e ph' :
    punctual events ph -> on_time e ph -> step e ph = Some ph' -> punctual (events ++ [e]) ph'.

Lemma punctual_run events ph : punctual events ph -> run events = Some ph.
Proof.
  induction 1 as [|events ph e ph' _ IH _ Hs]; [done|]. unfold runPhase in *.
  rewrite run_from_app, IH. cbn. by rewrite Hs.
Qed.

(** What an execution has cost so far, by what it has scheduled and what has settled. *)
Definition cost (c : control) : Z :=
  match c with
  | Starting => 0 | LoopTop => 1 | Waiting => 2 | CheckingDeadline => 3 | Draining => 4
  | Returned _ | Failed _ => 5
  end.
Definition settled (ph : phase) : Z := Z.of_nat (ph_tasks ph) - Z.of_nat (size (ph_active ph)).

Definition paced (k : Z) (events : list event) (ph : phase) : Prop :=
  0 <= ph_scheduled ph <= k /\
  (ph_control ph = Starting \/
   exists t, ph_started ph = Finite t /\ 0 <= t <= 2 ^ 50 * one) /\
  Z.of_nat (length events) <= cost (ph_control ph) + 3 * ph_scheduled ph + settled ph.

Lemma settled_schedule ph :
  ph_tasks ph ∉ ph_active ph -> settled (schedule limit ph) = settled ph.
Proof.
  intros Hn. unfold schedule, settled. destruct (leb limit _); simpl; [done|].
  rewrite size_union, size_singleton by set_solver. lia.
Qed.

Lemma settled_settle i sample ph :
  i ∈ ph_active ph -> settled (settle i sample ph) = settled ph + 1.
Proof.
  intros Hi. unfold settled. simpl.
  assert (size (ph_active ph) = S (size (ph_active ph ∖ {[i]}))) as ->; [|lia].
  rewrite (union_difference_singleton_L i (ph_active ph)) at 1 by done.
  rewrite size_union, size_singleton by set_solver. done.
Qed.

Lemma task_fresh events ph : accounted events ph -> ph_tasks ph ∉ ph_active ph.
Proof.
  intros [_ _ H3 _ _] Hin%elem_of_elements. assert (Hx : ph_tasks ph ∈ seq 0 (ph_tasks ph)).
  { rewrite <- H3. apply elem_of_app. by right. }
  apply elem_of_seq in Hx. lia.
Qed.

(** The time of the [k]-th request is [early] after the deadline, if it is so and a millisecond
    more before rounding: sums are rounded by less, since whole milliseconds are not. *)
Lemma deadline_before k D t u :
  0 <= early <= 2 ^ 50 -> 0 <= D <= 2 ^ 50 * one -> 0 <= t <= 2 ^ 50 * one ->
  mul duration (of_Z 1000) = Finite D ->
  leb (Finite (D + (early + 1) * one)) (mul (of_Z k) (intervalMs rate)) = true ->
  leb (scheduledAt rate (Finite t) k) (Finite (u + early * one)) = true ->
  leb (deadline duration (Finite t)) (Finite u) = true.
Proof.
  intros He HD Ht Hdur Hk Hu. pose proof one_pos as Ho. unfold deadline, scheduledAt in *.
  rewrite Hdur. set (m := (t + D + (one - 1)) / one).
  pose proof (Z.div_mod (t + D + (one - 1)) one ltac:(lia)) as Hm.
  pose proof (Z.mod_pos_bound (t + D + (one - 1)) one Ho). fold m in Hm.
  assert (0 <= m <= 2 ^ 51 + 1) by (change (2 ^ 51) with (2 * 2 ^ 50); split; nia).
  assert (Hd : leb (add (Finite t) (Finite D)) (Finite (m * one)) = true).
  { rewrite <- of_Z_exact by lia. apply round_leb. lia. }
  assert (Hs : leb (of_Z (m + early)) (add (Finite t) (mul (of_Z k) (intervalMs rate))) = true).
  { eapply leb_trans; [|apply add_leb, Hk]. apply round_leb. lia. }
  rewrite of_Z_exact in Hs by (change (2 ^ 53) with (8 * 2 ^ 50); change (2 ^ 51) with (2 * 2 ^ 50) in *; lia).
  eapply leb_trans; [exact Hd|]. pose proof (leb_trans _ _ _ Hs Hu) as Hmu.
  rewrite leb_Finite in *. lia.
Qed.

Lemma punctual_paced k D events ph :
  0 <= early <= 2 ^ 50 -> 0 <= k -> mul duration (of_Z 1000) = Finite D ->
  0 <= D <= 2 ^ 50 * one ->
  leb (Finite (D + (early + 1) * one)) (mul (of_Z k) (intervalMs rate)) = true ->
  punctual events ph -> paced k events ph.
Proof.
  intros He Hk0 Hdur HD Hk. induction 1 as [|events ph e ph' Hp (Hs & Ht & Hl) Hon Hstep].
  { split_and!; [simpl; lia..|by left|vm_compute; done]. }
  pose proof (task_fresh _ _ (run_accounted _ _ (punctual_run _ _ Hp))) as Hfresh.
  unfold paced. rewrite length_app. simpl length. unfold runPhase_step in Hstep.
  destruct (ph_control ph) eqn:Hc, e as [now| |i sample|i err]; try done;
    repeat case_bool_decide; try done; try injection Hstep as <-.
  all: try (rewrite settled_settle by done); simpl cost in *.
  all: try (destruct Ht as [?|Ht]; [done|]).
  - destruct Hon as (t & -> & Ht' & _). split_and!; simpl; [lia..|by right; exists t|].
    unfold settled in *. simpl. lia.
  - split_and!; simpl; [lia..|by right|]. destruct (ltb _ _); simpl; unfold settled in *; simpl; lia.
  - split_and!; simpl; [lia..|by right|]. unfold settled in *; simpl; lia.
  - split_and!; simpl; [lia..|by right|]. rewrite Hc. simpl. lia.
  - split_and!; simpl; [lia..|by right|]. unfold settled in *; simpl; lia.
  - destruct (leb (deadline _ _) now) eqn:Hd; injection Hstep as <-.
    { split_and!; simpl; [lia..|by right|]. unfold settled in *; simpl; lia. }
    destruct Hon as (u & -> & _ & Hon). specialize (Hon Hc). destruct Ht as (t & Ht & Ht').
    assert (ph_scheduled ph <> k).
    { intros Heq. rewrite Heq, Ht in Hon. rewrite Ht in Hd.
      by rewrite (deadline_before k D t u) in Hd. }
    rewrite settled_schedule by done. unfold schedule.
    destruct (leb limit _); split_and!; simpl; eauto; lia.
  - split_and!; simpl; [lia..|by right|]. unfold settled in *; simpl; lia.
  - split_and!; simpl; [lia..|by right|]. rewrite Hc. simpl. lia.
  - split_and!; simpl; [lia..|by right|]. unfold settled in *; simpl; lia.
Qed.

(** A phase that has not returned or failed takes a next event. *)
Definition goes_on (ph : phase) : Prop :=
  match ph_control ph with
  | Returned _ | Failed _ => True
  | Waiting => is_Some (step TimerFires ph)
  | Draining =>
      if decide (ph_active ph = ∅) then forall now, is_Some (step (Clock now) ph)
      else exists i, i ∈ ph_active ph /\ forall sample, is_Some (step (Settles i sample) ph)
  | _ => forall now, is_Some (step (Clock now) ph)
  end.

Lemma phase_goes_on ph : goes_on ph.
Proof.
  unfold goes_on, runPhase_step. destruct (ph_control ph) eqn:Hc; try done.
  - intros now. destruct (leb _ _); eauto.
  - case_decide as He.
    + intros now. rewrite bool_decide_eq_true_2 by done. eauto.
    + apply set_choose_L in He as [i Hi]. exists i. split; [done|]. intros sample.
      rewrite bool_decide_eq_true_2 by done. eauto.
Qed.

(** C21: A phase whose timers fire at most [early] milliseconds early offers at most its rate: no
    more than [k] requests, where [k] intervals last [early] and one milliseconds longer than
    the phase; and it comes to an end: no execution has more than [4 k + 5] events, and one that
    has not returned or failed always takes a next one: any reading of the clock, a timer, or
    the settlement of a request in flight. *)
Theorem phase_terminates k D :
  0 <= early <= 2 ^ 50 -> 0 <= k ->
  mul duration (of_Z 1000) = Finite D -> 0 <= D <= 2 ^ 50 * one ->
  leb (Finite (D + (early + 1) * one)) (mul (of_Z k) (intervalMs rate)) = true ->
  forall events ph, punctual events ph ->
    ph_scheduled ph <= k /\ Z.of_nat (length events) <= 4 * k + 5 /\
    goes_on ph.
Proof.
  intros He Hk0 Hdur HD Hk events ph Hp.
  destruct (punctual_paced k D events ph He Hk0 Hdur HD Hk Hp) as (Hs & _ & Hl).
  destruct (run_accounted _ _ (punctual_run _ _ Hp)) as [H1 _ H3 H4 _].
  split_and!; [lia| |apply phase_goes_on].
  unfold settled in Hl. destruct (ph_control ph); simpl in Hl; lia.
Qed.

(** ** Behind schedule *)

Definition is_clock (e : event) : bool := match e with Clock _ => true | _ => false end.

Lemma clock_only_settlements events :
  Forall (fun e => is_clock e = true) events -> settlements events = [].
Proof. induction 1 as [|[] events He _ IH]; done. Qed.

Lemma clock_only_in_flight events ph :
  Forall (fun e => is_clock e = true) events -> run events = Some ph ->
  size (ph_active ph) = ph_tasks ph.
Proof.
  intros Hall Hr. destruct (run_accounted _ _ Hr) as [_ _ H3 _ _].
  rewrite clock_only_settlements in H3 by done. simpl in H3.
  unfold size, set_size. simpl. by rewrite H3, length_seq.
Qed.

(** A loop that is behind its schedule never waits, and while it does not wait no request
    can settle: however fast the server answers, only as many requests as the limit are started
    and every other one is counted as dropped because of it. *)
Theorem behind_schedule_drops c events ph :
  limit = Finite (c * one) -> 0 <= c <= 2 ^ 53 -> Forall (fun e => is_clock e = true) events ->
  run events = Some ph ->
  ph_samples ph = [] /\ Z.of_nat (ph_tasks ph) = Z.min c (ph_scheduled ph) /\
  ph_drops ph = ph_scheduled ph - Z.min c (ph_scheduled ph).
Proof.
  intros Hl Hc Hall Hr.
  destruct (run_accounted _ _ Hr) as [H1 H2 _ _ _]. rewrite clock_only_settlements in H2 by done.
  enough (Z.of_nat (ph_tasks ph) = Z.min c (ph_scheduled ph)) by (split_and!; [done|lia|lia]).
  clear H1 H2. revert Hall. revert events ph Hr.
  apply (run_invariant (fun events ph => Forall (fun e => is_clock e = true) events ->
    Z.of_nat (ph_tasks ph) = Z.min c (ph_scheduled ph))); [simpl; lia|].
  intros events ph e ph' Hr IH Hs [Hall He]%Forall_app. specialize (IH Hall).
  apply Forall_singleton in He.
  pose proof (clock_only_in_flight events ph Hall Hr) as Hsize.
  pose proof (run_bounded c events ph Hl Hc Hr) as Hb. pose proof one_pos.
  destruct (run_accounted _ _ Hr) as [H1 _ _ H4 _].
  unfold runPhase_step in Hs. destruct (ph_control ph), e as [now| | |]; try done;
    repeat case_bool_decide; try done; try (injection Hs as <-; done).
  destruct (leb _ now); injection Hs as <-; [done|]. unfold schedule.
  rewrite of_Z_exact, Hl, leb_Finite by lia.
  destruct (Z.leb_spec (c * one) (Z.of_nat (size (ph_active ph)) * one)); simpl; nia.
Qed.

End phase.
