(* ===== verification/LabReportSpec.v ===== *)
(** * The report of the scaling lab: theorems

    The percentiles are those of the nearest rank, in spite of the rounding of doubles; the
    latencies are in order; every scheduled request is counted exactly once; the verdict and
    the exit code say what the thresholds ask. *)
From S2P Require Import Prelude JsStrings Errors JsNumbers ScalingLab ScalingLabSpec LabPhaseSpec.

(** ** Sorting *)

Lemma before_Finite a b : before (Finite a) (Finite b) <-> a <= b.
Proof. unfold before. rewrite of_Z_0, sub_sign, Z.ltb_ge. done. Qed.

#[export] Instance before_total : Total before.
Proof.
  intros x y. unfold before. rewrite of_Z_0.
  destruct x as [|[]|a], y as [|[]|b]; try (by left); try (by right).
  rewrite !sub_sign. destruct (Z.ltb_spec b a); [right|left]; [apply Z.ltb_ge; lia|done].
Qed.

Lemma sorted_values_spec zs :
  exists ys, sorted_values (map Finite zs) = map Finite ys /\ ys ≡ₚ zs /\ Sorted Z.le ys.
Proof.
  pose proof (merge_sort_Permutation before (map Finite zs)) as Hp.
  pose proof (Sorted_merge_sort before (map Finite zs)) as Hs. fold (sorted_values (map Finite zs)) in *.
  destruct (Permutation_map_inv _ _ Hp) as (ys & Hy & Hperm).
  exists ys. split_and!; [done|by symmetry|]. rewrite Hy in Hs. clear -Hs.
  induction ys as [|y ys IH]; [constructor|]. simpl in Hs. inversion_clear Hs as [|? ? Hs' Hh].
  constructor; [by apply IH|]. destruct ys as [|z ys]; [constructor|]. constructor.
  inversion_clear Hh. by apply before_Finite.
Qed.

(** ** The nearest rank *)

(** [ceil (a / b)]. *)
Definition ceil_div (a b : Z) : Z := - (- a / b).

Lemma ceil_div_spec a b : 0 < b -> a <= b * ceil_div a b < a + b.
Proof.
  intros Hb. unfold ceil_div. pose proof (Z.mul_div_le (- a) b Hb).
  pose proof (Z.mul_succ_div_gt (- a) b Hb). lia.
Qed.

Lemma ceil_div_unique a b c : 0 < b -> a <= b * c < a + b -> ceil_div a b = c.
Proof. intros Hb Hc. pose proof (ceil_div_spec a b Hb). nia. Qed.

Lemma ceil_between c z : (c - 1) * one < z <= c * one -> ceil (Finite z) = Finite (c * one).
Proof.
  pose proof one_pos. intros Hz. cbn [ceil]. fold (ceil_div z one).
  rewrite (ceil_div_unique z one c) by lia. done.
Qed.

(** [fraction] is the double of [p / 100], rounded down if at all. *)
Definition hundredths (p : Z) (fraction : number) : Prop :=
  exists F, fraction = Finite F /\ 0 <= F /\ 100 * F <= p * one <= 100 * F + 100 * 2 ^ 1020.

Definition is_hundredths (p : Z) (fraction : number) : bool :=
  match fraction with
  | Finite F => (0 <=? F) && (100 * F <=? p * one) && (p * one <=? 100 * F + 100 * 2 ^ 1020)
  | _ => false
  end.

Lemma is_hundredths_true p fraction : is_hundredths p fraction = true -> hundredths p fraction.
Proof.
  unfold is_hundredths. destruct fraction as [| |F]; [done..|].
  intros [[H1%Z.leb_le H2%Z.leb_le]%andb_true_iff H3%Z.leb_le]%andb_true_iff. by exists F.
Qed.

Lemma half_hundredths : hundredths 50 half.
Proof. apply is_hundredths_true. vm_compute. reflexivity. Qed.
Lemma f95_hundredths : hundredths 95 f95.
Proof. apply is_hundredths_true. vm_compute. reflexivity. Qed.
Lemma f99_hundredths : hundredths 99 f99.
Proof. apply is_hundredths_true. vm_compute. reflexivity. Qed.

(** The fractions of the report. *)
Inductive report_fraction : Z -> number -> Prop :=
| fraction_50 : report_fraction 50 half
| fraction_95 : report_fraction 95 f95
| fraction_99 : report_fraction 99 f99.

(** The product of a fraction and a count, rounded, has the ceiling of the exact one. *)
Lemma product_ceil p fraction n :
  hundredths p fraction -> 0 < p <= 100 -> 1 <= n <= 2 ^ 40 ->
  ceil (mul fraction (of_Z n)) = Finite (ceil_div (p * n) 100 * one).
Proof.
  intros (F & -> & HF0 & HF) Hp Hn. pose proof one_pos as Ho.
  change (2 ^ 40) with 1099511627776 in *.
  pose proof (ceil_div_spec (p * n) 100 ltac:(lia)) as Hc. set (c := ceil_div (p * n) 100) in *.
  assert (Hc0 : 1 <= c <= 1099511627776) by nia.
  rewrite of_Z_exact by lia. unfold mul.
  assert (Hscale : round_nonneg (F * (n * one)) one = round_nonneg (F * n) 1).
  { rewrite <- (round_scale (F * n) 1 one) by lia. f_equal; lia. }
  assert (Hup : round_nonneg (F * n) 1 <= c * one).
  { rewrite <- (round_exact (c * one) 1) by (lia || nia || (apply representable_integer; lia)).
    apply round_mono; nia. }
  assert (H7 : one = 2 ^ 1067 * 128) by (rewrite one_pow2; change 128 with (2 ^ 7); by rewrite <- Z.pow_add_r).
  assert (H20 : 2 ^ 1067 = 2 ^ 1020 * 140737488355328).
  { change 140737488355328 with (2 ^ 47). by rewrite <- Z.pow_add_r. }
  pose proof (pow2_pos 1020 ltac:(lia)) as Hp20.
  assert (Hlow : ((c - 1) * 128 + 1) * 2 ^ 1067 <= round_nonneg (F * n) 1).
  { rewrite <- (round_exact (((c - 1) * 128 + 1) * 2 ^ 1067) 1).
    - apply round_mono; nia.
    - lia.
    - nia.
    - apply (representable_one _ 7); [lia|]. lia. }
  rewrite <- Hscale in Hup, Hlow.
  rewrite (round_finite _ _ (round_nonneg (F * (n * one)) one)).
  - apply ceil_between. nia.
  - done.
  - nia.
  - done.
  - eapply Z.le_lt_trans; [exact Hup|]. pose proof (integer_in_range c ltac:(lia)). lia.
Qed.

Lemma rank_index_exact p fraction n :
  hundredths p fraction -> 0 < p <= 100 -> 1 <= Z.of_nat n <= 2 ^ 40 ->
  rank_index fraction n = Finite ((ceil_div (p * Z.of_nat n) 100 - 1) * one).
Proof.
  intros Hf Hp Hn. unfold rank_index. rewrite (product_ceil p) by done. rewrite of_Z_0, of_Z_1.
  pose proof (ceil_div_spec (p * Z.of_nat n) 100 ltac:(lia)) as Hc.
  set (c := ceil_div (p * Z.of_nat n) 100) in *. pose proof one_pos.
  change (2 ^ 40) with 1099511627776 in *. assert (Hc0 : 1 <= c <= 1099511627776) by nia.
  assert (Hs : sub (Finite (c * one)) (Finite one) = Finite ((c - 1) * one)).
  { change (sub (Finite (c * one)) (Finite one)) with (round (c * one + - one) 1).
    apply round_finite; [lia|nia| |].
    - rewrite <- (Z.mul_1_r (c * one + - one)), round_exact; [lia|lia|nia|].
      replace (c * one + - one) with ((c - 1) * one) by lia. apply representable_integer. lia.
    - pose proof (integer_in_range (c - 1) ltac:(lia)). lia. }
  rewrite Hs. unfold JsNumbers.max. simpl. destruct (Z.ltb_spec 0 ((c - 1) * one)); [done|].
  f_equal. nia.
Qed.

(** The element of rank [k] (from 1): at least [k] values are at most it, and fewer than [k]
    are below it. *)
Definition of_rank (k : Z) (x : Z) (zs : list Z) : Prop :=
  x ∈ zs /\ k <= Z.of_nat (length (List.filter (fun y => y <=? x) zs)) /\
  Z.of_nat (length (List.filter (fun y => y <? x) zs)) < k.

Lemma filter_length_perm (f : Z -> bool) l l' : l ≡ₚ l' -> length (List.filter f l) = length (List.filter f l').
Proof.
  induction 1 as [|x l l' _ IH|x y l|l1 l2 l3 _ IH1 _ IH2]; simpl; [done| | |congruence].
  - destruct (f x); simpl; by rewrite ?IH.
  - by destruct (f x), (f y).
Qed.

Lemma filter_all (f : Z -> bool) l : Forall (fun x => f x = true) l -> List.filter f l = l.
Proof. induction 1 as [|x l Hx _ IH]; simpl; [done|]. by rewrite Hx, IH. Qed.

Lemma filter_length_le (f : Z -> bool) l : (length (List.filter f l) <= length l)%nat.
Proof. induction l as [|x l IH]; simpl; [done|]. destruct (f x); simpl; lia. Qed.

(** The element at an index of a sorted list has the rank after it. *)
Lemma sorted_rank ys i x :
  Sorted Z.le ys -> ys !! i = Some x -> of_rank (Z.of_nat i + 1) x ys.
Proof.
  intros Hs Hi. apply Sorted_StronglySorted in Hs; [|exact Z.le_trans].
  pose proof (take_drop_middle ys i x Hi) as Hys.
  rewrite <- Hys in Hs. apply StronglySorted_app in Hs as (Hlt & _ & Hge).
  assert (Hle : Forall (fun y => y <= x) (take i ys)).
  { apply Forall_forall. intros y Hy. apply Hlt; [done|by left]. }
  inversion_clear Hge as [|? ? _ Hdrop].
  split_and!; [by eapply list_elem_of_lookup_2| |]; rewrite <- Hys, List.filter_app, length_app.
  - rewrite filter_all by (eapply Forall_impl; [exact Hle|]; simpl; intros; lia).
    simpl. rewrite (proj2 (Z.leb_le x x)) by lia. simpl. rewrite length_take.
    apply lookup_lt_Some in Hi. lia.
  - simpl. rewrite (proj2 (Z.ltb_ge x x)) by lia.
    assert (List.filter (fun y => y <? x) (drop (S i) ys) = []) as ->.
    { clear -Hdrop. induction Hdrop as [|y l Hy _ IH]; simpl; [done|].
      by rewrite (proj2 (Z.ltb_ge y x)). }
    simpl. pose proof (filter_length_le (fun y => y <? x) (take i ys)) as Hf.
    rewrite length_take in Hf. lia.
Qed.

Lemma of_rank_perm k x l l' : l ≡ₚ l' -> of_rank k x l -> of_rank k x l'.
Proof.
  intros Hp (Hx & H1 & H2). split_and!; [by rewrite <- Hp|..];
    by rewrite <- (filter_length_perm _ _ _ Hp).
Qed.

(** A higher rank has a value at least as great. *)
Lemma of_rank_le k k' x y l : of_rank k x l -> of_rank k' y l -> k <= k' -> x <= y.
Proof.
  intros (_ & _ & H2) (_ & H1 & _) Hk. destruct (Z.le_gt_cases x y) as [|Hlt]; [done|exfalso].
  assert (length (List.filter (fun z => (z <=? y)%Z) l) <= length (List.filter (fun z => (z <? x)%Z) l))%nat; [|lia].
  clear -Hlt. induction l as [|z l IH]; simpl; [done|].
  destruct (Z.leb_spec z y), (Z.ltb_spec z x); simpl; lia.
Qed.

(** ** Two decimals *)

(** Hundredths, rounded half up. *)
Definition hundredths_of (z : Z) : Z := (2 * z * 100 + one) / (2 * one).

Lemma hundredths_mono x y : x <= y -> hundredths_of x <= hundredths_of y.
Proof. pose proof one_pos. intros. apply Z.div_le_mono; lia. Qed.

Lemma fixed_text_numeral n : 0 <= n ->
  Number (text (fixed_text 2 n)) = decimal n (-2).
Proof.
  intros Hn. unfold fixed_text. destruct (digits_spec n Hn) as (Hd & Hv & Hne).
  set (ds := zeros (2 + 1 - Z.of_nat (length (digits n))) ++ digits n).
  assert (Hds : Forall (fun a => is_digit a = true) ds).
  { apply Forall_app. split; [apply zeros_digits|done]. }
  assert (Hlen : (3 <= length ds)%nat).
  { unfold ds, zeros. rewrite length_app, length_replicate. lia. }
  assert (Hval : digits_value ds = n).
  { unfold ds. rewrite digits_value_app, digits_value_zeros. lia. }
  change (Z.to_nat 2) with 2%nat. change (2 =? 0) with false. cbv iota. clearbody ds.
  destruct ds as [|d ds]; [simpl in Hlen; lia|]. inversion_clear Hds.
  destruct (length (d :: ds) - 2)%nat as [|i] eqn:Hi; [simpl in *; lia|].
  destruct (pointed_numeral d ds H H0 i) as [Hu Ht]; [simpl in *; lia|].
  rewrite Number_numeral by done. rewrite Hu, Hval. f_equal. simpl in *. lia.
Qed.

(** A latency of the report: finite, not negative, and printed without an exponent. *)
Definition printable_latency (z : Z) : Prop := 0 <= z < 10 ^ 21 * one.

Lemma fixed2_eq z : printable_latency z -> fixed2 (Finite z) = decimal (hundredths_of z) (-2).
Proof.
  pose proof one_pos. intros [H0 Hb]. unfold fixed2, toFixed.
  rewrite (Z.abs_eq z), (proj2 (Z.leb_gt _ _)), (proj2 (Z.ltb_ge _ _)) by done.
  rewrite app_nil_l. apply fixed_text_numeral. apply Z.div_pos; [|lia].
  change (10 ^ 2) with 100. lia.
Qed.

Lemma decimal_mono m n : 0 <= m <= n -> leb (decimal m (-2)) (decimal n (-2)) = true.
Proof.
  pose proof one_pos. intros Hmn. change (decimal ?a (-2)) with (round (a * one) 100).
  unfold round. rewrite !Z.abs_eq by nia.
  pose proof (round_mono (m * one) (n * one) 100 ltac:(lia) ltac:(nia) ltac:(nia)) as Hm.
  pose proof (round_nonneg_nonneg (m * one) 100 ltac:(lia) ltac:(nia)) as Hm0.
  rewrite !(proj2 (Z.ltb_ge _ _)) by nia.
  destruct (Z.leb_spec too_large (round_nonneg (m * one) 100)),
    (Z.leb_spec too_large (round_nonneg (n * one) 100)); simpl; try done; [lia|].
  rewrite negb_true_iff, Z.ltb_ge. pose proof (Z.sgn_spec (m * one)). pose proof (Z.sgn_spec (n * one)).
  nia.
Qed.

Lemma fixed2_mono x y :
  printable_latency x -> printable_latency y -> x <= y ->
  leb (fixed2 (Finite x)) (fixed2 (Finite y)) = true.
Proof.
  pose proof one_pos. intros Hx Hy Hxy. rewrite !fixed2_eq by done. apply decimal_mono. split.
  - apply Z.div_pos; unfold printable_latency in *; lia.
  - by apply hundredths_mono.
Qed.

Lemma nearest_rank_shown zs p fraction :
  report_fraction p fraction ->
  1 <= Z.of_nat (length zs) <= 2 ^ 40 -> Forall printable_latency zs ->
  exists x, of_rank (ceil_div (p * Z.of_nat (length zs)) 100) x zs /\
    percentile (map Finite zs) fraction = Some (decimal (hundredths_of x) (-2)).
Proof.
  intros Hp Hn Hz.
  assert (Hf : hundredths p fraction /\ 0 < p <= 100).
  { destruct Hp; (split; [|lia]).
    - apply half_hundredths.
    - apply f95_hundredths.
    - apply f99_hundredths. }
  destruct Hf as [Hf Hp'].
  pose proof (ceil_div_spec (p * Z.of_nat (length zs)) 100 ltac:(lia)) as Hc.
  set (c := ceil_div (p * Z.of_nat (length zs)) 100) in *.
  assert (Hc' : 1 <= c <= Z.of_nat (length zs)) by nia.
  destruct (sorted_values_spec zs) as (ys & Hys & Hperm & Hs).
  assert (Hlen : length ys = length zs) by by rewrite Hperm.
  destruct (ys !! Z.to_nat (c - 1)) as [x|] eqn:Hx.
  2:{ apply lookup_ge_None in Hx. lia. }
  assert (Hr : of_rank c x zs).
  { eapply of_rank_perm; [exact Hperm|]. pose proof (sorted_rank ys _ x Hs Hx) as Hr.
    by replace (Z.of_nat (Z.to_nat (c - 1)) + 1) with c in Hr by lia. }
  exists x. split; [done|].
  assert (Hpx : printable_latency x) by (destruct Hr as [Hin _]; by eapply Forall_forall).
  pose proof one_pos. unfold percentile. destruct zs as [|z zs]; [simpl in Hn; lia|].
  change (map Finite (z :: zs)) with (Finite z :: map Finite zs) at 1. cbv iota.
  rewrite Hys, length_map, (rank_index_exact p) by done. fold c. unfold at_index.
  rewrite (proj2 (Z.leb_le _ _)) by nia. rewrite Z.mod_mul, Z.div_mul by lia. simpl.
  rewrite list_lookup_fmap, Hx. simpl. f_equal. by apply fixed2_eq.
Qed.

(** C24: The percentiles are those of the nearest rank. For up to 2^40 finite latencies, and for
    each of the three fractions of the report, the rounding of [fraction * n] notwithstanding,
    [percentile] shows (with two decimals, rounded half up) a latency [x] such that at least
    [ceil (p n / 100)] of the latencies are at most [x] and fewer than that are below it. *)
Theorem percentile_nearest_rank zs p fraction :
  report_fraction p fraction ->
  1 <= Z.of_nat (length zs) <= 2 ^ 40 -> Forall printable_latency zs ->
  exists x, of_rank (ceil_div (p * Z.of_nat (length zs)) 100) x zs /\
    percentile (map Finite zs) fraction = Some (decimal (hundredths_of x) (-2)).
Proof. apply nearest_rank_shown. Qed.

(** ** The latencies of the report are in order *)

Lemma fold_min zs m : exists r, foldl JsNumbers.min (Finite m) (map Finite zs) = Finite r /\
  r ∈ m :: zs /\ Forall (fun y => r <= y) (m :: zs).
Proof.
  revert m. induction zs as [|z zs IH]; intros m; simpl.
  { exists m. split_and!; [done|by left|by repeat constructor]. }
  destruct (Z.ltb_spec z m) as [Hlt|Hge].
  - destruct (IH z) as (r & -> & Hin & Hall). exists r. split_and!; [done|set_solver|].
    apply Forall_cons in Hall as [? ?]. repeat constructor; [lia|lia|done].
  - destruct (IH m) as (r & -> & Hin & Hall). exists r. split_and!; [done|set_solver|].
    apply Forall_cons in Hall as [? ?]. repeat constructor; [lia|lia|done].
Qed.

Lemma fold_max zs m : exists r, foldl JsNumbers.max (Finite m) (map Finite zs) = Finite r /\
  r ∈ m :: zs /\ Forall (fun y => y <= r) (m :: zs).
Proof.
  revert m. induction zs as [|z zs IH]; intros m; simpl.
  { exists m. split_and!; [done|by left|by repeat constructor]. }
  destruct (Z.ltb_spec m z) as [Hlt|Hge].
  - destruct (IH z) as (r & -> & Hin & Hall). exists r. split_and!; [done|set_solver|].
    apply Forall_cons in Hall as [? ?]. repeat constructor; [lia|lia|done].
  - destruct (IH m) as (r & -> & Hin & Hall). exists r. split_and!; [done|set_solver|].
    apply Forall_cons in Hall as [? ?]. repeat constructor; [lia|lia|done].
Qed.

(** [x <= y], of numbers the report may not have. *)
Definition in_order (x y : option number) : Prop :=
  match x, y with Some a, Some b => leb a b = true | _, _ => False end.

Lemma percentile_shown zs p fraction :
  report_fraction p fraction -> 1 <= Z.of_nat (length zs) <= 2 ^ 40 -> Forall printable_latency zs ->
  exists x, of_rank (ceil_div (p * Z.of_nat (length zs)) 100) x zs /\ x ∈ zs /\ printable_latency x /\
    percentile (map Finite zs) fraction = Some (fixed2 (Finite x)).
Proof.
  intros Hp Hn Hz. destruct (nearest_rank_shown zs p fraction Hp Hn Hz) as (x & Hr & He).
  assert (Hx : x ∈ zs) by apply Hr. assert (Hpx : printable_latency x) by by eapply Forall_forall.
  exists x. by rewrite fixed2_eq.
Qed.

Lemma ceil_div_mono a b c : 0 < c -> a <= b -> ceil_div a c <= ceil_div b c.
Proof. intros. pose proof (ceil_div_spec a c). pose proof (ceil_div_spec b c). nia. Qed.

(** The latencies of a report are in order: min <= p50 <= p95 <= p99 <= max, after their
    rounding to two decimals, for any samples. *)
Theorem latencies_in_order l zs :
  map durationMs l = map Finite zs -> 1 <= Z.of_nat (length zs) <= 2 ^ 40 ->
  Forall printable_latency zs ->
  let s := latencySummary l in
  in_order (min s) (p50 s) /\ in_order (p50 s) (p95 s) /\ in_order (p95 s) (p99 s) /\
  in_order (p99 s) (max s).
Proof.
  intros Hl Hn Hz. unfold latencySummary. rewrite Hl.
  destruct (percentile_shown zs 50 half fraction_50 Hn Hz) as (x50 & R50 & I50 & P50 & E50).
  destruct (percentile_shown zs 95 f95 fraction_95 Hn Hz) as (x95 & R95 & I95 & P95 & E95).
  destruct (percentile_shown zs 99 f99 fraction_99 Hn Hz) as (x99 & R99 & I99 & P99 & E99).
  destruct zs as [|z zs]; [simpl in Hn; lia|].
  change (map Finite (z :: zs)) with (Finite z :: map Finite zs) in *. cbv iota.
  cbn [min p50 p95 p99 max foldl JsNumbers.min JsNumbers.max ltb]. rewrite E50, E95, E99.
  destruct (fold_min zs z) as (lo & -> & Ilo & Hlo). destruct (fold_max zs z) as (hi & -> & Ihi & Hhi).
  rewrite Forall_forall in Hlo, Hhi, Hz. split_and!; apply fixed2_mono; auto.
  - eapply of_rank_le; [done..|]. apply ceil_div_mono; lia.
  - eapply of_rank_le; [done..|]. apply ceil_div_mono; lia.
Qed.

(** ** Every request is counted once *)

(** A sample has a status or an error, and not both. *)
Definition sample_ok (sample : RequestSample) : Prop :=
  match status sample, error sample with Some _, None | None, Some _ => True | _, _ => False end.

Lemma executeRequest_ok config token uuid fetch started finished :
  sample_ok (executeRequest config token uuid fetch started finished).
Proof. unfold executeRequest. by destruct (fetch _ _). Qed.

Lemma count_cons p x l : count p (x :: l) = (if p x then 1 else 0) + count p l.
Proof. unfold count. simpl. destruct (p x); simpl; lia. Qed.

Lemma samples_partition l : Forall sample_ok l ->
  Z.of_nat (length l) = count is_success l + count is_http_failure l +
    count (has_error network) l + count (has_error timeout) l.
Proof.
  induction 1 as [|x l Hx _ IH]; [done|]. rewrite !count_cons. simpl length.
  unfold sample_ok, is_success, is_http_failure, has_error in *.
  destruct (status x) as [s|], (error x) as [[]|]; try done; repeat case_bool_decide; try done.
  - destruct (Z.leb_spec 200 s), (Z.ltb_spec s 400), (Z.ltb_spec s 200), (Z.leb_spec 400 s); simpl; lia.
  - lia.
  - lia.
Qed.

Definition has_status (s : Z) (sample : RequestSample) : bool := bool_decide (status sample = Some s).

Lemma count_statuses l codes s :
  default 0 (foldl count_status codes l !! s) = default 0 (codes !! s) + count (has_status s) l.
Proof.
  revert codes. induction l as [|x l IH]; intros codes; [unfold count; simpl; lia|].
  simpl. rewrite IH, count_cons. unfold count_status, has_status.
  destruct (status x) as [s'|]; [|rewrite bool_decide_eq_false_2 by done; lia].
  destruct (decide (s' = s)) as [->|Hne].
  - rewrite lookup_insert_eq, bool_decide_eq_true_2 by done. simpl. lia.
  - rewrite lookup_insert_ne, bool_decide_eq_false_2 by congruence. lia.
Qed.

(** The report of a phase counts every request exactly once: each scheduled one succeeded,
    failed over HTTP, failed in the network, timed out or was dropped, and each status code has
    the number of its responses. *)
Theorem report_accounts config duration rate limit events ph r :
  runPhase duration rate limit events = Some ph -> ph_control ph = Returned r ->
  Forall sample_ok (map snd (settlements events)) ->
  let report := summarize config r in
  let t := traffic report in
  t_scheduled t = completed t + t_drops t /\
  completed t = successful t + httpFailures t + networkFailures t + timeouts t /\
  forall s, default 0 (statusCodes report !! s) = count (has_status s) (map snd (settlements events)).
Proof.
  intros Hrun Hret Hok. destruct (run_accounted duration rate limit _ _ Hrun) as [H1 H2 H3 H4 H5].
  destruct (H5 r Hret) as (Ha & Hs & Hsched & Hd). rewrite Ha, elements_empty, app_nil_r in H3.
  cbn. rewrite Hs, H2, Hsched, Hd. split_and!.
  - rewrite H1, <- (length_seq (ph_tasks ph) 0), <- H3, !length_map. lia.
  - by rewrite samples_partition.
  - intros s. rewrite count_statuses, lookup_empty. simpl. lia.
Qed.

(** ** The verdict *)

(** The fraction of the requests completed that failed, as the report computes it. *)
Definition error_rate (r : PhaseResult) : number :=
  let failed := count is_http_failure (samples r) + count (has_error network) (samples r) +
    count (has_error timeout) (samples r) in
  if Z.of_nat (length (samples r)) =? 0 then of_Z 1
  else div (of_Z failed) (of_Z (Z.of_nat (length (samples r)))).

(** What the thresholds ask: a p99 of the successful requests that does not exceed the one
    given, a rate of errors that does not exceed the one given, and no dropped request. *)
Definition meets (config : LabConfig) (r : PhaseResult) : Prop :=
  (forall slo, sloP99Ms config = Some slo ->
     exists x, p99 (latencySummary (List.filter is_success (samples r))) = Some x /\ ltb slo x = false) /\
  (forall m, maxErrorRate config = Some m -> ltb m (error_rate r) = false) /\
  clientBackpressureDrops r <= 0.

Lemma slo_met config lat :
  slo_failure config lat = [] <->
  forall slo, sloP99Ms config = Some slo -> exists x, p99 lat = Some x /\ ltb slo x = false.
Proof.
  unfold slo_failure. destruct (sloP99Ms config) as [slo|]; [|done].
  destruct (p99 lat) as [x|]; [destruct (ltb slo x) eqn:Hx|]; split; try done.
  - intros H. destruct (H slo eq_refl) as (y & [= <-] & Hy). congruence.
  - intros _ ? [= <-]. eauto.
  - intros H. by destruct (H slo eq_refl) as (y & ? & _).
Qed.

Lemma error_rate_met config rate :
  error_rate_failure config rate = [] <->
  forall m, maxErrorRate config = Some m -> ltb m rate = false.
Proof.
  unfold error_rate_failure. destruct (maxErrorRate config) as [m|]; [|done].
  destruct (ltb m rate) eqn:Hm; split; try done.
  - intros H. by rewrite (H m eq_refl) in Hm.
  - by intros _ ? [= <-].
Qed.

Lemma drops_met drops : drop_failure drops = [] <-> drops <= 0.
Proof. unfold drop_failure. destruct (Z.ltb_spec 0 drops); split; intros; (done || lia). Qed.

Lemma passed_meets config r : passed (summarize config r) = true <-> meets config r.
Proof.
  unfold summarize. cbn [passed]. rewrite bool_decide_eq_true.
  change (if _ =? 0 then _ else _) with (error_rate r).
  unfold meets. rewrite <- slo_met, <- error_rate_met, <- drops_met. split.
  - by intros [? [? ?]%app_eq_nil]%app_eq_nil.
  - by intros (-> & -> & ->).
Qed.

Section main.
Context {UP : UrlParser} {CO : Collation} {ET : ErrorText}.

(** The exit code. 1 when the command line is refused or a phase throws, with nothing on
    the standard output; 0 for the help; otherwise the measured phase has returned, and the code
    is 0 if its result meets the thresholds and 2 if it does not. *)
Theorem exit_code argv env warmup_events events p :
  main argv env warmup_events events = Some p ->
  (exitCode p = 1 /\ stdout p = [] /\
     ((exists e, parseArgs argv env = Err e) \/
      exists c e, parseArgs argv env = Ok (Config c) /\
        (phase_end c (warmupSeconds c) warmup_events = Some (Err e) \/
         phase_end c (durationSeconds c) events = Some (Err e)))) \/
  (exitCode p = 0 /\ stdout p = [Line USAGE] /\ parseArgs argv env = Ok Help) \/
  (exists c r, parseArgs argv env = Ok (Config c) /\
     phase_end c (durationSeconds c) events = Some (Ok r) /\
     (exitCode p = 0 <-> meets c r) /\ (exitCode p = 2 <-> ~ meets c r)).
Proof.
  unfold main. destruct (parseArgs argv env) as [[|c]|e] eqn:Hp.
  - intros [= <-]. right. by left.
  - destruct (if ltb _ _ then _ else _) as [w|] eqn:Hw; [|done].
    change (Some w ≫= ?f) with (f w). cbv beta. destruct w as [w|e].
    2:{ intros [= <-]. left. split_and!; [done..|]. right. exists c, e. split; [done|]. left.
        by destruct (ltb _ _). }
    destruct (phase_end c (durationSeconds c) events) as [[r|e]|] eqn:He; [| |done].
    + intros [= <-]. right. right. exists c, r. split_and!; [done..| |]; rewrite <- passed_meets; cbn [conclude exitCode];
        destruct (passed (summarize c r)); split; intros; done || congruence.
    + intros [= <-]. left. split_and!; [done..|]. right. exists c, e. auto.
  - intros [= <-]. left. split_and!; [done..|]. left. by exists e.
Qed.

End main.
