(* ===== verification/Effects.v ===== *)
(** * Effects: transactions, programs, and their interleavings

    The services are [async] functions: between two [await]s of the same request any
    other request may run. A database statement or a [$transaction] callback is one
    atomic step of the shared state, a [tx]: it returns a value and the new state, or it
    throws, and then nothing of it is kept. A handler is a [prog]: a tree of such
    steps, with what it does on each value and on each exception.

    [run] executes a program alone; [perform] executes one scheduler action on a
    set of running programs (start a request, run one step of one of them, make a step
    fail before it commits, lose the answer of a step that has committed, kill a
    program, let the environment move). [guarded] is the rely/guarantee judgement whose
    soundness, [guarded_sound], carries a relation between consecutive states from each
    program to every interleaving. *)
From S2P Require Import Prelude Errors.

(** ** Transactions *)

Definition tx (S A : Type) : Type := S -> result (A * S).

#[export] Instance tx_ret (S : Type) : MRet (tx S) := fun A a s => Ok (a, s).
#[export] Instance tx_bind (S : Type) : MBind (tx S) := fun A B f m s =>
  match m s with
  | Ok (a, s') => f a s'
  | Err e => Err e
  end.

Definition tx_throw {S A : Type} (e : exn) : tx S A := fun _ => Err e.
Definition tx_gets {S A : Type} (f : S -> A) : tx S A := fun s => Ok (f s, s).

(** ** Programs *)

Inductive prog (S A : Type) : Type :=
| Ret (a : A)
| Throw (e : exn)
| Step {B : Type} (m : tx S B) (k : result B -> prog S A).
Arguments Ret {S A} a.
Arguments Throw {S A} e.
Arguments Step {S A B} m k.

Fixpoint prog_then {S A B : Type} (f : A -> prog S B) (p : prog S A) : prog S B :=
  match p with
  | Ret a => f a
  | Throw e => Throw e
  | Step m k => Step m (fun r => prog_then f (k r))
  end.

#[export] Instance prog_ret (S : Type) : MRet (prog S) := fun A => Ret.
#[export] Instance prog_bind (S : Type) : MBind (prog S) := fun A B => prog_then.
#[export] Instance prog_fmap (S : Type) : FMap (prog S) := fun A B f =>
  prog_then (fun a => Ret (f a)).

(** [await] of one atomic step: its exception propagates. *)
Definition await {S A : Type} (m : tx S A) : prog S A :=
  Step m (fun r => match r with Ok a => Ret a | Err e => Throw e end).

(** [try { p } catch (e) { h e }]. *)
Fixpoint try_catch {S A : Type} (p : prog S A) (h : exn -> prog S A) : prog S A :=
  match p with
  | Ret a => Ret a
  | Throw e => h e
  | Step m k => Step m (fun r => try_catch (k r) h)
  end.

(** A program run alone, to its end. *)
Fixpoint run {S A : Type} (p : prog S A) (s : S) : result A * S :=
  match p with
  | Ret a => (Ok a, s)
  | Throw e => (Err e, s)
  | Step m k =>
      match m s with
      | Ok (b, s') => run (k (Ok b)) s'
      | Err e => run (k (Err e)) s
      end
  end.

(** [for (const x of xs) await f(x)]. *)
Fixpoint for_each {S A : Type} (f : A -> prog S unit) (xs : list A) : prog S unit :=
  match xs with
  | [] => Ret tt
  | x :: xs => prog_then (fun _ => for_each f xs) (f x)
  end.

(** ** Interleavings *)

Section system.
Context {S A : Type}.

Record config := mkConfig { shared : S; threads : list (prog S A) }.

(** One action of the scheduler. *)
Inductive action : Type :=
| Spawn (p : prog S A)
| Run (i : nat)
| Fault (i : nat) (e : exn)
| LoseAnswer (i : nat) (e : exn)
| Crash (i : nat)
| Environment (s' : S).

Definition perform (a : action) (c : config) : option config :=
  match a with
  | Spawn p => Some (mkConfig (shared c) (threads c ++ [p]))
  | Run i =>
      match threads c !! i with
      | Some (Step m k) =>
          match m (shared c) with
          | Ok (b, s') => Some (mkConfig s' (<[i := k (Ok b)]> (threads c)))
          | Err e => Some (mkConfig (shared c) (<[i := k (Err e)]> (threads c)))
          end
      | _ => None
      end
  | Fault i e =>
      match threads c !! i with
      | Some (Step m k) => Some (mkConfig (shared c) (<[i := k (Err e)]> (threads c)))
      | _ => None
      end
  | LoseAnswer i e =>
      match threads c !! i with
      | Some (Step m k) =>
          match m (shared c) with
          | Ok (_, s') => Some (mkConfig s' (<[i := k (Err e)]> (threads c)))
          | Err _ => None
          end
      | _ => None
      end
  | Crash i =>
      match threads c !! i with
      | Some _ => Some (mkConfig (shared c) (delete i (threads c)))
      | None => None
      end
  | Environment s' => Some (mkConfig s' (threads c))
  end.

Fixpoint perform_all (l : list action) (c : config) : option config :=
  match l with
  | [] => Some c
  | a :: l => perform a c ≫= perform_all l
  end.

Variable admissible : S -> prog S A -> Prop.
Variable env : S -> S -> Prop.

(** Which programs may be started, and how the environment may move. *)
Definition allowed (a : action) (c : config) : Prop :=
  match a with
  | Spawn p => admissible (shared c) p
  | Environment s' => env (shared c) s'
  | _ => True
  end.

Inductive sys_step (c c' : config) : Prop :=
| SysStep a : allowed a c -> perform a c = Some c' -> sys_step c c'.

Inductive reachable (s0 : S) : config -> Prop :=
| reach_init : reachable s0 (mkConfig s0 [])
| reach_step c c' : reachable s0 c -> sys_step c c' -> reachable s0 c'.

(** *** Rely/guarantee

    [guarded R G p I]: started in a state of [I], and in whatever way the others move the
    state within [R], every step [p] takes relates the states around it by [G]. *)
Definition stable (E : S -> S -> Prop) (I : S -> Prop) : Prop :=
  forall s s', I s -> E s s' -> I s'.

End system.
Arguments config : clear implicits.
Arguments action : clear implicits.

Fixpoint guarded {S A : Type} (R G : S -> S -> Prop) (p : prog S A) (I : S -> Prop) : Prop :=
  match p with
  | Ret _ | Throw _ => True
  | @Step _ _ B m k =>
      exists J : B -> S -> Prop,
        stable R I /\ (forall b, stable R (J b)) /\
        (forall s b s', I s -> m s = Ok (b, s') -> G s s' /\ J b s') /\
        (forall b, guarded R G (k (Ok b)) (J b)) /\
        (forall e, guarded R G (k (Err e)) I)
  end.

(** ** Laws of the two monads *)

Section laws.
Context {S : Type}.

Lemma tx_bind_Ok {A B : Type} (m : tx S A) (f : A -> tx S B) s r :
  (m ≫= f) s = Ok r <-> exists a s', m s = Ok (a, s') /\ f a s' = Ok r.
Proof.
  unfold mbind, tx_bind. split.
  - destruct (m s) as [[a s']|e]; [eauto|done].
  - by intros (a & s' & -> & ?).
Qed.

Lemma tx_bind_Err {A B : Type} (m : tx S A) (f : A -> tx S B) s e :
  (m ≫= f) s = Err e <->
  m s = Err e \/ exists a s', m s = Ok (a, s') /\ f a s' = Err e.
Proof.
  unfold mbind, tx_bind. split.
  - destruct (m s) as [[a s']|e']; intros; simplify_eq; [right; by exists a, s'|by left].
  - by intros [-> | (a & s' & -> & ?)].
Qed.

Lemma tx_bind_eq {A B : Type} (m : tx S A) (f : A -> tx S B) s a s' :
  m s = Ok (a, s') -> (m ≫= f) s = f a s'.
Proof. unfold mbind, tx_bind. by intros ->. Qed.

Lemma tx_bind_throws {A B : Type} (m : tx S A) (f : A -> tx S B) s e :
  m s = Err e -> (m ≫= f) s = Err e.
Proof. unfold mbind, tx_bind. by intros ->. Qed.

(** Running a sequence runs its parts one after the other. *)
Lemma run_bind {A B : Type} (p : prog S A) (f : A -> prog S B) s :
  run (p ≫= f) s =
  match run p s with
  | (Ok a, s') => run (f a) s'
  | (Err e, s') => (Err e, s')
  end.
Proof.
  unfold mbind, prog_bind. revert s.
  induction p as [a|e|C m k IH]; intros s; simpl; [done..|].
  destruct (m s) as [[b s']|e]; apply IH.
Qed.

Lemma run_try_catch {A : Type} (p : prog S A) h s :
  run (try_catch p h) s =
  match run p s with
  | (Ok a, s') => (Ok a, s')
  | (Err e, s') => run (h e) s'
  end.
Proof.
  revert s. induction p as [a|e|C m k IH]; intros s; simpl; [done| |].
  - by destruct (run (h e) s).
  - destruct (m s) as [[b s']|e]; apply IH.
Qed.

Lemma run_await {A : Type} (m : tx S A) s :
  run (await m) s =
  match m s with Ok (a, s') => (Ok a, s') | Err e => (Err e, s) end.
Proof. simpl. by destruct (m s) as [[a s']|e]. Qed.

Lemma run_await_then {A B : Type} (m : tx S A) (f : A -> prog S B) s a s' :
  m s = Ok (a, s') -> run (await m ≫= f) s = run (f a) s'.
Proof. intros Hm. by rewrite run_bind, run_await, Hm. Qed.

(** A program run alone is one of its schedules: it reaches the result [run] gives. *)
Lemma run_is_schedule {A : Type} (p : prog S A) s :
  exists n, perform_all (replicate n (Run 0)) (mkConfig s [p]) =
    Some (match run p s with
          | (Ok a, s') => mkConfig s' [Ret a]
          | (Err e, s') => mkConfig s' [Throw e]
          end).
Proof.
  revert s. induction p as [a|e|C m k IH]; intros s; [by exists O..|].
  destruct (m s) as [[b s']|e] eqn:Hm.
  - destruct (IH (Ok b) s') as [n Hn]. exists (Datatypes.S n). simpl. rewrite Hm. exact Hn.
  - destruct (IH (Err e) s) as [n Hn]. exists (Datatypes.S n). simpl. rewrite Hm. exact Hn.
Qed.

End laws.

(** ** Soundness of the judgement *)

(** A program is covered in a state when an assertion that holds there guards it. *)
Section coverage.
Context {S A : Type} (R G : S -> S -> Prop).
Implicit Types (p : prog S A) (c : config S A).

Definition covered_by (s : S) p : Prop := exists I : S -> Prop, I s /\ guarded R G p I.

Lemma guarded_covered_by s p (I : S -> Prop) : guarded R G p I -> I s -> covered_by s p.
Proof. intros; by exists I. Qed.

Lemma finished_covered_by s p : (forall B (m : tx S B) k, p <> Step m k) -> covered_by s p.
Proof.
  intros Hp. exists (fun _ => True). split; [done|].
  destruct p as [| |B m k]; [done..|]. by destruct (Hp B m k).
Qed.

Lemma covered_by_mono s s' p : covered_by s p -> R s s' -> covered_by s' p.
Proof.
  intros (I & HI & Hg) HR. destruct p as [a|e|B m k].
  - by apply finished_covered_by.
  - by apply finished_covered_by.
  - exists I. split; [|done]. destruct Hg as (J & Hst & _). by eapply Hst.
Qed.

Lemma covered_by_fault s B (m : tx S B) k e :
  covered_by s (Step m k) -> covered_by s (k (Err e)).
Proof. intros (I & HI & J & _ & _ & _ & _ & He). by exists I. Qed.

Lemma covered_by_commit s s' B (m : tx S B) k b :
  covered_by s (Step m k) -> m s = Ok (b, s') -> G s s' /\ covered_by s' (k (Ok b)).
Proof.
  intros (I & HI & J & _ & _ & Hm & Hk & _) Hs.
  destruct (Hm _ _ _ HI Hs). split; [done|]. by exists (J b).
Qed.

Hypothesis R_refl : forall s, R s s.
Hypothesis G_refl : forall s, G s s.
Hypothesis G_R : forall s s', G s s' -> R s s'.

(** What may come from outside: a covered program, a move of the environment within [R]. *)
Definition welcome (a : action S A) c : Prop :=
  match a with
  | Spawn p => covered_by (shared c) p
  | Environment s' => R (shared c) s'
  | _ => True
  end.

Lemma perform_covered_by a c c' :
  Forall (covered_by (shared c)) (threads c) -> welcome a c -> perform a c = Some c' ->
  R (shared c) (shared c') /\ Forall (covered_by (shared c')) (threads c') /\
  match a with Environment _ => True | _ => G (shared c) (shared c') end.
Proof.
  intros Hall Hw Hp.
  assert (Hmono : forall s', R (shared c) s' -> Forall (covered_by s') (threads c)).
  { intros s' HR. eapply Forall_impl; [exact Hall|]. intros; by eapply covered_by_mono. }
  destruct a as [p|i|i e|i e|i|s']; simpl in *.
  - simplify_eq. split_and!; [done| |done]. apply Forall_app. split; [done|].
    by constructor.
  - destruct (threads c !! i) as [[| |B m k]|] eqn:Hi; simplify_eq.
    pose proof (Forall_lookup_1 _ _ _ _ Hall Hi) as Hc.
    destruct (m (shared c)) as [[b s']|e] eqn:Hm; simplify_eq; simpl.
    + destruct (covered_by_commit _ _ _ _ _ _ Hc Hm). split_and!; [auto| |done].
      apply Forall_insert; eauto.
    + split_and!; [done| |done]. apply Forall_insert; eauto using covered_by_fault.
  - destruct (threads c !! i) as [[| |B m k]|] eqn:Hi; simplify_eq; simpl.
    pose proof (Forall_lookup_1 _ _ _ _ Hall Hi) as Hc.
    split_and!; [done| |done]. apply Forall_insert; eauto using covered_by_fault.
  - destruct (threads c !! i) as [[| |B m k]|] eqn:Hi; simplify_eq.
    pose proof (Forall_lookup_1 _ _ _ _ Hall Hi) as Hc.
    destruct (m (shared c)) as [[b s']|e'] eqn:Hm; simplify_eq; simpl.
    destruct (covered_by_commit _ _ _ _ _ _ Hc Hm) as [HG _]. split_and!; [auto| |done].
    apply Forall_insert; eauto using covered_by_fault, covered_by_mono.
  - destruct (threads c !! i) eqn:Hi; simplify_eq; simpl.
    split_and!; [done| |done]. by apply Forall_delete.
  - simplify_eq; simpl. eauto.
Qed.

End coverage.

Section soundness.
Context {S A : Type} (E : S -> S -> Prop).
Implicit Types (p : prog S A) (c : config S A).

Definition covered (s : S) p : Prop := covered_by E E s p.

Lemma guarded_covered s p (I : S -> Prop) : guarded E E p I -> I s -> covered s p.
Proof. apply guarded_covered_by. Qed.

Variable admissible : S -> prog S A -> Prop.
Variable env : S -> S -> Prop.
Variable Inv : S -> Prop.
Hypothesis E_refl : forall s, E s s.
Hypothesis env_E : forall s s', env s s' -> E s s'.
Hypothesis Inv_E : stable E Inv.
Hypothesis admissible_covered : forall s p, Inv s -> admissible s p -> covered s p.

Lemma perform_covered a c c' :
  Inv (shared c) -> Forall (covered (shared c)) (threads c) ->
  allowed admissible env a c -> perform a c = Some c' ->
  E (shared c) (shared c') /\ Forall (covered (shared c')) (threads c').
Proof.
  intros HInv Hall Hallow Hp.
  destruct (perform_covered_by E E E_refl E_refl (fun _ _ H => H) a c c') as (? & ? & _); try done.
  destruct a; simpl in *; auto. by apply admissible_covered.
Qed.

Lemma reachable_covered s0 c :
  Inv s0 -> reachable admissible env s0 c ->
  Inv (shared c) /\ Forall (covered (shared c)) (threads c).
Proof.
  intros H0. induction 1 as [|c c' _ [HI IH] [a Ha Hp]]; [split; [done|constructor]|].
  destruct (perform_covered a c c' HI IH Ha Hp). split; [by eapply Inv_E|done].
Qed.

(** Between two consecutive states of an execution, [E] holds. *)
Lemma guarded_sound s0 c c' :
  Inv s0 -> reachable admissible env s0 c -> sys_step admissible env c c' ->
  E (shared c) (shared c').
Proof.
  intros H0 Hr [a Ha Hp]. destruct (reachable_covered _ _ H0 Hr). by eapply perform_covered.
Qed.

(** What the initial state has and [E] preserves holds of every reachable state. *)
Lemma guarded_invariant (P : S -> Prop) s0 c :
  stable E P -> Inv s0 -> P s0 -> reachable admissible env s0 c -> P (shared c).
Proof.
  intros HP HI H0. induction 1 as [|c c' Hr IH Hstep]; [done|].
  eapply HP; [exact IH|]. by eapply guarded_sound.
Qed.

End soundness.

(** ** Establishing the judgement *)

Section guarded_rules.
Context {S : Type} (R G : S -> S -> Prop).

Lemma guarded_await {A : Type} (I : S -> Prop) (m : tx S A) :
  stable R I -> (forall s a s', I s -> m s = Ok (a, s') -> G s s') ->
  guarded R G (await m) I.
Proof.
  intros HI Hm. exists (fun _ _ => True). split_and!; [done|done| |by intros|by intros].
  intros s b s' Hs Hb. split; [by eapply Hm|done].
Qed.

(** [a ← await m; f a], with what [m] establishes for [f]. *)
Lemma guarded_await_then {A B : Type} (I : S -> Prop) (J : A -> S -> Prop) (m : tx S A)
    (f : A -> prog S B) :
  stable R I -> (forall a, stable R (J a)) ->
  (forall s a s', I s -> m s = Ok (a, s') -> G s s' /\ J a s') ->
  (forall a, guarded R G (f a) (J a)) ->
  guarded R G (await m ≫= f) I.
Proof. intros HI HJ Hm Hf. exists J. by split_and!. Qed.

Lemma guarded_assoc {A B C : Type} (I : S -> Prop) (p : prog S A) (g : A -> prog S B)
    (f : B -> prog S C) :
  guarded R G (p ≫= fun a => g a ≫= f) I -> guarded R G ((p ≫= g) ≫= f) I.
Proof.
  unfold mbind, prog_bind. revert I. induction p as [a|e|D m k IH]; intros I; [done..|].
  intros (J & ? & ? & ? & ? & ?). exists J. split_and!; eauto.
Qed.

Lemma guarded_impl {A : Type} (p : prog S A) (I I' : S -> Prop) :
  stable R I' -> (forall s, I' s -> I s) -> guarded R G p I -> guarded R G p I'.
Proof.
  intros HI' Himp. revert I' HI' Himp. induction p as [a|e|B m k IH]; [done..|].
  intros I' HI' Himp (J & HI & HJ & Hm & Hk & He). exists J. split_and!; eauto.
Qed.

Lemma guarded_map {A B : Type} (g : A -> B) (p : prog S A) (I : S -> Prop) :
  guarded R G p I -> guarded R G (prog_then (fun a => Ret (g a)) p) I.
Proof.
  revert I. induction p as [a|e|C m k IH]; intros I; [done..|].
  intros (J & HI & HJ & Hm & Hk & He). exists J. split_and!; eauto.
Qed.

(** Run alone, a guarded program makes only steps of [G]. *)
Lemma run_guarded {B : Type} (p : prog S B) (I : S -> Prop) s r s' :
  guarded R G p I -> I s -> run p s = (r, s') -> rtc G s s'.
Proof.
  revert I s. induction p as [a|e|C m k IH]; intros I s Hg HI Hr; simpl in Hr.
  - by simplify_eq.
  - by simplify_eq.
  - destruct Hg as (J & _ & _ & Hm & Hk & He). destruct (m s) as [[b t]|e] eqn:Hms.
    + destruct (Hm _ _ _ HI Hms). eapply rtc_l; [done|]. by eapply IH; [apply Hk|..].
    + by eapply IH; [apply He|..].
Qed.

(** A weaker guarantee and a stronger rely. *)
Lemma guarded_weaken {A : Type} (R' G' : S -> S -> Prop) (p : prog S A) (I : S -> Prop) :
  (forall s s', R' s s' -> R s s') -> (forall s s', G s s' -> G' s s') ->
  guarded R G p I -> guarded R' G' p I.
Proof.
  intros HR HG. revert I. induction p as [a|e|C m k IH]; intros I; [done..|].
  intros (J & HI & HJ & Hm & Hk & He). exists J. split_and!.
  - intros s s' Hs HE. eapply HI; eauto.
  - intros b s s' Hs HE. eapply HJ; eauto.
  - intros s b s' Hs Hb. destruct (Hm _ _ _ Hs Hb). eauto.
  - intros b. by apply IH.
  - intros e. by apply IH.
Qed.

(** Two guarantees of one program are one. *)
Lemma guarded_conj {A : Type} (G' : S -> S -> Prop) (p : prog S A) (I I' : S -> Prop) :
  guarded R G p I -> guarded R G' p I' ->
  guarded R (fun s s' => G s s' /\ G' s s') p (fun s => I s /\ I' s).
Proof.
  revert I I'. induction p as [a|e|B m k IH]; intros I I'; [done..|].
  intros (J & HI & HJ & Hm & Hk & He) (J' & HI' & HJ' & Hm' & Hk' & He').
  exists (fun b s => J b s /\ J' b s).
  split; [|split; [|split; [|split]]].
  - intros s s' [??] HR. split; [by eapply HI|by eapply HI'].
  - intros b s s' [??] HR. split; [by eapply HJ|by eapply HJ'].
  - intros s b s' [Hs Hs'] Hb. destruct (Hm _ _ _ Hs Hb), (Hm' _ _ _ Hs' Hb). done.
  - intros b. by apply IH.
  - intros e. by apply IH.
Qed.

(** Sequencing and [try]/[catch] when what follows asks for nothing. *)
Lemma guarded_anywhere {A : Type} (p : prog S A) (I : S -> Prop) :
  stable R I -> guarded R G p (fun _ => True) -> guarded R G p I.
Proof. intros HI. by apply guarded_impl. Qed.

Lemma guarded_then_any {A B : Type} (f : A -> prog S B) (p : prog S A) (I : S -> Prop) :
  stable R I -> guarded R G p I -> (forall a, guarded R G (f a) (fun _ => True)) ->
  guarded R G (prog_then f p) I.
Proof.
  intros HI Hp Hf. revert I HI Hp.
  induction p as [a|e|C m k IH]; intros I HI Hp; [by apply guarded_anywhere, Hf|done|].
  destruct Hp as (J & _ & HJ & Hm & Hk & He). exists J. split_and!; auto.
Qed.

Lemma guarded_try_any {A : Type} (p : prog S A) h (I : S -> Prop) :
  stable R I -> guarded R G p I -> (forall e, guarded R G (h e) (fun _ => True)) ->
  guarded R G (try_catch p h) I.
Proof.
  intros HI Hp Hh. revert I HI Hp.
  induction p as [a|e|C m k IH]; intros I HI Hp; [done|by apply guarded_anywhere, Hh|].
  destruct Hp as (J & _ & HJ & Hm & Hk & He). exists J. split_and!; auto.
Qed.

(** Sequencing and [try]/[catch] of programs guarded by one assertion, which their own
    steps keep too. *)
Hypothesis GR : forall s s', G s s' -> R s s'.

Lemma guarded_then {A B : Type} (f : A -> prog S B) (p : prog S A) (I : S -> Prop) :
  stable R I -> guarded R G p I ->
  (forall a, guarded R G (f a) I) -> guarded R G (prog_then f p) I.
Proof.
  intros HI Hp Hf. revert I HI Hp Hf.
  induction p as [a|e|C m k IH]; intros I HI Hp Hf; [by apply Hf|done|].
  destruct Hp as (J & _ & HJ & Hm & Hk & He).
  exists (fun b s => J b s /\ I s). split_and!.
  - done.
  - intros b s s' [HJs HIs] HE. split; [by eapply HJ|by eapply HI].
  - intros s b s' HIs Hb. destruct (Hm _ _ _ HIs Hb). split_and!; [done|done|eapply HI; eauto].
  - intros b. apply IH.
    + intros s s' [HJs HIs] HE. split; [by eapply HJ|by eapply HI].
    + eapply guarded_impl; [|by intros s [? _]|apply Hk].
      intros s s' [HJs HIs] HE. split; [by eapply HJ|by eapply HI].
    + intros a. eapply guarded_impl; [|by intros s [_ ?]|apply Hf].
      intros s s' [HJs HIs] HE. split; [by eapply HJ|by eapply HI].
  - intros e. apply IH; eauto.
Qed.

Lemma guarded_try_catch {A : Type} (p : prog S A) h (I : S -> Prop) :
  stable R I -> guarded R G p I -> (forall e, guarded R G (h e) I) ->
  guarded R G (try_catch p h) I.
Proof.
  intros HI Hp Hh. revert I HI Hp Hh.
  induction p as [a|e|C m k IH]; intros I HI Hp Hh; [done|by apply Hh|].
  destruct Hp as (J & _ & HJ & Hm & Hk & He).
  assert (Hst : forall b, stable R (fun s => J b s /\ I s)).
  { intros b s s' [HJs HIs] HE. split; [by eapply HJ|by eapply HI]. }
  exists (fun b s => J b s /\ I s). split_and!; [done|done| | |].
  - intros s b s' HIs Hb. destruct (Hm _ _ _ HIs Hb). split_and!; [done|done|eapply HI; eauto].
  - intros b. apply IH; [done| |].
    + eapply guarded_impl; [done|by intros s [? _]|apply Hk].
    + intros e. eapply guarded_impl; [done|by intros s [_ ?]|apply Hh].
  - intros e. apply IH; eauto.
Qed.

Lemma guarded_for_each {A : Type} (f : A -> prog S unit) xs (I : S -> Prop) :
  stable R I -> (forall x, x ∈ xs -> guarded R G (f x) I) -> guarded R G (for_each f xs) I.
Proof.
  intros HI. induction xs as [|x xs IH]; intros Hf; simpl; [done|].
  apply guarded_then; [done|apply Hf; by left|].
  intros _. apply IH. intros y Hy. apply Hf. by right.
Qed.

End guarded_rules.
