(* ===== verification/Prisma.v ===== *)
(** * The database client

    The repositories talk to PostgreSQL through Prisma. Neither is part of the
    repository, so the model operations the code calls ([findUnique], [findMany],
    [create], [update], [updateMany], [count], ...) are the fields of the class [Prisma],
    a parameter of every definition that uses them, and the class [PrismaLaws] states the
    documented behaviour the code relies on. A table is a finite map from the primary key
    to the row. The one statement the code writes in SQL itself is an [UPDATE ... RETURNING]:
    the rows it returns come in whatever order the server likes, [returning].

    [MemPrisma] is an in-memory client that satisfies the laws: it shows that they can
    hold, and it makes every definition of the development executable. *)
From S2P Require Import Prelude Errors Effects.

(** ** The interface *)

(** The constraints the schema puts on a row that is written: which other rows it
    clashes with (unique indexes), whether its foreign keys exist, and whether its
    columns are in range. *)
Record constraints (R : Type) := mkConstraints {
  c_clash : R -> R -> bool;
  c_foreign : R -> bool;
  c_columns : R -> bool;
}.
Arguments mkConstraints {R}.
Arguments c_clash {R}.
Arguments c_foreign {R}.
Arguments c_columns {R}.

Definition rows {R : Type} (t : gmap string R) : list R := (map_to_list t).*2.
Definition where_rows {R : Type} (p : R -> bool) (t : gmap string R) : list R :=
  filter (fun r => p r = true) (rows t).

Class Prisma := {
  findUnique : forall {R}, string -> gmap string R -> option R;
  findFirst : forall {R}, (R -> bool) -> gmap string R -> option R;
  findMany : forall {R}, (R -> bool) -> (R -> R -> bool) -> nat -> option nat ->
    gmap string R -> list R;
  count : forall {R}, (R -> bool) -> gmap string R -> nat;
  create : forall {R}, constraints R -> string -> R -> gmap string R ->
    result (gmap string R);
  update : forall {R}, (R -> bool) -> string -> (R -> R) -> gmap string R ->
    result (R * gmap string R);
  updateMany : forall {R}, (R -> bool) -> (R -> bool) -> (R -> R) -> gmap string R ->
    result (nat * gmap string R);
  returning : forall {R}, list R -> list R;
  upsert : forall {R}, (R -> bool) -> constraints R -> string -> R -> (R -> R) -> gmap string R ->
    result (R * gmap string R);
}.

(** No row of [t] has the key [k] or clashes with [r] on a unique index. *)
Definition unique_in {R : Type} (c : constraints R) (k : string) (r : R)
    (t : gmap string R) : Prop :=
  t !! k = None /\ forall k' r', t !! k' = Some r' -> c_clash c r r' = false.

(** The order a boolean comparison stands for ([orderBy]). *)
Definition by_leb {R : Type} (leb : R -> R -> bool) (x y : R) : Prop := leb x y = true.
#[export] Instance by_leb_dec {R : Type} (leb : R -> R -> bool) x y :
  Decision (by_leb leb x y) := decide (leb x y = true).

Definition take_opt {A : Type} (n : option nat) (l : list A) : list A :=
  match n with Some n => take n l | None => l end.

(** [updateMany]'s effect on a table. *)
Definition update_where {R : Type} (p : R -> bool) (f : R -> R) (t : gmap string R) :
    gmap string R :=
  (fun r => if p r then f r else r) <$> t.

(** Prisma's error codes for a violated unique constraint and for a missing record. *)
Definition P2002 : exn := PrismaClientKnownRequestError "P2002".
Definition P2003 : exn := PrismaClientKnownRequestError "P2003".
Definition P2025 : exn := PrismaClientKnownRequestError "P2025".

Class PrismaLaws (P : Prisma) : Prop := {
  findUnique_spec : forall R k (t : gmap string R), findUnique k t = t !! k;
  findFirst_Some : forall R p (t : gmap string R) r,
    findFirst p t = Some r -> p r = true /\ exists k, t !! k = Some r;
  findFirst_None : forall R p (t : gmap string R) k r,
    findFirst p t = None -> t !! k = Some r -> p r = false;
  findMany_spec : forall R p (leb : R -> R -> bool) skip tk (t : gmap string R),
    Total (by_leb leb) ->
    exists l, l ≡ₚ where_rows p t /\ Sorted (by_leb leb) l /\
      findMany p leb skip tk t = take_opt tk (drop skip l);
  count_spec : forall R p (t : gmap string R), count p t = length (where_rows p t);
  create_Ok : forall R (c : constraints R) k r t,
    unique_in c k r t -> c_foreign c r = true -> c_columns c r = true ->
    create c k r t = Ok (<[k := r]> t);
  create_inv : forall R (c : constraints R) k r t t',
    create c k r t = Ok t' ->
    unique_in c k r t /\ c_foreign c r = true /\ c_columns c r = true /\
    t' = <[k := r]> t;
  create_clash : forall R (c : constraints R) k r t,
    c_columns c r = true -> ~ unique_in c k r t -> create c k r t = Err P2002;
  create_foreign : forall R (c : constraints R) k r t,
    c_columns c r = true -> unique_in c k r t -> c_foreign c r = false ->
    create c k r t = Err P2003;
  update_Ok : forall R ok k f (t : gmap string R) r,
    t !! k = Some r -> ok (f r) = true ->
    update ok k f t = Ok (f r, <[k := f r]> t);
  update_inv : forall R ok k f (t : gmap string R) r' t',
    update ok k f t = Ok (r', t') ->
    exists r, t !! k = Some r /\ r' = f r /\ ok r' = true /\ t' = <[k := r']> t;
  update_missing : forall R ok k f (t : gmap string R),
    t !! k = None -> update ok k f t = Err P2025;
  updateMany_Ok : forall R ok p f (t : gmap string R),
    (forall k r, t !! k = Some r -> p r = true -> ok (f r) = true) ->
    updateMany ok p f t = Ok (length (where_rows p t), update_where p f t);
  updateMany_inv : forall R ok p f (t : gmap string R) n t',
    updateMany ok p f t = Ok (n, t') ->
    n = length (where_rows p t) /\ t' = update_where p f t /\
    (forall k r, t !! k = Some r -> p r = true -> ok (f r) = true);
  returning_spec : forall R (l : list R), returning l ≡ₚ l;
  upsert_update : forall R (p : R -> bool) c k r f (t : gmap string R) k' r',
    t !! k' = Some r' -> p r' = true ->
    (forall k2 r2, t !! k2 = Some r2 -> p r2 = true -> k2 = k') ->
    upsert p c k r f t = update (c_columns c) k' f t;
  upsert_create : forall R (p : R -> bool) c k r f (t : gmap string R),
    (forall k2 r2, t !! k2 = Some r2 -> p r2 = false) ->
    upsert p c k r f t =
      match create c k r t with Ok t' => Ok (r, t') | Err e => Err e end;
}.

(** ** Evolution of a table *)

(** The table keeps its keys; a row stays or makes a [change]; a new row is a [fresh] one. *)
Definition table_evolves {R : Type} (fresh : R -> Prop) (change : R -> R -> Prop)
    (t t' : gmap string R) : Prop :=
  (forall k r, t !! k = Some r -> exists r', t' !! k = Some r' /\ (r' = r \/ change r r')) /\
  (forall k r', t !! k = None -> t' !! k = Some r' -> fresh r').

Definition frozen {R : Type} (_ _ : R) : Prop := False.

(** The rows of a table are stored under their own identifier. *)
Definition keyed {R : Type} (id : R -> string) (t : gmap string R) : Prop :=
  forall k r, t !! k = Some r -> id r = k.

(** ** An in-memory client *)
Module MemPrisma.

Definition clashes {R} (c : constraints R) (k : string) (r : R) (t : gmap string R) : bool :=
  bool_decide (is_Some (t !! k)) || existsb (c_clash c r) (rows t).

Definition mem_create {R} (c : constraints R) k (r : R) (t : gmap string R) :
    result (gmap string R) :=
  if negb (c_columns c r) then Err (PrismaClientKnownRequestError "P2020")
  else if clashes c k r t then Err P2002
  else if negb (c_foreign c r) then Err P2003
  else Ok (<[k := r]> t).

Definition mem_update {R} (ok : R -> bool) k (f : R -> R) (t : gmap string R) :
    result (R * gmap string R) :=
  match t !! k with
  | None => Err P2025
  | Some r =>
      if ok (f r) then Ok (f r, <[k := f r]> t)
      else Err (PrismaClientKnownRequestError "P2020")
  end.

Definition mem_updateMany {R} (ok : R -> bool) (p : R -> bool) (f : R -> R)
    (t : gmap string R) : result (nat * gmap string R) :=
  if forallb (fun r => ok (f r)) (where_rows p t)
  then Ok (length (where_rows p t), update_where p f t)
  else Err (PrismaClientKnownRequestError "P2020").

Definition mem_findMany {R} (p : R -> bool) (leb : R -> R -> bool) (skip : nat)
    (tk : option nat) (t : gmap string R) : list R :=
  take_opt tk (drop skip (merge_sort (by_leb leb) (where_rows p t))).

(** The row of a unique index, or a new one. *)
Definition mem_upsert {R} (p : R -> bool) (c : constraints R) k (r : R) (f : R -> R)
    (t : gmap string R) : result (R * gmap string R) :=
  match head (filter (fun '(_, r) => p r = true) (map_to_list t)) with
  | Some (k', _) => mem_update (c_columns c) k' f t
  | None => match mem_create c k r t with Ok t' => Ok (r, t') | Err e => Err e end
  end.

#[export] Instance client : Prisma := {|
  findUnique R k t := t !! k;
  findFirst R p t := head (where_rows p t);
  findMany R := mem_findMany;
  count R p t := length (where_rows p t);
  create R := mem_create;
  update R := mem_update;
  updateMany R := mem_updateMany;
  returning R l := l;
  upsert R := mem_upsert;
|}.

End MemPrisma.

(** ** Rows and tables *)

Section rows.
Context {R : Type}.
Implicit Types (t : gmap string R) (p : R -> bool).

Lemma elem_of_rows t r : r ∈ rows t <-> exists k, t !! k = Some r.
Proof.
  unfold rows. rewrite list_elem_of_fmap. split.
  - intros ([k r'] & -> & Hin%elem_of_map_to_list). by exists k.
  - intros [k Hk]. exists (k, r). split; [done|]. by apply elem_of_map_to_list.
Qed.

Lemma elem_of_where_rows t p r :
  r ∈ where_rows p t <-> p r = true /\ exists k, t !! k = Some r.
Proof. unfold where_rows. by rewrite list_elem_of_filter, elem_of_rows. Qed.

Lemma rows_insert t k r : t !! k = None -> rows (<[k := r]> t) ≡ₚ r :: rows t.
Proof. intros Hk. unfold rows. by rewrite map_to_list_insert. Qed.

Lemma where_rows_insert t p k r :
  t !! k = None ->
  where_rows p (<[k := r]> t) ≡ₚ (if p r then [r] else []) ++ where_rows p t.
Proof.
  intros Hk. unfold where_rows. rewrite rows_insert by done.
  destruct (p r) eqn:Hp; [by rewrite filter_cons_True|rewrite filter_cons_False]; [done|congruence].
Qed.

Lemma lookup_update_where t p f k :
  update_where p f t !! k = (fun r => if p r then f r else r) <$> t !! k.
Proof. unfold update_where. by rewrite lookup_fmap. Qed.

Lemma keyed_ids_NoDup (id : R -> string) t p :
  keyed id t -> NoDup (id <$> where_rows p t).
Proof.
  intros Hk. unfold where_rows, rows. apply NoDup_fmap_2_strong.
  - intros x y [_ Hx]%list_elem_of_filter [_ Hy]%list_elem_of_filter He.
    apply list_elem_of_fmap in Hx as ([k m] & -> & Hx%elem_of_map_to_list).
    apply list_elem_of_fmap in Hy as ([k' m'] & -> & Hy%elem_of_map_to_list).
    pose proof (Hk _ _ Hx). pose proof (Hk _ _ Hy). simpl in *. congruence.
  - apply NoDup_filter, NoDup_fmap_2_strong; [|apply NoDup_map_to_list].
    intros [k m] [k' m'] Hx%elem_of_map_to_list Hy%elem_of_map_to_list He. simpl in He.
    subst. apply Hk in Hx. apply Hk in Hy. congruence.
Qed.

(** A condition only the row of one key can meet. *)
Lemma where_rows_key t p k :
  (forall k' r, t !! k' = Some r -> p r = true -> k' = k) ->
  where_rows p t = match t !! k with Some r => if p r then [r] else [] | None => [] end.
Proof.
  intros Hp. assert (Hd : where_rows p (delete k t) = []).
  { destruct (where_rows p (delete k t)) as [|r l] eqn:Hl; [done|].
    assert (Hr : r ∈ where_rows p (delete k t)) by (rewrite Hl; by left).
    apply elem_of_where_rows in Hr as (Hr & k' & Hk').
    apply lookup_delete_Some in Hk' as [Hne Hk']. by destruct (Hp _ _ Hk' Hr). }
  destruct (t !! k) as [r|] eqn:Hk.
  - pose proof (where_rows_insert (delete k t) p k r (lookup_delete_eq t k)) as Hi.
    rewrite Hd, app_nil_r, insert_delete_id in Hi by done.
    destruct (p r); [by apply Permutation_singleton_r in Hi|by apply Permutation_nil_r in Hi].
  - by rewrite <- Hd, delete_id.
Qed.

Lemma update_where_key t p (f : R -> R) k r :
  (forall k' r, t !! k' = Some r -> p r = true -> k' = k) ->
  t !! k = Some r -> p r = true -> update_where p f t = <[k := f r]> t.
Proof.
  intros Hp Hk Hr. apply map_eq. intros k'. rewrite lookup_update_where, lookup_insert.
  case_decide as He; [subst; rewrite Hk; simpl; by rewrite Hr|].
  destruct (t !! k') as [r'|] eqn:Hk'; [|done]. simpl.
  destruct (p r') eqn:Hr'; [by destruct He; symmetry; eapply Hp|done].
Qed.

Lemma update_where_none t p (f : R -> R) :
  (forall k r, t !! k = Some r -> p r = false) -> update_where p f t = t.
Proof.
  intros Hp. apply map_eq. intros k. rewrite lookup_update_where.
  destruct (t !! k) as [r|] eqn:Hk; simpl; [by rewrite (Hp _ _ Hk)|done].
Qed.

Lemma where_rows_none t p :
  (forall k r, t !! k = Some r -> p r = false) -> where_rows p t = [].
Proof.
  intros Hp. destruct (where_rows p t) as [|r l] eqn:Hl; [done|].
  assert (Hr : r ∈ where_rows p t) by (rewrite Hl; by left).
  apply elem_of_where_rows in Hr as (Hr & k & Hk). by rewrite (Hp _ _ Hk) in Hr.
Qed.

End rows.

Section table_lemmas.
Context {R : Type}.
Implicit Types (t : gmap string R) (fresh : R -> Prop) (change : R -> R -> Prop).

Lemma table_evolves_refl fresh change t : table_evolves fresh change t t.
Proof. split; [eauto|congruence]. Qed.

Lemma table_evolves_insert fresh change t k r :
  t !! k = None -> fresh r -> table_evolves fresh change t (<[k := r]> t).
Proof.
  intros Hk Hr. split.
  - intros k' r' Hk'. exists r'. split; [|by left]. rewrite lookup_insert_ne; congruence.
  - intros k' r' Hn. rewrite lookup_insert. case_decide; [by intros [= <-]|congruence].
Qed.

Lemma table_evolves_change fresh change t k r r' :
  t !! k = Some r -> change r r' -> table_evolves fresh change t (<[k := r']> t).
Proof.
  intros Hk Hr. split.
  - intros k' q Hk'. rewrite lookup_insert. case_decide; [|eauto].
    simplify_eq. exists r'. split; [done|by right].
  - intros k' q Hn. rewrite lookup_insert. case_decide; congruence.
Qed.

Lemma table_evolves_update fresh change t p (f : R -> R) :
  (forall k r, t !! k = Some r -> p r = true -> change r (f r)) ->
  table_evolves fresh change t (update_where p f t).
Proof.
  intros H. split.
  - intros k r Hk. rewrite lookup_update_where, Hk. simpl. eexists. split; [done|].
    destruct (p r) eqn:Hp; [right; eauto|by left].
  - intros k r Hk. by rewrite lookup_update_where, Hk.
Qed.

Lemma table_evolves_fwd fresh change t t' k r :
  table_evolves fresh change t t' -> t !! k = Some r ->
  exists r', t' !! k = Some r' /\ (r' = r \/ change r r').
Proof. intros [H _]. apply H. Qed.

Lemma table_evolves_bwd fresh change t t' k r' :
  table_evolves fresh change t t' -> t' !! k = Some r' ->
  (t !! k = None /\ fresh r') \/ exists r, t !! k = Some r /\ (r' = r \/ change r r').
Proof.
  intros [H Hf] Hk'. destruct (t !! k) as [r|] eqn:Hk; [right|left; eauto].
  destruct (H _ _ Hk) as (q & Hq & ?). simplify_eq. eauto.
Qed.

Lemma table_frozen_lookup fresh t t' k r :
  table_evolves fresh frozen t t' -> t !! k = Some r -> t' !! k = Some r.
Proof. intros [H _] Hk. by destruct (H _ _ Hk) as (r' & ? & [->|[]]). Qed.

Lemma table_frozen_evolves fresh change t t' :
  table_evolves fresh frozen t t' -> table_evolves fresh change t t'.
Proof.
  intros [H Hf]. split; [|done]. intros k r Hk. destruct (H _ _ Hk) as (r' & ? & [->|[]]). eauto.
Qed.

Lemma table_frozen_trans fresh t t' t'' :
  table_evolves fresh frozen t t' -> table_evolves fresh frozen t' t'' ->
  table_evolves fresh frozen t t''.
Proof.
  intros H1 H2. split.
  - intros k r Hk. exists r. split; [|by left]. eauto using table_frozen_lookup.
  - intros k r Hn Hr. apply (table_evolves_bwd _ _ _ _ _ _ H2) in Hr as [[_ ?]|(q & Hq & [->|[]])].
    + done.
    + destruct H1 as [_ H1]. eauto.
Qed.

End table_lemmas.

Create Rewrite HintDb prisma.
#[export] Hint Rewrite @findUnique_spec @count_spec @lookup_update_where : prisma.

Module MemPrismaLaws.
Import MemPrisma.

Lemma clashes_spec {R} (c : constraints R) k r t :
  clashes c k r t = false <-> unique_in c k r t.
Proof.
  unfold clashes, unique_in. rewrite orb_false_iff, bool_decide_eq_false, <- eq_None_not_Some.
  split; intros [Hk Hc]; (split; [done|]).
  - intros k' r' Hr'. destruct (c_clash c r r') eqn:Hcl; [|done].
    rewrite <- Hc. symmetry. apply existsb_exists. exists r'. split; [|done].
    apply list_elem_of_In, elem_of_rows; eauto.
  - apply not_true_is_false. intros (r' & Hin & Hcl)%existsb_exists.
    apply list_elem_of_In, elem_of_rows in Hin as [k' Hk'].
    by rewrite (Hc _ _ Hk') in Hcl.
Qed.

Lemma clashes_true {R} (c : constraints R) k r t :
  ~ unique_in c k r t -> clashes c k r t = true.
Proof. rewrite <- clashes_spec. by destruct (clashes c k r t). Qed.

Lemma all_where {R} (ok p : R -> bool) f (t : gmap string R) :
  forallb (fun r => ok (f r)) (where_rows p t) = true <->
  (forall k r, t !! k = Some r -> p r = true -> ok (f r) = true).
Proof.
  rewrite forallb_forall. split.
  - intros H k r Hk Hp. apply H, list_elem_of_In, elem_of_where_rows. eauto.
  - intros H r [Hp [k Hk]]%list_elem_of_In%elem_of_where_rows. eauto.
Qed.

#[export] Instance laws : PrismaLaws client.
Proof.
  split; simpl.
  - done.
  - intros R p t r Hr.
    assert (Hin : r ∈ where_rows p t).
    { destruct (where_rows p t); [done|]. simpl in Hr. simplify_eq. by left. }
    by apply elem_of_where_rows in Hin.
  - intros R p t k r Hn Hk. destruct (p r) eqn:Hp; [|done].
    assert (Hin : r ∈ where_rows p t) by (apply elem_of_where_rows; eauto).
    destruct (where_rows p t); [by apply not_elem_of_nil in Hin|done].
  - intros R p leb skip tk t Htot. exists (merge_sort (by_leb leb) (where_rows p t)).
    split; [apply merge_sort_Permutation|].
    split; [by apply Sorted_merge_sort|done].
  - done.
  - intros R c k r t Hu%clashes_spec Hf Hc. unfold mem_create. by rewrite Hc, Hu, Hf.
  - intros R c k r t t'. unfold mem_create. rewrite <- clashes_spec.
    destruct (c_columns c r), (clashes c k r t), (c_foreign c r); naive_solver.
  - intros R c k r t Hc Hu%clashes_true. unfold mem_create. by rewrite Hc, Hu.
  - intros R c k r t Hc Hu%clashes_spec Hf. unfold mem_create. by rewrite Hc, Hu, Hf.
  - intros R ok k f t r Hk Hok. unfold mem_update. by rewrite Hk, Hok.
  - intros R ok k f t r' t'. unfold mem_update.
    destruct (t !! k) as [r|]; [|done]. destruct (ok (f r)) eqn:Hok; naive_solver.
  - intros R ok k f t Hk. unfold mem_update. by rewrite Hk.
  - intros R ok p f t H%all_where. unfold mem_updateMany. by rewrite H.
  - intros R ok p f t n t'. unfold mem_updateMany. rewrite <- all_where.
    destruct (forallb _ _); naive_solver.
  - done.
  - intros R p c k r f t k' r' Hk Hp Hu. unfold mem_upsert.
    destruct (head _) as [[k2 r2]|] eqn:Hh.
    + apply head_Some_elem_of in Hh.
      apply list_elem_of_filter in Hh as [Hp2 Hk2%elem_of_map_to_list].
      by rewrite (Hu _ _ Hk2 Hp2).
    + exfalso. apply head_None in Hh.
      eapply (filter_nil_not_elem_of _ _ (k', r') Hh); [done|]. by apply elem_of_map_to_list.
  - intros R p c k r f t Hn. unfold mem_upsert.
    destruct (head _) as [[k2 r2]|] eqn:Hh; [exfalso|done].
    apply head_Some_elem_of in Hh.
    apply list_elem_of_filter in Hh as [Hp2 Hk2%elem_of_map_to_list].
    by rewrite (Hn _ _ Hk2) in Hp2.
Qed.

End MemPrismaLaws.

