(* ===== verification/Schema.v ===== *)
(** * The data model

    The tables of prisma/schema.prisma and prisma/migrations/*/migration.sql with the
    constraints they declare, the state the whole program shares (the database, the clock
    and the supply of UUIDs), and the statements the repositories run on it.

    Columns: a UUID and a text are strings, a DECIMAL(12,2) is an integer number of cents,
    an INTEGER is a [Z] whose range is a column check, a TIMESTAMPTZ(3) is a number of
    milliseconds, a nullable column is an option. *)
From S2P Require Import Prelude Errors Effects Prisma.

(** ** Enums *)

Inductive Role := ADMIN | MANAGER | USER.
#[export] Instance Role_eq_dec : EqDecision Role.
Proof. solve_decision. Defined.

Inductive OrderStatus := PENDING | CONFIRMED | PREPARING | READY | COMPLETED | CANCELLED.
#[export] Instance OrderStatus_eq_dec : EqDecision OrderStatus.
Proof. solve_decision. Defined.

Inductive PaymentStatus := PayPending | PayCompleted | PayFailed | PayRefunded.
#[export] Instance PaymentStatus_eq_dec : EqDecision PaymentStatus.
Proof. solve_decision. Defined.

Inductive DeliveryStatus := DelPending | DelProcessing | DelDelivered | DelFailed.
#[export] Instance DeliveryStatus_eq_dec : EqDecision DeliveryStatus.
Proof. solve_decision. Defined.

(** The value of an enum is its name. *)
Definition OrderStatus_name (s : OrderStatus) : string :=
  match s with
  | PENDING => "PENDING" | CONFIRMED => "CONFIRMED" | PREPARING => "PREPARING"
  | READY => "READY" | COMPLETED => "COMPLETED" | CANCELLED => "CANCELLED"
  end.

(** ** Rows *)

Record User := mkUser {
  u_id : string; u_email : string; u_passwordHash : string; u_displayName : string;
  u_role : Role; u_active : bool; u_createdAt : Z; u_updatedAt : Z }.

Record RefreshToken := mkRefreshToken {
  rt_id : string; rt_userId : string; rt_tokenHash : string; rt_expiresAt : Z;
  rt_revokedAt : option Z; rt_createdAt : Z }.

Record Restaurant := mkRestaurant {
  r_id : string; r_name : string; r_active : bool; r_createdAt : Z; r_updatedAt : Z }.

Record MenuItem := mkMenuItem {
  mi_id : string; mi_restaurantId : string; mi_name : string; mi_price : Z;
  mi_available : bool; mi_createdAt : Z; mi_updatedAt : Z }.

Record Order := mkOrder {
  o_id : string; o_userId : string; o_restaurantId : string; o_status : OrderStatus;
  o_totalAmount : Z; o_version : Z; o_createdAt : Z; o_updatedAt : Z }.

Record OrderItem := mkOrderItem {
  oi_id : string; oi_orderId : string; oi_menuItemId : string; oi_name : string;
  oi_unitPrice : Z; oi_quantity : Z; oi_lineTotal : Z }.

Record Payment := mkPayment {
  p_id : string; p_orderId : string; p_idempotencyKey : string; p_amount : Z;
  p_currency : string; p_status : PaymentStatus; p_providerRef : option string;
  p_createdAt : Z; p_updatedAt : Z }.

Record AuditLog := mkAuditLog {
  al_id : string; al_actorId : option string; al_action : string;
  al_aggregateType : string; al_aggregateId : string; al_metadata : json;
  al_correlationId : option string; al_createdAt : Z }.

Record OutboxEvent := mkOutboxEvent {
  ob_id : string; ob_type : string; ob_aggregateType : string; ob_aggregateId : string;
  ob_payload : json; ob_correlationId : option string; ob_attempts : Z;
  ob_nextAttemptAt : Z; ob_lockedAt : option Z; ob_lockedBy : option string;
  ob_publishedAt : option Z; ob_lastError : option string; ob_createdAt : Z }.

Record ProcessedMessage := mkProcessedMessage {
  pm_id : string; pm_consumer : string; pm_eventId : string; pm_processedAt : Z }.

Record NotificationDelivery := mkNotificationDelivery {
  nd_id : string; nd_eventId : string; nd_userId : string; nd_channel : string;
  nd_template : string; nd_payload : json; nd_status : DeliveryStatus;
  nd_attempts : Z; nd_lastError : option string; nd_createdAt : Z; nd_updatedAt : Z }.

(** ** The database and the shared state *)

Record db := mkDb {
  users : gmap string User;
  refreshTokens : gmap string RefreshToken;
  restaurants : gmap string Restaurant;
  menuItems : gmap string MenuItem;
  orders : gmap string Order;
  orderItems : gmap string OrderItem;
  payments : gmap string Payment;
  auditLogs : gmap string AuditLog;
  outboxEvents : gmap string OutboxEvent;
  processedMessages : gmap string ProcessedMessage;
  notificationDeliveries : gmap string NotificationDelivery;
}.

Definition empty_db : db := mkDb ∅ ∅ ∅ ∅ ∅ ∅ ∅ ∅ ∅ ∅ ∅.

Record world := mkWorld { w_db : db; w_now : Z; w_nonce : nat }.

(** A table of the database: how it is read and how it is replaced. *)
Record table (R : Type) := mkTable {
  t_get : db -> gmap string R;
  t_set : gmap string R -> db -> db }.
Arguments mkTable {R}.
Arguments t_get {R}.
Arguments t_set {R}.

Definition Users : table User := mkTable users (fun t d =>
  mkDb t (refreshTokens d) (restaurants d) (menuItems d) (orders d) (orderItems d)
    (payments d) (auditLogs d) (outboxEvents d) (processedMessages d)
    (notificationDeliveries d)).
Definition RefreshTokens : table RefreshToken := mkTable refreshTokens (fun t d =>
  mkDb (users d) t (restaurants d) (menuItems d) (orders d) (orderItems d)
    (payments d) (auditLogs d) (outboxEvents d) (processedMessages d)
    (notificationDeliveries d)).
Definition Restaurants : table Restaurant := mkTable restaurants (fun t d =>
  mkDb (users d) (refreshTokens d) t (menuItems d) (orders d) (orderItems d)
    (payments d) (auditLogs d) (outboxEvents d) (processedMessages d)
    (notificationDeliveries d)).
Definition MenuItems : table MenuItem := mkTable menuItems (fun t d =>
  mkDb (users d) (refreshTokens d) (restaurants d) t (orders d) (orderItems d)
    (payments d) (auditLogs d) (outboxEvents d) (processedMessages d)
    (notificationDeliveries d)).
Definition Orders : table Order := mkTable orders (fun t d =>
  mkDb (users d) (refreshTokens d) (restaurants d) (menuItems d) t (orderItems d)
    (payments d) (auditLogs d) (outboxEvents d) (processedMessages d)
    (notificationDeliveries d)).
Definition OrderItems : table OrderItem := mkTable orderItems (fun t d =>
  mkDb (users d) (refreshTokens d) (restaurants d) (menuItems d) (orders d) t
    (payments d) (auditLogs d) (outboxEvents d) (processedMessages d)
    (notificationDeliveries d)).
Definition Payments : table Payment := mkTable payments (fun t d =>
  mkDb (users d) (refreshTokens d) (restaurants d) (menuItems d) (orders d)
    (orderItems d) t (auditLogs d) (outboxEvents d) (processedMessages d)
    (notificationDeliveries d)).
Definition AuditLogs : table AuditLog := mkTable auditLogs (fun t d =>
  mkDb (users d) (refreshTokens d) (restaurants d) (menuItems d) (orders d)
    (orderItems d) (payments d) t (outboxEvents d) (processedMessages d)
    (notificationDeliveries d)).
Definition OutboxEvents : table OutboxEvent := mkTable outboxEvents (fun t d =>
  mkDb (users d) (refreshTokens d) (restaurants d) (menuItems d) (orders d)
    (orderItems d) (payments d) (auditLogs d) t (processedMessages d)
    (notificationDeliveries d)).
Definition ProcessedMessages : table ProcessedMessage := mkTable processedMessages (fun t d =>
  mkDb (users d) (refreshTokens d) (restaurants d) (menuItems d) (orders d)
    (orderItems d) (payments d) (auditLogs d) (outboxEvents d) t
    (notificationDeliveries d)).
Definition NotificationDeliveries : table NotificationDelivery :=
  mkTable notificationDeliveries (fun t d =>
  mkDb (users d) (refreshTokens d) (restaurants d) (menuItems d) (orders d)
    (orderItems d) (payments d) (auditLogs d) (outboxEvents d) (processedMessages d) t).

Definition with_db (f : db -> db) (w : world) : world :=
  mkWorld (f (w_db w)) (w_now w) (w_nonce w).

(** ** What the program takes from its platform *)

(** UUIDs ([uuid()] defaults of Prisma, [randomUUID]): the n-th one drawn, and the format
    check a UUID column makes. *)
Class Uuids := {
  uuid_at : nat -> string;
  is_uuid : string -> bool;
}.
Class UuidsLaws (U : Uuids) : Prop := {
  uuid_at_format : forall n, is_uuid (uuid_at n) = true;
  uuid_at_length : forall n, String.length (uuid_at n) = 36%nat;
}.

(** [Prisma.Decimal] rendered as a string. *)
Class Decimals := { decimal_toString : Z -> string }.

(** ** Column checks *)

Definition varchar (n : nat) (s : string) : bool := bool_decide (String.length s <= n)%nat.
Definition varchar_opt (n : nat) (s : option string) : bool :=
  match s with Some s => varchar n s | None => true end.
Definition decimal_12_2 (cents : Z) : bool := (- 10 ^ 12 <? cents) && (cents <? 10 ^ 12).
Definition int4 (z : Z) : bool := (- 2 ^ 31 <=? z) && (z <? 2 ^ 31).
Definition present {R : Type} (t : gmap string R) (k : string) : bool :=
  bool_decide (is_Some (t !! k)).
Definition present_opt {R : Type} (t : gmap string R) (k : option string) : bool :=
  match k with Some k => present t k | None => true end.
Definition no_clash {R : Type} (_ _ : R) : bool := false.

Section constraints.
Context `{Uuids}.

Definition user_columns (u : User) : bool :=
  varchar 320 (u_email u) && varchar 255 (u_passwordHash u) && varchar 100 (u_displayName u).
Definition user_constraints (d : db) : constraints User :=
  mkConstraints (fun u v => String.eqb (u_email u) (u_email v)) (fun _ => true) user_columns.

Definition refresh_token_constraints (d : db) : constraints RefreshToken :=
  mkConstraints no_clash (fun t => present (users d) (rt_userId t))
    (fun t => varchar 255 (rt_tokenHash t)).

Definition restaurant_constraints (d : db) : constraints Restaurant :=
  mkConstraints no_clash (fun _ => true) (fun r => varchar 160 (r_name r)).

Definition menu_item_constraints (d : db) : constraints MenuItem :=
  mkConstraints no_clash (fun m => present (restaurants d) (mi_restaurantId m))
    (fun m => varchar 160 (mi_name m) && decimal_12_2 (mi_price m)).

Definition order_columns (o : Order) : bool :=
  decimal_12_2 (o_totalAmount o) && int4 (o_version o).
Definition order_constraints (d : db) : constraints Order :=
  mkConstraints no_clash
    (fun o => present (users d) (o_userId o) && present (restaurants d) (o_restaurantId o))
    order_columns.

Definition order_item_constraints (d : db) : constraints OrderItem :=
  mkConstraints no_clash
    (fun i => present (orders d) (oi_orderId i) && present (menuItems d) (oi_menuItemId i))
    (fun i => varchar 160 (oi_name i) && decimal_12_2 (oi_unitPrice i) &&
              int4 (oi_quantity i) && decimal_12_2 (oi_lineTotal i)).

Definition payment_constraints (d : db) : constraints Payment :=
  mkConstraints (fun p q => String.eqb (p_idempotencyKey p) (p_idempotencyKey q))
    (fun p => present (orders d) (p_orderId p))
    (fun p => varchar 100 (p_idempotencyKey p) && decimal_12_2 (p_amount p) &&
              varchar 3 (p_currency p) && varchar_opt 160 (p_providerRef p)).

Definition audit_log_constraints (d : db) : constraints AuditLog :=
  mkConstraints no_clash (fun a => present_opt (users d) (al_actorId a))
    (fun a => varchar 100 (al_action a) && varchar 80 (al_aggregateType a) &&
              varchar 100 (al_aggregateId a) && varchar_opt 100 (al_correlationId a)).

Definition outbox_columns (e : OutboxEvent) : bool :=
  varchar 100 (ob_type e) && varchar 80 (ob_aggregateType e) &&
  varchar 100 (ob_aggregateId e) && varchar_opt 100 (ob_correlationId e) &&
  int4 (ob_attempts e) && varchar_opt 100 (ob_lockedBy e).
Definition outbox_constraints (d : db) : constraints OutboxEvent :=
  mkConstraints no_clash (fun _ => true) outbox_columns.

Definition processed_message_constraints (d : db) : constraints ProcessedMessage :=
  mkConstraints
    (fun p q => String.eqb (pm_consumer p) (pm_consumer q) &&
                String.eqb (pm_eventId p) (pm_eventId q))
    (fun _ => true) (fun p => varchar 100 (pm_consumer p) && is_uuid (pm_eventId p)).

Definition delivery_columns (n : NotificationDelivery) : bool :=
  is_uuid (nd_eventId n) && is_uuid (nd_userId n) && varchar 30 (nd_channel n) &&
  varchar 100 (nd_template n) && int4 (nd_attempts n).
Definition delivery_constraints (d : db) : constraints NotificationDelivery :=
  mkConstraints
    (fun p q => String.eqb (nd_eventId p) (nd_eventId q) &&
                String.eqb (nd_channel p) (nd_channel q))
    (fun _ => true) delivery_columns.

End constraints.

(** ** Statements *)

Section statements.
Context `{Prisma, Uuids} {R : Type} (T : table R).

Definition db_findUnique (k : string) : tx world (option R) :=
  tx_gets (fun w => findUnique k (t_get T (w_db w))).
Definition db_findFirst (p : R -> bool) : tx world (option R) :=
  tx_gets (fun w => findFirst p (t_get T (w_db w))).
Definition db_findUniqueOrThrow (k : string) : tx world R :=
  o ← db_findUnique k;
  match o with Some r => mret r | None => tx_throw P2025 end.
Definition db_findMany p leb skip tk : tx world (list R) :=
  tx_gets (fun w => findMany p leb skip tk (t_get T (w_db w))).
Definition db_count p : tx world nat :=
  tx_gets (fun w => count p (t_get T (w_db w))).

Definition db_create (c : db -> constraints R) (k : string) (r : R) : tx world R := fun w =>
  match create (c (w_db w)) k r (t_get T (w_db w)) with
  | Ok t => Ok (r, with_db (t_set T t) w)
  | Err e => Err e
  end.
Definition db_update (ok : R -> bool) (k : string) (f : R -> R) : tx world R := fun w =>
  match update ok k f (t_get T (w_db w)) with
  | Ok (r, t) => Ok (r, with_db (t_set T t) w)
  | Err e => Err e
  end.
Definition db_updateMany (ok p : R -> bool) (f : R -> R) : tx world nat := fun w =>
  match updateMany ok p f (t_get T (w_db w)) with
  | Ok (n, t) => Ok (n, with_db (t_set T t) w)
  | Err e => Err e
  end.

Definition db_upsert (p : R -> bool) (c : db -> constraints R) (k : string) (r : R) (f : R -> R) :
    tx world R := fun w =>
  match upsert p (c (w_db w)) k r f (t_get T (w_db w)) with
  | Ok (r, t) => Ok (r, with_db (t_set T t) w)
  | Err e => Err e
  end.

(** The clock, and a new UUID. *)
Definition now : tx world Z := tx_gets w_now.
Definition new_uuid : tx world string := fun w =>
  Ok (uuid_at (w_nonce w), mkWorld (w_db w) (w_now w) (S (w_nonce w))).

End statements.

(** The rows whose columns are mostly defaults of the schema: [id uuid()],
    [createdAt now()], and for an outbox event [attempts 0] and [nextAttemptAt now()]. *)
Section defaults.
Context `{Prisma, Uuids}.

Definition auditLog_create (actorId : option string) (action aggregateType aggregateId : string)
    (correlationId : option string) (metadata : json) : tx world AuditLog :=
  id ← new_uuid;
  t ← now;
  db_create AuditLogs audit_log_constraints id
    {| al_id := id; al_actorId := actorId; al_action := action;
       al_aggregateType := aggregateType; al_aggregateId := aggregateId;
       al_metadata := metadata; al_correlationId := correlationId; al_createdAt := t |}.

Definition outboxEvent_create (type aggregateType aggregateId : string)
    (correlationId : option string) (payload : json) : tx world OutboxEvent :=
  id ← new_uuid;
  t ← now;
  db_create OutboxEvents outbox_constraints id
    {| ob_id := id; ob_type := type; ob_aggregateType := aggregateType;
       ob_aggregateId := aggregateId; ob_payload := payload;
       ob_correlationId := correlationId; ob_attempts := 0; ob_nextAttemptAt := t;
       ob_lockedAt := None; ob_lockedBy := None; ob_publishedAt := None;
       ob_lastError := None; ob_createdAt := t |}.

Definition processedMessage_create (consumer eventId : string) : tx world ProcessedMessage :=
  id ← new_uuid;
  t ← now;
  db_create ProcessedMessages processed_message_constraints id
    {| pm_id := id; pm_consumer := consumer; pm_eventId := eventId; pm_processedAt := t |}.

End defaults.

(** The next [n] UUIDs are distinct and no row has one of them as its key. *)
Definition unused_id `{Uuids} (d : db) (id : string) : bool :=
  negb (present (users d) id || present (refreshTokens d) id || present (restaurants d) id ||
        present (menuItems d) id || present (orders d) id || present (orderItems d) id ||
        present (payments d) id || present (auditLogs d) id || present (outboxEvents d) id ||
        present (processedMessages d) id || present (notificationDeliveries d) id).
Definition next_ids `{Uuids} (n : nat) (w : world) : list string :=
  map uuid_at (seq (w_nonce w) n).
Definition fresh_draws `{Uuids} (n : nat) (w : world) : bool :=
  bool_decide (NoDup (next_ids n w)) && forallb (unused_id (w_db w)) (next_ids n w).

(** ** What a statement does *)

Section statement_lemmas.
Context {P : Prisma} {U : Uuids} {PL : PrismaLaws P} {R : Type} (T : table R).
Implicit Types (w : world) (r : R).

Lemma db_create_inv (c : db -> constraints R) k r w a w' :
  db_create T c k r w = Ok (a, w') ->
  a = r /\ unique_in (c (w_db w)) k r (t_get T (w_db w)) /\
  c_foreign (c (w_db w)) r = true /\ c_columns (c (w_db w)) r = true /\
  w' = with_db (t_set T (<[k := r]> (t_get T (w_db w)))) w.
Proof.
  unfold db_create. destruct (create _ _ _ _) as [t|e] eqn:Hc; [|done].
  intros; simplify_eq. apply create_inv in Hc as (? & ? & ? & ->). done.
Qed.

Lemma db_create_Ok (c : db -> constraints R) k r w :
  unique_in (c (w_db w)) k r (t_get T (w_db w)) ->
  c_foreign (c (w_db w)) r = true -> c_columns (c (w_db w)) r = true ->
  db_create T c k r w = Ok (r, with_db (t_set T (<[k := r]> (t_get T (w_db w)))) w).
Proof. intros. unfold db_create. by rewrite create_Ok. Qed.

Lemma db_update_inv ok k f w a w' :
  db_update T ok k f w = Ok (a, w') ->
  exists r, t_get T (w_db w) !! k = Some r /\ a = f r /\ ok (f r) = true /\
    w' = with_db (t_set T (<[k := f r]> (t_get T (w_db w)))) w.
Proof.
  unfold db_update. destruct (update _ _ _ _) as [[r' t]|e] eqn:Hu; [|done].
  intros; simplify_eq. apply update_inv in Hu as (r & ? & -> & ? & ->). by exists r.
Qed.

Lemma db_update_Ok ok k f w r :
  t_get T (w_db w) !! k = Some r -> ok (f r) = true ->
  db_update T ok k f w =
    Ok (f r, with_db (t_set T (<[k := f r]> (t_get T (w_db w)))) w).
Proof. intros. unfold db_update. by rewrite (update_Ok _ _ _ _ _ r). Qed.

Lemma db_updateMany_inv ok p f w n w' :
  db_updateMany T ok p f w = Ok (n, w') ->
  n = length (where_rows p (t_get T (w_db w))) /\
  w' = with_db (t_set T (update_where p f (t_get T (w_db w)))) w /\
  (forall k r, t_get T (w_db w) !! k = Some r -> p r = true -> ok (f r) = true).
Proof.
  unfold db_updateMany. destruct (updateMany _ _ _ _) as [[m t]|e] eqn:Hu; [|done].
  intros; simplify_eq. by apply updateMany_inv in Hu as (-> & -> & ?).
Qed.

Lemma db_updateMany_Ok ok p f w :
  (forall k r, t_get T (w_db w) !! k = Some r -> p r = true -> ok (f r) = true) ->
  db_updateMany T ok p f w =
    Ok (length (where_rows p (t_get T (w_db w))),
        with_db (t_set T (update_where p f (t_get T (w_db w)))) w).
Proof. intros. unfold db_updateMany. by rewrite updateMany_Ok. Qed.

Lemma db_findUnique_eq k w : db_findUnique T k w = Ok (t_get T (w_db w) !! k, w).
Proof. unfold db_findUnique, tx_gets. by rewrite findUnique_spec. Qed.

Lemma db_findUniqueOrThrow_inv k w r w' :
  db_findUniqueOrThrow T k w = Ok (r, w') -> w' = w /\ t_get T (w_db w) !! k = Some r.
Proof.
  unfold db_findUniqueOrThrow. intros (o & s & Ho & H)%tx_bind_Ok.
  rewrite db_findUnique_eq in Ho. simplify_eq.
  destruct (t_get T (w_db s) !! k); [|done]. by injection H as -> ->.
Qed.

Lemma db_findFirst_inv p w o w' :
  db_findFirst T p w = Ok (o, w') -> w' = w /\
  match o with
  | Some r => p r = true /\ exists k, t_get T (w_db w) !! k = Some r
  | None => forall k r, t_get T (w_db w) !! k = Some r -> p r = false
  end.
Proof.
  unfold db_findFirst, tx_gets. intros; simplify_eq. split; [done|].
  destruct (findFirst p _) as [r|] eqn:Hf.
  - by apply findFirst_Some in Hf.
  - intros k r Hr. by eapply findFirst_None.
Qed.

End statement_lemmas.

(** Invert the success of a sequence of statements, one statement at a time. *)
Ltac tx_inv_step H :=
  lazymatch type of H with
  | mbind _ _ _ = Ok _ =>
      let a := fresh "a" in let s := fresh "s" in let Hs := fresh "Hs" in
      apply tx_bind_Ok in H as (a & s & Hs & H); tx_inv_step Hs
  | mret _ _ = Ok _ => injection H as ? ?; subst
  | tx_gets _ _ = Ok _ => unfold tx_gets in H; injection H as ? ?; subst
  | now _ = Ok _ => unfold now, tx_gets in H; injection H as ? ?; subst
  | new_uuid _ = Ok _ => unfold new_uuid in H; injection H as ? ?; subst
  | tx_throw _ _ = Ok _ => discriminate H
  | db_create _ _ _ _ _ = Ok _ =>
      apply db_create_inv in H as (? & ? & ? & ? & ?); subst
  | db_update _ _ _ _ _ = Ok _ =>
      apply db_update_inv in H as (? & ? & ? & ? & ?); subst
  | db_updateMany _ _ _ _ _ = Ok _ =>
      apply db_updateMany_inv in H as (? & ? & ?); subst
  | db_findUnique _ _ _ = Ok _ => rewrite db_findUnique_eq in H; injection H as ? ?; subst
  | db_findUniqueOrThrow _ _ _ = Ok _ =>
      apply db_findUniqueOrThrow_inv in H as (? & ?); subst
  | db_findFirst _ _ _ = Ok _ => apply db_findFirst_inv in H as (? & ?); subst
  | _ => idtac
  end.
Ltac tx_inv H := repeat progress tx_inv_step H.

(** Step over a draw of the clock or of a UUID; conclude from the last value. *)
Ltac tx_draw H :=
  let a := fresh "x" in let s := fresh "s" in let Hs := fresh "Hs" in
  apply tx_bind_Ok in H as (a & s & Hs & H); unfold new_uuid, now, tx_gets in Hs; simplify_eq.
Ltac tx_return H := unfold mret, tx_ret in H; simplify_eq.

(** The rows with a default key. *)
Section default_lemmas.
Context {P : Prisma} {U : Uuids} {PL : PrismaLaws P}.

Lemma auditLog_create_inv actorId action aggType agg corr meta w a w' :
  auditLog_create actorId action aggType agg corr meta w = Ok (a, w') ->
  let id := uuid_at (w_nonce w) in
  auditLogs (w_db w) !! id = None /\ al_action a = action /\ al_aggregateId a = agg /\
  al_metadata a = meta /\ al_actorId a = actorId /\ al_correlationId a = corr /\
  w' = mkWorld (t_set AuditLogs (<[id := a]> (auditLogs (w_db w))) (w_db w)) (w_now w)
         (S (w_nonce w)).
Proof.
  unfold auditLog_create. intros H. tx_inv H.
  match goal with Hu : unique_in _ _ _ _ |- _ => destruct Hu as [Hu _] end. done.
Qed.

Lemma outboxEvent_create_inv type aggType agg corr payload w e w' :
  outboxEvent_create type aggType agg corr payload w = Ok (e, w') ->
  let id := uuid_at (w_nonce w) in
  outboxEvents (w_db w) !! id = None /\
  e = {| ob_id := id; ob_type := type; ob_aggregateType := aggType;
         ob_aggregateId := agg; ob_payload := payload;
         ob_correlationId := corr; ob_attempts := 0; ob_nextAttemptAt := w_now w;
         ob_lockedAt := None; ob_lockedBy := None; ob_publishedAt := None;
         ob_lastError := None; ob_createdAt := w_now w |} /\
  w' = mkWorld (t_set OutboxEvents (<[id := e]> (outboxEvents (w_db w))) (w_db w)) (w_now w)
         (S (w_nonce w)).
Proof.
  unfold outboxEvent_create. intros H. tx_inv H.
  match goal with Hu : unique_in _ _ _ _ |- _ => destruct Hu as [Hu _] end. done.
Qed.

Lemma auditLog_create_Ok actorId action aggType agg corr meta w :
  auditLogs (w_db w) !! uuid_at (w_nonce w) = None ->
  present_opt (users (w_db w)) actorId = true ->
  varchar 100 action && varchar 80 aggType && varchar 100 agg && varchar_opt 100 corr = true ->
  exists a, auditLog_create actorId action aggType agg corr meta w =
    Ok (a, mkWorld (t_set AuditLogs (<[uuid_at (w_nonce w) := a]> (auditLogs (w_db w))) (w_db w))
             (w_now w) (S (w_nonce w))).
Proof.
  intros Hn Ha Hc. unfold auditLog_create, new_uuid, now, tx_gets.
  eexists. erewrite tx_bind_eq by done. erewrite tx_bind_eq by done.
  rewrite db_create_Ok; [done|split; [exact Hn|done]|exact Ha|exact Hc].
Qed.

Lemma outboxEvent_create_Ok type aggType agg corr payload w :
  outboxEvents (w_db w) !! uuid_at (w_nonce w) = None ->
  varchar 100 type && varchar 80 aggType && varchar 100 agg && varchar_opt 100 corr = true ->
  exists e, outboxEvent_create type aggType agg corr payload w =
    Ok (e, mkWorld (t_set OutboxEvents (<[uuid_at (w_nonce w) := e]> (outboxEvents (w_db w)))
                      (w_db w)) (w_now w) (S (w_nonce w))).
Proof.
  intros Hn Hc. unfold outboxEvent_create, new_uuid, now, tx_gets.
  eexists. erewrite tx_bind_eq by done. erewrite tx_bind_eq by done.
  rewrite db_create_Ok; [done|split; [exact Hn|done]|done|].
  simpl. unfold outbox_columns. simpl. by rewrite Hc.
Qed.

Lemma processedMessage_create_inv consumer eventId w m w' :
  processedMessage_create consumer eventId w = Ok (m, w') ->
  let id := uuid_at (w_nonce w) in
  processedMessages (w_db w) !! id = None /\
  (forall k q, processedMessages (w_db w) !! k = Some q ->
     pm_consumer q = consumer -> pm_eventId q <> eventId) /\
  m = mkProcessedMessage id consumer eventId (w_now w) /\
  w' = mkWorld (t_set ProcessedMessages (<[id := m]> (processedMessages (w_db w))) (w_db w))
         (w_now w) (S (w_nonce w)).
Proof.
  unfold processedMessage_create. intros H. tx_inv H.
  match goal with Hu : unique_in _ _ _ _ |- _ => destruct Hu as [Hu Hcl] end.
  split_and!; [done| |done|done].
  intros k q Hq <- <-. specialize (Hcl _ _ Hq). simpl in Hcl.
  by rewrite !String.eqb_refl in Hcl.
Qed.

End default_lemmas.
