(* ===== verification/Orders.v ===== *)
(** * Orders

    OrdersRepository and OrdersService (src/src/orders/): creation with authoritative
    prices, listing with role scope and pagination, and status updates under an optimistic
    lock. A repository method that runs a [$transaction] is a [tx]; a service method is a
    [prog] whose steps are the repository calls it awaits. *)
From S2P Require Import Prelude JsStrings Errors Effects Prisma Schema.

(** ** Requests *)

Record AuthenticatedUser := mkAuthenticatedUser {
  au_id : string; au_email : string; au_role : Role }.

Record CreateOrderItemDto := mkCreateOrderItemDto { ci_menuItemId : string; ci_quantity : Z }.
Record CreateOrderDto := mkCreateOrderDto {
  co_restaurantId : string; co_items : list CreateOrderItemDto }.
Record UpdateOrderStatusDto := mkUpdateOrderStatusDto { us_status : OrderStatus; us_version : Z }.
Record ListOrdersQueryDto := mkListOrdersQueryDto {
  q_page : Z; q_limit : Z; q_status : option OrderStatus; q_restaurantId : option string;
  q_createdFrom : option string; q_createdTo : option string }.

(** The validation the decorators of the DTOs put on the numbers and sizes. *)
Definition CreateOrderItemDto_valid (i : CreateOrderItemDto) : bool :=
  (1 <=? ci_quantity i) && (ci_quantity i <=? 50).
Definition CreateOrderDto_valid (d : CreateOrderDto) : bool :=
  bool_decide (1 <= length (co_items d) <= 50)%nat &&
  forallb CreateOrderItemDto_valid (co_items d).
Definition UpdateOrderStatusDto_valid (d : UpdateOrderStatusDto) : bool := 1 <=? us_version d.
Definition ListOrdersQueryDto_valid (q : ListOrdersQueryDto) : bool :=
  (1 <=? q_page q) && (1 <=? q_limit q) && (q_limit q <=? 100).

(** [new Date(text)]; [None] is an invalid date. *)
Class Dates := { Date_parse : string -> option Z }.

(** An order as [orderInclude] returns it: with its restaurant, its items and its payments. *)
Record OrderView := mkOrderView {
  ov_order : Order;
  ov_restaurant : option (string * string);
  ov_items : list OrderItem;
  ov_payments : list Payment }.

Record LineItem := mkLineItem {
  li_menuItemId : string; li_name : string; li_unitPrice : Z; li_quantity : Z;
  li_lineTotal : Z }.

Record PageMeta := mkPageMeta { m_page : Z; m_limit : Z; m_total : Z; m_pages : Z }.
Record OrderPage := mkOrderPage { pg_data : list OrderView; pg_meta : PageMeta }.

(** ** OrdersRepository *)
Module OrdersRepository.
Section repository.
Context `{Prisma, Uuids, Decimals, Dates}.

Definition by_createdAt_desc (p q : Payment) : bool := p_createdAt q <=? p_createdAt p.
Definition unordered {R : Type} (_ _ : R) : bool := true.

Definition orderInclude (d : db) (o : Order) : OrderView := {|
  ov_order := o;
  ov_restaurant := (fun r => (r_id r, r_name r)) <$> findUnique (o_restaurantId o) (restaurants d);
  ov_items := findMany (fun i => String.eqb (oi_orderId i) (o_id o)) unordered 0 None
                (orderItems d);
  ov_payments := findMany (fun p => String.eqb (p_orderId p) (o_id o)) by_createdAt_desc 0 None
                   (payments d);
|}.

(** [new Map(entries)]: a later entry of the same key replaces an earlier one. *)
Definition map_by_id (items : list MenuItem) : gmap string MenuItem :=
  foldl (fun m i => <[mi_id i := i]> m) ∅ items.

(** The line a requested item becomes; [byId.get(...)!] of a missing item is [undefined],
    whose property access is a TypeError. *)
Definition line_item (byId : gmap string MenuItem) (requested : CreateOrderItemDto) :
    option LineItem :=
  menu ← byId !! ci_menuItemId requested;
  Some {| li_menuItemId := mi_id menu; li_name := mi_name menu;
          li_unitPrice := mi_price menu; li_quantity := ci_quantity requested;
          li_lineTotal := mi_price menu * ci_quantity requested |}.

Definition total_of (lines : list LineItem) : Z :=
  foldl (fun sum item => sum + li_lineTotal item) 0 lines.

(** [items: { create: lineItems }], the nested rows of the order. *)
Fixpoint create_items (orderId : string) (lines : list LineItem) : tx world unit :=
  match lines with
  | [] => mret tt
  | l :: lines =>
      id ← new_uuid;
      _ ← db_create OrderItems order_item_constraints id
            {| oi_id := id; oi_orderId := orderId; oi_menuItemId := li_menuItemId l;
               oi_name := li_name l; oi_unitPrice := li_unitPrice l;
               oi_quantity := li_quantity l; oi_lineTotal := li_lineTotal l |};
      create_items orderId lines
  end.

Definition order_create (userId restaurantId : string) (totalAmount : Z)
    (lines : list LineItem) : tx world Order :=
  id ← new_uuid;
  t ← now;
  order ← db_create Orders order_constraints id
    {| o_id := id; o_userId := userId; o_restaurantId := restaurantId; o_status := PENDING;
       o_totalAmount := totalAmount; o_version := 1; o_createdAt := t; o_updatedAt := t |};
  _ ← create_items id lines;
  mret order.

(** The lines and the total of a request, priced from the menu. *)
Definition price_order (dto : CreateOrderDto) : tx world (list LineItem) :=
  restaurant ← db_findFirst Restaurants
    (fun r => String.eqb (r_id r) (co_restaurantId dto) && r_active r);
  match restaurant with
  | None => tx_throw (NotFoundException "Active restaurant not found")
  | Some _ =>
      let menuIds := map ci_menuItemId (co_items dto) in
      menuItems ← db_findMany MenuItems
        (fun m => bool_decide (mi_id m ∈ menuIds) &&
                  String.eqb (mi_restaurantId m) (co_restaurantId dto) && mi_available m)
        unordered 0 None;
      if negb (bool_decide (length menuItems = length menuIds)) then
        tx_throw (ConflictException
          "One or more menu items are invalid, duplicated, or unavailable")
      else
        match mapM (line_item (map_by_id menuItems)) (co_items dto) with
        | None => tx_throw (JsError "Cannot read properties of undefined (reading 'price')")
        | Some lineItems => mret lineItems
        end
  end.

Definition create (userId : string) (dto : CreateOrderDto) (correlationId : option string) :
    tx world OrderView :=
  lineItems ← price_order dto;
  let totalAmount := total_of lineItems in
  order ← order_create userId (co_restaurantId dto) totalAmount lineItems;
  view ← tx_gets (fun w => orderInclude (w_db w) order);
  _ ← auditLog_create (Some userId) "ORDER_CREATED" "Order" (o_id order) correlationId
        (JObj [("status", JStr (OrderStatus_name (o_status order)));
               ("totalAmount", JStr (decimal_toString totalAmount))]);
  _ ← outboxEvent_create "OrderCreated" "Order" (o_id order) correlationId
        (JObj [("orderId", JStr (o_id order)); ("userId", JStr userId);
               ("restaurantId", JStr (co_restaurantId dto));
               ("totalAmount", JStr (decimal_toString totalAmount))]);
  mret view.

Definition findById (id : string) : tx world (option OrderView) :=
  o ← db_findUnique Orders id;
  tx_gets (fun w => orderInclude (w_db w) <$> o).

(** The [where] of a listing. *)
Definition order_where (query : ListOrdersQueryDto) (userId : option string)
    (from to : option Z) (o : Order) : bool :=
  match truthy userId with Some u => String.eqb (o_userId o) u | None => true end &&
  match q_status query with Some s => bool_decide (o_status o = s) | None => true end &&
  match truthy (q_restaurantId query) with
  | Some r => String.eqb (o_restaurantId o) r | None => true end &&
  match from with Some t => t <=? o_createdAt o | None => true end &&
  match to with Some t => o_createdAt o <=? t | None => true end.

(** [orderBy: [{ createdAt: 'desc' }, { id: 'desc' }]]. *)
Definition order_leb (o o' : Order) : bool :=
  (o_createdAt o' <? o_createdAt o) ||
  ((o_createdAt o' =? o_createdAt o) && String.leb (o_id o') (o_id o)).

(** [Math.ceil(a / b)] for a positive [b]. *)
Definition ceil_div (a b : Z) : Z := - ((- a) / b).

(** An optional date of the query; an invalid one is refused by the client. *)
Definition parse_bound (s : option string) : tx world (option Z) :=
  match truthy s with
  | None => mret None
  | Some s =>
      match Date_parse s with
      | Some t => mret (Some t)
      | None => tx_throw (JsError "Invalid value for argument: Provided Date object is invalid")
      end
  end.

Definition list (query : ListOrdersQueryDto) (userId : option string) : tx world OrderPage :=
  from ← parse_bound (q_createdFrom query);
  to ← parse_bound (q_createdTo query);
  let where_ := order_where query userId from to in
  data ← db_findMany Orders where_ order_leb
           (Z.to_nat ((q_page query - 1) * q_limit query)) (Some (Z.to_nat (q_limit query)));
  views ← tx_gets (fun w => orderInclude (w_db w) <$> data);
  total ← db_count Orders where_;
  mret {| pg_data := views;
          pg_meta := {| m_page := q_page query; m_limit := q_limit query;
                        m_total := Z.of_nat total;
                        m_pages := ceil_div (Z.of_nat total) (q_limit query) |} |}.

Definition set_status (status : OrderStatus) (t : Z) (o : Order) : Order := {|
  o_id := o_id o; o_userId := o_userId o; o_restaurantId := o_restaurantId o;
  o_status := status; o_totalAmount := o_totalAmount o; o_version := o_version o + 1;
  o_createdAt := o_createdAt o; o_updatedAt := t |}.

Definition updateStatus (id : string) (currentVersion : Z) (status : OrderStatus)
    (actorId : string) (correlationId : option string) : tx world OrderView :=
  t ← now;
  count ← db_updateMany Orders order_columns
    (fun o => String.eqb (o_id o) id && (o_version o =? currentVersion)) (set_status status t);
  if negb (bool_decide (count = 1%nat)) then
    tx_throw (ConflictException "Order was updated by another request; reload and retry")
  else
    _ ← auditLog_create (Some actorId) "ORDER_STATUS_UPDATED" "Order" id correlationId
          (JObj [("status", JStr (OrderStatus_name status));
                 ("previousVersion", JNum currentVersion)]);
    order ← db_findUniqueOrThrow Orders id;
    tx_gets (fun w => orderInclude (w_db w) order).

End repository.
End OrdersRepository.

(** ** The stored lines of an order *)

Definition sum_lines (l : list OrderItem) : Z := foldr (fun i s => oi_lineTotal i + s) 0 l.
Definition items_of (orderId : string) (t : gmap string OrderItem) : list OrderItem :=
  where_rows (fun i => String.eqb (oi_orderId i) orderId) t.

(** ** OrdersService *)
Module OrdersService.

Definition transitions (s : OrderStatus) : list OrderStatus :=
  match s with
  | PENDING => [CONFIRMED; CANCELLED]
  | CONFIRMED => [PREPARING; CANCELLED]
  | PREPARING => [READY; CANCELLED]
  | READY => [COMPLETED]
  | COMPLETED => []
  | CANCELLED => []
  end.

Section service.
Context `{Prisma, Uuids, Decimals, Dates}.

(** [correlationId] is what [requestContext.getCorrelationId()] gives the request. *)
Definition create (user : AuthenticatedUser) (dto : CreateOrderDto)
    (correlationId : option string) : prog world OrderView :=
  let ids := map ci_menuItemId (co_items dto) in
  if negb (bool_decide (size (list_to_set ids : gset string) = length ids)) then
    Throw (BadRequestException "Each menu item may appear only once; increase quantity instead")
  else await (OrdersRepository.create (au_id user) dto correlationId).

Definition list (user : AuthenticatedUser) (query : ListOrdersQueryDto) : prog world OrderPage :=
  let userScope := if bool_decide (au_role user = USER) then Some (au_id user) else None in
  await (OrdersRepository.list query userScope).

Definition forbidden_message := "Users may only cancel their own eligible orders".

Definition updateStatus (user : AuthenticatedUser) (id : string) (dto : UpdateOrderStatusDto)
    (correlationId : option string) : prog world OrderView :=
  found ← await (OrdersRepository.findById id);
  match found with
  | None => Throw (NotFoundException "Order not found")
  | Some view =>
      let current := ov_order view in
      if bool_decide (au_role user = USER) &&
         (negb (String.eqb (o_userId current) (au_id user)) ||
          negb (bool_decide (us_status dto = CANCELLED)))
      then Throw (ForbiddenException forbidden_message)
      else if negb (bool_decide (us_status dto ∈ transitions (o_status current))) then
        Throw (BadRequestException
          (String.append "Order cannot transition from "
            (String.append (OrderStatus_name (o_status current))
              (String.append " to " (OrderStatus_name (us_status dto))))))
      else await (OrdersRepository.updateStatus id (us_version dto) (us_status dto)
                    (au_id user) correlationId)
  end.

End service.
End OrdersService.

(** *** Sums of the lines of an order *)

Lemma sum_lines_app l1 l2 : sum_lines (l1 ++ l2) = sum_lines l1 + sum_lines l2.
Proof. induction l1 as [|i l1 IH]; simpl; [done|]. rewrite IH. lia. Qed.

Lemma sum_lines_perm l1 l2 : l1 ≡ₚ l2 -> sum_lines l1 = sum_lines l2.
Proof. induction 1; simpl in *; lia. Qed.

Lemma sum_items_insert orderId t k i :
  t !! k = None ->
  sum_lines (items_of orderId (<[k := i]> t)) =
  (if String.eqb (oi_orderId i) orderId then oi_lineTotal i else 0) +
  sum_lines (items_of orderId t).
Proof.
  intros Hk. unfold items_of. rewrite (sum_lines_perm _ _ (where_rows_insert _ _ _ _ Hk)).
  rewrite sum_lines_app. destruct (String.eqb _ _); simpl; lia.
Qed.

Lemma items_of_none orderId t :
  (forall k i, t !! k = Some i -> oi_orderId i <> orderId) -> items_of orderId t = [].
Proof.
  intros H. destruct (items_of orderId t) as [|i l] eqn:Hl; [done|].
  assert (Hi : i ∈ items_of orderId t) by (rewrite Hl; by left).
  apply elem_of_where_rows in Hi as [He%String.eqb_eq [k Hk]]. by destruct (H k i).
Qed.

(** ** Specification of the prices *)

(** What the menu says a request costs: every requested item is an available item of the
    restaurant, and contributes its price times its quantity. *)
Definition menu_line (t : gmap string MenuItem) (restaurantId : string)
    (i : CreateOrderItemDto) (l : LineItem) : Prop :=
  exists m, t !! ci_menuItemId i = Some m /\ mi_available m = true /\
    mi_restaurantId m = restaurantId /\
    l = {| li_menuItemId := ci_menuItemId i; li_name := mi_name m;
           li_unitPrice := mi_price m; li_quantity := ci_quantity i;
           li_lineTotal := mi_price m * ci_quantity i |}.

Definition priced_items (d : db) (dto : CreateOrderDto) (lines : list LineItem) : Prop :=
  Forall2 (menu_line (menuItems d) (co_restaurantId dto)) (co_items dto) lines.

Definition active_restaurant (d : db) (id : string) : Prop :=
  exists k r, restaurants d !! k = Some r /\ r_id r = id /\ r_active r = true.

(** ** Lemmas *)

Section map_by_id.
Implicit Types (l : list MenuItem).

Lemma map_by_id_snoc l m :
  OrdersRepository.map_by_id (l ++ [m]) = <[mi_id m := m]> (OrdersRepository.map_by_id l).
Proof. unfold OrdersRepository.map_by_id. by rewrite foldl_app. Qed.

Lemma map_by_id_sound l i m :
  OrdersRepository.map_by_id l !! i = Some m -> m ∈ l /\ mi_id m = i.
Proof.
  induction l as [|x l IH] using rev_ind; [done|].
  rewrite map_by_id_snoc, lookup_insert. case_decide as He.
  - intros [= ->]. split; [apply elem_of_app; right; by left|done].
  - intros [? ?]%IH. split; [apply elem_of_app; by left|done].
Qed.

Lemma map_by_id_complete l m :
  m ∈ l -> is_Some (OrdersRepository.map_by_id l !! mi_id m).
Proof.
  induction l as [|x l IH] using rev_ind; [by intros ?%not_elem_of_nil|].
  intros [Hm|Hm]%elem_of_app; rewrite map_by_id_snoc, lookup_insert; case_decide; eauto.
  apply list_elem_of_singleton in Hm. congruence.
Qed.

End map_by_id.

(** The counting argument behind [byId.get(...)!]: distinct rows whose ids are all
    requested, as many as there are requests, leave no request without a row. *)
Lemma found_all (ids found : list string) :
  NoDup found -> (forall i, i ∈ found -> i ∈ ids) -> length found = length ids ->
  found ≡ₚ ids.
Proof.
  intros Hnd Hsub Hlen. apply submseteq_length_Permutation; [|lia].
  apply NoDup_submseteq; auto.
Qed.

Section repository_lemmas.
Context {P : Prisma} {U : Uuids} {D : Decimals} {DT : Dates} {PL : PrismaLaws P}.
Implicit Types (w : world) (dto : CreateOrderDto).

Lemma findMany_unordered {R : Type} (p : R -> bool) (t : gmap string R) :
  findMany p OrdersRepository.unordered 0 None t ≡ₚ where_rows p t.
Proof.
  destruct (findMany_spec R p OrdersRepository.unordered 0 None t) as (l & Hl & _ & ->).
  { intros x y. by left. }
  simpl. by rewrite drop_0.
Qed.

Definition menu_found (d : db) dto : list MenuItem :=
  findMany (fun m => bool_decide (mi_id m ∈ map ci_menuItemId (co_items dto)) &&
             String.eqb (mi_restaurantId m) (co_restaurantId dto) && mi_available m)
    OrdersRepository.unordered 0 None (menuItems d).

Lemma menu_found_spec d dto m :
  m ∈ menu_found d dto <->
  mi_id m ∈ map ci_menuItemId (co_items dto) /\ mi_restaurantId m = co_restaurantId dto /\
  mi_available m = true /\ exists k, menuItems d !! k = Some m.
Proof.
  unfold menu_found. rewrite findMany_unordered, elem_of_where_rows.
  rewrite !andb_true_iff, bool_decide_eq_true, String.eqb_eq. tauto.
Qed.

Lemma menu_found_nodup d dto :
  keyed mi_id (menuItems d) -> NoDup (mi_id <$> menu_found d dto).
Proof.
  intros Hk. unfold menu_found. rewrite findMany_unordered. by apply keyed_ids_NoDup.
Qed.

(** When the counts agree, the rows found are exactly the rows requested. *)
Lemma menu_found_ids d dto :
  keyed mi_id (menuItems d) -> length (menu_found d dto) = length (co_items dto) ->
  mi_id <$> menu_found d dto ≡ₚ map ci_menuItemId (co_items dto).
Proof.
  intros Hk Hlen. apply found_all.
  - by apply menu_found_nodup.
  - intros i (m & -> & Hm)%list_elem_of_fmap. by apply menu_found_spec in Hm as [? _].
  - by rewrite length_fmap, length_map.
Qed.

Lemma line_item_found d dto i l :
  keyed mi_id (menuItems d) ->
  OrdersRepository.line_item (OrdersRepository.map_by_id (menu_found d dto)) i = Some l ->
  menu_line (menuItems d) (co_restaurantId dto) i l.
Proof.
  intros Hk. unfold OrdersRepository.line_item.
  intros (m & Hm & [= <-])%bind_Some.
  apply map_by_id_sound in Hm as [Hm Hid].
  apply menu_found_spec in Hm as (_ & Hr & Ha & k & Hkm).
  pose proof (Hk _ _ Hkm) as Hid'. rewrite Hid in Hid'. subst k. exists m. by rewrite Hid.
Qed.

Lemma line_item_total d dto :
  keyed mi_id (menuItems d) -> length (menu_found d dto) = length (co_items dto) ->
  is_Some (mapM (OrdersRepository.line_item (OrdersRepository.map_by_id (menu_found d dto)))
             (co_items dto)).
Proof.
  intros Hk Hlen. apply mapM_is_Some_2, Forall_forall. intros i Hi.
  assert (Hin : ci_menuItemId i ∈ mi_id <$> menu_found d dto).
  { rewrite menu_found_ids by done. apply list_elem_of_fmap. eauto. }
  apply list_elem_of_fmap in Hin as (m & Heq & Hm).
  apply map_by_id_complete in Hm as [m' Hm'].
  rewrite <- Heq in Hm'. unfold OrdersRepository.line_item. simpl. rewrite Hm'. eauto.
Qed.

(** *** Pricing *)

Lemma price_order_inv dto w lines w' :
  keyed mi_id (menuItems (w_db w)) ->
  OrdersRepository.price_order dto w = Ok (lines, w') ->
  w' = w /\ active_restaurant (w_db w) (co_restaurantId dto) /\
  priced_items (w_db w) dto lines /\ NoDup (map ci_menuItemId (co_items dto)).
Proof.
  intros Hk. unfold OrdersRepository.price_order. intros (a & s & Hs & H)%tx_bind_Ok.
  apply db_findFirst_inv in Hs as [-> Hr].
  destruct a as [r|]; [|done]. destruct Hr as [(Hid%String.eqb_eq & Hact)%andb_true_iff [k Hkr]].
  apply tx_bind_Ok in H as (found & s & Hs & H).
  unfold db_findMany, tx_gets in Hs. simplify_eq. fold (menu_found (w_db s) dto) in H.
  case_bool_decide as Hlen; [|done]. simpl in H. rewrite length_map in Hlen.
  destruct (mapM _ _) as [ls|] eqn:Hm; [|done]. tx_inv H.
  split_and!; [done|by exists k, r| |].
  - apply mapM_Some in Hm. eapply Forall2_impl; [exact Hm|].
    intros i l. by apply line_item_found.
  - apply menu_found_ids in Hlen; [|done]. rewrite <- Hlen. by apply menu_found_nodup.
Qed.

Lemma restaurant_found w dto :
  active_restaurant (w_db w) (co_restaurantId dto) ->
  exists r, db_findFirst Restaurants
    (fun r => String.eqb (r_id r) (co_restaurantId dto) && r_active r) w = Ok (Some r, w).
Proof.
  intros (k & r & Hk & Hid & Ha).
  destruct (db_findFirst Restaurants (fun r => String.eqb (r_id r) (co_restaurantId dto) &&
    r_active r) w) as [[o s]|e] eqn:Hf; [|done].
  apply db_findFirst_inv in Hf as [-> Ho]. destruct o as [q|]; [by exists q|].
  specialize (Ho _ _ Hk). by rewrite Hid, String.eqb_refl, Ha in Ho.
Qed.

Lemma priced_found_ids d dto lines :
  keyed mi_id (menuItems d) -> priced_items d dto lines ->
  NoDup (map ci_menuItemId (co_items dto)) ->
  mi_id <$> menu_found d dto ≡ₚ map ci_menuItemId (co_items dto).
Proof.
  intros Hk Hp Hnd. apply NoDup_Permutation; [by apply menu_found_nodup|done|].
  intros id. rewrite list_elem_of_fmap. split.
  - intros (m & -> & Hm). by apply menu_found_spec in Hm as [? _].
  - intros Hid. apply list_elem_of_fmap in Hid as Hi. destruct Hi as (i & -> & Hi).
    apply list_elem_of_lookup in Hi as [n Hn].
    destruct (Forall2_lookup_l _ _ _ _ _ Hp Hn) as (l & _ & m & Hm & Ha & Hr & _).
    pose proof (Hk _ _ Hm) as Hmid. exists m. split; [done|]. apply menu_found_spec.
    rewrite Hmid. eauto.
Qed.

Lemma line_item_priced d dto i l :
  keyed mi_id (menuItems d) -> ci_menuItemId i ∈ mi_id <$> menu_found d dto ->
  menu_line (menuItems d) (co_restaurantId dto) i l ->
  OrdersRepository.line_item (OrdersRepository.map_by_id (menu_found d dto)) i = Some l.
Proof.
  intros Hk Hin (m & Hm & _ & _ & ->).
  apply list_elem_of_fmap in Hin as (q & Heq & Hq).
  apply map_by_id_complete in Hq as [m' Hm']. rewrite <- Heq in Hm'.
  apply map_by_id_sound in Hm' as Hs. destruct Hs as [Hf Hid].
  apply menu_found_spec in Hf as (_ & _ & _ & k & Hk').
  pose proof (Hk _ _ Hk') as Hid'. assert (k = ci_menuItemId i) as -> by congruence.
  assert (m' = m) as -> by congruence.
  unfold OrdersRepository.line_item. rewrite Hm'. simpl. by rewrite Hid.
Qed.

Definition order_unavailable : exn :=
  ConflictException "One or more menu items are invalid, duplicated, or unavailable".

(** Pricing succeeds exactly on an active restaurant with distinct, available items, and
    throws one of two exceptions otherwise, never a TypeError. *)
Lemma price_order_cases dto w :
  keyed mi_id (menuItems (w_db w)) ->
  (~ active_restaurant (w_db w) (co_restaurantId dto) /\
   OrdersRepository.price_order dto w = Err (NotFoundException "Active restaurant not found"))
  \/ (active_restaurant (w_db w) (co_restaurantId dto) /\
   ~ (NoDup (map ci_menuItemId (co_items dto)) /\
      exists lines, priced_items (w_db w) dto lines) /\
   OrdersRepository.price_order dto w = Err order_unavailable)
  \/ (active_restaurant (w_db w) (co_restaurantId dto) /\
   NoDup (map ci_menuItemId (co_items dto)) /\
   exists lines, priced_items (w_db w) dto lines /\
     OrdersRepository.price_order dto w = Ok (lines, w)).
Proof.
  intros Hk. unfold OrdersRepository.price_order.
  destruct (db_findFirst Restaurants (fun r => String.eqb (r_id r) (co_restaurantId dto) &&
    r_active r) w) as [[o s]|e] eqn:Hf; [|done].
  rewrite (tx_bind_eq _ _ _ _ _ Hf). apply db_findFirst_inv in Hf as [-> Ho].
  destruct o as [r|]; simpl in Ho.
  2: { left. split; [|done]. intros (k & r & Hkr & Hid & Ha).
    specialize (Ho _ _ Hkr). by rewrite Hid, String.eqb_refl, Ha in Ho. }
  destruct Ho as [(Hid%String.eqb_eq & Ha)%andb_true_iff [k Hkr]].
  assert (Hact : active_restaurant (w_db w) (co_restaurantId dto)) by (by exists k, r).
  right. unfold db_findMany. rewrite (tx_bind_eq _ _ w (menu_found (w_db w) dto) w) by done.
  case_bool_decide as Hlen; simpl; rewrite length_map in Hlen.
  - right. destruct (line_item_total (w_db w) dto Hk Hlen) as [ls Hls]. rewrite Hls.
    split_and!; [done| |].
    + apply menu_found_ids in Hlen; [|done]. rewrite <- Hlen. by apply menu_found_nodup.
    + exists ls. split; [|done]. apply mapM_Some in Hls. eapply Forall2_impl; [exact Hls|].
      intros i l. by apply line_item_found.
  - left. split_and!; [done| |done]. intros [Hnd [lines Hp]]. apply Hlen.
    pose proof (priced_found_ids _ _ _ Hk Hp Hnd) as Hperm%Permutation_length.
    by rewrite length_fmap, length_map in Hperm.
Qed.

(** *** The rows of a new order *)

Definition item_of_line (orderId : string) (l : LineItem) (i : OrderItem) : Prop :=
  oi_orderId i = orderId /\ oi_menuItemId i = li_menuItemId l /\ oi_name i = li_name l /\
  oi_unitPrice i = li_unitPrice l /\ oi_quantity i = li_quantity l /\
  oi_lineTotal i = li_lineTotal l.

Lemma create_items_inv orderId lines w u w' :
  OrdersRepository.create_items orderId lines w = Ok (u, w') ->
  exists t new,
    w' = mkWorld (t_set OrderItems t (w_db w)) (w_now w) (w_nonce w + length lines) /\
    table_evolves (fun i => oi_orderId i = orderId) frozen (orderItems (w_db w)) t /\
    Forall2 (item_of_line orderId) lines new /\
    (forall k, items_of k t ≡ₚ (if String.eqb k orderId then new else []) ++
                              items_of k (orderItems (w_db w))).
Proof.
  revert w. induction lines as [|l lines IH]; intros w H; simpl in H.
  - injection H as <- <-. exists (orderItems (w_db w)), [].
    split_and!; [|apply table_evolves_refl|constructor|intros k; by case_match].
    simpl. rewrite Nat.add_0_r. by destruct w as [[] ? ?].
  - tx_draw H.
    apply tx_bind_Ok in H as (i & s & Hs & H).
    apply db_create_inv in Hs as (-> & [Hn _] & _ & _ & ->).
    destruct (IH _ H) as (t & new & -> & Ht & Hnew & Hitems). simpl in *. clear IH H.
    set (i := mkOrderItem _ orderId _ _ _ _ _) in *.
    exists t, (i :: new). split_and!.
    + simpl. f_equal; lia.
    + split.
      * intros k r Hk. exists r. split; [|by left]. eapply table_frozen_lookup; [exact Ht|].
        rewrite lookup_insert_ne; congruence.
      * intros k r Hk Hr.
        apply (table_evolves_bwd _ _ _ _ _ _ Ht) in Hr as [[_ ?]|(q & Hq & [->|[]])]; [done|].
        rewrite lookup_insert in Hq. case_decide; [by simplify_eq|congruence].
    + by constructor.
    + intros k. rewrite Hitems. unfold items_of. rewrite where_rows_insert by done.
      rewrite (String.eqb_sym orderId). destruct (String.eqb k orderId); simpl; [|done].
      by rewrite Permutation_middle.
Qed.

End repository_lemmas.
