(* ===== verification/OrdersSpec.v ===== *)
(** * What the orders repository does

    The functional behaviour of OrdersRepository.create on every branch, of updateStatus,
    and of the paginated listing. *)
From S2P Require Import Prelude JsStrings Errors Effects Prisma Schema Orders.

(** The sum a list of lines comes to. *)
Definition lines_sum (lines : list LineItem) : Z := foldr (fun l s => li_lineTotal l + s) 0 lines.

Lemma total_of_sum lines : OrdersRepository.total_of lines = lines_sum lines.
Proof.
  unfold OrdersRepository.total_of.
  assert (H : forall s, foldl (fun sum l => sum + li_lineTotal l) s lines = s + lines_sum lines).
  { induction lines as [|l lines IH]; intros s; simpl; [lia|]. rewrite IH. lia. }
  by rewrite H.
Qed.

Lemma sum_lines_items orderId lines items :
  Forall2 (item_of_line orderId) lines items -> sum_lines items = lines_sum lines.
Proof.
  induction 1 as [|l i lines items (_ & _ & _ & _ & _ & Hl) _ IH]; simpl; [done|].
  by rewrite Hl, IH.
Qed.

Section create.
Context {P : Prisma} {U : Uuids} {D : Decimals} {DT : Dates} {PL : PrismaLaws P}.

(** The whole effect of a successful creation. *)
Lemma create_inv userId dto corr w view w' :
  keyed mi_id (menuItems (w_db w)) ->
  OrdersRepository.create userId dto corr w = Ok (view, w') ->
  exists lines o items t ak a ek e,
    active_restaurant (w_db w) (co_restaurantId dto) /\
    priced_items (w_db w) dto lines /\ NoDup (map ci_menuItemId (co_items dto)) /\
    is_Some (users (w_db w) !! userId) /\
    orders (w_db w) !! o_id o = None /\
    o = mkOrder (uuid_at (w_nonce w)) userId (co_restaurantId dto) PENDING
          (lines_sum lines) 1 (w_now w) (w_now w) /\
    table_evolves (fun i => oi_orderId i = o_id o) frozen (orderItems (w_db w)) t /\
    Forall2 (item_of_line (o_id o)) lines items /\
    (forall k, items_of k t ≡ₚ (if String.eqb k (o_id o) then items else []) ++
                              items_of k (orderItems (w_db w))) /\
    auditLogs (w_db w) !! ak = None /\ al_action a = "ORDER_CREATED"%string /\
    (al_aggregateId a = o_id o /\ al_actorId a = Some userId /\ al_correlationId a = corr /\
     al_metadata a = JObj [("status", JStr "PENDING");
                           ("totalAmount", JStr (decimal_toString (o_totalAmount o)))]) /\
    outboxEvents (w_db w) !! ek = None /\
    e = mkOutboxEvent ek "OrderCreated" "Order" (o_id o)
          (JObj [("orderId", JStr (o_id o)); ("userId", JStr userId);
                 ("restaurantId", JStr (co_restaurantId dto));
                 ("totalAmount", JStr (decimal_toString (o_totalAmount o)))])
          corr 0 (w_now w) None None None None (w_now w) /\
    ov_order view = o /\
    view = OrdersRepository.orderInclude
             (t_set OrderItems t (t_set Orders (<[o_id o := o]> (orders (w_db w))) (w_db w))) o /\
    w_now w' = w_now w /\
    w_db w' = t_set OutboxEvents (<[ek := e]> (outboxEvents (w_db w)))
                (t_set AuditLogs (<[ak := a]> (auditLogs (w_db w)))
                  (t_set OrderItems t
                    (t_set Orders (<[o_id o := o]> (orders (w_db w))) (w_db w)))).
Proof.
  intros Hk. unfold OrdersRepository.create.
  intros (lines & s & Hs & H)%tx_bind_Ok.
  apply price_order_inv in Hs as (-> & Hact & Hp & Hnd); [|done].
  apply tx_bind_Ok in H as (o & s & Hs & H). unfold OrdersRepository.order_create in Hs.
  tx_draw Hs.
  tx_draw Hs.
  apply tx_bind_Ok in Hs as (o' & s1 & Ho & Hs).
  apply db_create_inv in Ho as (-> & [Hfresh _] & Hfk & _ & ->).
  apply tx_bind_Ok in Hs as (u & s1 & Hci & Hs). tx_return Hs.
  apply create_items_inv in Hci as (t & items & -> & Ht & Hitems & Hio).
  apply tx_bind_Ok in H as (v & s1 & Hv & H). unfold tx_gets in Hv. simplify_eq.
  apply tx_bind_Ok in H as (a & s1 & Ha & H).
  apply auditLog_create_inv in Ha as (Hak & Hact' & Hagg & Hmeta & Hactor & Hcorr & ->).
  apply tx_bind_Ok in H as (e & s1 & He & H).
  apply outboxEvent_create_inv in He as (Hek & He & ->).
  tx_return H.
  simpl in Hfk. apply andb_true_iff in Hfk as [Hu _]. unfold present in Hu.
  apply bool_decide_eq_true in Hu. rewrite total_of_sum in *. simpl in *.
  eexists lines, _, items, t, _, a, _, _.
  split_and!; try done. exact Hfresh.
Qed.

(** C28: What a successful order creation stores, and that it stores nothing else: one new
    PENDING order of version 1 for the caller, whose lines carry the names and prices of the
    available menu items of the active restaurant and whose total is the sum of price times
    quantity over the requested items; its items, one per line; one audit record and one
    OrderCreated event. The keys of order, audit record and event were free; no stored item
    row is touched and every new item row is of this order; every other table is as it was. *)
Theorem create_order_correct userId dto corr w view w' :
  keyed mi_id (menuItems (w_db w)) ->
  OrdersRepository.create userId dto corr w = Ok (view, w') ->
  exists o lines items t ak a ek e,
    active_restaurant (w_db w) (co_restaurantId dto) /\
    priced_items (w_db w) dto lines /\ NoDup (map ci_menuItemId (co_items dto)) /\
    o = mkOrder (uuid_at (w_nonce w)) userId (co_restaurantId dto) PENDING
          (lines_sum lines) 1 (w_now w) (w_now w) /\
    orders (w_db w) !! o_id o = None /\
    Forall2 (item_of_line (o_id o)) lines items /\
    orderItems (w_db w) ⊆ t /\
    (forall k i, t !! k = Some i -> orderItems (w_db w) !! k = None -> oi_orderId i = o_id o) /\
    (forall k, items_of k t ≡ₚ (if String.eqb k (o_id o) then items else []) ++
                              items_of k (orderItems (w_db w))) /\
    auditLogs (w_db w) !! ak = None /\ al_action a = "ORDER_CREATED"%string /\
    al_aggregateId a = o_id o /\ al_actorId a = Some userId /\ al_correlationId a = corr /\
    outboxEvents (w_db w) !! ek = None /\
    e = mkOutboxEvent ek "OrderCreated" "Order" (o_id o)
          (JObj [("orderId", JStr (o_id o)); ("userId", JStr userId);
                 ("restaurantId", JStr (co_restaurantId dto));
                 ("totalAmount", JStr (decimal_toString (o_totalAmount o)))])
          corr 0 (w_now w) None None None None (w_now w) /\
    w_db w' = t_set OutboxEvents (<[ek := e]> (outboxEvents (w_db w)))
                (t_set AuditLogs (<[ak := a]> (auditLogs (w_db w)))
                  (t_set OrderItems t
                    (t_set Orders (<[o_id o := o]> (orders (w_db w))) (w_db w)))) /\
    ov_order view = o /\
    ov_items view ≡ₚ items ++ items_of (o_id o) (orderItems (w_db w)).
Proof.
  intros Hk H. destruct (create_inv _ _ _ _ _ _ Hk H) as
    (lines & o & items & t & ak & a & ek & e & Hact & Hp & Hnd & _ & Hn & Ho & Ht & Hit & Hio &
     Hak & Ha & (Hagg & Hactor & Hcorr & _) & Hek & He & Hv & Hview & _ & Hdb).
  assert (Hio' := Hio (o_id o)). rewrite String.eqb_refl in Hio'.
  exists o, lines, items, t, ak, a, ek, e.
  split_and!; try done.
  - apply map_subseteq_spec. intros k i. by apply (table_frozen_lookup _ _ _ _ _ Ht).
  - destruct Ht as [_ Ht]. intros k i Hi Hnone. exact (Ht k i Hnone Hi).
  - rewrite Hview. simpl. by rewrite findMany_unordered.
Qed.

(** Order creation answers exactly: an inactive or unknown restaurant is a 404, an
    unavailable, foreign or repeated item is a 409, and pricing never dereferences a
    missing menu row. *)
Theorem create_order_errors userId dto corr w :
  keyed mi_id (menuItems (w_db w)) ->
  (~ active_restaurant (w_db w) (co_restaurantId dto) ->
   OrdersRepository.create userId dto corr w =
     Err (NotFoundException "Active restaurant not found")) /\
  (active_restaurant (w_db w) (co_restaurantId dto) ->
   ~ (NoDup (map ci_menuItemId (co_items dto)) /\
      exists lines, priced_items (w_db w) dto lines) ->
   OrdersRepository.create userId dto corr w = Err order_unavailable) /\
  (forall m, OrdersRepository.price_order dto w <> Err (JsError m)).
Proof.
  intros Hk. split_and!.
  - intros Hact. unfold OrdersRepository.create. apply tx_bind_throws.
    destruct (price_order_cases dto w Hk) as [[_ ?]|[(? & _)|(? & _)]]; done.
  - intros Hact Hno. unfold OrdersRepository.create. apply tx_bind_throws.
    destruct (price_order_cases dto w Hk) as [[? _]|[(_ & _ & ?)|(_ & Hnd & l & Hl & _)]];
      [done..|]. destruct Hno. eauto.
  - intros m. destruct (price_order_cases dto w Hk) as
      [[_ ->]|[(_ & _ & ->)|(_ & _ & l & _ & ->)]]; done.
Qed.

(** *** Creation succeeds *)

(** What a creation needs besides a priced request: the caller's account, amounts that fit
    DECIMAL(12,2), a correlation id that fits its column, and unused UUIDs. *)
Definition line_columns (l : LineItem) : bool :=
  varchar 160 (li_name l) && decimal_12_2 (li_unitPrice l) && int4 (li_quantity l) &&
  decimal_12_2 (li_lineTotal l).

Record creatable (userId : string) (dto : CreateOrderDto) (corr : option string)
    (lines : list LineItem) (w : world) : Prop := {
  cr_restaurant : exists r, restaurants (w_db w) !! co_restaurantId dto = Some r /\
    r_id r = co_restaurantId dto /\ r_active r = true;
  cr_priced : priced_items (w_db w) dto lines;
  cr_distinct : NoDup (map ci_menuItemId (co_items dto));
  cr_user : is_Some (users (w_db w) !! userId);
  cr_lines : Forall (fun l => line_columns l = true) lines;
  cr_total : decimal_12_2 (lines_sum lines) = true;
  cr_correlation : varchar_opt 100 corr = true;
  cr_ids : fresh_draws (3 + length lines) w = true;
}.

Lemma create_items_total orderId lines w :
  is_Some (orders (w_db w) !! orderId) ->
  Forall (fun l => line_columns l = true) lines ->
  Forall (fun l => is_Some (menuItems (w_db w) !! li_menuItemId l)) lines ->
  NoDup (next_ids (length lines) w) ->
  Forall (fun id => orderItems (w_db w) !! id = None) (next_ids (length lines) w) ->
  exists w', OrdersRepository.create_items orderId lines w = Ok (tt, w').
Proof.
  intros Ho. revert w Ho. induction lines as [|l lines IH]; intros w Ho Hc Hm Hnd Hf; [by eexists|].
  apply Forall_cons in Hc as [Hc Hcs]. apply Forall_cons in Hm as [Hm Hms].
  unfold next_ids in Hnd, Hf. simpl in Hnd, Hf.
  apply NoDup_cons in Hnd as [Hni Hnd]. apply Forall_cons in Hf as [Hn Hf].
  simpl. unfold new_uuid at 1. erewrite tx_bind_eq by done.
  erewrite tx_bind_eq.
  2: { apply db_create_Ok; [split; [exact Hn|done]| |done]. simpl.
       apply andb_true_iff. split; by apply bool_decide_eq_true. }
  apply IH; simpl; [done|done|done|exact Hnd|].
  unfold next_ids. simpl. apply Forall_forall. intros id Hid.
  rewrite lookup_insert_ne by (intros <-; done).
  by eapply Forall_forall in Hf.
Qed.

Lemma fresh_draw n w i :
  fresh_draws n w = true -> (i < n)%nat -> unused_id (w_db w) (uuid_at (w_nonce w + i)) = true.
Proof.
  intros [_ H]%andb_true_iff Hi. rewrite forallb_forall in H. apply H, list_elem_of_In.
  apply list_elem_of_fmap. eexists; split; [done|]. apply elem_of_seq. lia.
Qed.

Lemma unused_id_spec d id :
  unused_id d id = true ->
  orders d !! id = None /\ orderItems d !! id = None /\ auditLogs d !! id = None /\
  outboxEvents d !! id = None /\ payments d !! id = None /\
  processedMessages d !! id = None /\ notificationDeliveries d !! id = None /\
  users d !! id = None /\ refreshTokens d !! id = None.
Proof.
  unfold unused_id, present. rewrite negb_true_iff, !orb_false_iff, !bool_decide_eq_false.
  rewrite <- !eq_None_not_Some. tauto.
Qed.

Lemma menu_line_known t r i l : menu_line t r i l -> is_Some (t !! li_menuItemId l).
Proof. intros (m & Hm & _ & _ & ->). simpl. eauto. Qed.

Lemma priced_items_unique d dto l1 l2 :
  priced_items d dto l1 -> priced_items d dto l2 -> l1 = l2.
Proof.
  unfold priced_items. intros H. revert l2.
  induction H as [|i l ls lls (m & Hm & _ & _ & ->) _ IH]; intros l2 H2.
  - by apply Forall2_nil_inv_l in H2 as ->.
  - apply Forall2_cons_inv_l in H2 as (l' & ls' & (m' & Hm' & _ & _ & ->) & H2 & ->).
    simplify_eq. f_equal. by apply IH.
Qed.

Lemma uuid_at_varchar (UL : UuidsLaws U) n m : (36 <= m)%nat -> varchar m (uuid_at n) = true.
Proof. intros. apply bool_decide_eq_true. rewrite uuid_at_length. lia. Qed.

Lemma order_create_total userId dto lines w :
  (exists r, restaurants (w_db w) !! co_restaurantId dto = Some r) ->
  priced_items (w_db w) dto lines -> is_Some (users (w_db w) !! userId) ->
  Forall (fun l => line_columns l = true) lines ->
  decimal_12_2 (lines_sum lines) = true -> fresh_draws (3 + length lines) w = true ->
  exists o t, OrdersRepository.order_create userId (co_restaurantId dto)
      (OrdersRepository.total_of lines) lines w =
    Ok (o, mkWorld (t_set OrderItems t (t_set Orders (<[o_id o := o]> (orders (w_db w))) (w_db w)))
             (w_now w) (S (w_nonce w) + length lines)) /\
    o_id o = uuid_at (w_nonce w) /\ o_totalAmount o = lines_sum lines.
Proof.
  intros [r Hr] Hp Hu Hc Ht Hids.
  pose proof (fresh_draw _ _ 0 Hids ltac:(lia)) as Hf%unused_id_spec.
  destruct Hf as (Hf & _). rewrite Nat.add_0_r in Hf.
  unfold OrdersRepository.order_create, new_uuid, now, tx_gets.
  erewrite tx_bind_eq by done. erewrite tx_bind_eq by done.
  erewrite tx_bind_eq.
  2: { apply db_create_Ok; [split; [exact Hf|done]| |]; simpl.
       - apply andb_true_iff. split; apply bool_decide_eq_true; eauto.
       - unfold order_columns. simpl. by rewrite total_of_sum, Ht. }
  edestruct create_items_total as [w' Hw'].
  6: { erewrite tx_bind_eq by exact Hw'.
       apply create_items_inv in Hw' as (t & _ & -> & _).
       exists (mkOrder (uuid_at (w_nonce w)) userId (co_restaurantId dto) PENDING
                 (OrdersRepository.total_of lines) 1 (w_now w) (w_now w)), t.
       split; [reflexivity|]. split; [done|]. apply total_of_sum. }
  - simpl. rewrite lookup_insert_eq. eauto.
  - done.
  - simpl. apply Forall_forall. intros l [n Hn]%list_elem_of_lookup.
    destruct (Forall2_lookup_r _ _ _ _ _ Hp Hn) as (i & _ & Hl). by eapply menu_line_known.
  - apply andb_true_iff in Hids as [Hnd%bool_decide_eq_true _].
    unfold next_ids in *. replace (3 + length lines)%nat with (1 + (length lines + 2))%nat in Hnd
      by lia.
    rewrite seq_app, map_app in Hnd. apply NoDup_app in Hnd as (_ & _ & Hnd).
    rewrite seq_app, map_app in Hnd. apply NoDup_app in Hnd as (Hnd & _ & _).
    by rewrite Nat.add_1_r in Hnd.
  - simpl. apply Forall_forall. intros id (n & -> & Hn%elem_of_seq)%list_elem_of_fmap.
    simpl in Hn. pose proof (fresh_draw _ _ (n - w_nonce w) Hids ltac:(lia)) as H%unused_id_spec.
    destruct H as (_ & H & _). rewrite <- H. f_equal. f_equal. lia.
Qed.

(** A well-formed request always becomes an order: when the restaurant is active, the
    items are distinct and available, the caller exists, the amounts fit their columns and
    the drawn UUIDs are unused, creation succeeds. *)
Theorem create_order_succeeds (UL : UuidsLaws U) userId dto corr lines w :
  keyed mi_id (menuItems (w_db w)) -> creatable userId dto corr lines w ->
  exists view w', OrdersRepository.create userId dto corr w = Ok (view, w') /\
    o_totalAmount (ov_order view) = lines_sum lines.
Proof.
  intros Hk [(r & Hr & Hrid & Hact) Hp Hnd Hu Hc Ht Hcorr Hids].
  unfold OrdersRepository.create.
  destruct (price_order_cases dto w Hk) as [[Hno _]|[(_ & Hno & _)|(_ & _ & ls & Hls & Hprice)]].
  { destruct Hno. by exists (co_restaurantId dto), r. }
  { destruct Hno. eauto. }
  assert (ls = lines) as -> by (by eapply priced_items_unique).
  erewrite tx_bind_eq by exact Hprice.
  destruct (order_create_total userId dto lines w) as (o & t & Hcreate & Hid & Htot);
    [eauto|done..|].
  erewrite tx_bind_eq by exact Hcreate. erewrite tx_bind_eq by done.
  pose proof (fresh_draw _ _ (1 + length lines) Hids ltac:(lia)) as Hf1%unused_id_spec.
  pose proof (fresh_draw _ _ (2 + length lines) Hids ltac:(lia)) as Hf2%unused_id_spec.
  destruct Hf1 as (_ & _ & Hf1 & _). destruct Hf2 as (_ & _ & _ & Hf2 & _).
  rewrite Nat.add_assoc, Nat.add_comm in Hf1, Hf2.
  edestruct auditLog_create_Ok as [a Ha].
  4: { erewrite tx_bind_eq by exact Ha.
       edestruct outboxEvent_create_Ok as [e He].
       3: { erewrite tx_bind_eq by exact He. eexists _, _. split; [done|]. exact Htot. }
       - simpl. rewrite <- Hf2. f_equal. f_equal. lia.
       - rewrite Hid, (uuid_at_varchar UL) by lia. by rewrite Hcorr. }
  - simpl. rewrite <- Hf1. f_equal. f_equal. lia.
  - by apply bool_decide_eq_true.
  - rewrite Hid, (uuid_at_varchar UL) by lia. by rewrite Hcorr.
Qed.

End create.

(** ** Status updates *)

Section update_status.
Context {P : Prisma} {U : Uuids} {D : Decimals} {DT : Dates} {PL : PrismaLaws P}.

Definition stale_update : exn :=
  ConflictException "Order was updated by another request; reload and retry".

Definition status_where (id : string) (v : Z) (o : Order) : bool :=
  String.eqb (o_id o) id && (o_version o =? v).

Lemma status_where_key d id v :
  keyed o_id (orders d) ->
  forall k o, orders d !! k = Some o -> status_where id v o = true -> k = id.
Proof.
  intros Hk k o Ho [He%String.eqb_eq _]%andb_true_iff. rewrite <- He. symmetry. by apply Hk.
Qed.

(** A successful update found the order at the version it names, and moved only it. *)
Lemma updateStatus_inv id v status actor corr w view w' :
  keyed o_id (orders (w_db w)) ->
  OrdersRepository.updateStatus id v status actor corr w = Ok (view, w') ->
  exists o ak a,
    orders (w_db w) !! id = Some o /\ o_version o = v /\
    auditLogs (w_db w) !! ak = None /\ al_action a = "ORDER_STATUS_UPDATED"%string /\
    al_aggregateId a = id /\ json_get "previousVersion" (al_metadata a) = Some (JNum v) /\
    ov_order view = OrdersRepository.set_status status (w_now w) o /\
    w_now w' = w_now w /\
    w_db w' = t_set AuditLogs (<[ak := a]> (auditLogs (w_db w)))
      (t_set Orders (<[id := OrdersRepository.set_status status (w_now w) o]> (orders (w_db w)))
         (w_db w)).
Proof.
  intros Hk. unfold OrdersRepository.updateStatus. intros H. tx_draw H.
  apply tx_bind_Ok in H as (n & s' & Hs & H).
  apply db_updateMany_inv in Hs as (-> & -> & _). simpl in H.
  pose proof (status_where_key (w_db s) id v Hk) as Hkey. fold (status_where id v) in H.
  case_bool_decide as Hn; [|done]. simpl in H.
  rewrite (where_rows_key _ _ _ Hkey) in Hn.
  destruct (orders (w_db s) !! id) as [o|] eqn:Ho; [|done].
  destruct (status_where id v o) eqn:Hw; [|done].
  rewrite (update_where_key _ _ _ _ _ Hkey Ho Hw) in H.
  apply tx_bind_Ok in H as (a & s' & Ha & H).
  apply auditLog_create_inv in Ha as (Hak & Hact & Hagg & Hmeta & _ & _ & ->).
  apply tx_bind_Ok in H as (o' & s' & Hf & H).
  apply db_findUniqueOrThrow_inv in Hf as [-> Hf]. simpl in Hf.
  rewrite lookup_insert_eq in Hf. unfold tx_gets in H. simplify_eq.
  apply andb_true_iff in Hw as [_ Hv%Z.eqb_eq].
  eexists o, _, a. split_and!; try done. rewrite Hmeta. simpl. done.
Qed.

(** The optimistic lock: an update whose version is not the order's current one, or whose
    order does not exist, is refused with a 409 and stores nothing. *)
Lemma update_status_refused id v status actor corr w :
  (forall k o, orders (w_db w) !! k = Some o -> o_id o = id -> o_version o <> v) ->
  run (await (OrdersRepository.updateStatus id v status actor corr)) w = (Err stale_update, w).
Proof.
  intros Hno. rewrite run_await. unfold OrdersRepository.updateStatus.
  erewrite tx_bind_eq by done.
  assert (Hf : forall k o, orders (w_db w) !! k = Some o -> status_where id v o = false).
  { intros k o Ho. unfold status_where. destruct (String.eqb_spec (o_id o) id); [|done].
    simpl. apply Z.eqb_neq. by eapply Hno. }
  erewrite tx_bind_eq.
  2: { apply db_updateMany_Ok. intros k o Ho Hw.
       pose proof (Hf k o Ho) as Hf'. unfold status_where in Hf'. congruence. }
  fold (status_where id v). simpl. by rewrite where_rows_none.
Qed.

(** An update at the current version succeeds. *)
Lemma updateStatus_Ok (UL : UuidsLaws U) id status actor corr w o :
  keyed o_id (orders (w_db w)) -> orders (w_db w) !! id = Some o ->
  order_columns (OrdersRepository.set_status status (w_now w) o) = true ->
  is_Some (users (w_db w) !! actor) -> varchar 100 id = true ->
  varchar_opt 100 corr = true -> fresh_draws 1 w = true ->
  exists view w', OrdersRepository.updateStatus id (o_version o) status actor corr w =
    Ok (view, w') /\ ov_order view = OrdersRepository.set_status status (w_now w) o.
Proof.
  intros Hk Ho Hc Hu Hid Hcorr Hids. unfold OrdersRepository.updateStatus.
  erewrite tx_bind_eq by done.
  pose proof (status_where_key (w_db w) id (o_version o) Hk) as Hkey.
  assert (Hw : status_where id (o_version o) o = true).
  { unfold status_where. rewrite (Hk _ _ Ho), String.eqb_refl. by apply Z.eqb_eq. }
  fold (status_where id (o_version o)).
  erewrite tx_bind_eq.
  2: { apply db_updateMany_Ok. simpl. intros k o' Ho' Hw'.
       rewrite (Hkey _ _ Ho' Hw') in Ho'. by simplify_eq. }
  simpl. rewrite (where_rows_key _ _ _ Hkey), Ho, Hw. simpl.
  rewrite (update_where_key _ _ _ _ _ Hkey Ho Hw).
  pose proof (fresh_draw _ _ 0 Hids ltac:(lia)) as Hf%unused_id_spec.
  destruct Hf as (_ & _ & Hf & _). rewrite Nat.add_0_r in Hf.
  edestruct auditLog_create_Ok as [a Ha].
  4: { erewrite tx_bind_eq by exact Ha. unfold db_findUniqueOrThrow.
       erewrite tx_bind_eq.
       2: { erewrite tx_bind_eq by apply db_findUnique_eq. simpl.
            by rewrite lookup_insert_eq. }
       eexists _, _. by split. }
  - exact Hf.
  - by apply bool_decide_eq_true.
  - by rewrite Hid, Hcorr.
Qed.

Lemma findById_run id w :
  OrdersRepository.findById id w =
  Ok (OrdersRepository.orderInclude (w_db w) <$> (orders (w_db w) !! id), w).
Proof.
  unfold OrdersRepository.findById. erewrite tx_bind_eq by apply db_findUnique_eq. done.
Qed.

Lemma findById_found id w o :
  orders (w_db w) !! id = Some o ->
  OrdersRepository.findById id w = Ok (Some (OrdersRepository.orderInclude (w_db w) o), w).
Proof. intros Ho. by rewrite findById_run, Ho. Qed.

(** The caller may ask for the status: an ordinary user may only cancel an own order. *)
Definition may_update (user : AuthenticatedUser) (status : OrderStatus) (o : Order) : bool :=
  negb (bool_decide (au_role user = USER) &&
        (negb (String.eqb (o_userId o) (au_id user)) || negb (bool_decide (status = CANCELLED)))).

Lemma updateStatus_found user id dto corr w o :
  orders (w_db w) !! id = Some o -> may_update user (us_status dto) o = true ->
  us_status dto ∈ OrdersService.transitions (o_status o) ->
  run (OrdersService.updateStatus user id dto corr) w =
  run (await (OrdersRepository.updateStatus id (us_version dto) (us_status dto) (au_id user) corr)) w.
Proof.
  intros Ho Hmay Htr. unfold OrdersService.updateStatus.
  rewrite (run_await_then _ _ _ _ _ (findById_found _ _ _ Ho)). cbv zeta.
  change (ov_order (OrdersRepository.orderInclude (w_db w) o)) with o.
  unfold may_update in Hmay. apply negb_true_iff in Hmay. rewrite Hmay.
  by rewrite (bool_decide_eq_true_2 _ Htr).
Qed.

(** C29: A status update, run alone, on every branch: an unknown order is a 404; an ordinary
    user who does not own the order, or wants anything but to cancel it, gets a 403; a status
    the current one does not lead to is a 400; a version that is not the order's is a 409; and
    none of them stores anything. Otherwise the order takes the new status, its version goes
    up by one, and nothing but the audit record naming the old version is added. *)
Theorem status_update_outcome (UL : UuidsLaws U) user id dto corr w :
  keyed o_id (orders (w_db w)) -> is_Some (users (w_db w) !! au_id user) ->
  varchar 100 id = true -> varchar_opt 100 corr = true -> fresh_draws 1 w = true ->
  (forall o, orders (w_db w) !! id = Some o -> order_columns o = true /\ o_version o < 2 ^ 31 - 1 /\ 1 <= o_version o) ->
  let out := run (OrdersService.updateStatus user id dto corr) w in
  match orders (w_db w) !! id with
  | None => out = (Err (NotFoundException "Order not found"), w)
  | Some o =>
      if negb (may_update user (us_status dto) o)
      then out = (Err (ForbiddenException OrdersService.forbidden_message), w)
      else if negb (bool_decide (us_status dto ∈ OrdersService.transitions (o_status o)))
      then exists m, out = (Err (BadRequestException m), w)
      else if negb (us_version dto =? o_version o) then out = (Err stale_update, w)
      else exists view w' k a, out = (Ok view, w') /\
        o_status (ov_order view) = us_status dto /\
        o_version (ov_order view) = o_version o + 1 /\
        orders (w_db w') = <[id := ov_order view]> (orders (w_db w)) /\
        auditLogs (w_db w') = <[k := a]> (auditLogs (w_db w)) /\
        json_get "previousVersion" (al_metadata a) = Some (JNum (o_version o)) /\
        payments (w_db w') = payments (w_db w) /\ outboxEvents (w_db w') = outboxEvents (w_db w)
  end.
Proof.
  intros Hk Hu Hid Hcorr Hids Hcols out. unfold out.
  destruct (orders (w_db w) !! id) as [o|] eqn:Ho.
  2: { unfold OrdersService.updateStatus. erewrite run_await_then by apply findById_run.
       by rewrite Ho. }
  destruct (may_update user (us_status dto) o) eqn:Hmay; cbn [negb].
  2: { unfold OrdersService.updateStatus.
       rewrite (run_await_then _ _ _ _ _ (findById_found _ _ _ Ho)). cbv zeta.
       change (ov_order (OrdersRepository.orderInclude (w_db w) o)) with o.
       unfold may_update in Hmay. apply negb_false_iff in Hmay. by rewrite Hmay. }
  case_bool_decide as Htr; cbn [negb].
  2: { unfold OrdersService.updateStatus.
       rewrite (run_await_then _ _ _ _ _ (findById_found _ _ _ Ho)). cbv zeta.
       change (ov_order (OrdersRepository.orderInclude (w_db w) o)) with o.
       unfold may_update in Hmay. apply negb_true_iff in Hmay. rewrite Hmay.
       rewrite (bool_decide_eq_false_2 _ Htr). by eexists. }
  rewrite (updateStatus_found _ _ _ _ _ _ Ho Hmay Htr).
  destruct (Z.eqb_spec (us_version dto) (o_version o)) as [Hv|Hv]; cbn [negb].
  2: { apply update_status_refused. intros k o' Ho' Hid'. pose proof (Hk _ _ Ho').
       assert (k = id) as -> by congruence. by simplify_eq. }
  destruct (Hcols _ eq_refl) as (Hcol & Hmax & Hmin).
  destruct (updateStatus_Ok UL id (us_status dto) (au_id user) corr w o) as (view & w' & Hrun & Hview);
    try done.
  { unfold order_columns in *. simpl. apply andb_true_iff in Hcol as [-> _]. unfold int4.
    simpl. rewrite andb_true_iff, Z.leb_le, Z.ltb_lt. lia. }
  rewrite run_await, Hv, Hrun.
  destruct (updateStatus_inv _ _ _ _ _ _ _ _ Hk Hrun) as (o' & k & a & Ho' & _ & _ & _ & _ & Hprev & _ & _ & Hdb).
  rewrite Ho in Ho'. injection Ho' as <-.
  exists view, w', k, a. rewrite Hdb, Hview. by split_and!.
Qed.

End update_status.

(** ** Listing *)

Section listing.
Context {P : Prisma} {U : Uuids} {D : Decimals} {DT : Dates} {PL : PrismaLaws P}.

Lemma order_leb_total : Total (by_leb OrdersRepository.order_leb).
Proof.
  intros o o'. unfold by_leb, OrdersRepository.order_leb.
  destruct (Z.lt_total (o_createdAt o) (o_createdAt o')) as [Hlt|[Heq|Hlt]].
  - right. apply Z.ltb_lt in Hlt. by rewrite Hlt.
  - rewrite Heq, Z.ltb_irrefl, Z.eqb_refl. apply String.leb_total.
  - left. apply Z.ltb_lt in Hlt. by rewrite Hlt.
Qed.

Lemma order_leb_spec o o' :
  by_leb OrdersRepository.order_leb o o' <->
  o_createdAt o' < o_createdAt o \/
  (o_createdAt o' = o_createdAt o /\ String.leb (o_id o') (o_id o) = true).
Proof.
  unfold by_leb, OrdersRepository.order_leb.
  by rewrite orb_true_iff, andb_true_iff, Z.ltb_lt, Z.eqb_eq.
Qed.

Lemma order_leb_trans : Transitive (by_leb OrdersRepository.order_leb).
Proof.
  intros x y z. rewrite !order_leb_spec. intros [?|[? ?]] [?|[? ?]]; [lia..|].
  right. split; [lia|]. by eapply string_leb_trans.
Qed.

(** The listing a query selects, newest first: the same list for every page. *)
Definition listing (w : world) (query : ListOrdersQueryDto) (userId : option string)
    (from to : option Z) (l : list Order) : Prop :=
  l ≡ₚ where_rows (OrdersRepository.order_where query userId from to) (orders (w_db w)) /\
  Sorted (by_leb OrdersRepository.order_leb) l.

Lemma listing_unique w q u from to l l' :
  keyed o_id (orders (w_db w)) -> listing w q u from to l -> listing w q u from to l' -> l = l'.
Proof.
  intros Hk [Hp Hs] [Hp' Hs'].
  apply (sorted_perm_unique (by_leb OrdersRepository.order_leb)).
  - apply order_leb_trans.
  - intros x y Hx Hy. rewrite !order_leb_spec. intros H1 H2.
    rewrite Hp in Hx. rewrite Hp' in Hy.
    apply elem_of_where_rows in Hx as [_ [k Hx]]. apply elem_of_where_rows in Hy as [_ [k' Hy]].
    assert (He : o_id x = o_id y).
    { destruct H1 as [?|[? Ha]], H2 as [?|[? Hb]]; try lia. by apply String.leb_antisym. }
    assert (k = k') as -> by (by rewrite <- (Hk _ _ Hx), <- (Hk _ _ Hy)). congruence.
  - done.
  - done.
  - by rewrite Hp, Hp'.
Qed.

Definition with_page (p : Z) (q : ListOrdersQueryDto) : ListOrdersQueryDto :=
  mkListOrdersQueryDto p (q_limit q) (q_status q) (q_restaurantId q) (q_createdFrom q)
    (q_createdTo q).

Definition bound_of (s : option string) (t : option Z) : Prop :=
  match truthy s with None => t = None | Some s => t = Date_parse s /\ is_Some t end.

Lemma parse_bound_Ok s t w :
  bound_of s t -> OrdersRepository.parse_bound s w = Ok (t, w).
Proof.
  unfold bound_of, OrdersRepository.parse_bound. destruct (truthy s) as [s'|].
  - by intros [<- [t' ->]].
  - by intros ->.
Qed.

Lemma truthy_nonempty s : s <> ""%string -> truthy (Some s) = Some s.
Proof. by destruct s. Qed.

Lemma parse_bound_inv s t w w' :
  OrdersRepository.parse_bound s w = Ok (t, w') -> w' = w /\ bound_of s t.
Proof.
  unfold bound_of, OrdersRepository.parse_bound. destruct (truthy s) as [s'|].
  - destruct (Date_parse s') as [t'|] eqn:Hd; [|done]. intros [= <- <-]. eauto.
  - by intros [= <- <-].
Qed.

Lemma ov_orders d (l : list Order) :
  ov_order <$> (OrdersRepository.orderInclude d <$> l) = l.
Proof. induction l; simpl; by f_equal. Qed.

(** The answer to a query whose whole listing is [l]. *)
Definition page_result (w : world) (q : ListOrdersQueryDto) (l : list Order) : OrderPage := {|
  pg_data := OrdersRepository.orderInclude (w_db w) <$>
    take (Z.to_nat (q_limit q)) (drop (Z.to_nat ((q_page q - 1) * q_limit q)) l);
  pg_meta := {| m_page := q_page q; m_limit := q_limit q; m_total := Z.of_nat (length l);
                m_pages := OrdersRepository.ceil_div (Z.of_nat (length l)) (q_limit q) |} |}.

Lemma list_page w q u from to :
  bound_of (q_createdFrom q) from -> bound_of (q_createdTo q) to ->
  exists l, listing w q u from to l /\ OrdersRepository.list q u w = Ok (page_result w q l, w).
Proof.
  intros Hf Ht.
  destruct (findMany_spec _ (OrdersRepository.order_where q u from to)
    OrdersRepository.order_leb (Z.to_nat ((q_page q - 1) * q_limit q))
    (Some (Z.to_nat (q_limit q))) (orders (w_db w)) order_leb_total) as (l & Hl & Hs & Hd).
  exists l. split; [done|].
  unfold OrdersRepository.list.
  erewrite tx_bind_eq by (by apply parse_bound_Ok).
  erewrite tx_bind_eq by (by apply parse_bound_Ok).
  erewrite tx_bind_eq by done. erewrite tx_bind_eq by done. erewrite tx_bind_eq by done.
  unfold page_result. simpl. rewrite Hd. simpl. rewrite count_spec.
  apply Permutation_length in Hl. by rewrite Hl.
Qed.

Lemma ceil_div_pages n lim :
  0 < lim -> (n <= Z.to_nat (OrdersRepository.ceil_div (Z.of_nat n) lim) * Z.to_nat lim)%nat.
Proof.
  intros Hl. unfold OrdersRepository.ceil_div.
  pose proof (Z.div_mod (- Z.of_nat n) lim ltac:(lia)) as Hdm.
  pose proof (Z.mod_pos_bound (- Z.of_nat n) lim Hl) as Hb.
  assert (0 <= - (- Z.of_nat n / lim)) by nia.
  apply Nat2Z.inj_le. rewrite Nat2Z.inj_mul, !Z2Nat.id by lia. nia.
Qed.

(** Pagination: page after page, from the first to the last one the metadata announces,
    a listing returns every matching order exactly once, newest first, no page longer than
    the limit; each page reports the same total, and any later page is empty. *)
Theorem list_pages_partition w q u from to :
  keyed o_id (orders (w_db w)) -> ListOrdersQueryDto_valid q = true ->
  bound_of (q_createdFrom q) from -> bound_of (q_createdTo q) to ->
  exists (l : list Order) (pages : list OrderPage),
    listing w q u from to l /\ NoDup l /\
    (forall i, (i < length pages)%nat -> exists page, pages !! i = Some page /\
       OrdersRepository.list (with_page (Z.of_nat i + 1) q) u w = Ok (page, w) /\
       (length (pg_data page) <= Z.to_nat (q_limit q))%nat /\
       m_total (pg_meta page) = Z.of_nat (length l) /\
       m_pages (pg_meta page) = Z.of_nat (length pages)) /\
    concat (map (fun page => ov_order <$> pg_data page) pages) = l /\
    (forall i, (length pages <= i)%nat -> exists page,
       OrdersRepository.list (with_page (Z.of_nat i + 1) q) u w = Ok (page, w) /\
       pg_data page = []).
Proof.
  intros Hk Hv Hf Ht.
  unfold ListOrdersQueryDto_valid in Hv. rewrite !andb_true_iff, !Z.leb_le in Hv.
  destruct (list_page w (with_page 1 q) u from to Hf Ht) as (l & Hl & _).
  assert (Hpage : forall i, OrdersRepository.list (with_page (Z.of_nat i + 1) q) u w =
    Ok (page_result w (with_page (Z.of_nat i + 1) q) l, w)).
  { intros i. destruct (list_page w (with_page (Z.of_nat i + 1) q) u from to Hf Ht)
      as (l' & Hl' & ->). by rewrite (listing_unique w q u from to l l' Hk Hl Hl'). }
  assert (Hdata : forall i, ov_order <$> pg_data (page_result w (with_page (Z.of_nat i + 1) q) l)
    = page_of (Z.to_nat (q_limit q)) i l).
  { intros i. simpl. rewrite ov_orders. unfold page_of. do 2 f_equal. lia. }
  set (m := Z.to_nat (OrdersRepository.ceil_div (Z.of_nat (length l)) (q_limit q))).
  assert (Hm := ceil_div_pages (length l) (q_limit q) ltac:(lia)). fold m in Hm.
  exists l, (map (fun i => page_result w (with_page (Z.of_nat i + 1) q) l) (seq 0 m)).
  rewrite length_map, length_seq. split_and!.
  - exact Hl.
  - destruct Hl as [Hl _]. rewrite Hl. eapply NoDup_fmap_1. by apply (keyed_ids_NoDup o_id).
  - intros i Hi. eexists. split_and!; [|apply Hpage| |done|].
    + rewrite list_lookup_fmap, lookup_seq_lt by done. done.
    + simpl. rewrite length_fmap, length_take. lia.
    + simpl. subst m. rewrite Z2Nat.id; [done|]. unfold OrdersRepository.ceil_div.
      pose proof (Z.div_le_upper_bound (- Z.of_nat (length l)) (q_limit q) 0). lia.
  - rewrite map_map. erewrite map_ext by apply Hdata. rewrite concat_pages. by apply take_ge.
  - intros i Hi. eexists. split; [apply Hpage|]. simpl.
    rewrite drop_ge; [by rewrite take_nil|]. simpl. nia.
Qed.

(** Role-aware scope: an ordinary user's listing only ever contains that user's own
    orders, whatever the query asks for. *)
Theorem list_scope user q w page w' :
  au_role user = USER -> au_id user <> ""%string ->
  run (OrdersService.list user q) w = (Ok page, w') ->
  w' = w /\ Forall (fun v => o_userId (ov_order v) = au_id user) (pg_data page).
Proof.
  intros Hr Hid. unfold OrdersService.list. rewrite Hr. simpl.
  destruct (OrdersRepository.list q (Some (au_id user)) w) as [[pg s]|e] eqn:Hl; [|done].
  intros [= <- <-]. unfold OrdersRepository.list in Hl.
  apply tx_bind_Ok in Hl as (from & s1 & Hfrom & Hl). apply parse_bound_inv in Hfrom as [-> _].
  apply tx_bind_Ok in Hl as (to & s1 & Hto & Hl). apply parse_bound_inv in Hto as [-> _].
  apply tx_bind_Ok in Hl as (data & s1 & Hd & Hl). unfold db_findMany, tx_gets in Hd.
  simplify_eq. unfold mbind, tx_bind, db_count, mret, tx_ret, tx_gets in Hl. simplify_eq.
  split; [done|]. apply Forall_fmap.
  match goal with |- Forall _ (findMany ?p ?leb ?sk ?tk ?t) =>
    destruct (findMany_spec _ p leb sk tk t order_leb_total) as (l & Hp & _ & ->) end.
  simpl. apply Forall_take, Forall_drop. rewrite Hp. apply Forall_forall.
  intros o [Hw _]%elem_of_where_rows. unfold OrdersRepository.order_where in Hw.
  rewrite !andb_true_iff, truthy_nonempty in Hw by done.
  destruct Hw as [[[[Hw _] _] _] _]. by apply String.eqb_eq in Hw.
Qed.

End listing.
