(* ===== verification/Payments.v ===== *)
(** * Payments

    PaymentsRepository and PaymentsService (src/src/payments/): the idempotent record of a
    completed payment, which confirms a pending order in the same transaction. *)
From S2P Require Import Prelude JsStrings Errors Effects Prisma Schema Orders OrdersSpec.

Record CompletePaymentDto := mkCompletePaymentDto { cp_providerReference : option string }.

(** The validation of the DTO: [@IsOptional() @MaxLength(160)]. *)
Definition CompletePaymentDto_valid (d : CompletePaymentDto) : bool :=
  varchar_opt 160 (cp_providerReference d).

(** The argument of PaymentsRepository.complete. *)
Record CompleteInput := mkCompleteInput {
  in_orderId : string; in_actorId : string; in_idempotencyKey : string;
  in_providerReference : option string; in_correlationId : option string }.

Module PaymentsRepository.
Section repository.
Context `{Prisma, Uuids, Decimals}.

Definition findByIdempotencyKey (key : string) : tx world (option Payment) :=
  db_findFirst Payments (fun p => String.eqb (p_idempotencyKey p) key).

Definition complete (input : CompleteInput) : tx world Payment :=
  order ← db_findUniqueOrThrow Orders (in_orderId input);
  id ← new_uuid;
  t ← now;
  payment ← db_create Payments payment_constraints id
    {| p_id := id; p_orderId := in_orderId input;
       p_idempotencyKey := in_idempotencyKey input; p_amount := o_totalAmount order;
       p_currency := "EUR"; p_status := PayCompleted;
       p_providerRef := in_providerReference input; p_createdAt := t; p_updatedAt := t |};
  _ ← (if bool_decide (o_status order = PENDING) then
         _ ← db_update Orders order_columns (o_id order)
               (OrdersRepository.set_status CONFIRMED t);
         mret tt
       else mret tt);
  _ ← auditLog_create (Some (in_actorId input)) "PAYMENT_COMPLETED" "Payment" (p_id payment)
        (in_correlationId input)
        (JObj [("orderId", JStr (o_id order));
               ("amount", JStr (decimal_toString (o_totalAmount order)));
               ("currency", JStr (p_currency payment))]);
  _ ← outboxEvent_create "PaymentCompleted" "Payment" (p_id payment) (in_correlationId input)
        (JObj [("paymentId", JStr (p_id payment)); ("orderId", JStr (o_id order));
               ("userId", JStr (o_userId order));
               ("amount", JStr (decimal_toString (o_totalAmount order)));
               ("currency", JStr (p_currency payment))]);
  mret payment.

End repository.
End PaymentsRepository.

Module PaymentsService.
Section service.
Context `{Prisma, Uuids, Decimals}.

Definition key_ok (key : option string) : option string :=
  match truthy key with
  | None => None
  | Some k =>
      if (String.length k <? 16)%nat || (100 <? String.length k)%nat then None else Some k
  end.

Definition key_message := "Idempotency-Key header must contain 16 to 100 characters".
Definition bound_message := "Idempotency key is already bound to another order".
Definition owner_message := "Users may only pay for their own orders".

Definition complete (user : AuthenticatedUser) (orderId : string)
    (idempotencyKey : option string) (dto : CompletePaymentDto)
    (correlationId : option string) : prog world Payment :=
  match key_ok idempotencyKey with
  | None => Throw (BadRequestException key_message)
  | Some key =>
      found ← await (OrdersRepository.findById orderId);
      match found with
      | None => Throw (NotFoundException "Order not found")
      | Some view =>
          let order := ov_order view in
          if bool_decide (au_role user = USER) &&
             negb (String.eqb (o_userId order) (au_id user))
          then Throw (ForbiddenException owner_message)
          else
            existing ← await (PaymentsRepository.findByIdempotencyKey key);
            match existing with
            | Some payment =>
                if negb (String.eqb (p_orderId payment) orderId)
                then Throw (ConflictException bound_message)
                else Ret payment
            | None =>
                await (PaymentsRepository.complete
                  {| in_orderId := orderId; in_actorId := au_id user;
                     in_idempotencyKey := key;
                     in_providerReference := cp_providerReference dto;
                     in_correlationId := correlationId |})
            end
      end
  end.

End service.
End PaymentsService.

(** ** Lemmas *)

Section payments.
Context {P : Prisma} {U : Uuids} {D : Decimals} {DT : Dates} {PL : PrismaLaws P}.
Implicit Types (w : world) (input : CompleteInput).

(** The order after its payment: confirmed if it was pending, else unchanged. *)
Definition paid_order (t : Z) (o : Order) : Order :=
  if bool_decide (o_status o = PENDING) then OrdersRepository.set_status CONFIRMED t o else o.

Lemma paid_order_total t o : o_totalAmount (paid_order t o) = o_totalAmount o.
Proof. unfold paid_order. by case_bool_decide. Qed.

Lemma paid_order_not_pending t o : o_status (paid_order t o) <> PENDING.
Proof. unfold paid_order. by case_bool_decide. Qed.

(** The whole effect of a completed payment. *)
Lemma complete_inv input w p w' :
  keyed o_id (orders (w_db w)) ->
  PaymentsRepository.complete input w = Ok (p, w') ->
  exists o ak a ek e,
    orders (w_db w) !! in_orderId input = Some o /\
    payments (w_db w) !! p_id p = None /\
    (forall k q, payments (w_db w) !! k = Some q ->
       p_idempotencyKey q <> in_idempotencyKey input) /\
    p = mkPayment (uuid_at (w_nonce w)) (in_orderId input) (in_idempotencyKey input)
          (o_totalAmount o) "EUR" PayCompleted (in_providerReference input)
          (w_now w) (w_now w) /\
    auditLogs (w_db w) !! ak = None /\ al_action a = "PAYMENT_COMPLETED"%string /\
    al_aggregateId a = p_id p /\
    json_get "orderId" (al_metadata a) = Some (JStr (in_orderId input)) /\
    outboxEvents (w_db w) !! ek = None /\
    ob_id e = ek /\ ob_type e = "PaymentCompleted"%string /\ ob_aggregateId e = p_id p /\
    json_get "userId" (ob_payload e) = Some (JStr (o_userId o)) /\
    ob_publishedAt e = None /\ ob_lockedBy e = None /\ ob_attempts e = 0 /\
    w_now w' = w_now w /\
    w_db w' = t_set OutboxEvents (<[ek := e]> (outboxEvents (w_db w)))
      (t_set AuditLogs (<[ak := a]> (auditLogs (w_db w)))
        (t_set Orders (<[in_orderId input := paid_order (w_now w) o]> (orders (w_db w)))
          (t_set Payments (<[p_id p := p]> (payments (w_db w))) (w_db w)))).
Proof.
  intros Hk. unfold PaymentsRepository.complete.
  intros (o & s & Ho & H)%tx_bind_Ok. apply db_findUniqueOrThrow_inv in Ho as [-> Ho].
  simpl in Ho. pose proof (Hk _ _ Ho) as Hid.
  tx_draw H.
  tx_draw H.
  apply tx_bind_Ok in H as (q & s & Hs & H).
  apply db_create_inv in Hs as (-> & [Hfresh Hclash] & _ & _ & ->). simpl in *.
  apply tx_bind_Ok in H as (u & s & Hs & H).
  assert (Hs' : s = mkWorld
    (t_set Orders (<[o_id o := paid_order (w_now w) o]> (orders (w_db w)))
      (t_set Payments (<[uuid_at (w_nonce w) := mkPayment (uuid_at (w_nonce w)) (o_id o)
         (in_idempotencyKey input) (o_totalAmount o) "EUR" PayCompleted
         (in_providerReference input) (w_now w) (w_now w)]> (payments (w_db w))) (w_db w)))
    (w_now w) (S (w_nonce w))).
  { unfold paid_order. case_bool_decide as Hp; rewrite Hid.
    - apply tx_bind_Ok in Hs as (o' & s' & Hs & Hr). unfold mret, tx_ret in Hr.
      apply db_update_inv in Hs as (o2 & Ho2 & _ & _ & ->). simpl in Ho2.
      rewrite Hid in *. simplify_eq. done.
    - tx_return Hs. unfold with_db. simpl. f_equal.
      rewrite (insert_id (orders (w_db w))) by done. done. }
  subst s. clear Hs. rewrite Hid in *.
  apply tx_bind_Ok in H as (a & s & Ha & H).
  apply auditLog_create_inv in Ha as (Hak & Hact & Hagg & Hmeta & _ & _ & ->).
  apply tx_bind_Ok in H as (e & s & He & H).
  apply outboxEvent_create_inv in He as (Hek & He & ->).
  tx_return H. simpl in *.
  eexists o, _, a, _, _. split_and!; try done; try reflexivity.
  - intros k q Hq Heq. specialize (Hclash _ _ Hq). by rewrite <- Heq, String.eqb_refl in Hclash.
  - by rewrite Hmeta.
Qed.

End payments.
