(* ===== verification/Evolution.v ===== *)
(** * How the database may evolve

    One relation, [evolves], says what any single step of the system may do to the
    database: which rows may appear, how a row may change, and that the cross-table
    invariant [wf] is kept. [quiet] is the part of it the request handlers and the consumers
    keep to: they only add outbox events, the publisher alone moves them. Every handler is
    shown to be [guarded], relying on [evolves] and guaranteeing [quiet] (in the files of the
    components), so that [evolves] holds between consecutive states of every interleaving
    (see Effects.v). *)
From S2P Require Import Prelude JsStrings Errors Effects Prisma Schema Orders.

(** ** The clients

    The optimistic lock of a status update is only as good as the version the client sends.
    [informed id] says that every status update of the order [id] names a version that order
    has had: the version "returned by the last read" the API asks for. What is said of the
    transitions of an order is said of an informed one; nothing is asked of the others. *)
Class Clients := informed : string -> Prop.

(** ** Rows *)

Definition order_fresh (o : Order) : Prop := o_status o = PENDING /\ o_version o = 1.
Definition order_change `{Clients} (o o' : Order) : Prop :=
  o_status o' <> PENDING /\
  (informed (o_id o) -> o_status o' ∈ OrdersService.transitions (o_status o)) /\
  o_version o' = o_version o + 1 /\
  o_id o' = o_id o /\ o_userId o' = o_userId o /\ o_restaurantId o' = o_restaurantId o /\
  o_totalAmount o' = o_totalAmount o /\ o_createdAt o' = o_createdAt o.

(** An account only changes its role. *)
Definition user_change (u u' : User) : Prop :=
  u_id u' = u_id u /\ u_email u' = u_email u /\ u_passwordHash u' = u_passwordHash u /\
  u_displayName u' = u_displayName u /\ u_active u' = u_active u /\
  u_createdAt u' = u_createdAt u.

(** A refresh token only changes by being revoked. *)
Definition token_change (t t' : RefreshToken) : Prop :=
  is_Some (rt_revokedAt t') /\
  rt_id t' = rt_id t /\ rt_userId t' = rt_userId t /\ rt_tokenHash t' = rt_tokenHash t /\
  rt_expiresAt t' = rt_expiresAt t /\ rt_createdAt t' = rt_createdAt t.
Definition token_fresh (t : RefreshToken) : Prop := rt_revokedAt t = None.

Definition payment_fresh (p : Payment) : Prop := p_status p = PayCompleted.

(** A published event is frozen; before that only the bookkeeping of its publication moves. *)
Definition outbox_change (e e' : OutboxEvent) : Prop :=
  ob_publishedAt e = None /\
  ob_id e' = ob_id e /\ ob_type e' = ob_type e /\ ob_aggregateType e' = ob_aggregateType e /\
  ob_aggregateId e' = ob_aggregateId e /\ ob_payload e' = ob_payload e /\
  ob_correlationId e' = ob_correlationId e /\ ob_createdAt e' = ob_createdAt e /\
  (ob_attempts e' = ob_attempts e \/ ob_attempts e' = ob_attempts e + 1).
Definition outbox_fresh (e : OutboxEvent) : Prop :=
  ob_publishedAt e = None /\ ob_lockedBy e = None /\ ob_attempts e = 0.

Definition delivery_change (n n' : NotificationDelivery) : Prop :=
  nd_id n' = nd_id n /\ nd_eventId n' = nd_eventId n /\ nd_userId n' = nd_userId n /\
  nd_channel n' = nd_channel n /\ nd_template n' = nd_template n /\
  nd_payload n' = nd_payload n /\ nd_createdAt n' = nd_createdAt n /\
  ( ((nd_status n = DelPending \/ nd_status n = DelFailed) /\ nd_status n' = DelProcessing /\
     nd_attempts n < 5 /\ nd_attempts n' = nd_attempts n + 1)
    \/ (nd_status n' = DelDelivered /\ nd_attempts n' = nd_attempts n /\ 1 <= nd_attempts n)
    \/ (nd_status n = DelProcessing /\ nd_status n' = DelFailed /\
        nd_attempts n' = nd_attempts n) ).
Definition delivery_fresh (n : NotificationDelivery) : Prop :=
  nd_status n = DelPending /\ nd_attempts n = 0 /\ nd_channel n = "IN_APP"%string.

(** ** The invariant across tables *)

Definition has_event (type agg : string) (t : gmap string OutboxEvent) : Prop :=
  exists k e, t !! k = Some e /\ ob_type e = type /\ ob_aggregateId e = agg.
Definition has_audit (P : AuditLog -> Prop) (t : gmap string AuditLog) : Prop :=
  exists k a, t !! k = Some a /\ P a.

Definition audit_of (action agg : string) (a : AuditLog) : Prop :=
  al_action a = action /\ al_aggregateId a = agg.

(** The record of an order moving on from version [n]: a status update that names it, or,
    from the first version, a payment of the order. *)
Definition audited_from (orderId : string) (n : Z) (a : AuditLog) : Prop :=
  (audit_of "ORDER_STATUS_UPDATED" orderId a /\
   json_get "previousVersion" (al_metadata a) = Some (JNum n)) \/
  (n = 1 /\ al_action a = "PAYMENT_COMPLETED"%string /\
   json_get "orderId" (al_metadata a) = Some (JStr orderId)).

(** How far an order is: the number of steps its status is away from PENDING, at most. *)
Definition rank (s : OrderStatus) : Z :=
  match s with
  | PENDING => 0 | CONFIRMED => 1 | PREPARING => 2 | READY => 3
  | COMPLETED => 4 | CANCELLED => 3
  end.

Record order_wf `{Clients} (d : db) (k : string) (o : Order) : Prop := {
  ow_id : o_id o = k;
  ow_version : 1 <= o_version o;
  ow_pending : o_status o = PENDING -> o_version o = 1;
  ow_rank : informed k -> o_version o <= 1 + rank (o_status o);
  ow_event : has_event "OrderCreated" k (outboxEvents d);
  ow_created : has_audit (audit_of "ORDER_CREATED" k) (auditLogs d);
  ow_audited : forall n, 1 <= n < o_version o ->
    has_audit (audited_from k n) (auditLogs d);
  ow_total : o_totalAmount o = sum_lines (items_of k (orderItems d));
}.

Record payment_wf (d : db) (k : string) (p : Payment) : Prop := {
  pw_id : p_id p = k;
  pw_amount : exists o, orders d !! p_orderId p = Some o /\ p_amount p = o_totalAmount o /\
    o_status o <> PENDING;
  pw_event : has_event "PaymentCompleted" k (outboxEvents d);
  pw_audit : has_audit (audit_of "PAYMENT_COMPLETED" k) (auditLogs d);
}.

Record outbox_wf (k : string) (e : OutboxEvent) : Prop := {
  bw_id : ob_id e = k;
  bw_released : is_Some (ob_publishedAt e) -> ob_lockedBy e = None;
  bw_attempts : 0 <= ob_attempts e;
}.

Record delivery_wf (k : string) (n : NotificationDelivery) : Prop := {
  dw_id : nd_id n = k;
  dw_nonempty : k <> ""%string;
  dw_channel : nd_channel n = "IN_APP"%string;
  dw_attempts : 0 <= nd_attempts n <= 5;
  dw_pending : nd_status n = DelPending -> nd_attempts n = 0;
  dw_claimed : nd_status n <> DelPending -> 1 <= nd_attempts n;
}.

Record wf `{Clients} (d : db) : Prop := {
  wf_users : keyed u_id (users d);
  wf_emails : forall k k' u u', users d !! k = Some u -> users d !! k' = Some u' ->
    u_email u = u_email u' -> k = k';
  wf_normal_emails : forall k u, users d !! k = Some u -> normalized (u_email u);
  wf_tokens : keyed rt_id (refreshTokens d);
  wf_menu : keyed mi_id (menuItems d);
  wf_items : forall k i, orderItems d !! k = Some i -> is_Some (orders d !! oi_orderId i);
  wf_orders : forall k o, orders d !! k = Some o -> order_wf d k o;
  wf_payments : forall k p, payments d !! k = Some p -> payment_wf d k p;
  wf_payment_keys : forall k k' p p',
    payments d !! k = Some p -> payments d !! k' = Some p' ->
    p_idempotencyKey p = p_idempotencyKey p' -> k = k';
  wf_outbox : forall k e, outboxEvents d !! k = Some e -> outbox_wf k e;
  wf_processed : forall k k' p p',
    processedMessages d !! k = Some p -> processedMessages d !! k' = Some p' ->
    pm_consumer p = pm_consumer p' -> pm_eventId p = pm_eventId p' -> k = k';
  wf_deliveries : forall k n, notificationDeliveries d !! k = Some n -> delivery_wf k n;
  wf_delivery_events : forall k k' n n',
    notificationDeliveries d !! k = Some n -> notificationDeliveries d !! k' = Some n' ->
    nd_eventId n = nd_eventId n' -> k = k';
  wf_token_users : forall k t, refreshTokens d !! k = Some t ->
    is_Some (users d !! rt_userId t);
  wf_notified : forall k p, processedMessages d !! k = Some p ->
    pm_consumer p = "notification"%string ->
    exists i n, notificationDeliveries d !! i = Some n /\ nd_eventId n = pm_eventId p;
}.

(** ** The relation *)

Record tables_evolve `{Clients} (oc : OutboxEvent -> OutboxEvent -> Prop) (d d' : db) : Prop := {
  te_users : table_evolves (fun _ => True) user_change (users d) (users d');
  te_tokens : table_evolves token_fresh token_change (refreshTokens d) (refreshTokens d');
  te_restaurants : table_evolves (fun _ => True) frozen (restaurants d) (restaurants d');
  te_menu : table_evolves (fun _ => True) frozen (menuItems d) (menuItems d');
  te_orders : table_evolves order_fresh order_change (orders d) (orders d');
  te_items : table_evolves (fun _ => True) frozen (orderItems d) (orderItems d');
  te_payments : table_evolves payment_fresh frozen (payments d) (payments d');
  te_audit : table_evolves (fun _ => True) frozen (auditLogs d) (auditLogs d');
  te_outbox : table_evolves outbox_fresh oc (outboxEvents d) (outboxEvents d');
  te_processed : table_evolves (fun _ => True) frozen
    (processedMessages d) (processedMessages d');
  te_deliveries : table_evolves delivery_fresh delivery_change
    (notificationDeliveries d) (notificationDeliveries d');
}.

Definition evolves_by `{Clients} (oc : OutboxEvent -> OutboxEvent -> Prop) (w w' : world) : Prop :=
  tables_evolve oc (w_db w) (w_db w') /\ (wf (w_db w) -> wf (w_db w')) /\ w_now w <= w_now w'.
Abbreviation evolves := (evolves_by outbox_change).
Abbreviation quiet := (evolves_by frozen).

(** The environment: time passes. *)
Definition time_passes (w w' : world) : Prop :=
  exists t, w_now w <= t /\ w' = mkWorld (w_db w) t (w_nonce w).

(** ** Lemmas *)

Lemma has_event_mono fresh type agg t t' :
  table_evolves fresh outbox_change t t' -> has_event type agg t -> has_event type agg t'.
Proof.
  intros Ht (k & e & Hk & He & Ha).
  destruct (table_evolves_fwd _ _ _ _ _ _ Ht Hk) as (e' & Hk' & [->|Hc]).
  - by exists k, e.
  - exists k, e'. destruct Hc as (_ & _ & ? & _ & ? & _). split_and!; congruence.
Qed.

Lemma has_event_insert k e type agg t :
  ob_type e = type -> ob_aggregateId e = agg -> has_event type agg (<[k := e]> t).
Proof. intros. exists k, e. split_and!; [apply lookup_insert_eq|done..]. Qed.

Lemma has_audit_mono fresh P t t' :
  table_evolves fresh frozen t t' -> has_audit P t -> has_audit P t'.
Proof. intros Ht (k & a & Hk & ?). exists k, a. eauto using table_frozen_lookup. Qed.

Lemma has_audit_insert k a (P : AuditLog -> Prop) t : P a -> has_audit P (<[k := a]> t).
Proof. intros. exists k, a. split; [apply lookup_insert_eq|done]. Qed.

Create HintDb evolves.
#[export] Hint Resolve table_evolves_refl table_evolves_insert has_audit_insert
  has_event_insert has_event_mono has_audit_mono : evolves.

Section clients.
Context {Cl : Clients}.

Lemma tables_evolve_refl oc d : tables_evolve oc d d.
Proof. split; auto with evolves. Qed.

Lemma tables_evolve_frozen oc d d' : tables_evolve frozen d d' -> tables_evolve oc d d'.
Proof. intros [????????? H ?]; split; try done. by apply table_frozen_evolves. Qed.

Lemma quiet_evolves w w' : quiet w w' -> evolves w w'.
Proof. intros (H & ? & ?). split; [by apply tables_evolve_frozen|done]. Qed.

Lemma evolves_refl oc w : evolves_by oc w w.
Proof. split; [apply tables_evolve_refl|split; [done|lia]]. Qed.

Lemma time_passes_evolves oc w w' : time_passes w w' -> evolves_by oc w w'.
Proof. intros (t & Ht & ->). split; [apply tables_evolve_refl|split; [done|done]]. Qed.

Lemma evolves_wf oc w w' : wf (w_db w) -> evolves_by oc w w' -> wf (w_db w').
Proof. intros Hw (_ & H & _). auto. Qed.

Lemma rtc_wf oc w w' : wf (w_db w) -> rtc (evolves_by oc) w w' -> wf (w_db w').
Proof. intros Hw H. induction H; eauto using evolves_wf. Qed.

(** An order is untouched or takes one step; its version tells which. *)
Lemma evolves_order w w' k o :
  evolves w w' -> orders (w_db w) !! k = Some o ->
  exists o', orders (w_db w') !! k = Some o' /\ (o' = o \/ order_change o o').
Proof. intros (H & _ & _) Hk. eapply table_evolves_fwd; [apply H|done]. Qed.

Lemma order_change_rank o o' :
  order_change o o' -> informed (o_id o) -> rank (o_status o) < rank (o_status o').
Proof.
  intros (_ & Hs & _) Hi. specialize (Hs Hi). apply list_elem_of_In in Hs.
  destruct (o_status o); simpl in Hs; intuition (subst; simpl; try lia);
    match goal with H : _ = o_status o' |- _ => rewrite <- H; simpl; lia end.
Qed.

Lemma order_change_not_pending o o' : order_change o o' -> o_status o' <> PENDING.
Proof. by intros (? & _). Qed.

(** ** Programs whose steps only need the invariant *)

Definition wf_world (w : world) : Prop := wf (w_db w).

Lemma wf_stable : stable evolves wf_world.
Proof. intros w w' Hw HE. by eapply evolves_wf. Qed.

Lemma evolves_same oc w w' : w_db w' = w_db w -> w_now w' = w_now w -> evolves_by oc w w'.
Proof. intros Hd Hn. split_and!; rewrite ?Hd; [apply tables_evolve_refl|done|lia]. Qed.

Lemma run_evolves {A : Type} (p : prog world A) w r w' :
  guarded evolves quiet p wf_world -> wf (w_db w) -> run p w = (r, w') -> rtc evolves w w'.
Proof.
  intros Hg Hw Hr. eapply rtc_subrel; [apply quiet_evolves|]. by eapply run_guarded.
Qed.

Section guarded_wf.
Context {A B : Type}.
Implicit Types (m : tx world A).

Definition preserves m : Prop :=
  forall w a w', wf (w_db w) -> m w = Ok (a, w') -> quiet w w'.

Lemma guarded_wf m : preserves m -> guarded evolves quiet (await m) wf_world.
Proof. intros Hm. apply guarded_await; [apply wf_stable|]. intros; by eapply Hm. Qed.

Lemma guarded_wf_then m (f : A -> prog world B) :
  preserves m -> (forall a, guarded evolves quiet (f a) wf_world) ->
  guarded evolves quiet (await m ≫= f) wf_world.
Proof.
  intros Hm Hf. apply guarded_await_then with (J := fun _ => wf_world); [apply wf_stable|..|done].
  - intros _. apply wf_stable.
  - intros w a w' Hwf H. pose proof (Hm _ _ _ Hwf H). split; [done|]. by eapply evolves_wf.
Qed.

End guarded_wf.

(** ** Steps that leave the database alone *)

Section read_only.
Context {U : Uuids}.

Definition read_only {X : Type} (m : tx world X) : Prop :=
  forall w a w', m w = Ok (a, w') -> w_db w' = w_db w /\ w_now w' = w_now w.

Lemma read_only_preserves {X : Type} (m : tx world X) : read_only m -> preserves m.
Proof. intros Hm w a w' _ [??]%Hm. by apply evolves_same. Qed.

Lemma read_only_bind {X Y : Type} (m : tx world X) (f : X -> tx world Y) :
  read_only m -> (forall x, read_only (f x)) -> read_only (m ≫= f).
Proof.
  intros Hm Hf w a w' (x & s & [Hd Hn]%Hm & [Hd' Hn']%Hf)%tx_bind_Ok. split; congruence.
Qed.

Lemma new_uuid_read_only : read_only new_uuid.
Proof. intros w a w' H. unfold new_uuid in H. by simplify_eq. Qed.
Lemma gets_read_only {X : Type} (f : world -> X) : read_only (tx_gets f).
Proof. intros w a w' H. unfold tx_gets in H. by simplify_eq. Qed.
Lemma ret_read_only {X : Type} (x : X) : read_only (mret x).
Proof. intros w a w' H. by tx_return H. Qed.
Lemma throw_read_only {X : Type} e : read_only (tx_throw e : tx world X).
Proof. by intros w a w' H. Qed.

End read_only.

End clients.
