(* ===== verification/OrderFlow.v ===== *)
(** * The order flow under concurrency

    Order creation, status updates and payments are [guarded] by [evolves]: interleaved in
    any way, with failing steps, lost answers and crashes, they keep every order on its
    state machine and the invariant [wf] true. *)
From S2P Require Import Prelude Errors Effects Prisma Schema Orders OrdersSpec Payments Evolution.

(** ** Monotonicity of the invariant *)

Section monotone.
Context {Cl : Clients}.

Lemma order_wf_mono d d' k o :
  table_evolves outbox_fresh outbox_change (outboxEvents d) (outboxEvents d') ->
  table_evolves (fun _ => True) frozen (auditLogs d) (auditLogs d') ->
  sum_lines (items_of k (orderItems d')) = sum_lines (items_of k (orderItems d)) ->
  order_wf d k o -> order_wf d' k o.
Proof.
  intros He Ha Hs [Hid Hv Hp Hr Hev Hcr Hau Ht]. split; eauto with evolves; congruence.
Qed.

Lemma payment_wf_mono d d' k p :
  table_evolves order_fresh order_change (orders d) (orders d') ->
  table_evolves outbox_fresh outbox_change (outboxEvents d) (outboxEvents d') ->
  table_evolves (fun _ => True) frozen (auditLogs d) (auditLogs d') ->
  payment_wf d k p -> payment_wf d' k p.
Proof.
  intros Ho He Ha [Hid (o & Hk & Ham & Hst) Hev Hau]. split; eauto with evolves.
  destruct (table_evolves_fwd _ _ _ _ _ _ Ho Hk) as (o' & Hk' & Hc). exists o'.
  split; [done|]. destruct Hc as [->|Hc]; [done|]. split.
  - destruct Hc as (_ & _ & _ & _ & _ & _ & -> & _). done.
  - by eapply order_change_not_pending.
Qed.

End monotone.

(** A step that leaves the orders' side alone keeps its part of the invariant. *)
Section steps.
Context {Cl : Clients} {P : Prisma} {U : Uuids} {D : Decimals} {DT : Dates} {PL : PrismaLaws P}.

(** ** Creation *)

Lemma create_evolves userId dto corr w view w' :
  wf (w_db w) -> OrdersRepository.create userId dto corr w = Ok (view, w') -> quiet w w'.
Proof.
  intros Hwf H. destruct (create_inv _ _ _ _ _ _ (wf_menu _ Hwf) H) as
    (lines & o & items & t & ak & a & ek & e & _ & _ & _ & _ & Hn & Ho & Ht & Hit & Hio &
     Hak & Hact & (Hagg & _) & Hek & He & _ & _ & Hnow & Hdb).
  assert (Hof : order_fresh o) by (by rewrite Ho).
  assert (Hef : outbox_fresh e) by (by rewrite He).
  assert (Htab : tables_evolve frozen (w_db w) (w_db w')).
  { rewrite Hdb. split; simpl; auto with evolves.
    destruct Ht as [Ht1 Ht2]. split; [done|]. by intros. }
  split; [done|]. split; [|lia]. intros _.
  destruct Htab as [_ _ _ _ Hto _ _ Hta Htb _ _].
  apply (table_frozen_evolves _ outbox_change) in Htb. rewrite Hdb in *. simpl in *.
  assert (Hnone : items_of (o_id o) (orderItems (w_db w)) = []).
  { apply items_of_none. intros k i Hk Heq.
    destruct (wf_items _ Hwf _ _ Hk) as [? Hx]. congruence. }
  destruct Hwf as [Hu Hem Hnem Htok Hm Hi Hord Hpay Hpk Hout Hproc Hdel Hdk Htu Hntf].
  split; simpl; try done.
  - intros k i Hk. apply (table_evolves_bwd _ _ _ _ _ _ Ht) in Hk
      as [[_ ->]|(q & Hq & [->|[]])].
    + rewrite lookup_insert_eq. eauto.
    + destruct (Hi _ _ Hq) as [o' Ho'].
      destruct (table_evolves_fwd _ _ _ _ _ _ Hto Ho') as (o'' & -> & _). eauto.
  - intros k q. rewrite lookup_insert. case_decide as Hkk.
    + intros [= <-]. subst k. split; simpl.
      * done.
      * rewrite Ho. simpl. lia.
      * by rewrite Ho.
      * rewrite Ho. simpl. lia.
      * apply has_event_insert; by rewrite He.
      * by apply has_audit_insert.
      * rewrite Ho. simpl. lia.
      * rewrite (sum_lines_perm _ _ (Hio _)), String.eqb_refl, Hnone, app_nil_r.
        rewrite (sum_lines_items _ _ _ Hit). by rewrite Ho.
    + intros Hq. eapply order_wf_mono; [exact Htb|exact Hta| |by apply Hord].
      simpl. rewrite (sum_lines_perm _ _ (Hio _)). by destruct (String.eqb_spec k (o_id o)).
  - intros k p Hp. eapply payment_wf_mono; [exact Hto|exact Htb|exact Hta|by apply Hpay].
  - intros k q. rewrite lookup_insert. case_decide as Hkk; [|apply Hout].
    intros [= <-]. subst k. split; rewrite He; [done|by intros [? ?]|simpl; lia].
Qed.

(** ** Status updates *)

(** An order that takes one step keeps its invariant when the step is audited. *)
Lemma order_wf_step d d' k o o' :
  table_evolves outbox_fresh outbox_change (outboxEvents d) (outboxEvents d') ->
  table_evolves (fun _ => True) frozen (auditLogs d) (auditLogs d') ->
  orderItems d' = orderItems d -> order_change o o' ->
  has_audit (audited_from k (o_version o)) (auditLogs d') ->
  order_wf d k o -> order_wf d' k o'.
Proof.
  intros He Ha Hi Hc Hnew [Hid Hv Hp Hr Hev Hcr Hau Ht].
  pose proof (order_change_rank _ _ Hc) as Hrank.
  destruct Hc as (Hpend & _ & Hv' & Hid' & _ & _ & Htot & _).
  split; eauto with evolves.
  - congruence.
  - lia.
  - done.
  - intros Hinf. specialize (Hr Hinf). rewrite Hid in Hrank. specialize (Hrank Hinf). lia.
  - intros n Hn. destruct (Z.eq_dec n (o_version o)) as [->|]; [done|].
    eapply has_audit_mono; [done|]. apply Hau. lia.
  - by rewrite Hi, Htot.
Qed.

Lemma set_status_change status t o :
  status <> PENDING ->
  (informed (o_id o) -> status ∈ OrdersService.transitions (o_status o)) ->
  order_change o (OrdersRepository.set_status status t o).
Proof. by split. Qed.

(** No transition leads back to PENDING. *)
Lemma transition_moves s s' : s' ∈ OrdersService.transitions s -> s' <> PENDING.
Proof. destruct s; set_solver. Qed.

Lemma orders_keyed d : wf d -> keyed o_id (orders d).
Proof. intros Hwf k o Ho. by destruct (wf_orders _ Hwf _ _ Ho). Qed.

Lemma updateStatus_evolves id v status actor corr w view w' :
  wf (w_db w) -> status <> PENDING ->
  (informed id -> forall o, orders (w_db w) !! id = Some o -> o_version o = v ->
     status ∈ OrdersService.transitions (o_status o)) ->
  OrdersRepository.updateStatus id v status actor corr w = Ok (view, w') -> quiet w w'.
Proof.
  intros Hwf Hmoves Hallowed H.
  destruct (updateStatus_inv _ _ _ _ _ _ _ _ (orders_keyed _ Hwf) H) as
    (o & ak & a & Ho & Hv & Hak & Hact & Hagg & Hprev & _ & Hnow & Hdb).
  set (o' := OrdersRepository.set_status status (w_now w) o) in *.
  assert (Hc : order_change o o').
  { apply set_status_change; [done|]. intros Hi. apply Hallowed; [|done..].
    by rewrite <- (orders_keyed _ Hwf _ _ Ho). }
  assert (Htab : tables_evolve frozen (w_db w) (w_db w')).
  { rewrite Hdb. split; simpl; auto with evolves. by eapply table_evolves_change. }
  split; [done|]. split; [|lia]. intros _.
  destruct Htab as [_ _ _ _ Hto _ _ Hta Htb _ _].
  apply (table_frozen_evolves _ outbox_change) in Htb. rewrite Hdb in *. simpl in *.
  assert (Haud : has_audit (audited_from id (o_version o)) (<[ak := a]> (auditLogs (w_db w)))).
  { apply has_audit_insert. left. split; [by split|by rewrite Hv]. }
  destruct Hwf as [Hu Hem Hnem Htok Hm Hi Hord Hpay Hpk Hout Hproc Hdel Hdk Htu Hntf].
  split; simpl; try done.
  - intros k i Hk. destruct (Hi _ _ Hk) as [q Hq].
    destruct (table_evolves_fwd _ _ _ _ _ _ Hto Hq) as (q' & -> & _). eauto.
  - intros k q. rewrite lookup_insert. case_decide as Hkk.
    + intros [= <-]. subst k. eapply order_wf_step; [exact Htb|exact Hta|done|exact Hc|exact Haud|].
      by apply Hord.
    + intros Hq. eapply order_wf_mono; [exact Htb|exact Hta|done|by apply Hord].
  - intros k p Hp. eapply payment_wf_mono; [exact Hto|exact Htb|exact Hta|by apply Hpay].
Qed.

(** ** Payments *)

Lemma paid_order_change t o : paid_order t o = o \/ (o_status o = PENDING /\ order_change o (paid_order t o)).
Proof.
  unfold paid_order. case_bool_decide as Hp; [right; split; [done|]|by left].
  apply set_status_change; [done|]. intros _. rewrite Hp. simpl. set_solver.
Qed.

Lemma complete_evolves input w p w' :
  wf (w_db w) -> PaymentsRepository.complete input w = Ok (p, w') -> quiet w w'.
Proof.
  intros Hwf H. destruct (complete_inv _ _ _ _ (orders_keyed _ Hwf) H) as
    (o & ak & a & ek & e & Ho & Hpn & Hkey & Hp & Hak & Hact & Hagg & Hoid & Hek & Heid & Het &
     Hea & _ & Hepub & Helock & Heatt & Hnow & Hdb).
  set (o' := paid_order (w_now w) o) in *.
  assert (Htab : tables_evolve frozen (w_db w) (w_db w')).
  { rewrite Hdb. split; simpl; auto with evolves.
    - destruct (paid_order_change (w_now w) o) as [Heq|[_ Hc]].
      + unfold o'. rewrite Heq, insert_id by done. auto with evolves.
      + by eapply table_evolves_change.
    - apply table_evolves_insert; [done|by rewrite Hp].
    - apply table_evolves_insert; [done|by split]. }
  split; [done|]. split; [|lia]. intros _.
  destruct Htab as [_ _ _ _ Hto _ _ Hta Htb _ _].
  apply (table_frozen_evolves _ outbox_change) in Htb. rewrite Hdb in *. simpl in *.
  destruct Hwf as [Hu Hem Hnem Htok Hm Hi Hord Hpay Hpk Hout Hproc Hdel Hdk Htu Hntf].
  split; simpl; try done.
  - intros k i Hk. destruct (Hi _ _ Hk) as [q Hq].
    destruct (table_evolves_fwd _ _ _ _ _ _ Hto Hq) as (q' & -> & _). eauto.
  - intros k q. rewrite lookup_insert. case_decide as Hkk.
    + intros [= <-]. subst k. pose proof (Hord _ _ Ho) as Hwfo.
      destruct (paid_order_change (w_now w) o) as [Heq|[Hpend Hc]].
      * unfold o'. rewrite Heq. eapply order_wf_mono; [exact Htb|exact Hta|done|done].
      * eapply order_wf_step; [exact Htb|exact Hta|done|exact Hc| |done].
        apply has_audit_insert. right. split; [|done]. by apply (ow_pending _ _ _ Hwfo).
    + intros Hq. eapply order_wf_mono; [exact Htb|exact Hta|done|by apply Hord].
  - intros k q. rewrite lookup_insert. case_decide as Hkk.
    + intros [= <-]. subst k. split; simpl.
      * done.
      * exists o'. rewrite Hp. simpl. rewrite lookup_insert_eq. split; [done|].
        split; [by unfold o'; rewrite paid_order_total|apply paid_order_not_pending].
      * by apply has_event_insert.
      * apply has_audit_insert. by split.
    + intros Hq. eapply payment_wf_mono; [exact Hto|exact Htb|exact Hta|by apply Hpay].
  - intros k k' q q'. rewrite !lookup_insert.
    do 2 case_decide; intros; simplify_eq; try done.
    + exfalso. eapply Hkey; [eassumption|]. simpl in *. congruence.
    + exfalso. eapply Hkey; [eassumption|]. simpl in *. congruence.
    + by eapply Hpk.
  - intros k q. rewrite lookup_insert. case_decide as Hkk; [|apply Hout].
    intros [= <-]. subst k. split; [done|by intros [? ?]|lia].
Qed.

End steps.

(** ** The handlers are guarded *)

Section guarded.
Context {Cl : Clients} {P : Prisma} {U : Uuids} {D : Decimals} {DT : Dates} {PL : PrismaLaws P}.

Lemma create_guarded user dto corr : guarded evolves quiet (OrdersService.create user dto corr) wf_world.
Proof.
  unfold OrdersService.create. case_bool_decide; simpl; [|done].
  apply guarded_wf. intros w v w'. apply create_evolves.
Qed.

Lemma list_guarded user q : guarded evolves quiet (OrdersService.list user q) wf_world.
Proof.
  apply guarded_wf. intros w v w' _ H. assert (w' = w) as ->; [|apply evolves_refl].
  unfold OrdersRepository.list in H.
  apply tx_bind_Ok in H as (from & s & Hs & H). apply parse_bound_inv in Hs as [-> _].
  apply tx_bind_Ok in H as (to & s & Hs & H). apply parse_bound_inv in Hs as [-> _].
  unfold db_findMany, db_count in H. by tx_inv H.
Qed.

(** What the client of a status update of an informed order knows: the version it sends is one
    the order has had. *)
Definition read_version (id : string) (v : Z) (w : world) : Prop :=
  informed id -> exists o, orders (w_db w) !! id = Some o /\ v <= o_version o.

(** After the service has read an informed order: its version only moves on, and as long as it
    is the client's version, its status is the one the service checked. *)
Definition checked_status (id : string) (v : Z) (s : OrderStatus) (w : world) : Prop :=
  wf_world w /\ (informed id -> exists o, orders (w_db w) !! id = Some o /\ v <= o_version o /\
    (o_version o = v -> o_status o = s)).

Lemma read_version_stable id v : stable evolves (fun w => wf_world w /\ read_version id v w).
Proof.
  intros w w' [Hwf Hr] HE. split; [by eapply wf_stable|]. intros Hi.
  destruct (Hr Hi) as (o & Ho & Hv).
  destruct (evolves_order _ _ _ _ HE Ho) as (o' & Ho' & [->|(_ & _ & Hv' & _)]).
  - by exists o.
  - exists o'. split; [done|lia].
Qed.

Lemma checked_status_stable id v s : stable evolves (checked_status id v s).
Proof.
  intros w w' [Hwf Hc] HE. split; [by eapply wf_stable|]. intros Hi.
  destruct (Hc Hi) as (o & Ho & Hv & Hs).
  destruct (evolves_order _ _ _ _ HE Ho) as (o' & Ho' & [->|(_ & _ & Hv' & _)]).
  - by exists o.
  - exists o'. split_and!; [done|lia|lia].
Qed.

Lemma findById_inv id w r w' :
  OrdersRepository.findById id w = Ok (r, w') ->
  w' = w /\ r = OrdersRepository.orderInclude (w_db w) <$> (orders (w_db w) !! id).
Proof.
  unfold OrdersRepository.findById. intros (o & s & Ho & H)%tx_bind_Ok.
  rewrite db_findUnique_eq in Ho. simplify_eq. unfold tx_gets in H. by simplify_eq.
Qed.

Lemma updateStatus_guarded user id dto corr :
  guarded evolves quiet (OrdersService.updateStatus user id dto corr)
    (fun w => wf_world w /\ read_version id (us_version dto) w).
Proof.
  unfold OrdersService.updateStatus.
  apply guarded_await_then with (J := fun r w =>
    match r with
    | None => True
    | Some view => checked_status id (us_version dto) (o_status (ov_order view)) w
    end).
  - apply read_version_stable.
  - intros [view|]; [apply checked_status_stable|done].
  - intros w r w' [Hwf Hr] H. apply findById_inv in H as [-> ->].
    split; [apply evolves_refl|]. destruct (orders (w_db w) !! id) as [o|] eqn:Ho; simpl; [|done].
    split; [done|]. intros Hi. destruct (Hr Hi) as (o' & Ho' & Hv). simplify_eq. eauto.
  - intros [view|]; [|done]. destruct (bool_decide _ && _); [done|].
    case_bool_decide as Hin; simpl; [|done].
    apply guarded_await; [apply checked_status_stable|].
    intros w v w' [Hwf Hc] H.
    eapply updateStatus_evolves; [done|by eapply transition_moves| |exact H].
    intros Hi o' Ho' Hv'. destruct (Hc Hi) as (o & Ho & Hv & Hs). simplify_eq. by rewrite Hs.
Qed.

Lemma findByKey_inv key w r w' :
  PaymentsRepository.findByIdempotencyKey key w = Ok (r, w') ->
  w' = w /\ match r with
            | Some p => p_idempotencyKey p = key /\ exists k, payments (w_db w) !! k = Some p
            | None => forall k p, payments (w_db w) !! k = Some p -> p_idempotencyKey p <> key
            end.
Proof.
  unfold PaymentsRepository.findByIdempotencyKey. intros [-> H]%db_findFirst_inv.
  split; [done|]. destruct r as [p|].
  - by destruct H as [?%String.eqb_eq ?].
  - intros k p Hp He. specialize (H _ _ Hp). by rewrite He, String.eqb_refl in H.
Qed.

Lemma pay_guarded user orderId key dto corr :
  guarded evolves quiet (PaymentsService.complete user orderId key dto corr) wf_world.
Proof.
  unfold PaymentsService.complete. destruct (PaymentsService.key_ok key) as [k|]; [|done].
  apply guarded_wf_then.
  - intros w r w' _ [-> _]%findById_inv. apply evolves_refl.
  - intros [view|]; [|done]. destruct (_ && _); [done|]. apply guarded_wf_then.
    + intros w r w' _ [-> _]%findByKey_inv. apply evolves_refl.
    + intros [p|]; [by destruct (negb _)|].
      apply guarded_wf. intros w p w'. apply complete_evolves.
Qed.

End guarded.
