(* ===== verification/PaymentsSpec.v ===== *)
(** * What a payment request does

    The outcome of PaymentsService.complete run alone, the idempotence of its retries in
    any later state of the system, and the refusal of a key bound to another order. *)
From S2P Require Import Prelude JsStrings Errors Effects Prisma Schema Orders OrdersSpec Payments Evolution.
From S2P Require Import OrderFlow.

Section outcomes.
Context {Cl : Clients} {P : Prisma} {U : Uuids} {D : Decimals} {DT : Dates} {PL : PrismaLaws P}.
Implicit Types (user : AuthenticatedUser) (dto : CompletePaymentDto) (corr : option string).

(** The caller may pay for the order. *)
Definition may_pay (user : AuthenticatedUser) (o : Order) : bool :=
  negb (bool_decide (au_role user = USER) && negb (String.eqb (o_userId o) (au_id user))).

Definition unused_key (d : db) (key : string) : Prop :=
  forall k p, payments d !! k = Some p -> p_idempotencyKey p <> key.

(** The service up to its lookup of the key. *)
Lemma pay_lookup user id key k dto corr w o :
  PaymentsService.key_ok key = Some k -> orders (w_db w) !! id = Some o ->
  may_pay user o = true ->
  run (PaymentsService.complete user id key dto corr) w =
  run (existing ← await (PaymentsRepository.findByIdempotencyKey k);
       match existing with
       | Some payment =>
           if negb (String.eqb (p_orderId payment) id)
           then Throw (ConflictException PaymentsService.bound_message)
           else Ret payment
       | None => await (PaymentsRepository.complete
           (mkCompleteInput id (au_id user) k (cp_providerReference dto) corr))
       end) w.
Proof.
  intros Hk Ho Hmay. unfold PaymentsService.complete. rewrite Hk. cbv beta iota.
  rewrite (run_await_then _ _ _ _ _ (findById_found _ _ _ Ho)). cbv zeta.
  change (ov_order (OrdersRepository.orderInclude (w_db w) o)) with o.
  unfold may_pay in Hmay. apply negb_true_iff in Hmay. by rewrite Hmay.
Qed.

Lemma findByKey_used d t n k q p :
  wf d -> payments d !! k = Some p -> q = p_idempotencyKey p ->
  PaymentsRepository.findByIdempotencyKey q (mkWorld d t n) = Ok (Some p, mkWorld d t n).
Proof.
  intros Hwf Hp ->.
  destruct (PaymentsRepository.findByIdempotencyKey _ _) as [[r w']|e] eqn:H; [|done].
  apply findByKey_inv in H as [-> H]. destruct r as [p'|].
  - destruct H as (Hk & k' & Hp'). simpl in *.
    assert (k' = k) as -> by (by eapply wf_payment_keys). by simplify_eq.
  - by destruct (H _ _ Hp).
Qed.

Lemma findByKey_unused w key :
  unused_key (w_db w) key -> PaymentsRepository.findByIdempotencyKey key w = Ok (None, w).
Proof.
  intros Hn. destruct (PaymentsRepository.findByIdempotencyKey _ _) as [[r w']|e] eqn:H; [|done].
  apply findByKey_inv in H as [-> H]. destruct r as [p|]; [|done].
  destruct H as (Hk & k & Hp). by destruct (Hn _ _ Hp).
Qed.

(** The service on a key that is bound, and on one that is not. *)
Lemma pay_bound user id key k dto corr w o i p :
  wf (w_db w) -> PaymentsService.key_ok key = Some k -> orders (w_db w) !! id = Some o ->
  may_pay user o = true -> payments (w_db w) !! i = Some p -> p_idempotencyKey p = k ->
  run (PaymentsService.complete user id key dto corr) w =
  (if String.eqb (p_orderId p) id then Ok p
   else Err (ConflictException PaymentsService.bound_message), w).
Proof.
  intros Hwf Hk Ho Hmay Hp Hpk. rewrite (pay_lookup _ _ _ _ _ _ _ _ Hk Ho Hmay).
  destruct w as [d t n]. erewrite run_await_then by (by eapply findByKey_used).
  by destruct (String.eqb (p_orderId p) id) eqn:He; simpl; rewrite He.
Qed.

Lemma pay_unbound user id key k dto corr w o :
  PaymentsService.key_ok key = Some k -> orders (w_db w) !! id = Some o ->
  may_pay user o = true -> unused_key (w_db w) k ->
  run (PaymentsService.complete user id key dto corr) w =
  run (await (PaymentsRepository.complete
    (mkCompleteInput id (au_id user) k (cp_providerReference dto) corr))) w.
Proof.
  intros Hk Ho Hmay Hn. rewrite (pay_lookup _ _ _ _ _ _ _ _ Hk Ho Hmay).
  by rewrite (run_await_then _ _ _ _ _ (findByKey_unused _ _ Hn)).
Qed.

(** Whatever answer a payment gives, it is a stored payment under the key, for the order,
    which the caller may pay for. *)
Lemma pay_Ok_inv user id key dto corr w p w' :
  wf (w_db w) -> run (PaymentsService.complete user id key dto corr) w = (Ok p, w') ->
  evolves w w' /\
  exists k o i, PaymentsService.key_ok key = Some k /\ orders (w_db w') !! id = Some o /\
    may_pay user o = true /\ payments (w_db w') !! i = Some p /\ p_idempotencyKey p = k /\
    p_orderId p = id.
Proof.
  intros Hwf H.
  destruct (PaymentsService.key_ok key) as [k|] eqn:Hk;
    [|by unfold PaymentsService.complete in H; rewrite Hk in H].
  destruct (orders (w_db w) !! id) as [o|] eqn:Ho.
  2: { unfold PaymentsService.complete in H. rewrite Hk in H. cbv beta iota in H.
       by rewrite run_bind, run_await, findById_run, Ho in H. }
  destruct (may_pay user o) eqn:Hmay.
  2: { unfold PaymentsService.complete in H.
       rewrite Hk in H. cbv beta iota in H.
       rewrite run_bind, run_await, findById_run, Ho in H. simpl in H.
       unfold may_pay in Hmay. apply negb_false_iff in Hmay. by rewrite Hmay in H. }
  destruct (PaymentsRepository.findByIdempotencyKey k w) as [[r s]|e] eqn:Hf; [|done].
  apply findByKey_inv in Hf as [-> Hf]. destruct r as [q|].
  - destruct Hf as (Hqk & i & Hq). rewrite (pay_bound _ _ _ _ _ _ _ _ _ _ Hwf Hk Ho Hmay Hq Hqk) in H.
    destruct (String.eqb_spec (p_orderId q) id); [|done]. simplify_eq.
    split; [apply evolves_refl|]. by exists (p_idempotencyKey p), o, i.
  - rewrite (pay_unbound _ _ _ _ _ _ _ _ Hk Ho Hmay Hf), run_await in H.
    destruct (PaymentsRepository.complete _ w) as [[q s]|e] eqn:Hc; [|done]. simplify_eq.
    pose proof (quiet_evolves _ _ (complete_evolves _ _ _ _ Hwf Hc)) as HE. split; [done|].
    destruct (evolves_order _ _ _ _ HE Ho) as (o' & Ho' & Hch).
    apply complete_inv in Hc as (o2 & ak & a & ek & e & Ho2 & Hn & _ & Hp & _ & _ & _ & _ & _
      & _ & _ & _ & _ & _ & _ & _ & _ & Hdb); [|by apply orders_keyed].
    exists k, o', (p_id p). split_and!; [done|done| | | |]; [|rewrite Hdb; simpl|by rewrite Hp..].
    + destruct Hch as [->|(_ & _ & _ & _ & Hu & _)]; [done|]. unfold may_pay in *. by rewrite Hu.
    + apply lookup_insert_eq.
Qed.

End outcomes.

(** ** Retries *)

Lemma key_ok_spec key :
  PaymentsService.key_ok key =
  (k ← key; if bool_decide (16 <= String.length k <= 100)%nat then Some k else None).
Proof.
  unfold PaymentsService.key_ok. destruct key as [[|c k]|]; [done| |done].
  unfold truthy. cbv [mbind option_bind].
  destruct (Nat.ltb_spec (String.length (String c k)) 16),
    (Nat.ltb_spec 100 (String.length (String c k)));
    case_bool_decide; try done; lia.
Qed.

Section retries.
Context {Cl : Clients} {P : Prisma} {U : Uuids} {D : Decimals} {DT : Dates} {PL : PrismaLaws P}.

Lemma rtc_payment w w' k p :
  payments (w_db w) !! k = Some p -> rtc evolves w w' -> payments (w_db w') !! k = Some p.
Proof.
  intros Hp H. induction H as [|w1 w2 w3 (HE & _) _ IH]; [done|].
  apply IH. eapply table_frozen_lookup; [apply HE|done].
Qed.

Lemma rtc_order w w' k o :
  orders (w_db w) !! k = Some o -> rtc evolves w w' ->
  exists o', orders (w_db w') !! k = Some o' /\ o_userId o' = o_userId o.
Proof.
  intros Ho H. revert o Ho. induction H as [|w1 w2 w3 HE _ IH]; intros o Ho; [eauto|].
  destruct (evolves_order _ _ _ _ HE Ho) as (o' & Ho' & Hc).
  destruct (IH _ Ho') as (o'' & ? & Hu). exists o''. split; [done|].
  destruct Hc as [->|(_ & _ & _ & _ & Hu' & _)]; congruence.
Qed.

(** C26: A retried payment is the payment: once a request under a key has succeeded, every
    later request of the caller with that key, however the system has moved on in between,
    answers the same payment for the same order and stores nothing. *)
Theorem payment_retry user id key dto dto' corr corr' w p w1 w2 :
  wf (w_db w) -> run (PaymentsService.complete user id key dto corr) w = (Ok p, w1) ->
  rtc evolves w1 w2 ->
  run (PaymentsService.complete user id key dto' corr') w2 = (Ok p, w2).
Proof.
  intros Hwf H HE. destruct (pay_Ok_inv _ _ _ _ _ _ _ _ Hwf H) as
    (HE1 & k & o & i & Hk & Ho & Hmay & Hp & Hpk & Hid).
  destruct (rtc_order _ _ _ _ Ho HE) as (o' & Ho' & Hu).
  erewrite pay_bound; [by rewrite Hid, String.eqb_refl| |done|done| | |done].
  - eapply rtc_wf; [|done]. by eapply evolves_wf.
  - unfold may_pay in *. by rewrite Hu.
  - by eapply rtc_payment.
Qed.

(** An idempotency key never pays twice: once a request under a key has succeeded, the
    same key presented for another order the caller may pay for is a 409 and stores
    nothing, in every later state. *)
Theorem payment_key_bound user user' id id' key dto dto' corr corr' w p w1 w2 o' :
  wf (w_db w) -> run (PaymentsService.complete user id key dto corr) w = (Ok p, w1) ->
  rtc evolves w1 w2 -> id' <> id -> orders (w_db w2) !! id' = Some o' ->
  may_pay user' o' = true ->
  run (PaymentsService.complete user' id' key dto' corr') w2 =
    (Err (ConflictException "Idempotency key is already bound to another order"), w2).
Proof.
  intros Hwf H HE Hne Ho' Hmay'. destruct (pay_Ok_inv _ _ _ _ _ _ _ _ Hwf H) as
    (HE1 & k & o & i & Hk & Ho & Hmay & Hp & Hpk & Hid).
  erewrite pay_bound; [| |done|done|done| |done].
  - rewrite Hid. by destruct (String.eqb_spec id id').
  - eapply rtc_wf; [|done]. by eapply evolves_wf.
  - by eapply rtc_payment.
Qed.

(** Who is refused a payment: a missing, short or long key is a 400 before anything is
    read; an unknown order is a 404; an ordinary user paying for someone else's order is a
    403; nothing is stored. *)
Lemma payment_refused user id key dto corr w :
  (match key with None => True | Some k => (String.length k < 16 \/ 100 < String.length k)%nat end ->
   run (PaymentsService.complete user id key dto corr) w =
     (Err (BadRequestException PaymentsService.key_message), w)) /\
  (forall k, key = Some k -> (16 <= String.length k <= 100)%nat ->
   (orders (w_db w) !! id = None ->
    run (PaymentsService.complete user id key dto corr) w =
      (Err (NotFoundException "Order not found"), w)) /\
   (forall o, orders (w_db w) !! id = Some o -> au_role user = USER ->
      o_userId o <> au_id user ->
      run (PaymentsService.complete user id key dto corr) w =
        (Err (ForbiddenException PaymentsService.owner_message), w))).
Proof.
  split.
  - intros Hk. unfold PaymentsService.complete. rewrite key_ok_spec.
    destruct key as [k|]; [|done]. cbv [mbind option_bind]. by case_bool_decide; [lia|].
  - intros k -> Hl.
    assert (Hk : PaymentsService.key_ok (Some k) = Some k).
    { rewrite key_ok_spec. cbv [mbind option_bind]. by case_bool_decide. }
    unfold PaymentsService.complete. rewrite Hk. cbv beta iota. split.
    + intros Ho. erewrite run_await_then by apply findById_run. by rewrite Ho.
    + intros o Ho Hr Hu. erewrite run_await_then by (by apply findById_found).
      cbv zeta beta iota. change (ov_order (OrdersRepository.orderInclude (w_db w) o)) with o.
      rewrite Hr. by destruct (String.eqb_spec (o_userId o) (au_id user)).
Qed.

End retries.

(** ** A payment goes through *)

Section success.
Context {Cl : Clients} {P : Prisma} {U : Uuids} {D : Decimals} {DT : Dates} {PL : PrismaLaws P}.

(** What a payment needs: a valid key nobody used, an order the caller may pay for, an
    account, columns in range and unused UUIDs. *)
Record payable (user : AuthenticatedUser) (id k : string) (dto : CompletePaymentDto)
    (corr : option string) (o : Order) (w : world) : Prop := {
  py_key : (16 <= String.length k <= 100)%nat;
  py_order : orders (w_db w) !! id = Some o;
  py_may : may_pay user o = true;
  py_unused : unused_key (w_db w) k;
  py_user : is_Some (users (w_db w) !! au_id user);
  py_columns : order_columns (paid_order (w_now w) o) = true;
  py_dto : CompletePaymentDto_valid dto = true;
  py_correlation : varchar_opt 100 corr = true;
  py_ids : fresh_draws 3 w = true;
}.

Definition new_payment (w : world) (id k : string) (dto : CompletePaymentDto) (o : Order) :
    Payment :=
  mkPayment (uuid_at (w_nonce w)) id k (o_totalAmount o) "EUR" PayCompleted
    (cp_providerReference dto) (w_now w) (w_now w).

Lemma complete_Ok (UL : UuidsLaws U) user id k dto corr o w :
  keyed o_id (orders (w_db w)) -> payable user id k dto corr o w ->
  exists w', PaymentsRepository.complete
      (mkCompleteInput id (au_id user) k (cp_providerReference dto) corr) w =
    Ok (new_payment w id k dto o, w').
Proof.
  intros Hk [Hkey Ho _ Hun Hu Hcol Hdto Hcorr Hids]. pose proof (Hk _ _ Ho) as Hid.
  pose proof (fresh_draw _ _ 0 Hids ltac:(lia)) as Hf0%unused_id_spec.
  pose proof (fresh_draw _ _ 1 Hids ltac:(lia)) as Hf1%unused_id_spec.
  pose proof (fresh_draw _ _ 2 Hids ltac:(lia)) as Hf2%unused_id_spec.
  rewrite Nat.add_0_r in Hf0. rewrite Nat.add_1_r in Hf1.
  destruct Hf0 as (_ & _ & _ & _ & Hf0 & _). destruct Hf1 as (_ & _ & Hf1 & _).
  destruct Hf2 as (_ & _ & _ & Hf2 & _).
  unfold PaymentsRepository.complete. simpl in_orderId. unfold db_findUniqueOrThrow.
  erewrite tx_bind_eq.
  2: { erewrite tx_bind_eq by apply db_findUnique_eq. simpl. by rewrite Ho. }
  erewrite tx_bind_eq by done. erewrite tx_bind_eq by done.
  assert (Hdec : decimal_12_2 (o_totalAmount o) = true).
  { apply andb_true_iff in Hcol as [Hcol _]. by rewrite paid_order_total in Hcol. }
  erewrite tx_bind_eq.
  2: { apply db_create_Ok.
       - split; [exact Hf0|]. intros i p Hp. simpl in Hp |- *. apply String.eqb_neq.
         intros Heq. by apply (Hun i p).
       - apply bool_decide_eq_true. simpl. by rewrite Ho.
       - simpl. rewrite Hdec. unfold CompletePaymentDto_valid in Hdto. rewrite Hdto.
         unfold varchar at 1. rewrite bool_decide_eq_true_2 by lia. done. }
  assert (Hstep : forall w1, orders (w_db w1) = orders (w_db w) ->
    exists w2, (if bool_decide (o_status o = PENDING) then
       _ ← db_update Orders order_columns (o_id o)
             (OrdersRepository.set_status CONFIRMED (w_now w)); mret tt
       else mret tt : tx world unit) w1 = Ok (tt, w2) /\ w_nonce w2 = w_nonce w1 /\
       users (w_db w2) = users (w_db w1) /\ auditLogs (w_db w2) = auditLogs (w_db w1) /\
       outboxEvents (w_db w2) = outboxEvents (w_db w1)).
  { intros w1 Hw1. unfold paid_order in Hcol. case_bool_decide; [|by exists w1].
    eexists. erewrite tx_bind_eq.
    2: { apply db_update_Ok with (r := o); [|exact Hcol]. simpl. by rewrite Hw1, Hid. }
    done. }
  edestruct Hstep as (w2 & Hs & Hn2 & Hu2 & Ha2 & He2);
    [|erewrite tx_bind_eq by exact Hs]; [done|]. simpl in Hn2, Hu2, Ha2, He2.
  assert (Hpid : varchar 100 (uuid_at (w_nonce w)) = true).
  { apply bool_decide_eq_true. rewrite uuid_at_length. lia. }
  edestruct auditLog_create_Ok as [a Ha].
  4: { erewrite tx_bind_eq by exact Ha.
       edestruct outboxEvent_create_Ok as [e He].
       3: { erewrite tx_bind_eq by exact He. eexists. reflexivity. }
       - simpl. rewrite Hn2, He2, <- Hf2. f_equal. f_equal. lia.
       - simpl. by rewrite Hpid, Hcorr. }
  - simpl. by rewrite Hn2, Ha2.
  - simpl. rewrite Hu2. by apply bool_decide_eq_true.
  - simpl. by rewrite Hpid, Hcorr.
Qed.

(** C27: A payment goes through: with a fresh key of 16 to 100 characters, an order the
    caller may pay for and columns in range, the request succeeds; it stores exactly one
    payment, COMPLETED in EUR for the order's authoritative total, confirms the order if
    and only if it was PENDING (bumping its version), and records the audit entry and the
    PaymentCompleted event addressed to the order's owner, in the same transaction. *)
Theorem payment_completes (UL : UuidsLaws U) user id k dto corr o w :
  wf (w_db w) -> payable user id k dto corr o w ->
  exists p w', run (PaymentsService.complete user id (Some k) dto corr) w = (Ok p, w') /\
    p_orderId p = id /\ p_idempotencyKey p = k /\ p_amount p = o_totalAmount o /\
    p_status p = PayCompleted /\ p_currency p = "EUR"%string /\
    payments (w_db w) !! p_id p = None /\
    payments (w_db w') = <[p_id p := p]> (payments (w_db w)) /\
    (exists o', orders (w_db w') = <[id := o']> (orders (w_db w)) /\
       (o_status o = PENDING -> o_status o' = CONFIRMED /\ o_version o' = o_version o + 1) /\
       (o_status o <> PENDING -> o' = o)) /\
    (exists i a, auditLogs (w_db w') = <[i := a]> (auditLogs (w_db w)) /\
       al_action a = "PAYMENT_COMPLETED"%string /\ al_aggregateId a = p_id p) /\
    (exists i e, outboxEvents (w_db w') = <[i := e]> (outboxEvents (w_db w)) /\
       ob_type e = "PaymentCompleted"%string /\ ob_publishedAt e = None /\
       json_get "userId" (ob_payload e) = Some (JStr (o_userId o))).
Proof.
  intros Hwf Hpay. pose proof (orders_keyed _ Hwf) as Hk.
  destruct (complete_Ok UL _ _ _ _ _ _ _ Hk Hpay) as [w' Hc].
  destruct Hpay as [Hkey Ho Hmay Hun _ _ _ _ _].
  exists (new_payment w id k dto o), w'.
  destruct (complete_inv _ _ _ _ Hk Hc) as
    (o2 & ak & a & ek & e & Ho2 & Hpn & _ & _ & _ & Hact & Hagg & _ & _ & _ & Het & _ &
     Heu & Hepub & _ & _ & _ & Hdb).
  simpl in Ho2. simplify_eq. rewrite Hdb. simpl in *.
  split_and!; [|done..|done|done| | |].
  - rewrite (pay_unbound _ _ _ k _ _ _ o); [by rewrite run_await, Hc| |done..].
    rewrite key_ok_spec. cbv [mbind option_bind]. by case_bool_decide.
  - exists (paid_order (w_now w) o). split; [done|]. unfold paid_order.
    split; intros; by case_bool_decide.
  - by exists ak, a.
  - by exists ek, e.
Qed.

End success.
