(* ===== verification/Auth.v ===== *)
(** * Accounts and tokens

    UsersRepository, UsersService and AuthService (src/src/users/, src/src/auth/):
    registration, login, refresh-token rotation, logout and role changes. The JWT library
    and argon2 are parameters, with the laws the service relies on. *)
From S2P Require Import Prelude JsStrings Errors Effects Prisma Schema Orders.

(** ** Libraries *)

(** [JwtService.signAsync] and [verifyAsync]: a token is a string; verification yields the
    claims or throws. Times are in milliseconds, a lifetime is in seconds. *)
Class Jwt := {
  jwt_sign : json -> string -> Z -> Z -> string;
  jwt_verify : string -> string -> Z -> option json;
}.
Class JwtLaws (J : Jwt) : Prop := {
  jwt_verify_sign : forall claims secret ttl t t',
    t <= t' < t + ttl * 1000 - 1000 ->
    exists claims', jwt_verify (jwt_sign claims secret ttl t) secret t' = Some claims' /\
      forall f, f <> "iat"%string -> f <> "exp"%string ->
        json_get f claims' = json_get f claims;
  jwt_claims : forall claims secret ttl t t' claims',
    jwt_verify (jwt_sign claims secret ttl t) secret t' = Some claims' ->
    forall f, f <> "iat"%string -> f <> "exp"%string ->
      json_get f claims' = json_get f claims;
  jwt_verify_stable : forall token secret t t' claims claims',
    jwt_verify token secret t = Some claims -> jwt_verify token secret t' = Some claims' ->
    claims = claims';
  jwt_sign_chars : forall claims secret ttl t,
    jwt_sign claims secret ttl t <> ""%string /\
    space ∉ chars (jwt_sign claims secret ttl t);
  jwt_other_secret : forall claims secret secret' ttl t t', secret <> secret' ->
    jwt_verify (jwt_sign claims secret ttl t) secret' t' = None;
}.

(** [argon2.hash] with the salt of the n-th draw, and [argon2.verify], which throws on a
    text that is no argon2 hash. *)
Class Argon2 := {
  argon2_hash : nat -> string -> string;
  argon2_verify : string -> string -> result bool;
}.
Class Argon2Laws (A : Argon2) : Prop := {
  argon2_verify_hash : forall n p, argon2_verify (argon2_hash n p) p = Ok true;
  argon2_hash_length : forall n p, (String.length (argon2_hash n p) <= 255)%nat;
}.

(** The configuration AuthService reads. *)
Class AuthConfig := {
  JWT_ACCESS_SECRET : string;
  JWT_REFRESH_SECRET : string;
  JWT_ACCESS_TTL_SECONDS : Z;
  JWT_REFRESH_TTL_SECONDS : Z;
}.

(** ** Data *)

Record RegisterDto := mkRegisterDto {
  rd_email : string; rd_password : string; rd_displayName : string }.
Record LoginDto := mkLoginDto { ld_email : string; ld_password : string }.

(** The lengths the decorators of the DTO ask for. *)
Definition RegisterDto_valid (d : RegisterDto) : bool :=
  varchar 320 (rd_email d) && bool_decide (12 <= String.length (rd_password d) <= 128)%nat &&
  bool_decide (2 <= String.length (rd_displayName d) <= 100)%nat.

(** [publicUserSelect]. *)
Record PublicUser := mkPublicUser {
  pu_id : string; pu_email : string; pu_displayName : string; pu_role : Role;
  pu_active : bool; pu_createdAt : Z }.
Definition publicUserSelect (u : User) : PublicUser :=
  mkPublicUser (u_id u) (u_email u) (u_displayName u) (u_role u) (u_active u) (u_createdAt u).

Record TokenUser := mkTokenUser { tu_id : string; tu_email : string; tu_role : Role }.
Record TokenPair := mkTokenPair {
  accessToken : string; refreshToken : string; tokenType : string; expiresIn : Z;
  tp_user : TokenUser }.

Definition Role_name (r : Role) : string :=
  match r with ADMIN => "ADMIN" | MANAGER => "MANAGER" | USER => "USER" end.

(** ** UsersRepository *)
Module UsersRepository.
Section repository.
Context `{Prisma, Uuids}.

Definition create (email displayName passwordHash : string) : tx world PublicUser :=
  id ← new_uuid;
  t ← now;
  user ← db_create Users user_constraints id
    {| u_id := id; u_email := email; u_passwordHash := passwordHash;
       u_displayName := displayName; u_role := USER; u_active := true;
       u_createdAt := t; u_updatedAt := t |};
  mret (publicUserSelect user).

Definition findByEmailForAuth (email : string) : tx world (option User) :=
  db_findFirst Users (fun u => String.eqb (u_email u) email).

Definition findById (id : string) : tx world (option PublicUser) :=
  u ← db_findUnique Users id;
  mret (publicUserSelect <$> u).

Definition list : tx world (list PublicUser) :=
  l ← db_findMany Users (fun _ => true) (fun u v => u_createdAt v <=? u_createdAt u) 0 (Some 100%nat);
  mret (publicUserSelect <$> l).

Definition set_role (role : Role) (t : Z) (u : User) : User := {|
  u_id := u_id u; u_email := u_email u; u_passwordHash := u_passwordHash u;
  u_displayName := u_displayName u; u_role := role; u_active := u_active u;
  u_createdAt := u_createdAt u; u_updatedAt := t |}.

Definition updateRole (id : string) (role : Role) : tx world PublicUser :=
  t ← now;
  user ← db_update Users user_columns id (set_role role t);
  mret (publicUserSelect user).

Definition createRefreshToken (id userId tokenHash : string) (expiresAt : Z) :
    tx world RefreshToken :=
  t ← now;
  db_create RefreshTokens refresh_token_constraints id
    {| rt_id := id; rt_userId := userId; rt_tokenHash := tokenHash;
       rt_expiresAt := expiresAt; rt_revokedAt := None; rt_createdAt := t |}.

(** [include: { user: true }]: the relation is required, so the client refuses to answer a
    token without its user. *)
Definition findRefreshToken (id : string) : tx world (option (RefreshToken * User)) :=
  stored ← db_findUnique RefreshTokens id;
  match stored with
  | None => mret None
  | Some token =>
      user ← db_findUnique Users (rt_userId token);
      match user with
      | Some u => mret (Some (token, u))
      | None => tx_throw (JsError "Inconsistent query result: Field user is required")
      end
  end.

Definition set_revoked (t : Z) (token : RefreshToken) : RefreshToken := {|
  rt_id := rt_id token; rt_userId := rt_userId token; rt_tokenHash := rt_tokenHash token;
  rt_expiresAt := rt_expiresAt token; rt_revokedAt := Some t;
  rt_createdAt := rt_createdAt token |}.

Definition rotateRefreshToken (oldId id userId tokenHash : string) (expiresAt : Z) :
    tx world (RefreshToken * RefreshToken) :=
  t ← now;
  old ← db_update RefreshTokens (fun _ => true) oldId (set_revoked t);
  new ← createRefreshToken id userId tokenHash expiresAt;
  mret (old, new).

Definition revokeRefreshToken (id : string) : tx world nat :=
  t ← now;
  db_updateMany RefreshTokens (fun _ => true)
    (fun token => String.eqb (rt_id token) id && bool_decide (rt_revokedAt token = None))
    (set_revoked t).

End repository.
End UsersRepository.

(** ** UsersService *)
Module UsersService.
Section service.
Context `{Prisma, Uuids}.

Definition list : prog world (list PublicUser) := await UsersRepository.list.

Definition updateRole (id : string) (role : Role) : prog world PublicUser :=
  user ← await (UsersRepository.findById id);
  match user with
  | None => Throw (NotFoundException "User not found")
  | Some _ => await (UsersRepository.updateRole id role)
  end.

End service.
End UsersService.

(** ** AuthService *)
Module AuthService.
Section service.
Context `{Prisma, Uuids, Jwt, Argon2, AuthConfig}.

Definition jwt_signAsync (claims : json) (secret : string) (ttl : Z) : tx world string :=
  tx_gets (fun w => jwt_sign claims secret ttl (w_now w)).
Definition jwt_verifyAsync (token secret : string) : tx world json := fun w =>
  match jwt_verify token secret (w_now w) with
  | Some claims => Ok (claims, w)
  | None => Err (JsError "invalid token")
  end.
Definition argon2_hashAsync (text : string) : tx world string := fun w =>
  Ok (argon2_hash (w_nonce w) text, mkWorld (w_db w) (w_now w) (S (w_nonce w))).
Definition argon2_verifyAsync (hash text : string) : tx world bool := fun w =>
  match argon2_verify hash text with Ok b => Ok (b, w) | Err e => Err e end.

Definition invalid_login : exn := UnauthorizedException "Invalid email or password".
Definition invalid_refresh : exn := UnauthorizedException "Refresh token is invalid or expired".

Definition access_claims (user : TokenUser) : json :=
  JObj [("sub", JStr (tu_id user)); ("email", JStr (tu_email user));
        ("role", JStr (Role_name (tu_role user))); ("type", JStr "access")].
Definition refresh_claims (user : TokenUser) (jti : string) : json :=
  JObj [("sub", JStr (tu_id user)); ("jti", JStr jti); ("type", JStr "refresh")].

Definition issueTokenPair (user : TokenUser) (rotatedTokenId : option string) :
    prog world TokenPair :=
  id ← await new_uuid;
  access ← await (jwt_signAsync (access_claims user) JWT_ACCESS_SECRET JWT_ACCESS_TTL_SECONDS);
  refresh ← await (jwt_signAsync (refresh_claims user id) JWT_REFRESH_SECRET
                     JWT_REFRESH_TTL_SECONDS);
  tokenHash ← await (argon2_hashAsync refresh);
  t ← await now;
  let expiresAt := t + JWT_REFRESH_TTL_SECONDS * 1000 in
  _ ← match truthy rotatedTokenId with
      | Some old =>
          _ ← await (UsersRepository.rotateRefreshToken old id (tu_id user) tokenHash expiresAt);
          Ret tt
      | None =>
          _ ← await (UsersRepository.createRefreshToken id (tu_id user) tokenHash expiresAt);
          Ret tt
      end;
  Ret {| accessToken := access; refreshToken := refresh; tokenType := "Bearer";
         expiresIn := JWT_ACCESS_TTL_SECONDS; tp_user := user |}.

Definition register (dto : RegisterDto) : prog world TokenPair :=
  let email := normalize_email (rd_email dto) in
  found ← await (UsersRepository.findByEmailForAuth email);
  match found with
  | Some _ => Throw (ConflictException "An account already exists for this email")
  | None =>
      passwordHash ← await (argon2_hashAsync (rd_password dto));
      user ← await (UsersRepository.create email (js_trim (rd_displayName dto)) passwordHash);
      issueTokenPair (mkTokenUser (pu_id user) (pu_email user) (pu_role user)) None
  end.

Definition token_user (u : User) : TokenUser := mkTokenUser (u_id u) (u_email u) (u_role u).

Definition login (dto : LoginDto) : prog world TokenPair :=
  found ← await (UsersRepository.findByEmailForAuth (normalize_email (ld_email dto)));
  match found with
  | None => Throw invalid_login
  | Some user =>
      if negb (u_active user) then Throw invalid_login
      else
        verified ← await (argon2_verifyAsync (u_passwordHash user) (ld_password dto));
        if negb verified then Throw invalid_login
        else issueTokenPair (token_user user) None
  end.

Definition verifyRefreshToken (token : string) : prog world json :=
  try_catch
    (payload ← await (jwt_verifyAsync token JWT_REFRESH_SECRET);
     if negb (match json_get "type" payload with
              | Some (JStr s) => String.eqb s "refresh" | _ => false end) ||
        negb (json_truthy (json_get "jti" payload))
     then Throw (JsError "Wrong token type")
     else Ret payload)
    (fun _ => Throw invalid_refresh).

(** A claim used as an identifier: the client refuses one that is not a string. *)
Definition with_id {A : Type} (claim : option json) (f : string -> tx world A) : tx world A :=
  match claim with
  | Some (JStr id) => f id
  | _ => tx_throw (JsError "Argument `id`: Invalid value provided")
  end.

Definition refresh (token : string) : prog world TokenPair :=
  payload ← verifyRefreshToken token;
  found ← await (with_id (json_get "jti" payload) UsersRepository.findRefreshToken);
  match found with
  | None => Throw invalid_refresh
  | Some (stored, user) =>
      if negb (match json_get "sub" payload with
               | Some (JStr s) => String.eqb (rt_userId stored) s | _ => false end) ||
         bool_decide (is_Some (rt_revokedAt stored))
      then Throw invalid_refresh
      else
        t ← await now;
        if (rt_expiresAt stored <=? t) || negb (u_active user) then Throw invalid_refresh
        else
          verified ← await (argon2_verifyAsync (rt_tokenHash stored) token);
          if negb verified then Throw invalid_refresh
          else issueTokenPair (token_user user) (Some (rt_id stored))
  end.

(** The answer of [logout], [{ revoked }]. *)
Definition logout (token : string) : prog world bool :=
  try_catch
    (payload ← verifyRefreshToken token;
     count ← await (with_id (json_get "jti" payload) UsersRepository.revokeRefreshToken);
     Ret (bool_decide (0 < count)%nat))
    (fun _ => Ret false).

End service.
End AuthService.
