(* ===== verification/AuthFlow.v ===== *)
(** * Accounts and tokens under concurrency

    Every operation of AuthService and UsersService is [guarded] by [evolves]: emails stay
    unique and normalised, an account only ever changes its role, a refresh token only ever
    changes by being revoked. *)
From S2P Require Import Prelude JsStrings Errors Effects Prisma Schema Orders Evolution OrderFlow.
From S2P Require Import Auth.

(** ** The invariant and the accounts *)

Section invariant.
Context {Cl : Clients}.

Lemma wf_accounts d us rts :
  wf d -> keyed u_id us -> keyed rt_id rts ->
  (forall k k' u u', us !! k = Some u -> us !! k' = Some u' -> u_email u = u_email u' -> k = k') ->
  (forall k u, us !! k = Some u -> normalized (u_email u)) ->
  (forall k t, rts !! k = Some t -> is_Some (us !! rt_userId t)) ->
  wf (t_set RefreshTokens rts (t_set Users us d)).
Proof.
  intros [Hu Hem Hnem Htok Hm Hi Hord Hpay Hpk Hout Hproc Hdel Hdk Htu Hntf] ? ? ? ? ?.
  split; simpl; try done.
  - intros k o Ho. eapply (order_wf_mono d); [apply table_evolves_refl..|done|by apply Hord].
  - intros k p Hp. eapply (payment_wf_mono d); [apply table_evolves_refl..|by apply Hpay].
Qed.

Lemma set_tokens_id d : t_set RefreshTokens (refreshTokens d) d = d.
Proof. by destruct d. Qed.
Lemma set_users_id d : t_set Users (users d) d = d.
Proof. by destruct d. Qed.

Lemma wf_set_users d us :
  wf d -> keyed u_id us ->
  (forall k k' u u', us !! k = Some u -> us !! k' = Some u' -> u_email u = u_email u' -> k = k') ->
  (forall k u, us !! k = Some u -> normalized (u_email u)) ->
  (forall k, is_Some (users d !! k) -> is_Some (us !! k)) ->
  wf (t_set Users us d).
Proof.
  intros Hwf ????. rewrite <- (set_tokens_id (t_set Users us d)).
  apply wf_accounts; [done|done|apply (wf_tokens _ Hwf)|done|done|].
  intros k t Ht. pose proof (wf_token_users _ Hwf _ _ Ht). eauto.
Qed.

(** Storing an account that no other account shares its email with. *)
Lemma wf_put_user d k u :
  wf d -> u_id u = k -> normalized (u_email u) ->
  (forall k' v, users d !! k' = Some v -> u_email v = u_email u -> k' = k) ->
  wf (t_set Users (<[k := u]> (users d)) d).
Proof.
  intros Hwf Hid Hn Hu. apply wf_set_users; [done|..].
  - intros k' v. rewrite lookup_insert. case_decide; [by intros [= <-]; subst|by apply wf_users].
  - intros k1 k2 v1 v2. rewrite !lookup_insert.
    do 2 case_decide; intros; simplify_eq; try done; [symmetry| |by eapply wf_emails]; by eapply Hu.
  - intros k' v. rewrite lookup_insert. case_decide; [by intros [= <-]|by apply wf_normal_emails].
  - intros k' Hk'. rewrite lookup_insert. by case_decide.
Qed.

Lemma evolves_users w us :
  table_evolves (fun _ => True) user_change (users (w_db w)) us ->
  (wf (w_db w) -> wf (t_set Users us (w_db w))) -> 
  quiet w (with_db (t_set Users us) w).
Proof.
  intros Ht Hwf. split_and!; [|done|simpl; lia]. split; simpl; auto with evolves.
Qed.

Lemma evolves_tokens w ts :
  table_evolves token_fresh token_change (refreshTokens (w_db w)) ts ->
  keyed rt_id ts -> (forall k t, ts !! k = Some t -> is_Some (users (w_db w) !! rt_userId t)) -> 
  quiet w (with_db (t_set RefreshTokens ts) w).
Proof.
  intros Ht Hk Hu. split_and!; [|intros Hwf|simpl; lia].
  - split; simpl; auto with evolves.
  - simpl. rewrite <- (set_users_id (w_db w)). destruct Hwf. by apply wf_accounts.
Qed.

Lemma token_revoked t tok : token_change tok (UsersRepository.set_revoked t tok).
Proof. split; [by eexists|done]. Qed.

End invariant.

Section accounts.
Context {Cl : Clients} {P : Prisma} {U : Uuids} {PL : PrismaLaws P}.

(** ** Repository *)

Lemma findByEmail_inv email w o w' :
  UsersRepository.findByEmailForAuth email w = Ok (o, w') -> w' = w /\
  match o with
  | Some u => u_email u = email /\ exists k, users (w_db w) !! k = Some u
  | None => forall k u, users (w_db w) !! k = Some u -> u_email u <> email
  end.
Proof.
  unfold UsersRepository.findByEmailForAuth. intros [-> H]%db_findFirst_inv. split; [done|].
  destruct o as [u|].
  - by destruct H as [?%String.eqb_eq ?].
  - intros k u Hu He. specialize (H _ _ Hu). by rewrite He, String.eqb_refl in H.
Qed.

Lemma user_create_inv email name hash w pu w' :
  UsersRepository.create email name hash w = Ok (pu, w') ->
  let id := uuid_at (w_nonce w) in
  let u := mkUser id email hash name USER true (w_now w) (w_now w) in
  pu = publicUserSelect u /\ users (w_db w) !! id = None /\
  (forall k v, users (w_db w) !! k = Some v -> u_email v <> email) /\
  w' = mkWorld (t_set Users (<[id := u]> (users (w_db w))) (w_db w)) (w_now w) (S (w_nonce w)).
Proof.
  unfold UsersRepository.create. intros H. tx_inv H.
  match goal with Hu : unique_in _ _ _ _ |- _ => destruct Hu as [Hu Hcl] end.
  split_and!; [done|done| |done].
  intros k v Hv He. specialize (Hcl _ _ Hv). simpl in Hcl. rewrite He in Hcl.
  by rewrite String.eqb_refl in Hcl.
Qed.

Lemma user_create_evolves email name hash w pu w' :
  normalized email -> UsersRepository.create email name hash w = Ok (pu, w') -> quiet w w'.
Proof.
  intros Hn H. apply user_create_inv in H as (_ & Hnone & Hem & ->).
  set (u := mkUser _ email hash name USER true _ _).
  split_and!; [|intros Hwf|simpl; lia]; simpl.
  - split; simpl; auto with evolves.
  - apply wf_put_user; [done..|]. intros k' v Hv He. by destruct (Hem _ _ Hv).
Qed.

Lemma updateRole_evolves id role w pu w' :
  UsersRepository.updateRole id role w = Ok (pu, w') -> quiet w w'.
Proof.
  unfold UsersRepository.updateRole. intros H. tx_inv H. simpl in *.
  match goal with Hu : users _ !! id = Some ?u |- _ => rename u into usr; rename Hu into Hid end.
  apply evolves_users.
  - by eapply table_evolves_change.
  - intros Hwf. apply wf_set_users; [done|..].
    + intros k v. rewrite lookup_insert. case_decide; [|by apply wf_users].
      intros [= <-]. subst. by apply (wf_users _ Hwf k usr).
    + assert (He : forall k v, <[id := UsersRepository.set_role role (w_now s) usr]>
        (users (w_db s)) !! k = Some v -> exists v', users (w_db s) !! k = Some v' /\
          u_email v = u_email v').
      { intros k v. rewrite lookup_insert. case_decide; [|eauto]. intros [= <-]. subst. eauto. }
      intros k k' v v' (x & Hx & ->)%He (x' & Hx' & ->)%He. by eapply wf_emails.
    + intros k v. rewrite lookup_insert. case_decide; [|by apply wf_normal_emails].
      intros [= <-]. by apply (wf_normal_emails _ Hwf id usr).
    + intros k Hk. rewrite lookup_insert. by case_decide.
Qed.

Lemma createRefreshToken_inv id userId hash exp w t w' :
  UsersRepository.createRefreshToken id userId hash exp w = Ok (t, w') ->
  t = mkRefreshToken id userId hash exp None (w_now w) /\
  refreshTokens (w_db w) !! id = None /\ is_Some (users (w_db w) !! userId) /\
  w' = with_db (t_set RefreshTokens (<[id := t]> (refreshTokens (w_db w)))) w.
Proof.
  unfold UsersRepository.createRefreshToken. intros H. tx_inv H.
  match goal with Hu : unique_in _ _ _ _ |- _ => destruct Hu as [Hu _] end.
  split_and!; [done|done| |done].
  match goal with Hf : c_foreign _ _ = true |- _ => simpl in Hf; unfold present in Hf;
    by apply bool_decide_eq_true in Hf end.
Qed.

Lemma createRefreshToken_evolves id userId hash exp w t w' :
  wf (w_db w) ->
  UsersRepository.createRefreshToken id userId hash exp w = Ok (t, w') -> quiet w w'.
Proof.
  intros Hwf (Ht & Hn & Hu & ->)%createRefreshToken_inv. apply evolves_tokens.
  - apply table_evolves_insert; [done|by rewrite Ht].
  - intros k v. rewrite lookup_insert. case_decide; [|by apply (wf_tokens _ Hwf)].
    intros [= <-]. by rewrite Ht.
  - intros k v. rewrite lookup_insert. case_decide; [|by apply (wf_token_users _ Hwf)].
    intros [= <-]. by rewrite Ht.
Qed.

Lemma rotate_inv old id userId hash exp w r w' :
  UsersRepository.rotateRefreshToken old id userId hash exp w = Ok (r, w') ->
  exists tok, refreshTokens (w_db w) !! old = Some tok /\
    refreshTokens (w_db w) !! id = None /\ old <> id /\ is_Some (users (w_db w) !! userId) /\
    w' = with_db (t_set RefreshTokens
      (<[id := mkRefreshToken id userId hash exp None (w_now w)]>
        (<[old := UsersRepository.set_revoked (w_now w) tok]> (refreshTokens (w_db w))))) w.
Proof.
  unfold UsersRepository.rotateRefreshToken.
  intros H. tx_draw H.
  apply tx_bind_Ok in H as (o & s' & Hs & H). apply db_update_inv in Hs as (tok & Ht & -> & _ & ->).
  apply tx_bind_Ok in H as (n & s' & Hs & H).
  apply createRefreshToken_inv in Hs as (-> & Hn & Hu & ->). tx_return H. simpl in *. rewrite lookup_insert in Hn. case_decide; [done|].
  by exists tok.
Qed.

Lemma rotate_evolves old id userId hash exp w r w' :
  wf (w_db w) ->
  UsersRepository.rotateRefreshToken old id userId hash exp w = Ok (r, w') -> quiet w w'.
Proof.
  intros Hwf (tok & Hold & Hn & Hne & Hu & ->)%rotate_inv. apply evolves_tokens.
  - split.
    + intros k t Hk. rewrite lookup_insert_ne by congruence. rewrite lookup_insert.
      case_decide; [|eauto]. eexists; split; [done|]. right. simplify_eq. apply token_revoked.
    + intros k t Hk. rewrite !lookup_insert. repeat case_decide; intros; simplify_eq; done.
  - intros k t. rewrite !lookup_insert. repeat case_decide; intros; simplify_eq; [done| |].
    + by apply (wf_tokens _ Hwf _ tok).
    + by apply (wf_tokens _ Hwf _ t).
  - intros k t. rewrite !lookup_insert. repeat case_decide; intros; simplify_eq; [done| |].
    + by eapply (wf_token_users _ Hwf _ tok).
    + by eapply (wf_token_users _ Hwf _ t).
Qed.

Lemma revoke_inv id w n w' :
  keyed rt_id (refreshTokens (w_db w)) ->
  UsersRepository.revokeRefreshToken id w = Ok (n, w') ->
  w' = with_db (t_set RefreshTokens
    (update_where (fun token => String.eqb (rt_id token) id && bool_decide (rt_revokedAt token = None))
      (UsersRepository.set_revoked (w_now w)) (refreshTokens (w_db w)))) w /\
  n = match refreshTokens (w_db w) !! id with
      | Some token => if bool_decide (rt_revokedAt token = None) then 1%nat else 0%nat
      | None => 0%nat
      end.
Proof.
  intros Hk. unfold UsersRepository.revokeRefreshToken.
  intros H. tx_draw H.
  apply db_updateMany_inv in H as (-> & -> & _). split; [done|]. simpl.
  rewrite (where_rows_key _ _ id).
  - destruct (refreshTokens (w_db s) !! id) as [tok|] eqn:Ht; [|done].
    rewrite (Hk _ _ Ht), String.eqb_refl. simpl. by case_bool_decide.
  - intros k tok Ht [He%String.eqb_eq _]%andb_true_iff. rewrite <- He. symmetry. by apply Hk.
Qed.

Lemma revoke_evolves id w n w' :
  wf (w_db w) -> UsersRepository.revokeRefreshToken id w = Ok (n, w') -> quiet w w'.
Proof.
  intros Hwf [-> _]%revoke_inv; [|apply Hwf]. apply evolves_tokens.
  - apply table_evolves_update. intros k t _ _. apply token_revoked.
  - intros k t. rewrite lookup_update_where. intros (t' & Ht' & ->)%fmap_Some.
    apply (wf_tokens _ Hwf) in Ht'. by destruct (_ && _).
  - intros k t. rewrite lookup_update_where. intros (t' & Ht' & ->)%fmap_Some.
    apply (wf_token_users _ Hwf) in Ht'. by destruct (_ && _).
Qed.

End accounts.

(** ** Services *)

Section services.
Context {Cl : Clients} {P : Prisma} {U : Uuids} {J : Jwt} {A : Argon2} {C : AuthConfig} {PL : PrismaLaws P}.

Lemma hash_read_only s : read_only (AuthService.argon2_hashAsync s).
Proof. intros w a w' H. unfold AuthService.argon2_hashAsync in H. by simplify_eq. Qed.
Lemma argon_verify_read_only h s : read_only (AuthService.argon2_verifyAsync h s).
Proof.
  intros w a w' H. unfold AuthService.argon2_verifyAsync in H.
  destruct (argon2_verify h s); by simplify_eq.
Qed.
Lemma jwt_verify_read_only t s : read_only (AuthService.jwt_verifyAsync t s).
Proof.
  intros w a w' H. unfold AuthService.jwt_verifyAsync in H.
  destruct (jwt_verify t s (w_now w)); by simplify_eq.
Qed.
Lemma findToken_read_only id : read_only (UsersRepository.findRefreshToken id).
Proof.
  apply read_only_bind; [apply gets_read_only|]. intros [tok|]; [|apply ret_read_only].
  apply read_only_bind; [apply gets_read_only|]. intros [u|]; [apply ret_read_only|].
  apply throw_read_only.
Qed.

Lemma issue_guarded user rotated : guarded evolves quiet (AuthService.issueTokenPair user rotated) wf_world.
Proof.
  unfold AuthService.issueTokenPair.
  apply guarded_wf_then; [apply read_only_preserves, new_uuid_read_only|]. intros id.
  apply guarded_wf_then; [apply read_only_preserves, gets_read_only|]. intros access.
  apply guarded_wf_then; [apply read_only_preserves, gets_read_only|]. intros refresh.
  apply guarded_wf_then; [apply read_only_preserves, hash_read_only|]. intros hash.
  apply guarded_wf_then; [apply read_only_preserves, gets_read_only|]. intros t.
  apply guarded_then; [apply quiet_evolves|apply wf_stable| |done].
  destruct (truthy rotated); (apply guarded_wf_then; [|done]); intros w a w'.
  - apply rotate_evolves.
  - apply createRefreshToken_evolves.
Qed.

Lemma register_guarded dto : guarded evolves quiet (AuthService.register dto) wf_world.
Proof.
  unfold AuthService.register.
  apply guarded_wf_then; [apply read_only_preserves, gets_read_only|]. intros [u|]; [done|].
  apply guarded_wf_then; [apply read_only_preserves, hash_read_only|]. intros hash.
  apply guarded_wf_then; [|intros pu; apply issue_guarded].
  intros w a w' _. apply user_create_evolves, normalize_idem.
Qed.

Lemma login_guarded dto : guarded evolves quiet (AuthService.login dto) wf_world.
Proof.
  unfold AuthService.login.
  apply guarded_wf_then; [apply read_only_preserves, gets_read_only|]. intros [u|]; [|done].
  destruct (negb (u_active u)); [done|].
  apply guarded_wf_then; [apply read_only_preserves, argon_verify_read_only|]. intros b.
  destruct (negb b); [done|]. apply issue_guarded.
Qed.

Lemma verify_guarded token : guarded evolves quiet (AuthService.verifyRefreshToken token) wf_world.
Proof.
  unfold AuthService.verifyRefreshToken. apply guarded_try_catch; [apply quiet_evolves|apply wf_stable| |done].
  apply guarded_wf_then; [apply read_only_preserves, jwt_verify_read_only|]. intros c.
  by destruct (_ || _).
Qed.

Lemma with_id_preserves {X : Type} claim (f : string -> tx world X) :
  (forall id, preserves (f id)) -> preserves (AuthService.with_id claim f).
Proof. intros Hf w a w' Hw. destruct claim as [[]|]; try done. by apply Hf. Qed.

Lemma refresh_guarded token : guarded evolves quiet (AuthService.refresh token) wf_world.
Proof.
  unfold AuthService.refresh. apply guarded_then; [apply quiet_evolves|apply wf_stable|apply verify_guarded|].
  intros payload. apply guarded_wf_then.
  { apply with_id_preserves. intros id. apply read_only_preserves, findToken_read_only. }
  intros [[stored user]|]; [|done]. destruct (_ || _); [done|].
  apply guarded_wf_then; [apply read_only_preserves, gets_read_only|]. intros t.
  destruct (_ || _); [done|].
  apply guarded_wf_then; [apply read_only_preserves, argon_verify_read_only|]. intros b.
  destruct (negb b); [done|]. apply issue_guarded.
Qed.

Lemma logout_guarded token : guarded evolves quiet (AuthService.logout token) wf_world.
Proof.
  unfold AuthService.logout. apply guarded_try_catch; [apply quiet_evolves|apply wf_stable| |done].
  apply guarded_then; [apply quiet_evolves|apply wf_stable|apply verify_guarded|]. intros payload.
  apply guarded_wf_then; [|done]. apply with_id_preserves. intros id w n w'. apply revoke_evolves.
Qed.

Lemma user_list_guarded : guarded evolves quiet UsersService.list wf_world.
Proof.
  apply guarded_wf, read_only_preserves, read_only_bind; [apply gets_read_only|].
  intros l. apply ret_read_only.
Qed.

Lemma updateRole_guarded id role : guarded evolves quiet (UsersService.updateRole id role) wf_world.
Proof.
  unfold UsersService.updateRole. apply guarded_wf_then.
  { apply read_only_preserves, read_only_bind; [apply gets_read_only|].
    intros l. apply ret_read_only. }
  intros [pu|]; [|done]. apply guarded_wf. intros w a w' _. apply updateRole_evolves.
Qed.

End services.
