(* ===== verification/AuthSpec.v ===== *)
(** * What accounts and tokens promise

    Login after registration, uniform refusals, single use of a refresh token, revocation
    by logout: in the state the operation leaves and in every later state of the system. *)
From S2P Require Import Prelude JsStrings Errors Effects Prisma Schema Orders OrdersSpec.
From S2P Require Import Evolution OrderFlow Auth AuthFlow.

Section auth.
Context {Cl : Clients} {P : Prisma} {U : Uuids} {J : Jwt} {A : Argon2} {C : AuthConfig}
  {PL : PrismaLaws P} {JL : JwtLaws J} {AL : Argon2Laws A}.
Implicit Types (user : TokenUser) (w : world).

(** ** Issuing a pair of tokens *)

Definition issued_refresh user w : string :=
  jwt_sign (AuthService.refresh_claims user (uuid_at (w_nonce w))) JWT_REFRESH_SECRET
    JWT_REFRESH_TTL_SECONDS (w_now w).
Definition issued_pair user w : TokenPair :=
  mkTokenPair
    (jwt_sign (AuthService.access_claims user) JWT_ACCESS_SECRET JWT_ACCESS_TTL_SECONDS (w_now w))
    (issued_refresh user w) "Bearer" JWT_ACCESS_TTL_SECONDS user.
Definition issued_token user w : RefreshToken :=
  mkRefreshToken (uuid_at (w_nonce w)) (tu_id user)
    (argon2_hash (S (w_nonce w)) (issued_refresh user w))
    (w_now w + JWT_REFRESH_TTL_SECONDS * 1000) None (w_now w).

(** The tokens table after issuing a pair, the old token revoked if one is rotated. *)
Definition revoke_old (rotated : option string) w : gmap string RefreshToken :=
  match rotated with
  | Some old => alter (UsersRepository.set_revoked (w_now w)) old (refreshTokens (w_db w))
  | None => refreshTokens (w_db w)
  end.
Definition issued_tokens user rotated w : gmap string RefreshToken :=
  <[uuid_at (w_nonce w) := issued_token user w]> (revoke_old rotated w).
Definition issued_world user rotated w : world :=
  mkWorld (t_set RefreshTokens (issued_tokens user rotated w) (w_db w)) (w_now w)
    (S (S (w_nonce w))).

Lemma alter_found {R : Type} (f : R -> R) k (t : gmap string R) r :
  t !! k = Some r -> alter f k t = <[k := f r]> t.
Proof.
  intros Hk. apply map_eq. intros i. destruct (decide (i = k)) as [->|Hne].
  - by rewrite lookup_alter_eq, lookup_insert_eq, Hk.
  - by rewrite lookup_alter_ne, lookup_insert_ne by done.
Qed.

(** The two ways issuing can end. *)
Lemma issue_cases user rotated w :
  run (AuthService.issueTokenPair user rotated) w =
    (Ok (issued_pair user w), issued_world user (truthy rotated) w) /\
  refreshTokens (w_db w) !! uuid_at (w_nonce w) = None /\ is_Some (users (w_db w) !! tu_id user) /\
  (forall old, truthy rotated = Some old ->
     is_Some (refreshTokens (w_db w) !! old) /\ old <> uuid_at (w_nonce w))
  \/ exists e, run (AuthService.issueTokenPair user rotated) w =
    (Err e, mkWorld (w_db w) (w_now w) (S (S (w_nonce w)))).
Proof.
  unfold AuthService.issueTokenPair.
  erewrite run_await_then by done. erewrite run_await_then by done.
  erewrite run_await_then by done. erewrite run_await_then by done.
  erewrite run_await_then by done. cbv zeta. rewrite run_bind.
  set (w2 := mkWorld (w_db w) (w_now w) (S (S (w_nonce w)))).
  destruct (truthy rotated) as [old|].
  - simpl. destruct (UsersRepository.rotateRefreshToken _ _ _ _ _ _) as [[r s]|e] eqn:Hr;
      [left|right; by exists e].
    apply rotate_inv in Hr as (tok & Hold & Hn & Hne & Hu & ->). simpl in *.
    split_and!; [|done|done|intros ? [= <-]; eauto].
    unfold issued_world, issued_tokens, revoke_old. by rewrite (alter_found _ _ _ _ Hold).
  - simpl. destruct (UsersRepository.createRefreshToken _ _ _ _ _) as [[r s]|e] eqn:Hr;
      [left|right; by exists e].
    apply createRefreshToken_inv in Hr as (-> & Hn & Hu & ->). by split_and!.
Qed.

Lemma issue_Ok user rotated w :
  refreshTokens (w_db w) !! uuid_at (w_nonce w) = None -> is_Some (users (w_db w) !! tu_id user) ->
  (forall old, truthy rotated = Some old ->
     is_Some (refreshTokens (w_db w) !! old) /\ old <> uuid_at (w_nonce w)) ->
  run (AuthService.issueTokenPair user rotated) w =
    (Ok (issued_pair user w), issued_world user (truthy rotated) w).
Proof.
  intros Hn Hu Hold.
  unfold AuthService.issueTokenPair.
  erewrite run_await_then by done. erewrite run_await_then by done.
  erewrite run_await_then by done. erewrite run_await_then by done.
  erewrite run_await_then by done. cbv zeta. rewrite run_bind.
  assert (Hcreate : forall w1, refreshTokens (w_db w1) !! uuid_at (w_nonce w) = None ->
    users (w_db w1) = users (w_db w) -> w_now w1 = w_now w ->
    UsersRepository.createRefreshToken (uuid_at (w_nonce w)) (tu_id user)
      (argon2_hash (S (w_nonce w)) (issued_refresh user w))
      (w_now w + JWT_REFRESH_TTL_SECONDS * 1000) w1 =
    Ok (issued_token user w, with_db (t_set RefreshTokens
      (<[uuid_at (w_nonce w) := issued_token user w]> (refreshTokens (w_db w1)))) w1)).
  { intros w1 Hn1 Hu1 Hnow. unfold UsersRepository.createRefreshToken.
    erewrite tx_bind_eq by done. rewrite db_create_Ok; [by rewrite Hnow| | |].
    - by split.
    - apply bool_decide_eq_true. by rewrite Hu1.
    - apply bool_decide_eq_true. apply argon2_hash_length. }
  destruct (truthy rotated) as [old|] eqn:Hr; rewrite run_bind, run_await.
  - destruct (Hold _ eq_refl) as [[tok Htok] Hne].
    unfold UsersRepository.rotateRefreshToken. erewrite tx_bind_eq by done.
    erewrite tx_bind_eq by (by apply db_update_Ok with (r := tok)).
    erewrite tx_bind_eq.
    2: { apply Hcreate; [|done|done]. simpl. by rewrite lookup_insert_ne. }
    simpl. unfold issued_world, issued_tokens, revoke_old. by rewrite (alter_found _ _ _ _ Htok).
  - erewrite Hcreate by done. done.
Qed.


(** ** Accounts in later states *)

Lemma rtc_user w w' k u :
  users (w_db w) !! k = Some u -> rtc evolves w w' ->
  exists u', users (w_db w') !! k = Some u' /\ u_id u' = u_id u /\ u_email u' = u_email u /\
    u_passwordHash u' = u_passwordHash u /\ u_active u' = u_active u.
Proof.
  intros Hu H. revert u Hu. induction H as [|w1 w2 w3 (HE & _) _ IH]; intros u Hu; [by exists u|].
  destruct (table_evolves_fwd _ _ _ _ _ _ (te_users _ _ _ HE) Hu) as (u' & Hu' & Hc).
  destruct (IH _ Hu') as (u2 & ? & ? & ? & ? & ?). exists u2.
  destruct Hc as [->|(? & ? & ? & ? & ? & ?)]; split_and!; congruence.
Qed.

Lemma rtc_revoked w w' k t :
  refreshTokens (w_db w) !! k = Some t -> is_Some (rt_revokedAt t) -> rtc evolves w w' ->
  exists t', refreshTokens (w_db w') !! k = Some t' /\ is_Some (rt_revokedAt t').
Proof.
  intros Ht Hr H. revert t Ht Hr.
  induction H as [|w1 w2 w3 (HE & _) _ IH]; intros t Ht Hr; [by exists t|].
  destruct (table_evolves_fwd _ _ _ _ _ _ (te_tokens _ _ _ HE) Ht) as (t' & Ht' & Hc).
  apply (IH _ Ht'). by destruct Hc as [->|(? & _)].
Qed.

Lemma rtc_token w w' k tok :
  refreshTokens (w_db w) !! k = Some tok -> rtc evolves w w' ->
  exists tok', refreshTokens (w_db w') !! k = Some tok' /\
    rt_userId tok' = rt_userId tok /\ rt_tokenHash tok' = rt_tokenHash tok /\
    rt_expiresAt tok' = rt_expiresAt tok.
Proof.
  intros Ht H. revert tok Ht. induction H as [|w1 w2 w3 (HE & _) _ IH]; intros tok Ht; [by exists tok|].
  destruct (table_evolves_fwd _ _ _ _ _ _ (te_tokens _ _ _ HE) Ht) as (t' & Ht' & Hc).
  destruct (IH _ Ht') as (t2 & ? & ? & ? & ?). exists t2.
  destruct Hc as [->|(_ & ? & ? & ? & ? & ?)]; split_and!; congruence.
Qed.

(** The lookup of an email, when one account has it. *)
Lemma findByEmail_found w k u :
  wf (w_db w) -> users (w_db w) !! k = Some u ->
  UsersRepository.findByEmailForAuth (u_email u) w = Ok (Some u, w).
Proof.
  intros Hwf Hu.
  destruct (UsersRepository.findByEmailForAuth _ _) as [[r w']|e] eqn:H; [|done].
  apply findByEmail_inv in H as [-> H]. destruct r as [v|].
  - destruct H as (He & k' & Hv). assert (k' = k) as -> by (by eapply wf_emails). by simplify_eq.
  - by destruct (H _ _ Hu).
Qed.

(** ** Login *)

Lemma register_inv dto w pair w' :
  run (AuthService.register dto) w = (Ok pair, w') ->
  exists u, users (w_db w') !! u_id u = Some u /\ u_email u = normalize_email (rd_email dto) /\
    u_active u = true /\ u_role u = USER /\
    u_passwordHash u = argon2_hash (w_nonce w) (rd_password dto) /\
    tp_user pair = AuthService.token_user u /\
    (forall k v, users (w_db w) !! k = Some v -> u_email v <> normalize_email (rd_email dto)).
Proof.
  unfold AuthService.register. cbv zeta. rewrite run_bind, run_await.
  destruct (UsersRepository.findByEmailForAuth _ w) as [[o s]|e] eqn:Hf; [|done].
  apply findByEmail_inv in Hf as [-> Hno]. destruct o as [u|]; [done|].
  erewrite run_await_then by done. rewrite run_bind, run_await.
  destruct (UsersRepository.create _ _ _ _) as [[pu s]|e] eqn:Hc; [|done].
  apply user_create_inv in Hc as (-> & Hn & _ & ->). cbv beta iota.
  match goal with |- run (AuthService.issueTokenPair ?user ?r) ?s = _ -> _ =>
    destruct (issue_cases user r s) as [(-> & _)|[e ->]]; [|done] end.
  intros [= <- <-]. simpl. eexists (mkUser _ _ _ _ USER true _ _). simpl.
  split_and!; [apply lookup_insert_eq|done..].
Qed.

(** Login, for an active account whose hash the password verifies. *)
Lemma login_Ok w k u ld :
  wf (w_db w) -> users (w_db w) !! k = Some u -> u_email u = normalize_email (ld_email ld) ->
  u_active u = true -> argon2_verify (u_passwordHash u) (ld_password ld) = Ok true ->
  refreshTokens (w_db w) !! uuid_at (w_nonce w) = None ->
  run (AuthService.login ld) w =
    (Ok (issued_pair (AuthService.token_user u) w),
     issued_world (AuthService.token_user u) None w).
Proof.
  intros Hwf Hu He Ha Hv Hfree. unfold AuthService.login. rewrite <- He.
  erewrite run_await_then by (by eapply findByEmail_found). cbv beta iota. rewrite Ha. cbn [negb].
  erewrite run_await_then by (unfold AuthService.argon2_verifyAsync; by rewrite Hv).
  apply issue_Ok; [done| |done]. simpl. rewrite (wf_users _ Hwf _ _ Hu), Hu. by eexists.
Qed.

(** An account can be used: after a registration, in every later state of the system, a
    login with the same password and any spelling of the email that differs by case or
    surrounding blanks succeeds, for the registered account. *)
Theorem register_then_login dto pair w w1 w2 ld :
  wf (w_db w) -> run (AuthService.register dto) w = (Ok pair, w1) -> rtc evolves w1 w2 ->
  normalize_email (ld_email ld) = normalize_email (rd_email dto) ->
  ld_password ld = rd_password dto ->
  refreshTokens (w_db w2) !! uuid_at (w_nonce w2) = None ->
  exists pair' w3, run (AuthService.login ld) w2 = (Ok pair', w3) /\
    tu_id (tp_user pair') = tu_id (tp_user pair) /\
    tu_email (tp_user pair') = normalize_email (rd_email dto).
Proof.
  intros Hwf Hreg HE Hem Hpw Hfree.
  assert (Hwf2 : wf (w_db w2)).
  { eapply rtc_wf; [|done]. eapply rtc_wf; [exact Hwf|].
    by eapply run_evolves; [apply (register_guarded dto)| |]. }
  destruct (register_inv _ _ _ _ Hreg) as (u & Hu & He & Ha & _ & Hh & -> & _).
  destruct (rtc_user _ _ _ _ Hu HE) as (u' & Hu' & Hid' & He' & Hh' & Ha').
  exists (issued_pair (AuthService.token_user u') w2). eexists. split_and!; [|simpl; congruence..].
  eapply login_Ok; [done|exact Hu'| |congruence| |done].
  - rewrite Hem. congruence.
  - by rewrite Hh', Hh, Hpw, argon2_verify_hash.
Qed.

(** Registration never duplicates an account: once an email is registered, a later
    registration of it, in any spelling, is a 409 and stores nothing. *)
Lemma register_twice dto dto' pair w w1 w2 :
  wf (w_db w) -> run (AuthService.register dto) w = (Ok pair, w1) -> rtc evolves w1 w2 ->
  normalize_email (rd_email dto') = normalize_email (rd_email dto) ->
  run (AuthService.register dto') w2 =
    (Err (ConflictException "An account already exists for this email"), w2).
Proof.
  intros Hwf Hreg HE Hem.
  assert (Hwf2 : wf (w_db w2)).
  { eapply rtc_wf; [|done]. eapply rtc_wf; [exact Hwf|].
    by eapply run_evolves; [apply (register_guarded dto)| |]. }
  destruct (register_inv _ _ _ _ Hreg) as (u & Hu & He & _).
  destruct (rtc_user _ _ _ _ Hu HE) as (u' & Hu' & _ & He' & _).
  unfold AuthService.register. cbv zeta. rewrite Hem, <- He, <- He'.
  by erewrite run_await_then by (by eapply findByEmail_found).
Qed.

(** Login gives nothing away: an unknown email, a disabled account and a wrong password
    get the very same answer, and nothing is stored. *)
Theorem login_uniform ld w :
  wf (w_db w) ->
  (forall k u, users (w_db w) !! k = Some u -> u_email u = normalize_email (ld_email ld) ->
     u_active u = false \/ argon2_verify (u_passwordHash u) (ld_password ld) = Ok false) ->
  run (AuthService.login ld) w = (Err (UnauthorizedException "Invalid email or password"), w).
Proof.
  intros Hwf Hbad. unfold AuthService.login. rewrite run_bind, run_await.
  destruct (UsersRepository.findByEmailForAuth _ w) as [[o s]|e] eqn:Hf; [|done].
  apply findByEmail_inv in Hf as [-> Ho]. destruct o as [u|]; [|done].
  destruct Ho as (He & k & Hu). destruct (u_active u) eqn:Ha; [|done]. cbn [negb].
  destruct (Hbad _ _ Hu He) as [Hf|Hv]; [congruence|].
  erewrite run_await_then.
  2: { unfold AuthService.argon2_verifyAsync. by rewrite Hv. }
  done.
Qed.

End auth.

Section refresh.
Context {Cl : Clients} {P : Prisma} {U : Uuids} {J : Jwt} {A : Argon2} {C : AuthConfig}
  {PL : PrismaLaws P} {JL : JwtLaws J} {AL : Argon2Laws A}.
Implicit Types (user : TokenUser) (w : world) (token : string).

(** What a valid refresh token names: the identifier of its record, and its user. *)
Definition names_token (token id : string) (t : Z) : Prop :=
  exists claims, jwt_verify token JWT_REFRESH_SECRET t = Some claims /\
    json_get "type" claims = Some (JStr "refresh") /\
    json_get "jti" claims = Some (JStr id) /\ id <> ""%string.

Definition is_refresh (claims : json) : bool :=
  match json_get "type" claims with Some (JStr s) => String.eqb s "refresh" | _ => false end &&
  json_truthy (json_get "jti" claims).

Lemma verify_run token w :
  run (AuthService.verifyRefreshToken token) w =
  (match jwt_verify token JWT_REFRESH_SECRET (w_now w) with
   | Some claims => if is_refresh claims then Ok claims else Err AuthService.invalid_refresh
   | None => Err AuthService.invalid_refresh
   end, w).
Proof.
  unfold AuthService.verifyRefreshToken. rewrite run_try_catch, run_bind, run_await.
  unfold AuthService.jwt_verifyAsync.
  destruct (jwt_verify _ _ _) as [claims|]; [|done]. unfold is_refresh.
  by destruct (match json_get "type" claims with Some (JStr s) => _ | _ => _ end),
    (json_truthy (json_get "jti" claims)).
Qed.

Lemma findToken_none id w :
  refreshTokens (w_db w) !! id = None ->
  UsersRepository.findRefreshToken id w = Ok (None, w).
Proof.
  intros Ht. unfold UsersRepository.findRefreshToken.
  erewrite tx_bind_eq by apply db_findUnique_eq. simpl. by rewrite Ht.
Qed.

Lemma findToken_some id w tok u :
  refreshTokens (w_db w) !! id = Some tok -> users (w_db w) !! rt_userId tok = Some u ->
  UsersRepository.findRefreshToken id w = Ok (Some (tok, u), w).
Proof.
  intros Ht Hu. unfold UsersRepository.findRefreshToken.
  erewrite tx_bind_eq by apply db_findUnique_eq. simpl. rewrite Ht.
  erewrite tx_bind_eq by apply db_findUnique_eq. simpl. by rewrite Hu.
Qed.

(** A refresh either issues a pair for the user of a live token, or changes nothing in the
    database. *)
Lemma refresh_cases token w :
  wf (w_db w) ->
  (exists id tok u, names_token token id (w_now w) /\
     refreshTokens (w_db w) !! id = Some tok /\ rt_revokedAt tok = None /\
     w_now w < rt_expiresAt tok /\
     users (w_db w) !! rt_userId tok = Some u /\ u_active u = true /\
     argon2_verify (rt_tokenHash tok) token = Ok true /\
     run (AuthService.refresh token) w =
       run (AuthService.issueTokenPair (AuthService.token_user u) (Some id)) w) \/
  exists e, run (AuthService.refresh token) w = (Err e, w).
Proof.
  intros Hwf. unfold AuthService.refresh. rewrite run_bind, verify_run.
  destruct (jwt_verify _ _ _) as [claims|] eqn:Hv; [|right; by eexists].
  destruct (is_refresh claims) eqn:Hr; [|right; by eexists].
  rewrite run_bind, run_await.
  apply andb_true_iff in Hr as [Hty Hj].
  destruct (json_get "jti" claims) as [[| | |id| |]|] eqn:Hjti; try (right; by eexists).
  unfold AuthService.with_id.
  destruct (refreshTokens (w_db w) !! id) as [tok|] eqn:Ht;
    [|right; rewrite (findToken_none _ _ Ht); by eexists].
  destruct (wf_token_users _ Hwf _ _ Ht) as [u Hu].
  rewrite (findToken_some _ _ _ _ Ht Hu). cbv beta iota.
  destruct (negb _ || _) eqn:Hc1; [right; by eexists|].
  erewrite run_await_then by done.
  destruct (_ || negb (u_active u)) eqn:Hc2; [right; by eexists|].
  rewrite run_bind, run_await. unfold AuthService.argon2_verifyAsync.
  destruct (argon2_verify (rt_tokenHash tok) token) as [[|]|e] eqn:Ha; cycle 1.
  { right. by eexists. } { right. by eexists. }
  left. apply orb_false_iff in Hc1 as [_ Hrev]. apply orb_false_iff in Hc2 as [Hexp Hact].
  exists id, tok, u. split_and!; try done.
  - exists claims. split_and!; [done| |done|by intros ->].
    destruct (json_get "type" claims) as [[]|]; try done. by apply String.eqb_eq in Hty as ->.
  - apply bool_decide_eq_false in Hrev. by apply eq_None_not_Some.
  - lia.
  - by apply negb_false_iff.
  - cbn [negb]. by rewrite (wf_tokens _ Hwf _ _ Ht).
Qed.

(** A token whose record is revoked is refused. *)
Lemma refresh_dead token id w tok :
  wf (w_db w) ->
  (forall claims, jwt_verify token JWT_REFRESH_SECRET (w_now w) = Some claims ->
     json_get "jti" claims = Some (JStr id)) ->
  refreshTokens (w_db w) !! id = Some tok -> is_Some (rt_revokedAt tok) ->
  run (AuthService.refresh token) w = (Err AuthService.invalid_refresh, w).
Proof.
  intros Hwf Hid Ht Hrev. unfold AuthService.refresh. rewrite run_bind, verify_run.
  destruct (jwt_verify _ _ _) as [claims|]; [|done].
  destruct (is_refresh claims); [|done].
  rewrite run_bind, run_await, (Hid _ eq_refl). unfold AuthService.with_id.
  destruct (wf_token_users _ Hwf _ _ Ht) as [u Hu].
  rewrite (findToken_some _ _ _ _ Ht Hu). cbv beta iota.
  rewrite (bool_decide_eq_true_2 _ Hrev), orb_true_r. done.
Qed.

Lemma named_jti token id t t' claims :
  names_token token id t -> jwt_verify token JWT_REFRESH_SECRET t' = Some claims ->
  json_get "jti" claims = Some (JStr id).
Proof.
  intros (c & Hc & _ & Hj & _) Hv. by rewrite <- (jwt_verify_stable _ _ _ _ _ _ Hc Hv).
Qed.

(** C31: A refresh token works once: a successful refresh revokes the token's record and
    stores a new live one for the same user, and the same token is refused with a 401,
    storing nothing, in every later state of the system. *)
Theorem refresh_single_use token w pair w1 w2 :
  wf (w_db w) -> run (AuthService.refresh token) w = (Ok pair, w1) -> rtc evolves w1 w2 ->
  (exists id tok new, names_token token id (w_now w) /\
     refreshTokens (w_db w1) !! id = Some tok /\ is_Some (rt_revokedAt tok) /\
     refreshTokens (w_db w1) !! rt_id new = Some new /\ rt_revokedAt new = None /\
     rt_userId new = rt_userId tok /\ tu_id (tp_user pair) = rt_userId tok) /\
  run (AuthService.refresh token) w2 =
    (Err (UnauthorizedException "Refresh token is invalid or expired"), w2).
Proof.
  intros Hwf H HE.
  destruct (refresh_cases token w Hwf) as
    [(id & tok & u & Hn & Ht & _ & _ & Hu & _ & _ & Hrun)|[e He]]; [|by rewrite He in H].
  assert (Hid : truthy (Some id) = Some id).
  { destruct Hn as (c & _ & _ & _ & Hne). by apply truthy_nonempty. }
  rewrite Hrun in H. destruct (issue_cases (AuthService.token_user u) (Some id) w) as
    [(Hi & Hfresh & _ & Hold)|[e He]]; [|by rewrite He in H].
  rewrite Hid in *. destruct (Hold _ eq_refl) as [_ Hne].
  rewrite Hi in H. injection H as <- <-.
  assert (Huid : u_id u = rt_userId tok) by (by apply (wf_users _ Hwf)).
  assert (Hrev : refreshTokens (w_db (issued_world (AuthService.token_user u) (Some id) w)) !! id =
    Some (UsersRepository.set_revoked (w_now w) tok)).
  { simpl. unfold issued_tokens, revoke_old.
    rewrite lookup_insert_ne by done. by rewrite lookup_alter_eq, Ht. }
  split.
  - exists id, (UsersRepository.set_revoked (w_now w) tok),
      (issued_token (AuthService.token_user u) w).
    split_and!; [done|done|by eexists| |done|done|done].
    simpl. unfold issued_tokens. by rewrite lookup_insert_eq.
  - destruct (rtc_revoked _ _ _ _ Hrev ltac:(by eexists) HE) as (tok' & Ht' & Hr').
    eapply refresh_dead; [|intros; by eapply named_jti|exact Ht'|exact Hr'].
    eapply rtc_wf; [|exact HE]. eapply rtc_wf; [exact Hwf|].
    eapply run_evolves; [apply (refresh_guarded token)|exact Hwf|]. by rewrite Hrun, Hi.
Qed.

(** An issued refresh token is good until it expires, is revoked or its user is
    disabled: the token of a pair issued at registration, login or refresh is accepted,
    and rotated, in every later state where its record is still live. *)
Theorem issued_token_refreshes user w w2 rotated pair w1 :
  wf (w_db w) ->
  run (AuthService.issueTokenPair user rotated) w = (Ok pair, w1) -> rtc evolves w1 w2 ->
  uuid_at (w_nonce w) <> ""%string ->
  w_now w <= w_now w2 < w_now w + JWT_REFRESH_TTL_SECONDS * 1000 - 1000 ->
  (forall tok, refreshTokens (w_db w2) !! uuid_at (w_nonce w) = Some tok -> rt_revokedAt tok = None) ->
  (forall u, users (w_db w2) !! tu_id user = Some u -> u_active u = true) ->
  refreshTokens (w_db w2) !! uuid_at (w_nonce w2) = None ->
  exists pair' w3, run (AuthService.refresh (refreshToken pair)) w2 = (Ok pair', w3) /\
    tu_id (tp_user pair') = tu_id user.
Proof.
  intros Hwf H HE Hne Hnow Hlive Hact Hfresh.
  assert (Hwf1 : wf (w_db w1)).
  { eapply rtc_wf; [exact Hwf|]. by eapply run_evolves; [apply (issue_guarded user rotated)| |]. }
  assert (Hwf2 : wf (w_db w2)) by (by eapply rtc_wf).
  destruct (issue_cases user rotated w) as [(Hi & _ & _ & _)|[e He]]; [|by rewrite He in H].
  rewrite Hi in H. injection H as <- <-.
  assert (Ht : refreshTokens (w_db (issued_world user (truthy rotated) w)) !! uuid_at (w_nonce w) =
    Some (issued_token user w)) by (simpl; unfold issued_tokens; by rewrite lookup_insert_eq).
  assert (Ht2 : exists tok, refreshTokens (w_db w2) !! uuid_at (w_nonce w) = Some tok /\
    rt_userId tok = tu_id user /\ rt_tokenHash tok = rt_tokenHash (issued_token user w) /\
    rt_expiresAt tok = rt_expiresAt (issued_token user w)).
  { destruct (rtc_token _ _ _ _ Ht HE) as (tok & ? & ? & ? & ?). by exists tok. }
  destruct Ht2 as (tok & Htok & Huid & Hhash & Hexp).
  destruct (wf_token_users _ Hwf2 _ _ Htok) as [u Hu]. rewrite Huid in Hu.
  assert (Huser : u_id u = tu_id user) by (by apply (wf_users _ Hwf2)).
  destruct (jwt_verify_sign (AuthService.refresh_claims user (uuid_at (w_nonce w)))
    JWT_REFRESH_SECRET JWT_REFRESH_TTL_SECONDS (w_now w) (w_now w2)) as (c & Hc & Hf); [lia|].
  assert (Hty : json_get "type" c = Some (JStr "refresh")) by (by rewrite Hf).
  assert (Hj : json_get "jti" c = Some (JStr (uuid_at (w_nonce w)))) by (by rewrite Hf).
  assert (Hs : json_get "sub" c = Some (JStr (tu_id user))) by (by rewrite Hf).
  assert (Hr : is_refresh c = true).
  { unfold is_refresh. rewrite Hty, Hj. by destruct (uuid_at (w_nonce w)). }
  eexists _, _. split.
  - unfold AuthService.refresh. rewrite run_bind, verify_run. cbn [refreshToken issued_pair].
    unfold issued_refresh. rewrite Hc, Hr. rewrite run_bind, run_await, Hj.
    unfold AuthService.with_id.
    erewrite findToken_some by (done || by rewrite Huid). cbv beta iota.
    rewrite Hs, Huid, String.eqb_refl.
    rewrite bool_decide_eq_false_2 by (rewrite (Hlive _ Htok); by intros [? ?]).
    cbn [negb orb]. erewrite run_await_then by done.
    rewrite Hexp, (Hact _ Hu). simpl rt_expiresAt.
    replace (_ <=? w_now w2) with false by (symmetry; apply Z.leb_gt; lia).
    cbn [negb orb]. erewrite run_await_then.
    2: { unfold AuthService.argon2_verifyAsync. rewrite Hhash. simpl rt_tokenHash.
         unfold issued_refresh. by rewrite argon2_verify_hash. }
    cbn [negb]. apply issue_Ok; [done| |].
    + simpl. by rewrite Huser, Hu.
    + rewrite (wf_tokens _ Hwf2 _ _ Htok), truthy_nonempty by done.
      intros old [= <-]. split; [by rewrite Htok|]. intros Heq. rewrite Heq in Htok. congruence.
  - done.
Qed.

End refresh.

Section logout.
Context {Cl : Clients} {P : Prisma} {U : Uuids} {J : Jwt} {A : Argon2} {C : AuthConfig}
  {PL : PrismaLaws P} {JL : JwtLaws J} {AL : Argon2Laws A}.

Lemma revoke_run id w :
  exists n w', UsersRepository.revokeRefreshToken id w = Ok (n, w').
Proof.
  unfold UsersRepository.revokeRefreshToken. erewrite tx_bind_eq by done.
  rewrite db_updateMany_Ok by done. by eexists _, _.
Qed.

Lemma logout_named token id w :
  wf (w_db w) -> names_token token id (w_now w) ->
  exists w', run (AuthService.logout token) w =
    (Ok (match refreshTokens (w_db w) !! id with
         | Some tok => bool_decide (rt_revokedAt tok = None) | None => false end), w') /\
    (forall tok, refreshTokens (w_db w) !! id = Some tok ->
       exists tok', refreshTokens (w_db w') !! id = Some tok' /\ is_Some (rt_revokedAt tok')).
Proof.
  intros Hwf (c & Hc & Hty & Hj & Hne). unfold AuthService.logout.
  destruct (revoke_run id w) as (n & w' & Hrev). exists w'.
  destruct (revoke_inv _ _ _ _ (wf_tokens _ Hwf) Hrev) as [Hw' Hn].
  split.
  - rewrite run_try_catch, run_bind, verify_run, Hc.
    assert (is_refresh c = true) as ->.
    { unfold is_refresh. rewrite Hty, Hj. by destruct id. }
    rewrite run_bind, run_await, Hj. unfold AuthService.with_id. rewrite Hrev, Hn. simpl.
    destruct (refreshTokens (w_db w) !! id) as [tok|]; [|done]. by case_bool_decide.
  - intros tok Ht. rewrite Hw'. simpl. rewrite lookup_update_where, Ht. simpl.
    rewrite (wf_tokens _ Hwf _ _ Ht), String.eqb_refl. simpl.
    eexists; split; [done|]. case_bool_decide as Hr; [by eexists|].
    by destruct (rt_revokedAt tok); [eexists|].
Qed.

Lemma logout_total token w : exists b w', run (AuthService.logout token) w = (Ok b, w').
Proof.
  unfold AuthService.logout. rewrite run_try_catch.
  destruct (run (_ ≫= _) w) as [[b|e] w']; simpl; eauto.
Qed.

(** Logout always answers, whatever text it is given, and revokes for good: it says
    whether the token was live, and a token it has revoked is neither refreshed nor
    revoked again in any later state of the system. *)
Theorem logout_revokes token w :
  wf (w_db w) ->
  (exists b w', run (AuthService.logout token) w = (Ok b, w')) /\
  (forall w1, run (AuthService.logout token) w = (Ok true, w1) ->
   forall w2, rtc evolves w1 w2 ->
   run (AuthService.refresh token) w2 = (Err AuthService.invalid_refresh, w2) /\
   exists w3, run (AuthService.logout token) w2 = (Ok false, w3)).
Proof.
  intros Hwf. split; [apply logout_total|]. intros w1 Hout w2 HE.
  assert (Hwf2 : wf (w_db w2)).
  { eapply rtc_wf; [|exact HE]. eapply rtc_wf; [exact Hwf|].
    by eapply run_evolves; [apply (logout_guarded token)| |]. }
  assert (Hnamed : exists id, names_token token id (w_now w)).
  { unfold AuthService.logout in Hout. rewrite run_try_catch, run_bind, verify_run in Hout.
    destruct (jwt_verify token JWT_REFRESH_SECRET (w_now w)) as [c|] eqn:Hv; [|done].
    destruct (is_refresh c) eqn:Hr; [|done].
    apply andb_true_iff in Hr as [Hty Hj].
    rewrite run_bind, run_await in Hout.
    destruct (json_get "jti" c) as [[| | |id| |]|] eqn:Hjti; try done.
    exists id, c. split_and!; [done| |done|by intros ->].
    destruct (json_get "type" c) as [[]|]; try done. by apply String.eqb_eq in Hty as ->. }
  destruct Hnamed as [id Hid].
  destruct (logout_named _ _ _ Hwf Hid) as (w' & Hrun & Hrev). rewrite Hout in Hrun.
  destruct (refreshTokens (w_db w) !! id) as [tok|] eqn:Ht; [|done].
  injection Hrun as Hlive <-. destruct (Hrev _ eq_refl) as (tok1 & Ht1 & Hr1).
  destruct (rtc_revoked _ _ _ _ Ht1 Hr1 HE) as (tok2 & Ht2 & Hr2). split.
  - eapply refresh_dead; [done| |exact Ht2|done]. intros; by eapply named_jti.
  - destruct (logout_total token w2) as (b & w3 & Hl). exists w3. rewrite Hl.
    destruct b; [|done]. exfalso.
    unfold AuthService.logout in Hl. rewrite run_try_catch, run_bind, verify_run in Hl.
    destruct (jwt_verify token JWT_REFRESH_SECRET (w_now w2)) as [c|] eqn:Hv; [|done].
    destruct (is_refresh c); [|done].
    rewrite run_bind, run_await, (named_jti _ _ _ _ _ Hid Hv) in Hl.
    unfold AuthService.with_id in Hl.
    destruct (revoke_run id w2) as (n & w4 & Hrv). rewrite Hrv in Hl.
    apply revoke_inv in Hrv as [_ Hn]; [|apply (wf_tokens _ Hwf2)].
    rewrite Ht2, bool_decide_eq_false_2 in Hn by (intros Hnone; rewrite Hnone in Hr2; by destruct Hr2).
    by subst n.
Qed.

End logout.
