(* ===== verification/Seed.v ===== *)
(** * The seed

    prisma/seed.ts: the first administrator, stored or reset with an [upsert] by email. It is
    run on its own, before the service: unlike everything the service does, it may change the
    password hash of an account. *)
From S2P Require Import Prelude JsStrings Errors Effects Prisma Schema Orders.
From S2P Require Import Evolution OrderFlow Auth AuthFlow AuthSpec.

Module Seed.
Section seed.
Context `{Prisma, Uuids, Argon2}.

(** [update: { passwordHash, role: Role.ADMIN, active: true }]. *)
Definition set_admin (passwordHash : string) (t : Z) (u : User) : User := {|
  u_id := u_id u; u_email := u_email u; u_passwordHash := passwordHash;
  u_displayName := u_displayName u; u_role := ADMIN; u_active := true;
  u_createdAt := u_createdAt u; u_updatedAt := t |}.

Definition upsert_admin (adminEmail passwordHash : string) : tx world User :=
  let email := normalize_email adminEmail in
  id ← new_uuid;
  t ← now;
  db_upsert Users (fun u => String.eqb (u_email u) email) user_constraints id
    {| u_id := id; u_email := email; u_passwordHash := passwordHash;
       u_displayName := "ScaleForge Admin"; u_role := ADMIN; u_active := true;
       u_createdAt := t; u_updatedAt := t |}
    (set_admin passwordHash t).

(** [main]: nothing without an email and a password. *)
Definition main (adminEmail adminPassword : option string) : prog world unit :=
  match truthy adminEmail, truthy adminPassword with
  | Some email, Some password =>
      passwordHash ← await (AuthService.argon2_hashAsync password);
      _ ← await (upsert_admin email passwordHash);
      Ret tt
  | _, _ => Ret tt
  end.

(** The script: it throws before anything else when it has no database. *)
Definition seed (databaseUrl adminEmail adminPassword : option string) : prog world unit :=
  match truthy databaseUrl with
  | None => Throw (JsError "DATABASE_URL is required to seed the database")
  | Some _ => main adminEmail adminPassword
  end.

End seed.
End Seed.

Section theorems.
Context {Cl : Clients} {P : Prisma} {U : Uuids} {J : Jwt} {A : Argon2} {C : AuthConfig}
  {PL : PrismaLaws P} {JL : JwtLaws J} {AL : Argon2Laws A}.
Import Seed.

(** The account of an email, if there is one. *)
Definition account (email : string) (d : db) (k : string) (u : User) : Prop :=
  users d !! k = Some u /\ u_email u = email.

Lemma account_dec email d :
  (exists k u, account email d k u) \/ (forall k u, users d !! k = Some u -> u_email u <> email).
Proof.
  destruct (where_rows (fun u => String.eqb (u_email u) email) (users d)) as [|r l] eqn:Hl.
  - right. intros k u Hu He. assert (Hin : u ∈ where_rows (fun u => String.eqb (u_email u) email) (users d)).
    { apply elem_of_where_rows. split; [by apply String.eqb_eq|eauto]. }
    rewrite Hl in Hin. by apply not_elem_of_nil in Hin.
  - left. assert (Hin : r ∈ where_rows (fun u => String.eqb (u_email u) email) (users d)).
    { rewrite Hl. by left. }
    apply elem_of_where_rows in Hin as (He%String.eqb_eq & k & Hk). by exists k, r.
Qed.

(** The account the seed leaves: the old one reset, or a new one. *)
Definition admin_account (email hash : string) (w : world) (k : string) (u : User) : Prop :=
  u_id u = k /\ u_email u = normalize_email email /\ u_passwordHash u = hash /\ u_role u = ADMIN /\
  u_active u = true /\
  (users (w_db w) !! k = None \/
   exists old, users (w_db w) !! k = Some old /\ u_email old = normalize_email email /\
     u_displayName u = u_displayName old /\ u_createdAt u = u_createdAt old).

Lemma upsert_admin_Ok email hash w :
  wf (w_db w) -> varchar 320 (normalize_email email) = true -> varchar 255 hash = true ->
  (forall k u, users (w_db w) !! k = Some u -> user_columns u = true) ->
  users (w_db w) !! uuid_at (w_nonce w) = None ->
  exists k u, admin_account email hash w k u /\
    (forall k' v, users (w_db w) !! k' = Some v -> u_email v = u_email u -> k' = k) /\
    upsert_admin email hash w =
      Ok (u, mkWorld (t_set Users (<[k := u]> (users (w_db w))) (w_db w)) (w_now w) (S (w_nonce w))).
Proof.
  intros Hwf Hem Hh Hcol Hfree. unfold upsert_admin. erewrite tx_bind_eq by done. erewrite tx_bind_eq by done.
  unfold db_upsert. simpl t_get. simpl w_db.
  destruct (account_dec (normalize_email email) (w_db w)) as [(k & u & Hk & Hu)|Hnone].
  - exists k, (set_admin hash (w_now w) u). split_and!.
    + split_and!; simpl; [by apply (wf_users _ Hwf)|done..|]. right. by exists u.
    + intros k' v Hv He. eapply (wf_emails _ Hwf); [exact Hv|exact Hk|done].
    + rewrite (upsert_update _ _ _ _ _ _ _ k u); [|done|by apply String.eqb_eq|].
      2:{ intros k2 u2 H2 He%String.eqb_eq. eapply (wf_emails _ Hwf); [exact H2|exact Hk|congruence]. }
      erewrite update_Ok; [done|done|]. specialize (Hcol _ _ Hk). simpl. unfold user_columns in *.
      simpl. rewrite Hu, Hem, Hh. by apply andb_true_iff in Hcol as [_ ->].
  - eexists (uuid_at (w_nonce w)), (mkUser _ _ _ _ ADMIN true _ _). split_and!.
    + split_and!; try reflexivity. by left.
    + intros k' v Hv He. by destruct (Hnone _ _ Hv).
    + rewrite upsert_create.
      2:{ intros k2 u2 H2. apply String.eqb_neq. by eapply Hnone. }
      rewrite create_Ok; [done| |done|].
      * split; [done|]. intros k' v Hv. apply String.eqb_neq. intros He. by eapply Hnone.
      * simpl. unfold user_columns. simpl. by rewrite Hem, Hh.
Qed.

(** The seed leaves a usable administrator. Given an email and a password, whatever the
    state of the database, it ends with exactly one account of that email, active, an ADMIN, the
    old one if there was one; no other account and no other table changes; the invariant is
    kept; and a login with the password and any spelling of the email gets tokens for that
    account as an ADMIN. *)
Theorem seed_admin url email password w ld :
  wf (w_db w) -> truthy (Some url) <> None -> email <> ""%string -> password <> ""%string ->
  varchar 320 (normalize_email email) = true ->
  (forall k u, users (w_db w) !! k = Some u -> user_columns u = true) ->
  users (w_db w) !! uuid_at (S (w_nonce w)) = None ->
  refreshTokens (w_db w) !! uuid_at (S (S (w_nonce w))) = None ->
  normalize_email (ld_email ld) = normalize_email email -> ld_password ld = password ->
  exists k u w', run (seed (Some url) (Some email) (Some password)) w = (Ok tt, w') /\
    admin_account email (argon2_hash (w_nonce w) password) w k u /\
    w_db w' = t_set Users (<[k := u]> (users (w_db w))) (w_db w) /\ wf (w_db w') /\
    exists pair w2, run (AuthService.login ld) w' = (Ok pair, w2) /\
      tp_user pair = mkTokenUser k (normalize_email email) ADMIN.
Proof.
  intros Hwf Hurl Hem Hpw Hlen Hcol Hid Htok Hld Hlp.
  assert (Htr : forall s, s <> ""%string -> truthy (Some s) = Some s) by (intros [|??]; done).
  set (w0 := mkWorld (w_db w) (w_now w) (S (w_nonce w))).
  destruct (upsert_admin_Ok email (argon2_hash (w_nonce w) password) w0)
    as (k & u & Hu & Huniq & Hrun); try done.
  { apply bool_decide_eq_true, argon2_hash_length. }
  destruct Hu as (Huid & Hue & Huh & Hur & Hua & Hold).
  set (w1 := mkWorld (t_set Users (<[k := u]> (users (w_db w))) (w_db w)) (w_now w) (S (S (w_nonce w)))).
  assert (Hwf1 : wf (w_db w1)).
  { apply wf_put_user; [done|done| |done]. rewrite Hue. apply normalize_idem. }
  exists k, u, w1. split_and!; [|done..|].
  - unfold seed, main. rewrite (Htr email), (Htr password) by done.
    destruct (truthy (Some url)); [|done]. erewrite run_await_then by done.
    erewrite run_await_then by exact Hrun. done.
  - eexists _, _. split.
    + apply (login_Ok w1 k u); [done|simpl; apply lookup_insert_eq| |done| |done].
      * by rewrite Hld.
      * by rewrite Huh, Hlp, argon2_verify_hash.
    + simpl. unfold AuthService.token_user. by rewrite Huid, Hue, Hur.
Qed.

(** Without credentials the seed does nothing; without a database it throws. *)
Lemma seed_skips url email password w :
  truthy email = None \/ truthy password = None ->
  run (seed url email password) w =
    (match truthy url with
     | Some _ => Ok tt
     | None => Err (JsError "DATABASE_URL is required to seed the database")
     end, w).
Proof.
  intros Hno. unfold seed, main. destruct (truthy url); [|done].
  destruct (truthy email), (truthy password); destruct Hno; done.
Qed.

End theorems.
