(* ===== verification/Http.v ===== *)
(** * Before a handler runs

    The routes of the controllers with their decorators, and CorrelationIdMiddleware,
    JwtAuthGuard and RolesGuard (src/src/common/), in the order the modules register them. *)
From S2P Require Import Prelude JsStrings Errors Effects Prisma Schema Orders Auth.
From Stdlib Require Import Ascii.

(** ** Routes *)

(** What [@Public()] and [@Roles(...)] leave on a handler or on a class. *)
Record metadata := mkMetadata { md_isPublic : option bool; md_roles : option (list Role) }.
Definition undecorated : metadata := mkMetadata None None.
Definition Public : metadata := mkMetadata (Some true) None.
Definition Roles (roles : list Role) : metadata := mkMetadata None (Some roles).

(** [reflector.getAllAndOverride(key, [handler, class])]. *)
Definition getAllAndOverride {A : Type} (on_handler on_class : option A) : option A :=
  match on_handler with Some a => Some a | None => on_class end.

(** [@Get], [@Post], [@Patch]. *)
Inductive verb := GET | POST | PATCH.
Definition verb_name (v : verb) : string :=
  match v with GET => "GET" | POST => "POST" | PATCH => "PATCH" end.

(** A limit of [@Throttle] or of [ThrottlerModule.forRoot]: so many requests in so many
    milliseconds. *)
Record ThrottlerOptions := mkThrottlerOptions { limit : nat; ttl : Z }.

(** The controllers: their handlers, and the decorators of the class and of each handler:
    [@Controller(prefix)], the path and the method of the route, the metadata, the limit. *)
Module AuthController.
Inductive handler := register | login | refresh | logout.
Definition prefix : string := "auth".
Definition path (h : handler) : string :=
  match h with
  | register => "register" | login => "login" | refresh => "refresh" | logout => "logout" end.
Definition on_class : metadata := undecorated.
Definition on_handler (h : handler) : metadata :=
  match h with register | login | refresh | logout => Public end.
Definition method (h : handler) : verb :=
  match h with register | login | refresh | logout => POST end.
(** [@HttpCode(HttpStatus.OK)]. *)
Definition HttpCode (h : handler) : option Z :=
  match h with register => None | login | refresh | logout => Some 200 end.
(** [@Throttle({ default: ... })]. *)
Definition Throttle (h : handler) : option ThrottlerOptions :=
  match h with
  | register | login => Some (mkThrottlerOptions 5 60000)
  | refresh => Some (mkThrottlerOptions 10 60000)
  | logout => None
  end.
End AuthController.

Module UsersController.
Inductive handler := list | updateRole.
Definition prefix : string := "users".
Definition path (h : handler) : string := match h with list => "" | updateRole => ":id/role" end.
Definition on_class : metadata := Roles [ADMIN].
Definition on_handler (h : handler) : metadata :=
  match h with list | updateRole => undecorated end.
Definition method (h : handler) : verb := match h with list => GET | updateRole => PATCH end.
End UsersController.

Module RestaurantsController.
Inductive handler := list | create.
Definition prefix : string := "restaurants".
Definition path (h : handler) : string := match h with list | create => "" end.
Definition on_class : metadata := undecorated.
Definition on_handler (h : handler) : metadata :=
  match h with list => undecorated | create => Roles [ADMIN; MANAGER] end.
Definition method (h : handler) : verb := match h with list => GET | create => POST end.
End RestaurantsController.

Module OrdersController.
Inductive handler := create | list | updateStatus.
Definition prefix : string := "orders".
Definition path (h : handler) : string := match h with create | list => "" | updateStatus => ":id/status" end.
Definition on_class : metadata := undecorated.
Definition on_handler (h : handler) : metadata :=
  match h with create | list | updateStatus => undecorated end.
Definition method (h : handler) : verb :=
  match h with create => POST | list => GET | updateStatus => PATCH end.
End OrdersController.

Module PaymentsController.
Inductive handler := complete.
Definition prefix : string := "orders/:orderId/payments".
Definition path (h : handler) : string := match h with complete => "" end.
Definition on_class : metadata := undecorated.
Definition on_handler (h : handler) : metadata := match h with complete => undecorated end.
Definition method (h : handler) : verb := match h with complete => POST end.
End PaymentsController.

Module AuditController.
Inductive handler := list.
Definition prefix : string := "audit".
Definition path (h : handler) : string := match h with list => "" end.
Definition on_class : metadata := Roles [ADMIN; MANAGER].
Definition on_handler (h : handler) : metadata := match h with list => undecorated end.
Definition method (h : handler) : verb := match h with list => GET end.
End AuditController.

Module HealthController.
Inductive handler := live | ready.
Definition prefix : string := "health".
Definition path (h : handler) : string := match h with live => "live" | ready => "ready" end.
Definition on_class : metadata := undecorated.
Definition on_handler (h : handler) : metadata := match h with live | ready => Public end.
Definition method (h : handler) : verb := match h with live | ready => GET end.
End HealthController.

Module MetricsController.
Inductive handler := render.
Definition prefix : string := "metrics".
Definition path (h : handler) : string := match h with render => "" end.
Definition on_class : metadata := undecorated.
Definition on_handler (h : handler) : metadata := match h with render => Public end.
Definition method (h : handler) : verb := match h with render => GET end.
End MetricsController.

Inductive route :=
| AuthRoute (h : AuthController.handler)
| UsersRoute (h : UsersController.handler)
| RestaurantsRoute (h : RestaurantsController.handler)
| OrdersRoute (h : OrdersController.handler)
| PaymentsRoute (h : PaymentsController.handler)
| AuditRoute (h : AuditController.handler)
| HealthRoute (h : HealthController.handler)
| MetricsRoute (h : MetricsController.handler).

#[export] Instance auth_handler_eq_dec : EqDecision AuthController.handler := ltac:(solve_decision).
#[export] Instance users_handler_eq_dec : EqDecision UsersController.handler := ltac:(solve_decision).
#[export] Instance restaurants_handler_eq_dec : EqDecision RestaurantsController.handler := ltac:(solve_decision).
#[export] Instance orders_handler_eq_dec : EqDecision OrdersController.handler := ltac:(solve_decision).
#[export] Instance payments_handler_eq_dec : EqDecision PaymentsController.handler := ltac:(solve_decision).
#[export] Instance audit_handler_eq_dec : EqDecision AuditController.handler := ltac:(solve_decision).
#[export] Instance health_handler_eq_dec : EqDecision HealthController.handler := ltac:(solve_decision).
#[export] Instance metrics_handler_eq_dec : EqDecision MetricsController.handler := ltac:(solve_decision).
#[export] Instance route_eq_dec : EqDecision route := ltac:(solve_decision).

Definition decorations (r : route) : metadata * metadata :=
  match r with
  | AuthRoute h => (AuthController.on_handler h, AuthController.on_class)
  | UsersRoute h => (UsersController.on_handler h, UsersController.on_class)
  | RestaurantsRoute h => (RestaurantsController.on_handler h, RestaurantsController.on_class)
  | OrdersRoute h => (OrdersController.on_handler h, OrdersController.on_class)
  | PaymentsRoute h => (PaymentsController.on_handler h, PaymentsController.on_class)
  | AuditRoute h => (AuditController.on_handler h, AuditController.on_class)
  | HealthRoute h => (HealthController.on_handler h, HealthController.on_class)
  | MetricsRoute h => (MetricsController.on_handler h, MetricsController.on_class)
  end.

Definition route_method (r : route) : verb :=
  match r with
  | AuthRoute h => AuthController.method h
  | UsersRoute h => UsersController.method h
  | RestaurantsRoute h => RestaurantsController.method h
  | OrdersRoute h => OrdersController.method h
  | PaymentsRoute h => PaymentsController.method h
  | AuditRoute h => AuditController.method h
  | HealthRoute h => HealthController.method h
  | MetricsRoute h => MetricsController.method h
  end.

(** The path of its controller and its own. *)
Definition route_path (r : route) : string * string :=
  match r with
  | AuthRoute h => (AuthController.prefix, AuthController.path h)
  | UsersRoute h => (UsersController.prefix, UsersController.path h)
  | RestaurantsRoute h => (RestaurantsController.prefix, RestaurantsController.path h)
  | OrdersRoute h => (OrdersController.prefix, OrdersController.path h)
  | PaymentsRoute h => (PaymentsController.prefix, PaymentsController.path h)
  | AuditRoute h => (AuditController.prefix, AuditController.path h)
  | HealthRoute h => (HealthController.prefix, HealthController.path h)
  | MetricsRoute h => (MetricsController.prefix, MetricsController.path h)
  end.

(** [ThrottlerModule.forRoot([{ name: 'default', ... }])], and the limit of a route. *)
Definition default_limit : ThrottlerOptions := mkThrottlerOptions 100 60000.
Definition route_limit (r : route) : ThrottlerOptions :=
  default default_limit (match r with AuthRoute h => AuthController.Throttle h | _ => None end).

(** The status of a route that succeeds: the one of [@HttpCode], or 201 for a POST and 200 for
    the others. *)
Definition success_status (r : route) : Z :=
  default (match route_method r with POST => 201 | _ => 200 end)
    (match r with AuthRoute h => AuthController.HttpCode h | _ => None end).

(** What the guards read of the metadata of a route. *)
Definition IS_PUBLIC (r : route) : bool :=
  let (h, c) := decorations r in default false (getAllAndOverride (md_isPublic h) (md_isPublic c)).
Definition ROLES (r : route) : option (list Role) :=
  let (h, c) := decorations r in getAllAndOverride (md_roles h) (md_roles c).

(** ** The correlation identifier *)
Module CorrelationIdMiddleware.
Section middleware.
Context `{Uuids}.

(** The identifier the response header carries and the request's context holds. *)
Definition use (supplied : option string) : tx world string :=
  match truthy supplied with
  | Some s => if (String.length s <=? 100)%nat then mret s else new_uuid
  | None => new_uuid
  end.

End middleware.
End CorrelationIdMiddleware.

(** ** The guards *)

(** [request.user] as the guard leaves it: the claims of the token. *)
Record RequestUser := mkRequestUser {
  ru_id : option json; ru_email : option json; ru_role : option json }.

Module JwtAuthGuard.
Section guard.
Context `{Jwt, AuthConfig}.

Definition missing_token : exn := UnauthorizedException "A valid bearer access token is required".
Definition bad_token : exn := UnauthorizedException "Access token is invalid or expired".

(** [const [scheme, token] = request.headers.authorization?.split(' ') ?? []]. *)
Definition bearer (authorization : option string) : option string :=
  match js_split space <$> authorization with
  | Some (scheme :: token :: _) => if String.eqb scheme "Bearer" then truthy (Some token) else None
  | _ => None
  end.

Definition canActivate (is_public : bool) (authorization : option string) :
    prog world (option RequestUser) :=
  if is_public then Ret None
  else
    match bearer authorization with
    | None => Throw missing_token
    | Some token =>
        try_catch
          (payload ← await (AuthService.jwt_verifyAsync token JWT_ACCESS_SECRET);
           if negb (match json_get "type" payload with
                    | Some (JStr s) => String.eqb s "access" | _ => false end)
           then Throw (UnauthorizedException "Invalid token type")
           else Ret (Some {| ru_id := json_get "sub" payload;
                             ru_email := json_get "email" payload;
                             ru_role := json_get "role" payload |}))
          (fun _ => Throw bad_token)
    end.

End guard.
End JwtAuthGuard.

Module RolesGuard.

Definition forbidden : exn := ForbiddenException "Your role does not permit this operation".

Definition canActivate (required : option (list Role)) (user : option RequestUser) :
    result unit :=
  match required with
  | None | Some [] => Ok tt
  | Some roles =>
      match ru_role <$> user with
      | Some (Some (JStr role)) =>
          if existsb (fun r => String.eqb (Role_name r) role) roles then Ok tt else Err forbidden
      | _ => Err forbidden
      end
  end.

End RolesGuard.

(** The guards of the application module, in its order. *)
Section authorize.
Context `{Jwt, AuthConfig}.

Definition authorize (r : route) (authorization : option string) :
    prog world (option RequestUser) :=
  user ← JwtAuthGuard.canActivate (IS_PUBLIC r) authorization;
  match RolesGuard.canActivate (ROLES r) user with
  | Ok _ => Ret user
  | Err e => Throw e
  end.

End authorize.

(** ** The correlation identifier fits its columns *)

Section correlation.
Context {U : Uuids} {UL : UuidsLaws U}.

Definition usable (supplied : option string) : option string :=
  s ← supplied; if bool_decide (1 <= String.length s <= 100)%nat then Some s else None.

Lemma use_eq supplied w :
  CorrelationIdMiddleware.use supplied w =
  match usable supplied with Some s => Ok (s, w) | None => new_uuid w end.
Proof.
  unfold CorrelationIdMiddleware.use, usable. destruct supplied as [[|c s]|]; [done| |done].
  unfold truthy. cbv [mbind option_bind].
  destruct (Nat.leb_spec (String.length (String c s)) 100) as [Hl|Hl]; case_bool_decide as Hb;
    try done; simpl in Hb, Hl; lia.
Qed.

Lemma correlation_fits supplied w :
  exists id w', CorrelationIdMiddleware.use supplied w = Ok (id, w') /\
    (1 <= String.length id <= 100)%nat.
Proof.
  rewrite use_eq. destruct (usable supplied) as [s|] eqn:Hu.
  - unfold usable in Hu. destruct supplied as [s'|]; [|done]. simpl in Hu.
    case_bool_decide as Hl; [|done]. injection Hu as ->. by exists s, w.
  - pose proof (uuid_at_length (w_nonce w)) as Hl. eexists _, _. split; [done|lia].
Qed.

(** Every request gets a correlation identifier of 1 to 100 characters, the bound of the
    columns that store it: the caller's when it has such a length, else a fresh UUID. *)
Theorem correlation_bounded supplied w :
  exists id w', CorrelationIdMiddleware.use supplied w = Ok (id, w') /\ w_db w' = w_db w /\
    (1 <= String.length id <= 100)%nat /\ varchar_opt 100 (Some id) = true /\
    match usable supplied with
    | Some s => supplied = Some s /\ id = s /\ w' = w
    | None => id = uuid_at (w_nonce w)
    end.
Proof.
  rewrite use_eq. destruct (usable supplied) as [s|] eqn:Hu.
  - unfold usable in Hu. destruct supplied as [s'|]; [|done]. simpl in Hu.
    case_bool_decide as Hl; [|done]. injection Hu as ->. exists s, w.
    split_and!; try done; [lia..|]. apply bool_decide_eq_true. lia.
  - pose proof (uuid_at_length (w_nonce w)) as Hl. eexists _, _.
    split_and!; [done|done|lia|lia| |done]. apply bool_decide_eq_true. lia.
Qed.

End correlation.

(** ** Who gets through *)

Section access.
Context {J : Jwt} {C : AuthConfig} {JL : JwtLaws J}.
Implicit Types (w : world) (user : TokenUser).

Lemma bearer_token token :
  token <> ""%string -> space ∉ chars token ->
  JwtAuthGuard.bearer (Some (String.append "Bearer " token)) = Some token.
Proof.
  intros Hne Hsp. unfold JwtAuthGuard.bearer. cbn [fmap option_fmap option_map].
  change (String.append "Bearer " token) with (String.append "Bearer" (String space token)).
  rewrite js_split_append by (by apply (bool_decide_unpack _)). rewrite js_split_none by done. simpl. by destruct token.
Qed.

(** The roles that may call a route. *)
Definition permitted (r : route) (role : Role) : bool :=
  match ROLES r with None | Some [] => true | Some roles => bool_decide (role ∈ roles) end.

Definition claims_of (user : TokenUser) : RequestUser :=
  mkRequestUser (Some (JStr (tu_id user))) (Some (JStr (tu_email user)))
    (Some (JStr (Role_name (tu_role user)))).

Lemma Role_name_inj r r' : String.eqb (Role_name r) (Role_name r') = bool_decide (r = r').
Proof. by destruct r, r'. Qed.

Lemma roles_guard_exact r user :
  RolesGuard.canActivate (ROLES r) (Some (claims_of user)) =
  if permitted r (tu_role user) then Ok tt else Err RolesGuard.forbidden.
Proof. destruct r as [[]|[]|[]|[]|[]|[]|[]|[]]; simpl; try done; by destruct (tu_role user). Qed.

Lemma guard_run is_public auth w :
  run (JwtAuthGuard.canActivate is_public auth) w =
  (if is_public then Ok None
   else match JwtAuthGuard.bearer auth with
        | None => Err JwtAuthGuard.missing_token
        | Some token =>
            match jwt_verify token JWT_ACCESS_SECRET (w_now w) with
            | Some payload =>
                if match json_get "type" payload with
                   | Some (JStr s) => String.eqb s "access" | _ => false end
                then Ok (Some (mkRequestUser (json_get "sub" payload) (json_get "email" payload)
                                 (json_get "role" payload)))
                else Err JwtAuthGuard.bad_token
            | None => Err JwtAuthGuard.bad_token
            end
        end, w).
Proof.
  unfold JwtAuthGuard.canActivate. destruct is_public; [done|].
  destruct (JwtAuthGuard.bearer auth) as [token|]; [|done].
  rewrite run_try_catch, run_bind, run_await. unfold AuthService.jwt_verifyAsync.
  destruct (jwt_verify _ _ _) as [payload|]; [|done].
  by destruct (match json_get "type" payload with Some (JStr s) => _ | _ => _ end).
Qed.

(** Presented within its lifetime, an access token lets its user through to the routes the
    role permits. *)
Lemma access_token_run user r w t :
  t <= w_now w < t + JWT_ACCESS_TTL_SECONDS * 1000 - 1000 -> IS_PUBLIC r = false ->
  run (authorize r (Some (String.append "Bearer "
    (jwt_sign (AuthService.access_claims user) JWT_ACCESS_SECRET JWT_ACCESS_TTL_SECONDS t)))) w =
    (if permitted r (tu_role user) then Ok (Some (claims_of user)) else Err RolesGuard.forbidden, w).
Proof.
  intros Ht Hr. unfold authorize. rewrite run_bind, guard_run, Hr.
  destruct (jwt_sign_chars (AuthService.access_claims user) JWT_ACCESS_SECRET
    JWT_ACCESS_TTL_SECONDS t) as [Hne Hsp].
  rewrite (bearer_token _ Hne Hsp).
  destruct (jwt_verify_sign (AuthService.access_claims user) JWT_ACCESS_SECRET
    JWT_ACCESS_TTL_SECONDS t (w_now w) Ht) as (c & -> & Hf).
  rewrite !Hf by done. simpl. fold (claims_of user). rewrite roles_guard_exact.
  by destruct (permitted r (tu_role user)).
Qed.

(** What an access token opens: presented as a bearer token within its lifetime, it gets
    its user, as the caller, through to exactly the routes the user's role permits, a 403 on
    the others; the administration of users is for an ADMIN alone, new restaurants and the
    audit trail are for an ADMIN or a MANAGER. *)
Theorem access_token_opens user r w t :
  t <= w_now w < t + JWT_ACCESS_TTL_SECONDS * 1000 - 1000 -> IS_PUBLIC r = false ->
  run (authorize r (Some (String.append "Bearer "
    (jwt_sign (AuthService.access_claims user) JWT_ACCESS_SECRET JWT_ACCESS_TTL_SECONDS t)))) w =
    (if permitted r (tu_role user) then Ok (Some (claims_of user)) else Err RolesGuard.forbidden, w) /\
  (permitted (UsersRoute UsersController.updateRole) (tu_role user) = true <-> tu_role user = ADMIN) /\
  (permitted (RestaurantsRoute RestaurantsController.create) (tu_role user) = true <-> tu_role user <> USER) /\
  (permitted (AuditRoute AuditController.list) (tu_role user) = true <-> tu_role user <> USER).
Proof.
  intros Ht Hr. split; [by apply access_token_run|]. by destruct (tu_role user).
Qed.

(** Without a bearer token the library accepts, no protected route is reached: the
    answer is a 401 and nothing is stored. *)
Lemma access_denied r auth w :
  IS_PUBLIC r = false ->
  (forall token, JwtAuthGuard.bearer auth = Some token ->
     jwt_verify token JWT_ACCESS_SECRET (w_now w) = None) ->
  exists e, run (authorize r auth) w = (Err e, w) /\ AllExceptionsFilter.statusOf e = 401.
Proof.
  intros Hr Hbad. unfold authorize. rewrite run_bind, guard_run, Hr.
  destruct (JwtAuthGuard.bearer auth) as [token|]; [rewrite (Hbad _ eq_refl)|]; by eexists.
Qed.

Context `{Prisma, Uuids, Argon2}.

(** The two kinds of token are not interchangeable, even if both secrets are the same: a
    refresh token never passes for an access token, an access token is never refreshed. *)
Theorem tokens_not_interchangeable user jti r w t ttl secret :
  IS_PUBLIC r = false ->
  run (authorize r (Some (String.append "Bearer "
    (jwt_sign (AuthService.refresh_claims user jti) secret ttl t)))) w =
    (Err JwtAuthGuard.bad_token, w) /\
  run (AuthService.refresh (jwt_sign (AuthService.access_claims user) secret ttl t)) w =
    (Err AuthService.invalid_refresh, w).
Proof.
  intros Hr. split.
  - unfold authorize. rewrite run_bind, guard_run, Hr.
    destruct (jwt_sign_chars (AuthService.refresh_claims user jti) secret ttl t) as [Hne Hsp].
    rewrite (bearer_token _ Hne Hsp).
    destruct (jwt_verify _ _ _) as [c|] eqn:Hv; [|done].
    assert (json_get "type" c = Some (JStr "refresh")) as ->; [|done].
    destruct (decide (secret = JWT_ACCESS_SECRET)) as [->|Hs].
    + by rewrite (jwt_claims _ _ _ _ _ _ Hv).
    + by rewrite jwt_other_secret in Hv.
  - unfold AuthService.refresh, AuthService.verifyRefreshToken.
    rewrite run_bind, run_try_catch, run_bind, run_await. unfold AuthService.jwt_verifyAsync.
    destruct (jwt_verify _ _ _) as [c|] eqn:Hv; [|done].
    assert (json_get "type" c = Some (JStr "access")) as ->; [|done].
    destruct (decide (secret = JWT_REFRESH_SECRET)) as [->|Hs].
    + by rewrite (jwt_claims _ _ _ _ _ _ Hv).
    + by rewrite jwt_other_secret in Hv.
Qed.

End access.

(** ** After a handler has thrown *)

Section filter.
Context `{HttpPlatform}.
Import AllExceptionsFilter.

(** An unexpected error gives nothing away: whatever the text of a JavaScript error, the
    whole outcome is the same 500 with a fixed message, logged and reported under the
    correlation identifier; a database error answers a fixed message too, a 409 for a
    violated unique constraint and a 500 otherwise. *)
Lemma errors_do_not_leak m m' c corr url t :
  catch (JsError m) corr url t = catch (JsError m') corr url t /\
  replied_status (catch (JsError m) corr url t) = 500 /\
  message (replied_body (catch (JsError m) corr url t)) = "An unexpected error occurred"%string /\
  details (replied_body (catch (PrismaClientKnownRequestError c) corr url t)) = None /\
  replied_status (catch (PrismaClientKnownRequestError c) corr url t) =
    (if String.eqb c "P2002" then 409 else 500) /\
  message (replied_body (catch (PrismaClientKnownRequestError c) corr url t)) =
    (if String.eqb c "P2002" then "A resource with the same unique value already exists"
     else "An unexpected error occurred")%string.
Proof.
  split_and!; try done; unfold catch; simpl; by destruct (String.eqb c "P2002").
Qed.

(** The error contract: the status of the answer is the exception's, the body carries the
    correlation identifier and the path, the list of validation messages appears if and only
    if the exception holds one, and Sentry is told exactly of the answers of 500 and above,
    which are the ones logged as errors. *)
Theorem error_contract e corr url t :
  let out := catch e corr url t in
  replied_status out = statusOf e /\
  correlationId (replied_body out) = corr /\ path (replied_body out) = url /\
  (forall l, details (replied_body out) = Some l <->
     exists status others, e = HttpException status (ResponseObject (Some (JArr l)) others)) /\
  (500 <= replied_status out <-> sentry_tag out = Some (default "unknown"%string corr)) /\
  (replied_status out < 500 <-> sentry_tag out = None) /\
  (500 <= replied_status out <-> logged out = LogError).
Proof.
  intros out. unfold out, catch.
  assert (Hd : forall l, detailsOf e = Some l <->
    exists status others, e = HttpException status (ResponseObject (Some (JArr l)) others)).
  { intros l. split; [|by intros (status & others & ->)].
    destruct e as [status [s|[[]|] others]| |]; simpl; intros; simplify_eq; eauto. }
  destruct (Z.leb_spec 500 (statusOf e)) as [Hs|Hs]; simpl; split_and!; try done; try lia;
    split; intros; (done || lia).
Qed.

End filter.
