(* ===== verification/Routes.v ===== *)
(** * Which handler a request is for

    The paths of the controllers' routes (Http.v), below the version the application is set up
    with (src/src/bootstrap/setup-application.ts). The router of NestJS and Express is a
    parameter. The table of routes is unambiguous: the order in which the controllers are
    registered does not matter, and the URL of a route leads to it and to its parameters. *)
From S2P Require Import Prelude JsStrings Errors Http.
From Stdlib Require Import Ascii.

(** ** The router *)

(** [app.enableVersioning({ type, defaultVersion })]. *)
Inductive VersioningType := URI | HEADER | MEDIA_TYPE | CUSTOM.
Record VersioningOptions := mkVersioningOptions {
  vo_type : VersioningType; vo_defaultVersion : string }.
Definition versioning : VersioningOptions := mkVersioningOptions URI "1".

Abbreviation parameters := (list (string * string)).

(** What a part of a path asks of a part of a URL. *)
Inductive segment := Literal (name : string) | Param (name : string).
Definition segment_of (s : string) : segment :=
  match s with String ":" name => Param name | _ => Literal s end.

(** The parts of a path between the slashes. *)
Definition slash : ascii := "/"%char.
Definition segments (path : string) : list string :=
  List.filter (fun s => negb (String.eqb s "")) (js_split slash path).

(** A route under its version, [/v1/orders/:id/status]. *)
Definition pattern (v : VersioningOptions) (controller handler : string) : list segment :=
  Literal (String.append "v" (vo_defaultVersion v)) ::
  map segment_of (segments controller ++ segments handler).

(** Names are compared without regard to case; a parameter is any part of the URL. *)
Fixpoint fits (p : list segment) (url : list string) : option parameters :=
  match p, url with
  | [], [] => Some []
  | Literal name :: p, s :: url =>
      if String.eqb (js_toLowerCase name) (js_toLowerCase s) then fits p url else None
  | Param name :: p, s :: url => cons (name, s) <$> fits p url
  | _, _ => None
  end.

(** [route_match] says whether a path of a controller and a handler matches the path of a URL,
    and with which parameters. *)
Class Router := {
  route_match : VersioningOptions -> string -> string -> string -> option parameters;
  no_route : verb -> string -> exn;
}.

(** A part of a URL that stands for itself. *)
Definition plain (s : string) : Prop :=
  s <> ""%string /\ slash ∉ chars s /\ "%"%char ∉ chars s.
Definition url_path (l : list string) : string := String.append "/" (js_join "/" l).

(** As it is documented for URI versioning, on the URLs whose parts stand for themselves. *)
Class RouterLaws (R : Router) : Prop := {
  route_match_spec : forall v controller handler l, vo_type v = URI -> Forall plain l ->
    route_match v controller handler (url_path l) = fits (pattern v controller handler) l;
  no_route_status : forall method url, AllExceptionsFilter.statusOf (no_route method url) = 404;
}.

(** ** The routes of the application *)

Definition verb_eqb (v v' : verb) : bool := String.eqb (verb_name v) (verb_name v').

Section resolve.
Context `{Router}.

Definition matches (method : verb) (path : string) (r : route) : option parameters :=
  if verb_eqb (route_method r) method
  then route_match versioning (route_path r).1 (route_path r).2 path else None.

(** The first route that matches, in the order they are registered in. *)
Fixpoint resolve (routes : list route) (method : verb) (path : string) :
    option (route * parameters) :=
  match routes with
  | [] => None
  | r :: routes =>
      match matches method path r with
      | Some ps => Some (r, ps)
      | None => resolve routes method path
      end
  end.

End resolve.

(** The controllers in the order of the modules the application imports. *)
Definition application_routes : list route :=
  [MetricsRoute MetricsController.render;
   AuthRoute AuthController.register; AuthRoute AuthController.login;
   AuthRoute AuthController.refresh; AuthRoute AuthController.logout;
   UsersRoute UsersController.list; UsersRoute UsersController.updateRole;
   RestaurantsRoute RestaurantsController.list; RestaurantsRoute RestaurantsController.create;
   OrdersRoute OrdersController.create; OrdersRoute OrdersController.list;
   OrdersRoute OrdersController.updateStatus; PaymentsRoute PaymentsController.complete;
   AuditRoute AuditController.list;
   HealthRoute HealthController.live; HealthRoute HealthController.ready].

(** The pattern of a route, and its URL with given values for its parameters. *)
Definition route_pattern (r : route) : list segment :=
  pattern versioning (route_path r).1 (route_path r).2.
Fixpoint fill (p : list segment) (values : list string) : list string :=
  match p, values with
  | [], _ => []
  | Literal name :: p, _ => name :: fill p values
  | Param _ :: p, v :: values => v :: fill p values
  | Param _ :: p, [] => ""%string :: fill p []
  end.
Definition param_names (p : list segment) : list string :=
  omap (fun s => match s with Param name => Some name | Literal _ => None end) p.
Definition route_url (r : route) (values : list string) : string :=
  url_path (fill (route_pattern r) values).

(** ** Two routes do not share a URL *)

(** Some URL could fit both patterns. *)
Fixpoint compatible (p q : list segment) : bool :=
  match p, q with
  | [], [] => true
  | Literal x :: p, Literal y :: q =>
      String.eqb (js_toLowerCase x) (js_toLowerCase y) && compatible p q
  | _ :: p, _ :: q => compatible p q
  | _, _ => false
  end.

Lemma fits_compatible p q l ps qs :
  fits p l = Some ps -> fits q l = Some qs -> compatible p q = true.
Proof.
  revert q l ps qs.
  induction p as [|[x|x] p IH]; intros [|[y|y] q] [|s l] ps qs Hp Hq; simpl in *; try done;
    repeat match goal with
      | H : (if ?b then _ else None) = Some _ |- _ => destruct b eqn:?; [|done]
      | H : _ <$> _ = Some _ |- _ => apply fmap_Some in H as (? & ? & ?)
      end; eauto.
  apply andb_true_iff. split; [|by eapply IH].
  apply String.eqb_eq. by do 2 match goal with H : String.eqb _ _ = true |- _ =>
    apply String.eqb_eq in H as -> end.
Qed.

Lemma verb_eqb_eq v v' : verb_eqb v v' = true <-> v = v'.
Proof. by destruct v, v'. Qed.

Lemma application_routes_all r : r ∈ application_routes.
Proof. apply (bool_decide_unpack _). by destruct r as [[]|[]|[]|[]|[]|[]|[]|[]]. Qed.

Definition apart (r r' : route) : bool :=
  negb (verb_eqb (route_method r) (route_method r')) ||
  negb (compatible (route_pattern r) (route_pattern r')) || bool_decide (r = r').

Lemma routes_apart r r' : apart r r' = true.
Proof.
  assert (H : forallb (fun r => forallb (apart r) application_routes) application_routes = true)
    by (vm_compute; reflexivity).
  rewrite forallb_forall in H. specialize (H r (proj1 (list_elem_of_In _ _) (application_routes_all r))).
  rewrite forallb_forall in H. apply H, list_elem_of_In, application_routes_all.
Qed.

Lemma fits_one_route r r' l ps ps' :
  route_method r = route_method r' -> fits (route_pattern r) l = Some ps ->
  fits (route_pattern r') l = Some ps' -> r = r'.
Proof.
  intros Hm Hf Hf'. pose proof (routes_apart r r') as H. unfold apart in H.
  rewrite (proj2 (verb_eqb_eq _ _) Hm), (fits_compatible _ _ _ _ _ Hf Hf') in H.
  by apply bool_decide_eq_true in H.
Qed.

(** ** The URL of a route *)

Lemma fits_fill p values :
  length values = length (param_names p) ->
  fits p (fill p values) = Some (zip (param_names p) values).
Proof.
  revert values. induction p as [|[x|x] p IH]; intros values Hl; simpl in *.
  - by destruct values.
  - by rewrite String.eqb_refl, IH.
  - destruct values as [|v values]; [done|]. simpl in *. rewrite IH by lia. done.
Qed.

(** The names in the patterns stand for themselves. *)
Definition plainb (s : string) : bool :=
  negb (String.eqb s "") && forallb (fun a => negb (Ascii.eqb a slash || Ascii.eqb a "%")) (chars s).
Lemma plainb_plain s : plainb s = true -> plain s.
Proof.
  unfold plainb. rewrite andb_true_iff, negb_true_iff, forallb_forall.
  intros [Hs Ha]. split_and!; [by intros ->|intros Hin%list_elem_of_In%Ha; discriminate Hin..].
Qed.
Definition literal_plain (s : segment) : bool :=
  match s with Literal name => plainb name | Param _ => true end.

Lemma fill_plain p values :
  length values = length (param_names p) -> forallb literal_plain p = true ->
  Forall plain values -> Forall plain (fill p values).
Proof.
  revert values. induction p as [|[x|x] p IH]; intros values Hl Hp Hv; simpl in *; [done| |].
  - apply andb_true_iff in Hp as [Hx Hp]. constructor; [by apply plainb_plain|by apply IH].
  - destruct values as [|v values]; [done|]. simpl in *. inversion_clear Hv.
    constructor; [done|]. apply IH; [lia|done..].
Qed.

Lemma route_literals r : forallb literal_plain (route_pattern r) = true.
Proof. by destruct r as [[]|[]|[]|[]|[]|[]|[]|[]]; vm_compute. Qed.

Section routing.
Context {R : Router} {RL : RouterLaws R}.

Lemma matches_spec method r l ps :
  Forall plain l ->
  matches method (url_path l) r = Some ps <->
  route_method r = method /\ fits (route_pattern r) l = Some ps.
Proof.
  intros Hl. unfold matches. rewrite route_match_spec by done. fold (route_pattern r).
  destruct (verb_eqb _ _) eqn:Hv; [apply verb_eqb_eq in Hv; naive_solver|].
  split; [done|]. intros [Hm%verb_eqb_eq _]. congruence.
Qed.

(** Whatever the order of the routes, the one that fits is found. *)
Lemma resolve_spec routes method l r ps :
  (forall r, r ∈ routes) -> Forall plain l ->
  resolve routes method (url_path l) = Some (r, ps) <->
  route_method r = method /\ fits (route_pattern r) l = Some ps.
Proof.
  intros Hall Hl. split.
  - clear Hall. induction routes as [|r' routes IH]; simpl; [done|].
    destruct (matches _ _ _) as [ps'|] eqn:Hm; [|done]. intros [= -> ->]. by apply matches_spec.
  - intros [Hm Hf]. specialize (Hall r).
    induction routes as [|r' routes IH]; simpl; [by apply not_elem_of_nil in Hall|].
    destruct (matches method (url_path l) r') as [ps'|] eqn:Hr'.
    + apply matches_spec in Hr' as [Hm' Hf']; [|done].
      assert (r' = r) as -> by (eapply fits_one_route; [congruence|done..]). congruence.
    + apply elem_of_cons in Hall as [<-|Hin]; [|by apply IH].
      rewrite (proj2 (matches_spec method r l ps Hl)) in Hr' by done. done.
Qed.

(** The URL of a route leads to it. *)
Lemma route_found routes r values :
  (forall r, r ∈ routes) -> length values = length (param_names (route_pattern r)) ->
  Forall plain values ->
  resolve routes (route_method r) (route_url r values) =
    Some (r, zip (param_names (route_pattern r)) values).
Proof.
  intros Hall Hlen Hv.
  apply resolve_spec; [done|apply fill_plain; [done|apply route_literals|done]|].
  split; [done|by apply fits_fill].
Qed.

(** C17: The URL of a route leads to it, with the parameters it was made with; and a URL leads to
    the one route that fits, in whatever order the controllers are registered. *)
Theorem routes_unambiguous routes :
  (forall r, r ∈ routes) ->
  (forall r values, length values = length (param_names (route_pattern r)) ->
     Forall plain values ->
     resolve routes (route_method r) (route_url r values) =
       Some (r, zip (param_names (route_pattern r)) values)) /\
  (forall method l, Forall plain l ->
     resolve routes method (url_path l) = resolve application_routes method (url_path l)) /\
  (forall method l r r' ps ps', Forall plain l ->
     matches method (url_path l) r = Some ps -> matches method (url_path l) r' = Some ps' ->
     r = r').
Proof.
  intros Hall. split_and!.
  - intros r values. by apply route_found.
  - intros method l Hl. apply option_eq. intros [r ps].
    rewrite !resolve_spec by (done || apply application_routes_all). done.
  - intros method l r r' ps ps' Hl [Hm Hf]%matches_spec [Hm' Hf']%matches_spec; [|done..].
    eapply fits_one_route; [congruence|done..].
Qed.

End routing.
