(* ===== verification/OpenApi.v ===== *)
(** * The documented API

    The OpenAPI decorators of the controllers (src/src/*/*.controller.ts), the settings of the
    document (bootstrap/setup-application.ts), and that the document tells the truth about who
    may call what. What SwaggerModule makes of the decorators is the library's. *)
From S2P Require Import Prelude Effects JsStrings Errors Prisma Schema Orders Payments Auth Http Routes.

(** ** The decorators *)

(** [@ApiTags(...)] and [@ApiBearerAuth()] are on the classes. *)
Definition ApiTags (r : route) : option string :=
  match r with
  | AuthRoute _ => Some "auth"
  | UsersRoute _ => Some "users"
  | RestaurantsRoute _ => Some "restaurants"
  | OrdersRoute _ => Some "orders"
  | PaymentsRoute _ => Some "payments"
  | AuditRoute _ => Some "audit"
  | HealthRoute _ => Some "health"
  | MetricsRoute _ => None
  end%string.
Definition ApiBearerAuth (r : route) : bool :=
  match r with
  | UsersRoute _ | RestaurantsRoute _ | OrdersRoute _ | PaymentsRoute _ | AuditRoute _ => true
  | AuthRoute _ | HealthRoute _ | MetricsRoute _ => false
  end.
Definition ApiExcludeController (r : route) : bool :=
  match r with MetricsRoute _ => true | _ => false end.

(** [@ApiOperation({ summary })] and [@ApiHeader(...)] are on the handlers. *)
Definition ApiOperation (r : route) : option string :=
  match r with
  | AuthRoute AuthController.register =>
      Some "Register a user and return an access/refresh token pair"
  | AuthRoute AuthController.login => Some "Authenticate with email and password"
  | AuthRoute AuthController.refresh => Some "Rotate a valid refresh token"
  | AuthRoute AuthController.logout => Some "Revoke a refresh token"
  | UsersRoute UsersController.list => Some "List users (admin only)"
  | UsersRoute UsersController.updateRole => Some "Change a user role (admin only)"
  | RestaurantsRoute RestaurantsController.list =>
      Some "List active restaurants and available menu items (Redis cached for 60 seconds)"
  | RestaurantsRoute RestaurantsController.create =>
      Some "Create a restaurant with its initial menu"
  | OrdersRoute OrdersController.create => Some "Create an order using authoritative menu prices"
  | OrdersRoute OrdersController.list =>
      Some "List orders with role-aware scope, filters, and pagination"
  | OrdersRoute OrdersController.updateStatus =>
      Some "Apply a validated order-state transition with optimistic locking"
  | PaymentsRoute PaymentsController.complete =>
      Some "Record a simulated provider payment completion idempotently"
  | AuditRoute AuditController.list => Some "List recent audit records"
  | HealthRoute HealthController.live => Some "Process liveness probe"
  | HealthRoute HealthController.ready => Some "Dependency readiness probe"
  | MetricsRoute MetricsController.render => None
  end%string.

Record header := mkHeader { h_name : string; h_required : bool; h_description : string }.
Definition ApiHeader (r : route) : option header :=
  match r with
  | PaymentsRoute PaymentsController.complete =>
      Some (mkHeader "Idempotency-Key" true "Unique key for safe client retries.")
  | _ => None
  end.

(** ** The document *)

(** [new DocumentBuilder()...build()]. *)
Record document_config := mkDocumentConfig {
  dc_title : string;
  dc_description : string;
  dc_version : string;
  dc_bearerAuth : bool;
  dc_tags : list string;
}.
Definition buildOpenApiDocument : document_config :=
  mkDocumentConfig "ScaleForge API"
    "Modular-monolith API for scalable order and resilience experiments." "1.0" true
    ["auth"; "restaurants"; "orders"; "payments"]%string.

(** What the decorators say of the routes the document lists. *)
Record operation := mkOperation {
  op_route : route;
  op_tag : option string;
  op_summary : option string;
  op_bearer : bool;
  op_header : option header;
}.
Definition operation_of (r : route) : operation :=
  mkOperation r (ApiTags r) (ApiOperation r) (ApiBearerAuth r) (ApiHeader r).
Definition operations : list operation :=
  map operation_of (List.filter (fun r => negb (ApiExcludeController r)) application_routes).

Section document.
Context {P : Prisma} {U : Uuids} {D : Decimals} {DT : Dates} {J : Jwt} {A : Argon2}
  {C : AuthConfig}.

Lemma operations_documented o :
  o ∈ operations <-> o = operation_of (op_route o) /\ ApiExcludeController (op_route o) = false.
Proof.
  unfold operations. rewrite list_elem_of_In, in_map_iff. split.
  - intros (r & <- & [_ Hr%negb_true_iff]%filter_In). by split.
  - intros [-> He]. exists (op_route o). split; [done|]. apply filter_In.
    split; [apply list_elem_of_In, application_routes_all|by apply negb_true_iff].
Qed.

Lemma bearer_private r : ApiExcludeController r = false -> ApiBearerAuth r = negb (IS_PUBLIC r).
Proof. by destruct r as [[]|[]|[]|[]|[]|[]|[]|[]]. Qed.

(** Without a token the guards refuse the routes that are not public and no others. *)
Lemma without_token r w :
  run (authorize r None) w = (if IS_PUBLIC r then Ok None else Err JwtAuthGuard.missing_token, w).
Proof.
  unfold authorize. rewrite run_bind, guard_run.
  destruct (IS_PUBLIC r) eqn:Hp; [|done].
  assert (Hroles : ROLES r = None) by (by destruct r as [[]|[]|[]|[]|[]|[]|[]|[]]).
  by rewrite Hroles.
Qed.

(** The document tells the truth. It lists every route but the metrics, each once, with a
    summary of its own; it asks for a bearer token on exactly the operations that answer a
    request without one with a 401; and the one header it requires is required: a payment
    without it is refused with a 400 before anything is read. *)
Theorem document_truthful :
  (forall r, r ∈ map op_route operations <-> r <> MetricsRoute MetricsController.render) /\
  NoDup (map op_route operations) /\
  NoDup (map op_summary operations) /\ None ∉ map op_summary operations /\
  (forall o w, o ∈ operations ->
     op_bearer o = true <->
     exists e, run (authorize (op_route o) None) w = (Err e, w) /\
       AllExceptionsFilter.statusOf e = 401) /\
  (forall o h user orderId dto corr w, o ∈ operations -> op_header o = Some h ->
     op_route o = PaymentsRoute PaymentsController.complete /\ h_required h = true /\
     exists e, run (PaymentsService.complete user orderId None dto corr) w = (Err e, w) /\
       AllExceptionsFilter.statusOf e = 400).
Proof.
  split_and!.
  - intros r. split.
    + intros (o & -> & [_ Ho]%operations_documented)%list_elem_of_fmap Heq. by rewrite Heq in Ho.
    + intros Hr. apply list_elem_of_fmap. exists (operation_of r). split; [done|].
      apply operations_documented. split; [done|]. by destruct r as [[]|[]|[]|[]|[]|[]|[]|[]].
  - apply (bool_decide_unpack _). by vm_compute.
  - apply (bool_decide_unpack _). by vm_compute.
  - apply (bool_decide_unpack _). by vm_compute.
  - intros o w [-> Ho]%operations_documented. simpl in *. rewrite (bearer_private _ Ho), without_token.
    destruct (IS_PUBLIC (op_route o)); split; [done|by intros (e & ? & _)|by eexists|done].
  - intros o h user orderId dto corr w [-> _]%operations_documented Hh. simpl in *.
    destruct (op_route o) as [[]|[]|[]|[]|[]|[]|[]|[]]; simplify_eq/=.
    split_and!; [done|done|by eexists].
Qed.

End document.
