(* ===== verification/Throttle.v ===== *)
(** * How often a route may be called

    The limits of the routes (Http.v) and the throttler that keeps them. The throttler of
    NestJS is a parameter: it says of a request, by what it has seen before, whether its
    handler and its address have been called too often. The counts are those of one process. *)
From S2P Require Import Prelude Errors Http.

(** A request the throttler has seen: its handler, its address, its time, and whether it has
    let it pass. *)
Record hit := mkHit { h_route : route; h_ip : string; h_time : Z; h_passed : bool }.

Class Throttler := {
  blocked : list hit -> route -> string -> ThrottlerOptions -> Z -> bool;
  ThrottlerException : exn;
}.

(** The requests for a handler from an address that have passed, after [from] and up to [to]. *)
Definition counts_for (r : route) (ip : string) (from to : Z) (h : hit) : bool :=
  h_passed h && bool_decide (h_route h = r) && String.eqb (h_ip h) ip &&
  (from <? h_time h) && (h_time h <=? to).
Definition passed (r : route) (ip : string) (from to : Z) (l : list hit) : nat :=
  length (List.filter (counts_for r ip from to) l).

(** As documented: as many requests within the time as the limit says, and no more; who has
    never been refused and stays below the limit is not refused. *)
Class ThrottlerLaws (T : Throttler) : Prop := {
  blocked_full : forall l r ip o t,
    (limit o <= passed r ip (t - ttl o) t l)%nat -> blocked l r ip o t = true;
  blocked_only_full : forall l r ip o t,
    (forall h, h ∈ l -> h_route h = r -> h_ip h = ip -> h_passed h = true) ->
    (passed r ip (t - ttl o - 1) t l < limit o)%nat -> blocked l r ip o t = false;
  exception_status : AllExceptionsFilter.statusOf ThrottlerException = 429;
}.

Module ThrottlerGuard.

(** What the guard notes of a request at the time [t]. *)
Definition seen `{Throttler} (r : route) (ip : string) (t : Z) (l : list hit) : hit :=
  mkHit r ip t (negb (blocked l r ip (route_limit r) t)).

End ThrottlerGuard.

(** ** The limits are kept *)

Definition within_limits (l : list hit) : Prop :=
  forall r ip t, (passed r ip (t - ttl (route_limit r)) t l <= limit (route_limit r))%nat.
Definition up_to (t : Z) (l : list hit) : Prop := Forall (fun h => h_time h <= t) l.

Lemma passed_snoc r ip from to l h :
  passed r ip from to (l ++ [h]) =
  (passed r ip from to l + if counts_for r ip from to h then 1 else 0)%nat.
Proof.
  unfold passed. rewrite List.filter_app, length_app. simpl. by destruct (counts_for r ip from to h).
Qed.

(** A later window holds no more of what has been seen up to an earlier time. *)
Lemma passed_later r ip d t t' l :
  t <= t' -> up_to t l -> (passed r ip (t' - d) t' l <= passed r ip (t - d) t l)%nat.
Proof.
  unfold passed. intros Ht. induction 1 as [|h l Hh _ IH]; simpl; [done|].
  assert (Hc : counts_for r ip (t' - d) t' h = true -> counts_for r ip (t - d) t h = true).
  { unfold counts_for. rewrite !andb_true_iff, !Z.ltb_lt, !Z.leb_le. intuition lia. }
  destruct (counts_for r ip (t' - d) t' h); [rewrite Hc by done; simpl; lia|].
  destruct (counts_for r ip (t - d) t h); simpl; lia.
Qed.

Lemma up_to_later t t' l : up_to t l -> t <= t' -> up_to t' l.
Proof. intros Hl Ht. eapply Forall_impl; [exact Hl|]. simpl. lia. Qed.

Section throttler.
Context {T : Throttler} {TL : ThrottlerLaws T}.

Lemma seen_within_limits r ip t l :
  up_to t l -> within_limits l -> within_limits (l ++ [ThrottlerGuard.seen r ip t l]).
Proof.
  intros Ht Hl r' ip' t'. rewrite passed_snoc. specialize (Hl r' ip' t').
  destruct (counts_for r' ip' _ t' _) eqn:Hc; [|lia].
  unfold counts_for, ThrottlerGuard.seen in Hc. simpl in Hc.
  rewrite !andb_true_iff, negb_true_iff, bool_decide_eq_true, String.eqb_eq, Z.leb_le in Hc.
  destruct Hc as ((((Hb & <-) & <-) & _) & Hle).
  pose proof (passed_later r ip (ttl (route_limit r)) t t' l Hle Ht).
  destruct (decide (limit (route_limit r) <= passed r ip (t - ttl (route_limit r)) t l)%nat) as [Hfull|];
    [|lia]. by rewrite blocked_full in Hb.
Qed.

Lemma seen_up_to r ip t l : up_to t l -> up_to t (l ++ [ThrottlerGuard.seen r ip t l]).
Proof. intros Hl. apply Forall_app. split; [done|]. constructor; [simpl; lia|done]. Qed.

End throttler.
