(* ===== verification/Environment.v ===== *)
(** * The configuration

    The validation of the environment (src/src/configuration/env.validation.ts), which stops a
    process that is configured wrongly, and what AuthService reads of its result. The decorators
    of [EnvironmentVariables] are data; class-transformer and class-validator, which interpret
    them, are parameters. *)
From S2P Require Import Prelude JsStrings Errors Effects JsNumbers Prisma Schema Orders Auth Http.

(** ** The class and its decorators *)

Inductive decorator :=
| IsIn (values : list string) | IsInt | Min (n : Z) | IsString | IsUrl (require_tld : bool)
| IsOptional.

Inductive value := VUndefined | VString (s : string) | VNumber (x : number).

(** A field: its decorators, [@Type(() => Number)], its initializer. *)
Record field := mkField {
  f_name : string; f_decorators : list decorator; f_number : bool; f_initial : value }.

Definition EnvironmentVariables : list field := [
  mkField "NODE_ENV" [IsIn ["development"; "test"; "production"]] false (VString "development");
  mkField "PORT" [IsInt; Min 1] true (VNumber (of_Z 3000));
  mkField "DATABASE_URL" [IsString] false VUndefined;
  mkField "REDIS_URL" [IsString] false VUndefined;
  mkField "RABBITMQ_URL" [IsString] false VUndefined;
  mkField "JWT_ACCESS_SECRET" [IsString] false VUndefined;
  mkField "JWT_REFRESH_SECRET" [IsString] false VUndefined;
  mkField "JWT_ACCESS_TTL_SECONDS" [IsInt; Min 60] true (VNumber (of_Z 900));
  mkField "JWT_REFRESH_TTL_SECONDS" [IsInt; Min 300] true (VNumber (of_Z 2592000));
  mkField "OTEL_EXPORTER_OTLP_ENDPOINT" [IsOptional; IsUrl false] false VUndefined;
  mkField "SENTRY_DSN" [IsOptional; IsString] false VUndefined;
  mkField "LOG_LEVEL"
    [IsOptional; IsIn ["trace"; "debug"; "info"; "warn"; "error"; "fatal"; "silent"]] false
    VUndefined;
  mkField "SKIP_EXTERNAL_CONNECTIONS" [IsOptional; IsIn ["true"; "false"]] false VUndefined ].

Definition secretNames : list string := ["JWT_ACCESS_SECRET"; "JWT_REFRESH_SECRET"].

(** ** The libraries *)

(** The environment is text, by name; an instance of the class is its values, by name. *)
Abbreviation environment := (gmap string string).
Abbreviation instance := (string -> value).

Record ValidationError := mkValidationError {
  property : string; constraints : list (string * string) }.

Class ClassValidator := {
  plainToInstance : list field -> environment -> instance;
  accepts : decorator -> value -> bool;
  validateSync : list field -> instance -> list ValidationError;
  stringify_errors : list ValidationError -> string;
}.

(** [Number.isInteger]. *)
Definition isInteger (x : number) : bool :=
  match x with Finite z => z mod one =? 0 | _ => false end.

(** Every decorator holds, or the value may be missing and is. *)
Definition field_ok `{ClassValidator} (f : field) (v : value) : bool :=
  (existsb (fun d => match d with IsOptional => true | _ => false end) (f_decorators f) &&
   match v with VUndefined => true | _ => false end) ||
  forallb (fun d => match d with IsOptional => true | _ => accepts d v end) (f_decorators f).

Class ClassValidatorLaws (V : ClassValidator) : Prop := {
  plainToInstance_field : forall fields config f, f ∈ fields -> NoDup (map f_name fields) ->
    plainToInstance fields config (f_name f) =
      match config !! f_name f with
      | None => f_initial f
      | Some s => if f_number f then VNumber (Number s) else VString s
      end;
  accepts_IsIn : forall l v,
    accepts (IsIn l) v = match v with VString s => bool_decide (s ∈ l) | _ => false end;
  accepts_IsInt : forall v,
    accepts IsInt v = match v with VNumber x => isInteger x | _ => false end;
  accepts_Min : forall n v,
    accepts (Min n) v = match v with VNumber x => leb (of_Z n) x | _ => false end;
  accepts_IsString : forall v,
    accepts IsString v = match v with VString _ => true | _ => false end;
  validateSync_errors : forall fields v p,
    p ∈ map property (validateSync fields v) <->
    exists f, f ∈ fields /\ f_name f = p /\ field_ok f (v p) = false;
}.

(** ** validateEnvironment *)

Section validation.
Context `{ClassValidator}.

Definition secret_errors (validated : instance) : list ValidationError :=
  omap (fun name =>
    match validated name with
    | VString value =>
        if (String.length value <? 32)%nat
        then Some (mkValidationError name
               [("minLength", String.append name " must contain at least 32 characters")])
        else None
    | _ => None
    end) secretNames.

Definition validateEnvironment (config : environment) : result instance :=
  let validated := plainToInstance EnvironmentVariables config in
  let errors := validateSync EnvironmentVariables validated ++ secret_errors validated in
  match errors with
  | [] => Ok validated
  | _ :: _ =>
      Err (JsError (String.append "Environment validation failed: " (stringify_errors errors)))
  end.

End validation.

(** What AuthService reads with [getOrThrow], its lifetimes being integers. *)
Definition string_of (v : value) : option string :=
  match v with VString s => Some s | _ => None end.
Definition integer_of (v : value) : option Z :=
  match v with VNumber (Finite z) => if z mod one =? 0 then Some (z / one) else None | _ => None end.

Definition auth_config (v : instance) : option AuthConfig :=
  access ← string_of (v "JWT_ACCESS_SECRET"%string);
  refresh ← string_of (v "JWT_REFRESH_SECRET"%string);
  accessTtl ← integer_of (v "JWT_ACCESS_TTL_SECONDS"%string);
  refreshTtl ← integer_of (v "JWT_REFRESH_TTL_SECONDS"%string);
  Some {| JWT_ACCESS_SECRET := access; JWT_REFRESH_SECRET := refresh;
          JWT_ACCESS_TTL_SECONDS := accessTtl; JWT_REFRESH_TTL_SECONDS := refreshTtl |}.

(** ** What passes *)

#[local] Opaque of_Z.

Definition text_in (config : environment) (name : string) (l : list string) : Prop :=
  match config !! name with None => True | Some s => s ∈ l end.
Definition integer_from (config : environment) (name : string) (least : Z) : Prop :=
  match config !! name with
  | None => True
  | Some s => exists n, Number s = Finite (n * one) /\ least <= n
  end.
Definition text_given (config : environment) (name : string) (least : nat) : Prop :=
  exists s, config !! name = Some s /\ (least <= String.length s)%nat.

Section laws.
Context {V : ClassValidator} {VL : ClassValidatorLaws V}.
Implicit Types (config : environment) (f : field).

Lemma names_distinct : NoDup (map f_name EnvironmentVariables).
Proof. by apply (bool_decide_unpack _). Qed.

Definition field_value config f : value :=
  match config !! f_name f with
  | None => f_initial f
  | Some s => if f_number f then VNumber (Number s) else VString s
  end.

Lemma plainToInstance_value config f : f ∈ EnvironmentVariables ->
  plainToInstance EnvironmentVariables config (f_name f) = field_value config f.
Proof. intros Hf. by apply plainToInstance_field; [|apply names_distinct]. Qed.

Definition passes config f : Prop := field_ok f (field_value config f) = true.

Lemma no_errors config :
  validateSync EnvironmentVariables (plainToInstance EnvironmentVariables config) = [] <->
  Forall (passes config) EnvironmentVariables.
Proof.
  rewrite Forall_forall. split.
  - intros Hv f Hf. unfold passes. destruct (field_ok f (field_value config f)) eqn:Hok; [done|].
    assert (Hin : f_name f ∈ map property
      (validateSync EnvironmentVariables (plainToInstance EnvironmentVariables config))).
    { apply validateSync_errors. exists f. by rewrite plainToInstance_value. }
    rewrite Hv in Hin. by apply not_elem_of_nil in Hin.
  - intros Hall. destruct (validateSync _ _) as [|e es] eqn:Hv; [done|].
    assert (Hin : property e ∈ map property
      (validateSync EnvironmentVariables (plainToInstance EnvironmentVariables config))).
    { rewrite Hv. by left. }
    apply validateSync_errors in Hin as (f & Hf & Hn & Hok). rewrite <-Hn in Hok.
    rewrite plainToInstance_value in Hok by done. by rewrite (Hall _ Hf) in Hok.
Qed.

(** The fields, by the kind of their decorators. *)
Lemma text_in_ok config name s l :
  passes config (mkField name [IsIn (s :: l)] false (VString s)) <-> text_in config name (s :: l).
Proof.
  unfold passes, field_ok, field_value, text_in. simpl. rewrite accepts_IsIn, andb_true_r.
  destruct (config !! _); rewrite bool_decide_eq_true; [done|]. split; [done|left].
Qed.

Lemma optional_in_ok config name l :
  passes config (mkField name [IsOptional; IsIn l] false VUndefined) <-> text_in config name l.
Proof.
  unfold passes, field_ok, field_value, text_in. simpl.
  destruct (config !! _); simpl; [|done]. by rewrite accepts_IsIn, andb_true_r, bool_decide_eq_true.
Qed.

Lemma integer_ok config name least n0 :
  0 <= least <= n0 -> n0 <= 2 ^ 53 ->
  passes config (mkField name [IsInt; Min least] true (VNumber (of_Z n0))) <->
  integer_from config name least.
Proof.
  intros Hl H53. unfold passes, field_ok, field_value, integer_from. simpl.
  pose proof one_pos as Hone.
  destruct (config !! _) as [s|]; simpl; rewrite accepts_IsInt, accepts_Min, andb_true_r,
    !of_Z_exact by lia.
  - unfold isInteger. destruct (Number s) as [|b|z]; [split; [done|by intros (n & ? & _)]..|].
    rewrite andb_true_iff, leb_Finite, Z.eqb_eq, Z.leb_le. split.
    + intros [Hz Hle]. exists (z / one). pose proof (Z.div_mod z one). split; [f_equal|]; nia.
    + intros (n & [= ->] & Hle). rewrite Z.mod_mul by lia. nia.
  - rewrite leb_Finite. unfold isInteger. rewrite Z.mod_mul by lia.
    split; [done|]. intros _. apply andb_true_iff. split; [done|]. apply Z.leb_le. nia.
Qed.

Lemma string_ok config name :
  passes config (mkField name [IsString] false VUndefined) <-> text_given config name 0.
Proof.
  unfold passes, field_ok, field_value, text_given. simpl.
  destruct (config !! _) as [s|]; rewrite accepts_IsString.
  - split; [|done]. exists s. split; [done|lia].
  - split; [done|]. by intros (s & ? & _).
Qed.

Lemma optional_string_ok config name :
  passes config (mkField name [IsOptional; IsString] false VUndefined) <-> True.
Proof.
  unfold passes, field_ok, field_value. simpl. destruct (config !! _); simpl; by rewrite ?accepts_IsString.
Qed.

Lemma endpoint_ok config name :
  passes config (mkField name [IsOptional; IsUrl false] false VUndefined) <->
  forall s, config !! name = Some s -> accepts (IsUrl false) (VString s) = true.
Proof.
  unfold passes, field_ok, field_value. simpl. destruct (config !! name); simpl; [|by split].
  rewrite andb_true_r. naive_solver.
Qed.

Lemma secret_errors_none (v : instance) :
  secret_errors v = [] <->
  Forall (fun name => forall s, v name = VString s -> (32 <= String.length s)%nat) secretNames.
Proof.
  unfold secret_errors. induction secretNames as [|name l IH]; simpl; [done|].
  rewrite Forall_cons, <-IH. destruct (v name) as [|s|x].
  - naive_solver.
  - destruct (Nat.ltb_spec (String.length s) 32); split; try done.
    + intros [Hs _]. specialize (Hs _ eq_refl). lia.
    + intros Hl. split; [|done]. by intros s' [= <-].
    + by intros [_ ?].
  - naive_solver.
Qed.

Lemma validated config v :
  validateEnvironment config = Ok v <->
  v = plainToInstance EnvironmentVariables config /\
  Forall (passes config) EnvironmentVariables /\
  secret_errors v = [].
Proof.
  unfold validateEnvironment. rewrite <-no_errors.
  destruct (_ ++ _) as [|e es] eqn:He.
  - apply app_eq_nil in He as [-> Hs]. split; [by intros [= <-]|]. by intros (-> & _).
  - split; [done|]. intros (-> & Hv & Hs). by rewrite Hv, Hs in He.
Qed.

(** A secret: given, and long enough. *)
Definition declared_text (name : string) : Prop :=
  mkField name [IsString] false VUndefined ∈ EnvironmentVariables.

Lemma access_declared : declared_text "JWT_ACCESS_SECRET".
Proof. apply (list_elem_of_lookup_2 _ 5). reflexivity. Qed.
Lemma refresh_declared : declared_text "JWT_REFRESH_SECRET".
Proof. apply (list_elem_of_lookup_2 _ 6). reflexivity. Qed.

Lemma text_value config name :
  declared_text name ->
  plainToInstance EnvironmentVariables config name =
    match config !! name with None => VUndefined | Some s => VString s end.
Proof. intros Hf. by apply (plainToInstance_value config _ Hf). Qed.

Lemma secret_given config name :
  declared_text name ->
  text_given config name 0 /\
    (forall s, plainToInstance EnvironmentVariables config name = VString s ->
       (32 <= String.length s)%nat) <->
  text_given config name 32.
Proof.
  intros Hf. rewrite text_value by done. unfold text_given. destruct (config !! name) as [s|].
  - split.
    + intros [_ Hs]. eauto.
    + intros (s' & [= <-] & Hl). split; [exists s; split; [done|lia]|]. by intros s' [= <-].
  - split; [by intros [(s & ? & _) _]|by intros (s & ? & _)].
Qed.

(** The conditions, one by one. *)
Definition acceptable config : Prop :=
  text_in config "NODE_ENV" ["development"; "test"; "production"]%string /\
  integer_from config "PORT" 1 /\
  (text_given config "DATABASE_URL" 0 /\ text_given config "REDIS_URL" 0 /\
   text_given config "RABBITMQ_URL" 0) /\
  (text_given config "JWT_ACCESS_SECRET" 32 /\ text_given config "JWT_REFRESH_SECRET" 32) /\
  (integer_from config "JWT_ACCESS_TTL_SECONDS" 60 /\
   integer_from config "JWT_REFRESH_TTL_SECONDS" 300) /\
  (forall s, config !! "OTEL_EXPORTER_OTLP_ENDPOINT"%string = Some s ->
     accepts (IsUrl false) (VString s) = true) /\
  text_in config "LOG_LEVEL"
    ["trace"; "debug"; "info"; "warn"; "error"; "fatal"; "silent"]%string /\
  text_in config "SKIP_EXTERNAL_CONNECTIONS" ["true"; "false"]%string.

Lemma environment_conditions config :
  (exists v, validateEnvironment config = Ok v) <-> acceptable config.
Proof.
  unfold acceptable.
  transitivity (Forall (passes config) EnvironmentVariables /\
    secret_errors (plainToInstance EnvironmentVariables config) = []).
  { split; [intros (v & (-> & ? & ?)%validated); done|].
    intros [? ?]. eexists. apply validated. done. }
  rewrite secret_errors_none. unfold secretNames. rewrite !Forall_cons_iff, !Forall_nil.
  unfold EnvironmentVariables at 1. rewrite !Forall_cons_iff, Forall_nil.
  rewrite text_in_ok, !integer_ok, !string_ok, endpoint_ok, optional_string_ok, !optional_in_ok by lia.
  rewrite <-(secret_given _ _ access_declared), <-(secret_given _ _ refresh_declared).
  tauto.
Qed.

(** C37: The validation of the configuration accepts exactly these environments: the three URLs are
    given as text, both secrets have at least 32 characters, the port and the lifetimes, when
    given, are integers of at least 1, 60 and 300, the endpoint of the telemetry, when given, is a
    URL, and the names that are listed are among those allowed. (It asks less than the process
    needs to run: the three URLs may be any text, the port may be too large.) *)
Theorem environment_accepted config :
  (exists v, validateEnvironment config = Ok v) <->
  text_in config "NODE_ENV" ["development"; "test"; "production"]%string /\
  integer_from config "PORT" 1 /\
  (text_given config "DATABASE_URL" 0 /\ text_given config "REDIS_URL" 0 /\
   text_given config "RABBITMQ_URL" 0) /\
  (text_given config "JWT_ACCESS_SECRET" 32 /\ text_given config "JWT_REFRESH_SECRET" 32) /\
  (integer_from config "JWT_ACCESS_TTL_SECONDS" 60 /\
   integer_from config "JWT_REFRESH_TTL_SECONDS" 300) /\
  (forall s, config !! "OTEL_EXPORTER_OTLP_ENDPOINT"%string = Some s ->
     accepts (IsUrl false) (VString s) = true) /\
  text_in config "LOG_LEVEL"
    ["trace"; "debug"; "info"; "warn"; "error"; "fatal"; "silent"]%string /\
  text_in config "SKIP_EXTERNAL_CONNECTIONS" ["true"; "false"]%string.
Proof. apply environment_conditions. Qed.

Definition declared_integer (name : string) (least n0 : Z) : Prop :=
  mkField name [IsInt; Min least] true (VNumber (of_Z n0)) ∈ EnvironmentVariables.

Lemma access_ttl_declared : declared_integer "JWT_ACCESS_TTL_SECONDS" 60 900.
Proof. apply (list_elem_of_lookup_2 _ 7). reflexivity. Qed.
Lemma refresh_ttl_declared : declared_integer "JWT_REFRESH_TTL_SECONDS" 300 2592000.
Proof. apply (list_elem_of_lookup_2 _ 8). reflexivity. Qed.

Lemma integer_value config name least n0 :
  declared_integer name least n0 ->
  0 <= least <= n0 -> n0 <= 2 ^ 53 -> integer_from config name least ->
  exists n, integer_of (plainToInstance EnvironmentVariables config name) = Some n /\ least <= n.
Proof.
  intros Hf Hl H53 Hfrom. pose proof (plainToInstance_value config _ Hf) as Hv. simpl in Hv.
  rewrite Hv. unfold field_value, integer_from in *. simpl. pose proof one_pos.
  destruct (config !! name) as [s|].
  - destruct Hfrom as (n & -> & Hn). exists n. simpl. by rewrite Z.mod_mul, Z.div_mul by lia.
  - rewrite of_Z_exact by lia. exists n0. simpl. rewrite Z.mod_mul, Z.div_mul by lia. split; [done|lia].
Qed.

Lemma secret_value config name :
  declared_text name -> text_given config name 32 ->
  exists s, string_of (plainToInstance EnvironmentVariables config name) = Some s /\
    (32 <= String.length s)%nat.
Proof. intros Hf (s & Hs & Hl). exists s. by rewrite text_value, Hs by done. Qed.

Context {J : Jwt} {JL : JwtLaws J}.

(** An environment that is accepted configures the tokens: AuthService finds both secrets,
    of at least 32 characters, and both lifetimes, of at least a minute and five minutes; and
    for the minute after it is issued, less the last second, an access token gets its user
    through to the routes the role permits. *)
Theorem configured_tokens config v :
  validateEnvironment config = Ok v ->
  exists C : AuthConfig, auth_config v = Some C /\
    (32 <= String.length JWT_ACCESS_SECRET)%nat /\ (32 <= String.length JWT_REFRESH_SECRET)%nat /\
    60 <= JWT_ACCESS_TTL_SECONDS /\ 300 <= JWT_REFRESH_TTL_SECONDS /\
    forall user r w t, t <= w_now w < t + 59 * 1000 -> IS_PUBLIC r = false ->
      run (authorize r (Some (String.append "Bearer "
        (jwt_sign (AuthService.access_claims user) JWT_ACCESS_SECRET JWT_ACCESS_TTL_SECONDS t)))) w =
      (if permitted r (tu_role user) then Ok (Some (claims_of user)) else Err RolesGuard.forbidden, w).
Proof.
  intros Hv.
  assert (Hacc : exists v', validateEnvironment config = Ok v') by eauto.
  apply validated in Hv as (-> & _ & _).
  apply environment_conditions in Hacc as (_ & _ & _ & [Ha Hr] & [Hat Hrt] & _).
  destruct (secret_value _ _ access_declared Ha) as (a & Ea & La).
  destruct (secret_value _ _ refresh_declared Hr) as (r & Er & Lr).
  destruct (integer_value config _ _ _ access_ttl_declared) as (n & En & Ln); [lia|lia|done|].
  destruct (integer_value config _ _ _ refresh_ttl_declared) as (n' & En' & Ln'); [lia|lia|done|].
  exists (Build_AuthConfig a r n n'). unfold auth_config. rewrite Ea, Er, En, En'.
  split_and!; [done..|]. intros user rt w t Ht Hp.
  apply (@access_token_run J (Build_AuthConfig a r n n') JL); [simpl; lia|done].
Qed.

End laws.
