(* ===== verification/Restaurants.v ===== *)
(** * Restaurants

    RestaurantsRepository (src/src/restaurants/restaurants.repository.ts): creating a
    restaurant with its menu, and the listing of the active ones, with its JSON text as the
    cache and the clients get it. The service and its cache are in Cache.v. *)
From S2P Require Import Prelude JsStrings Errors Effects Prisma Schema Orders Evolution OrderFlow.

(** A price is a number of cents: the DTO allows two decimal places. *)
Record CreateMenuItemDto := mkCreateMenuItemDto { cm_name : string; cm_price : Z }.
Record CreateRestaurantDto := mkCreateRestaurantDto {
  cr_name : string; cr_menuItems : list CreateMenuItemDto }.

Record RestaurantView := mkRestaurantView { rv_restaurant : Restaurant; rv_menu : list MenuItem }.

Module RestaurantsRepository.
Section repository.
Context `{Prisma, Uuids}.

Definition by_name (r r' : Restaurant) : bool := String.leb (r_name r) (r_name r').
Definition item_by_name (m m' : MenuItem) : bool := String.leb (mi_name m) (mi_name m').

Definition listActive : tx world (list RestaurantView) :=
  l ← db_findMany Restaurants r_active by_name 0 None;
  tx_gets (fun w => (fun r => mkRestaurantView r
    (findMany (fun m => String.eqb (mi_restaurantId m) (r_id r) && mi_available m)
       item_by_name 0 None (menuItems (w_db w)))) <$> l).

(** The nested [menuItems: { create }]. *)
Fixpoint create_menu (restaurantId : string) (items : list CreateMenuItemDto) :
    tx world (list MenuItem) :=
  match items with
  | [] => mret []
  | i :: items =>
      id ← new_uuid;
      t ← now;
      m ← db_create MenuItems menu_item_constraints id
        {| mi_id := id; mi_restaurantId := restaurantId; mi_name := cm_name i;
           mi_price := cm_price i; mi_available := true; mi_createdAt := t; mi_updatedAt := t |};
      ms ← create_menu restaurantId items;
      mret (m :: ms)
  end.

Definition create (name : string) (items : list CreateMenuItemDto) : tx world RestaurantView :=
  id ← new_uuid;
  t ← now;
  r ← db_create Restaurants restaurant_constraints id
    {| r_id := id; r_name := name; r_active := true; r_createdAt := t; r_updatedAt := t |};
  menu ← create_menu id items;
  mret (mkRestaurantView r menu).

End repository.
End RestaurantsRepository.

(** ** The listing as JSON *)

(** [JSON.stringify] of the rows: a decimal is its text, a date is its ISO text. *)
Section as_json.
Context `{Decimals, HttpPlatform}.

Definition menu_item_json (m : MenuItem) : json :=
  JObj [("id", JStr (mi_id m)); ("restaurantId", JStr (mi_restaurantId m));
        ("name", JStr (mi_name m)); ("price", JStr (decimal_toString (mi_price m)));
        ("available", JBool (mi_available m)); ("createdAt", JStr (toISOString (mi_createdAt m)));
        ("updatedAt", JStr (toISOString (mi_updatedAt m)))].

Definition view_json (v : RestaurantView) : json :=
  let r := rv_restaurant v in
  JObj [("id", JStr (r_id r)); ("name", JStr (r_name r)); ("active", JBool (r_active r));
        ("createdAt", JStr (toISOString (r_createdAt r)));
        ("updatedAt", JStr (toISOString (r_updatedAt r)));
        ("menuItems", JArr (map menu_item_json (rv_menu v)))].

Definition listing_json (views : list RestaurantView) : json := JArr (map view_json views).

End as_json.

(** The view tells the truth about the database: an active restaurant, and available items
    of its menu. *)
Definition listed (d : db) (v : RestaurantView) : Prop :=
  (exists k, restaurants d !! k = Some (rv_restaurant v)) /\ r_active (rv_restaurant v) = true /\
  Forall (fun m => (exists k, menuItems d !! k = Some m) /\
    mi_restaurantId m = r_id (rv_restaurant v) /\ mi_available m = true) (rv_menu v).

(** ** What is stored *)

Section restaurants.
Context {Cl : Clients} {P : Prisma} {U : Uuids} {PL : PrismaLaws P}.

(** The stored row of a requested item. *)
Definition row_of (restaurantId : string) (t : Z) (i : CreateMenuItemDto) (m : MenuItem) : Prop :=
  mi_restaurantId m = restaurantId /\ mi_name m = cm_name i /\ mi_price m = cm_price i /\
  mi_available m = true /\ mi_createdAt m = t.

Lemma create_menu_inv rid items w ms w' :
  RestaurantsRepository.create_menu rid items w = Ok (ms, w') ->
  exists t, w' = mkWorld (t_set MenuItems t (w_db w)) (w_now w) (w_nonce w + length items) /\
    table_evolves (fun m => mi_restaurantId m = rid) frozen (menuItems (w_db w)) t /\
    (keyed mi_id (menuItems (w_db w)) -> keyed mi_id t) /\
    Forall2 (row_of rid (w_now w)) items ms /\
    (forall m, m ∈ ms -> t !! mi_id m = Some m).
Proof.
  revert w ms w'. induction items as [|i items IH]; intros w ms w' H; simpl in H.
  - injection H as <- <-. exists (menuItems (w_db w)).
    split_and!; [|apply table_evolves_refl|done|constructor|by intros m ?%not_elem_of_nil].
    simpl. rewrite Nat.add_0_r. by destruct w as [[] ? ?].
  - apply tx_bind_Ok in H as (id & s & Hs & H). unfold new_uuid in Hs. injection Hs as Hid <-.
    apply tx_bind_Ok in H as (t0 & s & Hs & H). unfold now, tx_gets in Hs. injection Hs as <- <-.
    apply tx_bind_Ok in H as (m & s & Hs & H).
    apply db_create_inv in Hs as (-> & [Hn _] & _ & _ & ->).
    apply tx_bind_Ok in H as (ms' & s & Hs & H).
    destruct (IH _ _ _ Hs) as (t & -> & Ht & Hk & Hrows & Hin). clear IH Hs.
    unfold mret, tx_ret in H. injection H as <- <-. simpl in *.
    set (m := mkMenuItem _ rid _ _ _ _ _) in *.
    assert (Hm : t !! id = Some m) by (eapply table_frozen_lookup; [exact Ht|apply lookup_insert_eq]).
    exists t. split_and!.
    + f_equal; lia.
    + split.
      * intros k r Hkr. exists r. split; [|by left]. eapply table_frozen_lookup; [exact Ht|].
        rewrite lookup_insert_ne; congruence.
      * intros k r Hkr Hr.
        apply (table_evolves_bwd _ _ _ _ _ _ Ht) in Hr as [[_ ?]|(q & Hq & [->|[]])]; [done|].
        rewrite lookup_insert in Hq. case_decide; [by simplify_eq|congruence].
    + intros Hkey. apply Hk. intros k r. rewrite lookup_insert. case_decide; [|apply Hkey].
      intros [= <-]. by subst.
    + by constructor.
    + intros x [->|Hx]%elem_of_cons; [done|by apply Hin].
Qed.

(** A step that only adds to the catalogue. *)
Lemma quiet_catalogue w w' rs ms :
  w_db w' = t_set MenuItems ms (t_set Restaurants rs (w_db w)) -> w_now w' = w_now w ->
  table_evolves (fun _ => True) frozen (restaurants (w_db w)) rs ->
  table_evolves (fun _ => True) frozen (menuItems (w_db w)) ms ->
  (keyed mi_id (menuItems (w_db w)) -> keyed mi_id ms) ->
  quiet w w'.
Proof.
  intros Hdb Hnow Hr Hm Hk. split_and!; [|intros Hwf|lia]; rewrite Hdb.
  - split; simpl; auto with evolves.
  - destruct Hwf as [Hu Hem Hnem Htok Hmk Hi Hord Hpay Hpk Hout Hproc Hdel Hdk Htu Hntf].
    split; simpl; try done; [by apply Hk|..].
    + intros k o Ho. eapply (order_wf_mono (w_db w)); [apply table_evolves_refl..|done|by apply Hord].
    + intros k p Hp. eapply (payment_wf_mono (w_db w)); [apply table_evolves_refl..|by apply Hpay].
Qed.

Lemma create_restaurant_inv name items w view w' :
  RestaurantsRepository.create name items w = Ok (view, w') ->
  let r := rv_restaurant view in
  r = mkRestaurant (uuid_at (w_nonce w)) name true (w_now w) (w_now w) /\
  restaurants (w_db w) !! r_id r = None /\ w_now w' = w_now w /\
  exists t, w_db w' = t_set MenuItems t
      (t_set Restaurants (<[r_id r := r]> (restaurants (w_db w))) (w_db w)) /\
    table_evolves (fun m => mi_restaurantId m = r_id r) frozen (menuItems (w_db w)) t /\
    (keyed mi_id (menuItems (w_db w)) -> keyed mi_id t) /\
    Forall2 (row_of (r_id r) (w_now w)) items (rv_menu view) /\
    (forall m, m ∈ rv_menu view -> t !! mi_id m = Some m).
Proof.
  unfold RestaurantsRepository.create. intros (id & s & Hs & H)%tx_bind_Ok.
  unfold new_uuid in Hs. injection Hs as <- <-.
  apply tx_bind_Ok in H as (t0 & s & Hs & H). unfold now, tx_gets in Hs. injection Hs as <- <-.
  apply tx_bind_Ok in H as (r & s & Hs & H). apply db_create_inv in Hs as (-> & [Hn _] & _ & _ & ->).
  apply tx_bind_Ok in H as (ms & s & Hs & H).
  apply create_menu_inv in Hs as (t & -> & Ht & Hk & Hrows & Hin).
  unfold mret, tx_ret in H. injection H as <- <-. simpl in *.
  split_and!; try done. by exists t.
Qed.

Lemma create_restaurant_quiet name items : preserves (RestaurantsRepository.create name items).
Proof.
  intros w view w' _ (_ & Hn & Hnow & t & Hdb & Ht & Hk & _ & _)%create_restaurant_inv.
  eapply quiet_catalogue; [exact Hdb|done| | |exact Hk].
  - by apply table_evolves_insert.
  - destruct Ht as [H1 H2]. split; [exact H1|done].
Qed.

Lemma listed_mono oc d d' v : tables_evolve oc d d' -> listed d v -> listed d' v.
Proof.
  intros Ht ([k Hk] & Hact & Hm). split; [|split; [done|]].
  - exists k. eapply table_frozen_lookup; [apply Ht|done].
  - eapply Forall_impl; [exact Hm|]. intros m ([k' Hk'] & ?). split; [|done].
    exists k'. eapply table_frozen_lookup; [apply Ht|done].
Qed.

Lemma by_name_total : Total (by_leb RestaurantsRepository.by_name).
Proof. intros r r'. apply String.leb_total. Qed.
Lemma item_by_name_total : Total (by_leb RestaurantsRepository.item_by_name).
Proof. intros m m'. apply String.leb_total. Qed.

Lemma elem_of_findMany_all {R : Type} p (leb : R -> R -> bool) (t : gmap string R) r :
  Total (by_leb leb) ->
  r ∈ findMany p leb 0 None t <-> p r = true /\ exists k, t !! k = Some r.
Proof.
  intros Htot. destruct (findMany_spec _ p leb 0 None t Htot) as (l & Hl & _ & ->). simpl.
  rewrite drop_0, Hl. apply elem_of_where_rows.
Qed.

(** The listing: exactly the active restaurants. *)
Lemma listActive_inv w views w' :
  RestaurantsRepository.listActive w = Ok (views, w') ->
  w' = w /\ Forall (listed (w_db w)) views /\
  (forall k r, restaurants (w_db w) !! k = Some r -> r_active r = true ->
     exists v, v ∈ views /\ rv_restaurant v = r /\
       forall k' m, menuItems (w_db w) !! k' = Some m -> mi_restaurantId m = r_id r ->
         mi_available m = true -> m ∈ rv_menu v).
Proof.
  unfold RestaurantsRepository.listActive. intros (l & s & Hl & H)%tx_bind_Ok.
  unfold db_findMany, tx_gets in Hl, H. simplify_eq. simpl. split; [done|]. split.
  - apply Forall_fmap, Forall_forall. intros r [Hact Hr]%(elem_of_findMany_all _ _ _ _ by_name_total).
    split; [done|]. split; [done|]. apply Forall_forall. simpl.
    by intros m [[?%String.eqb_eq ?]%andb_true_iff ?]%(elem_of_findMany_all _ _ _ _ item_by_name_total).
  - intros k r Hr Hact. eexists. split_and!.
    + apply list_elem_of_fmap. exists r. split; [done|].
      apply (elem_of_findMany_all _ _ _ _ by_name_total). eauto.
    + done.
    + intros k' m Hm Hrid Hav. apply (elem_of_findMany_all _ _ _ _ item_by_name_total).
      split; [|eauto]. by rewrite Hrid, String.eqb_refl, Hav.
Qed.

End restaurants.
