(* ===== verification/System.v ===== *)
(** * The processes around the database

    The outbox publisher and the workers also talk to RabbitMQ and to the BullMQ queue, and
    keep state in memory. Neither server is part of the repository: the state of the
    [system] keeps the log of what the program has told them and of what the message broker has
    confirmed, in its order, next to the [world] of Schema.v, the [running] flags of the
    publisher instances, whether RabbitMQ can be reached, and the Redis cache: by key, the JSON
    text stored (as the value it is the text of) and the time it expires.
    [lift] runs a program of the database part in the system. *)
From S2P Require Import Prelude JsStrings Errors Effects Prisma Schema Orders Evolution.
From S2P Require Import Restaurants.

(** ** Messages *)

(** The content of a message, by what [JSON.parse] makes of it. *)
Inductive content := Json (j : json) | NotJson.

(** The properties of a message the program reads or writes. *)
Record properties := mkProperties {
  messageId : option string;
  correlation : option string;
  messageType : option string;
  deliveryMode : Z;
  expiration : option string;
  x_retry_count : option Z;
  x_final_error : option string;
}.

Record message := mkMessage {
  msg_content : content;
  msg_routingKey : string;
  msg_properties : properties;
}.

(** What the servers have been told. A message that has been published is only written to a
    channel: it is with the broker once the broker has [Confirmed] it. And, in its place, that
    an instance of the publisher has counted an event as published. *)
Inductive observation :=
| Published (exchange routingKey : string) (body : content) (props : properties)
| Acked (consumer : string) (m : message)
| Nacked (consumer : string) (m : message)
| JobAdded (jobId : string) (attempts backoffDelay : Z)
| Counted (instanceId type : string)
| Confirmed (publication : observation).

Record system := mkSystem {
  sys_world : world;
  sys_log : list observation;
  sys_running : gset string;
  sys_reachable : bool;
  sys_cache : gmap string (json * Z);
}.

Definition with_world (w : world) (s : system) : system :=
  mkSystem w (sys_log s) (sys_running s) (sys_reachable s) (sys_cache s).
Definition with_cache (c : gmap string (json * Z)) (s : system) : system :=
  mkSystem (sys_world s) (sys_log s) (sys_running s) (sys_reachable s) c.

(** ** Steps *)

Definition on_world {A : Type} (m : tx world A) : tx system A := fun s =>
  match m (sys_world s) with
  | Ok (a, w) => Ok (a, with_world w s)
  | Err e => Err e
  end.

Fixpoint lift {A : Type} (p : prog world A) : prog system A :=
  match p with
  | Ret a => Ret a
  | Throw e => Throw e
  | Step m k => Step (on_world m) (fun r => lift (k r))
  end.

(** Tell a server something. *)
Definition tell (o : observation) : tx system unit := fun s =>
  Ok (tt, mkSystem (sys_world s) (sys_log s ++ [o]) (sys_running s) (sys_reachable s)
    (sys_cache s)).

(** Reach RabbitMQ: connect, or use the open channel. *)
Definition ensureConnected : tx system unit := fun s =>
  if sys_reachable s then Ok (tt, s) else Err (JsError "connect ECONNREFUSED").

(** [channel.waitForConfirms()] after a publication on the channel: it ends when the broker has
    confirmed what was published there, this publication with it. Where the broker refuses it
    or the channel closes the step fails (Effects.v), and nothing is confirmed. *)
Definition waitForConfirms (publication : observation) : tx system unit :=
  tell (Confirmed publication).

(** ** Domain events *)

Record DomainEvent := mkDomainEvent {
  de_id : string; de_type : string; de_occurredAt : string; de_aggregateType : string;
  de_aggregateId : string; de_correlationId : option string; de_payload : json }.

Definition routingKeyFor (type : string) : option string :=
  if String.eqb type "OrderCreated" then Some "order.created"%string
  else if String.eqb type "PaymentCompleted" then Some "payment.completed"%string
  else None.

(** [JSON.stringify(event)]: an absent correlation identifier is an absent field. *)
Definition event_json (e : DomainEvent) : json :=
  JObj ([("id", JStr (de_id e)); ("type", JStr (de_type e));
         ("occurredAt", JStr (de_occurredAt e)); ("aggregateType", JStr (de_aggregateType e));
         ("aggregateId", JStr (de_aggregateId e))] ++
        match de_correlationId e with
        | Some c => [("correlationId", JStr c)] | None => []
        end ++
        [("payload", de_payload e)]).

(** The exchanges (rabbit-topology.ts). *)
Definition EVENT_EXCHANGE := "scaleforge.events"%string.
Definition RETRY_EXCHANGE := "scaleforge.retry"%string.
Definition DEAD_LETTER_EXCHANGE := "scaleforge.dlx"%string.

(** ** What the system guarantees *)

(** The broker has what was published: it has confirmed it. *)
Definition broker_has (publication : observation) (log : list observation) : Prop :=
  publication ∈ log /\ Confirmed publication ∈ log.

(** A publication of the event [id] has been taken by the broker. *)
Definition accepted (id : string) (log : list observation) : Prop :=
  exists exchange key body props, broker_has (Published exchange key body props) log /\
    messageId props = Some id.

Definition published_accepted (s : system) : Prop :=
  forall k e, outboxEvents (w_db (sys_world s)) !! k = Some e -> is_Some (ob_publishedAt e) ->
    accepted k (sys_log s).

(** [consumer] has recorded the event [id]. *)
Definition processed (consumer id : string) (d : db) : Prop :=
  exists k p, processedMessages d !! k = Some p /\ pm_consumer p = consumer /\ pm_eventId p = id.

(** A consumer's work on a message is done: the audit record is stored; the notification is
    stored and its delivery job queued, or the event is not one to notify. *)
Definition handled (consumer : string) (m : message) (s : system) : Prop :=
  exists event, msg_content m = Json event /\
  if String.eqb consumer "audit"
  then exists id, json_get "id" event = Some (JStr id) /\ processed "audit" id (w_db (sys_world s))
  else json_get "type" event <> Some (JStr "OrderCreated") \/
       exists id k n, json_get "id" event = Some (JStr id) /\
         processed "notification" id (w_db (sys_world s)) /\
         notificationDeliveries (w_db (sys_world s)) !! k = Some n /\ nd_eventId n = id /\
         JobAdded k 5 1000 ∈ sys_log s.

(** The broker has taken a copy of the message: to wait for a retry, or dead-lettered. *)
Definition republished (consumer : string) (m : message) (log : list observation) : Prop :=
  exists props,
    broker_has (Published RETRY_EXCHANGE (msg_routingKey m) (msg_content m) props) log \/
    broker_has (Published DEAD_LETTER_EXCHANGE
      (String.append consumer (String.append "." (msg_routingKey m))) (msg_content m) props) log.

Definition acks_safe (s : system) : Prop :=
  forall consumer m, Acked consumer m ∈ sys_log s ->
    handled consumer m s \/ republished consumer m (sys_log s).

(** The key of the restaurant listing (restaurants.service.ts). *)
Definition ACTIVE_RESTAURANTS_KEY := "restaurants:active:v1"%string.

Section guarantees.
Context {Cl : Clients} {D : Decimals} {HP : HttpPlatform}.

(** The cached listing tells the truth about the database. *)
Definition cache_sound (s : system) : Prop :=
  forall data expires, sys_cache s !! ACTIVE_RESTAURANTS_KEY = Some (data, expires) ->
    exists views, data = listing_json views /\ Forall (listed (w_db (sys_world s))) views.

Definition sys_safe (s : system) : Prop :=
  published_accepted s /\ acks_safe s /\ cache_sound s.

Definition sys_evolves (s s' : system) : Prop :=
  evolves (sys_world s) (sys_world s') /\
  (exists new, sys_log s' = sys_log s ++ new) /\
  (sys_safe s -> sys_safe s').

End guarantees.

(** ** Lemmas *)

Lemma run_lift {A : Type} (p : prog world A) s :
  run (lift p) s = (fst (run p (sys_world s)), with_world (snd (run p (sys_world s))) s).
Proof.
  revert s. induction p as [a|e|C m k IH]; intros s; simpl; [by destruct s..|].
  unfold on_world. destruct (m (sys_world s)) as [[b w]|e]; by rewrite IH.
Qed.

Lemma run_on_world {A : Type} (m : tx world A) s a w :
  m (sys_world s) = Ok (a, w) -> on_world m s = Ok (a, with_world w s).
Proof. intros Hm. unfold on_world. by rewrite Hm. Qed.

Section lemmas.
Context {Cl : Clients} {D : Decimals} {HP : HttpPlatform}.

Lemma cache_sound_mono s s' :
  evolves (sys_world s) (sys_world s') -> sys_cache s' ⊆ sys_cache s ->
  cache_sound s -> cache_sound s'.
Proof.
  intros (Ht & _) Hc Hs data e He. destruct (Hs data e) as (views & -> & Hv).
  { by eapply lookup_weaken. }
  exists views. split; [done|]. eapply Forall_impl; [exact Hv|]. intros v. by eapply listed_mono.
Qed.

Lemma sys_evolves_refl s : sys_evolves s s.
Proof. split_and!; [apply evolves_refl|exists []; by rewrite app_nil_r|done]. Qed.

Lemma broker_has_app o log new : broker_has o log -> broker_has o (log ++ new).
Proof. intros [? ?]. split; apply elem_of_app; by left. Qed.

Lemma accepted_app id log new : accepted id log -> accepted id (log ++ new).
Proof. intros (e & k & b & p & Hin & ?). exists e, k, b, p. by split; [apply broker_has_app|]. Qed.

Lemma rtc_processed consumer id w w' :
  processed consumer id (w_db w) -> rtc evolves w w' -> processed consumer id (w_db w').
Proof.
  intros Hp H. induction H as [|w1 w2 w3 (HE & _) _ IH]; [done|]. apply IH.
  destruct Hp as (k & p & Hk & ?). exists k, p. split; [|done].
  eapply table_frozen_lookup; [apply HE|done].
Qed.

Lemma handled_mono consumer m s s' :
  evolves (sys_world s) (sys_world s') -> (exists new, sys_log s' = sys_log s ++ new) ->
  handled consumer m s -> handled consumer m s'.
Proof.
  intros HE [new Hlog] (event & He & Hh). exists event. split; [done|].
  destruct (String.eqb consumer "audit").
  - destruct Hh as (id & Hid & Hp). exists id. split; [done|].
    by eapply rtc_processed, rtc_once.
  - destruct Hh as [?|(id & k & n & Hid & Hp & Hn & Hne & Hj)]; [by left|right].
    destruct (table_evolves_fwd _ _ _ _ _ _ (te_deliveries _ _ _ (proj1 HE)) Hn) as (n' & Hn' & Hc).
    exists id, k, n'. split_and!; [done|by eapply rtc_processed, rtc_once|done| |].
    + destruct Hc as [->|(_ & ? & _)]; congruence.
    + rewrite Hlog. apply elem_of_app. by left.
Qed.

Lemma republished_app consumer m log new :
  republished consumer m log -> republished consumer m (log ++ new).
Proof. intros (props & [H|H]); exists props; [left|right]; by apply broker_has_app. Qed.

(** The invariant moves along with the log: what has to be shown of a step is what it newly
    publishes, and what it newly acknowledges. *)
Lemma sys_step_evolves s s' new :
  evolves (sys_world s) (sys_world s') -> sys_log s' = sys_log s ++ new ->
  (forall k e', outboxEvents (w_db (sys_world s')) !! k = Some e' -> is_Some (ob_publishedAt e') ->
     accepted k (sys_log s') \/ exists e, outboxEvents (w_db (sys_world s)) !! k = Some e /\
       is_Some (ob_publishedAt e)) ->
  (forall consumer m, Acked consumer m ∈ new ->
     handled consumer m s' \/ republished consumer m (sys_log s')) ->
  (cache_sound s -> cache_sound s') ->
  sys_evolves s s'.
Proof.
  intros HE Hlog Hpub Hack Hc. split_and!; [done|by eexists|]. intros (Hp & Ha & Hcs).
  split_and!; [| |auto].
  - intros k e' He' Hs. destruct (Hpub _ _ He' Hs) as [?|(e & He & Hse)]; [done|].
    rewrite Hlog. apply accepted_app. by eapply Hp.
  - intros consumer m. rewrite Hlog at 1. rewrite elem_of_app. intros [Hin|Hin]; [|auto].
    destruct (Ha _ _ Hin) as [Hh|Hr].
    + left. eapply handled_mono; [done|by eexists|done].
    + right. rewrite Hlog. by apply republished_app.
Qed.

(** A quiet step of the database part. *)
Lemma quiet_sys s w : quiet (sys_world s) w -> sys_evolves s (with_world w s).
Proof.
  intros Hq. apply (sys_step_evolves _ _ []); simpl.
  - by apply quiet_evolves.
  - by rewrite app_nil_r.
  - intros k e He Hpub. right. destruct Hq as (Ht & _).
    destruct (table_evolves_bwd _ _ _ _ _ _ (te_outbox _ _ _ Ht) He)
      as [[_ (Hn & _)]|(e' & He' & [->|[]])]; [|eauto].
    rewrite Hn in Hpub. by destruct Hpub.
  - by intros consumer m ?%not_elem_of_nil.
  - apply cache_sound_mono; [by apply quiet_evolves|done].
Qed.

(** Telling a server something: an acknowledgement has to be safe. *)
Lemma tell_sys o s s' u :
  tell o s = Ok (u, s') ->
  (forall consumer m, o = Acked consumer m -> handled consumer m s' \/ republished consumer m (sys_log s')) ->
  sys_evolves s s'.
Proof.
  unfold tell. intros [= <- <-] Hack. apply (sys_step_evolves _ _ [o]); simpl.
  - apply evolves_refl.
  - done.
  - intros k e He Hp. right. eauto.
  - intros consumer m Hin%list_elem_of_singleton. by apply Hack.
  - apply cache_sound_mono; [apply evolves_refl|done].
Qed.

(** Waiting for the confirms of a publication that has been made: the broker has taken it. *)
Lemma confirms_sys o s s' u :
  waitForConfirms o s = Ok (u, s') -> o ∈ sys_log s -> sys_evolves s s' /\ broker_has o (sys_log s').
Proof.
  intros H Hin. split; [by eapply tell_sys|]. unfold waitForConfirms, tell in H.
  injection H as _ <-. split; simpl; apply elem_of_app; [by left|right; by left].
Qed.

(** A program of the database part is guarded in the system. *)
Lemma guarded_lift {A : Type} (p : prog world A) (I : world -> Prop) :
  guarded evolves quiet p I ->
  guarded sys_evolves sys_evolves (lift p) (fun s => I (sys_world s)).
Proof.
  revert I. induction p as [a|e|C m k IH]; intros I; [done..|].
  intros (J & HI & HJ & Hm & Hk & He). exists (fun b s => J b (sys_world s)). split_and!.
  - intros s s' Hs (HE & _). by eapply HI.
  - intros b s s' Hs (HE & _). by eapply HJ.
  - intros s b s' Hs Hb. unfold on_world in Hb.
    destruct (m (sys_world s)) as [[c w]|e] eqn:Hms; [|done]. simplify_eq.
    destruct (Hm _ _ _ Hs Hms). split; [by apply quiet_sys|done].
  - intros b. by apply IH.
  - intros e. by apply IH.
Qed.

Definition sys_wf (s : system) : Prop := wf (w_db (sys_world s)).

Lemma sys_wf_stable : stable sys_evolves sys_wf.
Proof. intros s s' Hs (HE & _). by eapply evolves_wf. Qed.

(** Something in the log stays there. *)
Definition sys_told (o : observation) (s : system) : Prop := sys_wf s /\ o ∈ sys_log s.

Lemma sys_told_stable o : stable sys_evolves (sys_told o).
Proof.
  intros s s' [Hw Ho] HE. split; [by eapply sys_wf_stable|].
  destruct HE as (_ & (new & ->) & _). apply elem_of_app. by left.
Qed.

Lemma tell_told o s s' u :
  sys_wf s -> tell o s = Ok (u, s') -> (forall consumer m, o <> Acked consumer m) ->
  sys_evolves s s' /\ sys_told o s'.
Proof.
  intros Hwf H Ho. assert (HE : sys_evolves s s').
  { eapply tell_sys; [done|]. intros consumer m ->. by destruct (Ho consumer m). }
  split; [done|]. split; [by eapply sys_wf_stable|]. unfold tell in H. injection H as _ <-.
  apply elem_of_app. right. by left.
Qed.

Lemma sys_log_grows s s' : sys_evolves s s' -> forall o, o ∈ sys_log s -> o ∈ sys_log s'.
Proof. intros (_ & (new & ->) & _) o Ho. apply elem_of_app. by left. Qed.

End lemmas.
