(* ===== verification/Cache.v ===== *)
(** * The cache, and the restaurants behind it

    RedisCacheService (src/src/common/cache/redis-cache.service.ts) and RestaurantsService
    (src/src/restaurants/restaurants.service.ts): the listing of the active restaurants is
    cached for a minute, and a new restaurant invalidates it. Redis itself is a parameter. *)
From S2P Require Import Prelude JsStrings Errors Effects Prisma Schema Orders Evolution.
From S2P Require Import OrderFlow Restaurants System.

(** ** Redis *)

(** By key, a text that is JSON, as the value it is the text of, and when it expires. *)
Abbreviation store := (gmap string (json * Z)).

(** The commands the code sends. Times are in milliseconds, a lifetime is in seconds; [SCAN]
    takes a cursor, a pattern and a count, and gives the next cursor and some keys. *)
Class Redis := {
  redis_get : string -> Z -> store -> option json;
  redis_set : string -> json -> Z -> Z -> store -> store;
  redis_scan : string -> string -> Z -> Z -> store -> string * list string;
  redis_del : list string -> Z -> store -> Z * store;
  scan_rank : nat -> string -> nat;
}.

Definition alive (t : Z) (st : store) (k : string) : Prop :=
  exists v e, st !! k = Some (v, e) /\ t < e.

(** A full iteration: [SCAN] called at the times and on the stores of [l], from a cursor until
    it comes back to 0; all the keys it gave. *)
Fixpoint iteration `{Redis} (pattern : string) (count : Z) (cursor : string)
    (l : list (Z * store)) : option (list string) :=
  match l with
  | [] => None
  | (t, st) :: l =>
      let (next, keys) := redis_scan cursor pattern count t st in
      if String.eqb next "0" then match l with [] => Some keys | _ :: _ => None end
      else app keys <$> iteration pattern count next l
  end.

(** The documented guarantees of [SCAN]: a full iteration gives every key that is there from
    its start to its end; only keys the pattern matches are given; and while the store does
    not outgrow a bound, the iteration ends ([scan_rank] is what is left of it). *)
Class RedisLaws (R : Redis) : Prop := {
  redis_get_spec : forall k t st, redis_get k t st =
    match st !! k with Some (v, e) => if t <? e then Some v else None | None => None end;
  redis_set_spec : forall k v ttl t st,
    redis_set k v ttl t st = <[k := (v, t + ttl * 1000)]> st;
  redis_del_spec : forall ks t st k,
    snd (redis_del ks t st) !! k = if bool_decide (k ∈ ks) then None else st !! k;
  redis_scan_all : forall prefix count l ks k,
    forallb (fun a => negb (existsb (Ascii.eqb a) (chars "*?[\"))) (chars prefix) = true ->
    iteration (String.append prefix "*") count "0" l = Some ks ->
    String.prefix prefix k = true -> (forall t st, (t, st) ∈ l -> alive t st k) -> k ∈ ks;
  redis_scan_matches : forall prefix count cursor t st k,
    forallb (fun a => negb (existsb (Ascii.eqb a) (chars "*?[\"))) (chars prefix) = true ->
    k ∈ snd (redis_scan cursor (String.append prefix "*") count t st) ->
    String.prefix prefix k = true;
  redis_scan_ends : forall n pattern count cursor t st, (size st <= n)%nat ->
    fst (redis_scan cursor pattern count t st) <> "0"%string ->
    (scan_rank n (fst (redis_scan cursor pattern count t st)) < scan_rank n cursor)%nat;
}.

(** ** RedisCacheService *)
Module RedisCacheService.
Section service.
Context `{Redis}.

Definition cache_now (s : system) : Z := w_now (sys_world s).

Definition getJson (key : string) : tx system (option json) :=
  tx_gets (fun s => redis_get key (cache_now s) (sys_cache s)).

Definition setJson (key : string) (value : json) (ttlSeconds : Z) : tx system unit := fun s =>
  Ok (tt, with_cache (redis_set key value ttlSeconds (cache_now s) (sys_cache s)) s).

Definition scan (cursor pattern : string) (count : Z) : tx system (string * list string) :=
  tx_gets (fun s => redis_scan cursor pattern count (cache_now s) (sys_cache s)).

Definition del (keys : list string) : tx system Z := fun s =>
  let (n, c) := redis_del keys (cache_now s) (sys_cache s) in Ok (n, with_cache c s).

(** The [do ... while]: each turn takes one unit of fuel. *)
Definition out_of_fuel : exn := JsError "out of fuel".

Fixpoint sweep (fuel : nat) (prefix cursor : string) (deleted : Z) : prog system Z :=
  match fuel with
  | O => Throw out_of_fuel
  | S fuel =>
      found ← await (scan cursor (String.append prefix "*") 100);
      let (nextCursor, keys) := (found : string * list string) in
      deleted' ← (match keys with
                  | [] => Ret deleted
                  | _ :: _ => n ← await (del keys); Ret (deleted + n)
                  end);
      if String.eqb nextCursor "0" then Ret deleted'
      else sweep fuel prefix nextCursor deleted'
  end.

Definition invalidatePrefix (fuel : nat) (prefix : string) : prog system Z :=
  sweep fuel prefix "0" 0.

End service.
End RedisCacheService.

(** ** RestaurantsService *)

(** The answer of the listing, with its data as the client gets it. *)
Record Listing := mkListing { l_data : json; l_cache : string }.

Module RestaurantsService.
Section service.
Context `{Prisma, Uuids, Decimals, HttpPlatform, Redis}.

Definition listActive : prog system Listing :=
  cached ← await (RedisCacheService.getJson ACTIVE_RESTAURANTS_KEY);
  match (if json_truthy cached then cached else None) with
  | Some data => Ret (mkListing data "hit")
  | None =>
      views ← await (on_world RestaurantsRepository.listActive);
      let data := listing_json views in
      _ ← await (RedisCacheService.setJson ACTIVE_RESTAURANTS_KEY data 60);
      Ret (mkListing data "miss")
  end.

Definition create (fuel : nat) (dto : CreateRestaurantDto) : prog system RestaurantView :=
  restaurant ← await (on_world (RestaurantsRepository.create (js_trim (cr_name dto))
    (map (fun i => mkCreateMenuItemDto (js_trim (cm_name i)) (cm_price i)) (cr_menuItems dto))));
  _ ← RedisCacheService.invalidatePrefix fuel "restaurants:active:";
  Ret restaurant.

End service.
End RestaurantsService.
