(* ===== verification/CacheSpec.v ===== *)
(** * The cache: correctness

    The invalidation ends and clears, a new restaurant is in the next listing, a listing is
    served from the cache for a minute; and every step of the service keeps the guarantee of
    System.v, so that what is cached is true in every interleaving. *)
From S2P Require Import Prelude JsStrings Errors Effects Prisma Schema Orders Evolution.
From S2P Require Import OrderFlow Restaurants System Cache.
Import RedisCacheService RestaurantsService.

Section cache.
Context {Cl : Clients} {P : Prisma} {U : Uuids} {D : Decimals} {HP : HttpPlatform} {R : Redis}
  {PL : PrismaLaws P} {RL : RedisLaws R}.
Implicit Types (s : system).

(** ** Invalidation *)

Lemma del_run keys s :
  run (await (del keys)) s =
    (Ok (fst (redis_del keys (cache_now s) (sys_cache s))),
     with_cache (snd (redis_del keys (cache_now s) (sys_cache s))) s).
Proof. simpl. unfold del. by destruct (redis_del _ _ _). Qed.

(** What one turn of the loop leaves in the store. *)
Definition cleared (keys : list string) (c c' : store) : Prop :=
  forall k, c' !! k = if bool_decide (k ∈ keys) then None else c !! k.

Lemma cleared_subset keys c c' : cleared keys c c' -> c' ⊆ c.
Proof.
  intros H. apply map_subseteq_spec. intros k x. rewrite H. by case_bool_decide.
Qed.

Lemma cleared_app keys keys' c c1 c' :
  cleared keys c c1 -> cleared keys' c1 c' -> cleared (keys ++ keys') c c'.
Proof.
  intros H1 H2 k. rewrite H2, H1.
  pose proof (elem_of_app keys keys' k). repeat case_bool_decide; try done; tauto.
Qed.

(** One turn of the loop. *)
Lemma turn_run (keys : list string) (deleted : Z) s :
  exists n c, run (match keys with
                   | [] => Ret deleted
                   | _ :: _ => n ← await (del keys); Ret (deleted + n)
                   end) s = (Ok n, with_cache c s) /\ cleared keys (sys_cache s) c.
Proof.
  destruct keys as [|k keys].
  - exists deleted, (sys_cache s). split; [by destruct s|]. intros k.
    by rewrite bool_decide_eq_false_2 by apply not_elem_of_nil.
  - rewrite run_bind, del_run. eexists _, _. split; [done|]. intros k'. apply redis_del_spec.
Qed.

Lemma sweep_run n fuel prefix cursor deleted s :
  (size (sys_cache s) <= n)%nat -> (scan_rank n cursor < fuel)%nat ->
  exists m c l ks, run (sweep fuel prefix cursor deleted) s = (Ok m, with_cache c s) /\
    iteration (String.append prefix "*") 100 cursor l = Some ks /\
    (forall t st, (t, st) ∈ l -> t = cache_now s /\ c ⊆ st) /\ cleared ks (sys_cache s) c.
Proof.
  revert cursor deleted s. induction fuel as [|fuel IH]; intros cursor deleted s Hsize Hrank; [lia|].
  cbn [sweep]. rewrite run_bind, run_await. unfold scan at 1, tx_gets.
  pose proof (redis_scan_ends n (String.append prefix "*") 100 cursor (cache_now s) (sys_cache s) Hsize)
    as Hend.
  destruct (redis_scan cursor (String.append prefix "*") 100 (cache_now s) (sys_cache s))
    as [next keys] eqn:Hscan. cbn [fst] in Hend.
  destruct (turn_run keys deleted s) as (m & c1 & Hturn & Hc1).
  rewrite run_bind, Hturn. destruct (String.eqb_spec next "0") as [->|Hnext].
  - exists m, c1, [(cache_now s, sys_cache s)], keys. split_and!; [done| | |done].
    + cbn [iteration]. by rewrite Hscan.
    + intros t st [= -> ->]%list_elem_of_singleton. split; [done|]. by eapply cleared_subset.
  - pose proof (cleared_subset _ _ _ Hc1) as Hsub.
    destruct (IH next m (with_cache c1 s)) as (m' & c & l & ks & Hrun & Hit & Hl & Hc).
    + simpl. apply map_subseteq_size in Hsub. lia.
    + specialize (Hend Hnext). lia.
    + simpl in Hc. exists m', c, ((cache_now s, sys_cache s) :: l), (keys ++ ks). split_and!.
      * done.
      * cbn [iteration]. rewrite Hscan, Hit. by destruct (String.eqb_spec next "0").
      * intros t st [[= -> ->]|Hin]%elem_of_cons; [|by apply Hl].
        split; [done|]. etrans; [by eapply cleared_subset|done].
      * by eapply cleared_app.
Qed.

(** A text without the special characters of a pattern. *)
Definition plain (s : string) : bool :=
  forallb (fun a => negb (existsb (Ascii.eqb a) (chars "*?[\"))) (chars s).

Lemma iteration_matches prefix cursor l ks k :
  plain prefix = true -> iteration (String.append prefix "*") 100 cursor l = Some ks ->
  k ∈ ks -> String.prefix prefix k = true.
Proof.
  intros Hp. revert cursor ks. induction l as [|[t st] l IH]; intros cursor ks; [done|].
  cbn [iteration].
  pose proof (redis_scan_matches prefix 100 cursor t st k Hp) as Hm.
  destruct (redis_scan cursor (String.append prefix "*") 100 t st) as [next keys].
  destruct (String.eqb next "0").
  - destruct l; [|done]. intros [= <-]. apply Hm.
  - intros (ks' & Hit & ->)%fmap_Some [Hk|Hk]%elem_of_app; [by apply Hm|by eapply IH].
Qed.

(** The invalidation of a prefix ends, and then no key of it is served any more; the other
    keys are untouched. *)
Lemma invalidation_clears n fuel prefix s :
  plain prefix = true -> (size (sys_cache s) <= n)%nat -> (scan_rank n "0" < fuel)%nat ->
  exists m c, run (invalidatePrefix fuel prefix) s = (Ok m, with_cache c s) /\
    c ⊆ sys_cache s /\
    (forall k, String.prefix prefix k = true -> redis_get k (cache_now s) c = None) /\
    (forall k, String.prefix prefix k = false -> c !! k = sys_cache s !! k).
Proof.
  intros Hp Hsize Hfuel.
  destruct (sweep_run n fuel prefix "0" 0 s Hsize Hfuel) as (m & c & l & ks & Hrun & Hit & Hl & Hc).
  exists m, c. split_and!; [done|by eapply cleared_subset| |].
  - intros k Hk. rewrite redis_get_spec. destruct (c !! k) as [[v e]|] eqn:Hck; [|done].
    destruct (Z.ltb_spec (cache_now s) e) as [Hlt|]; [|done]. exfalso.
    assert (Hin : k ∈ ks).
    { apply (redis_scan_all prefix 100 l ks k Hp Hit Hk). intros t st [-> Hsub]%Hl.
      exists v, e. split; [|done]. by eapply lookup_weaken. }
    rewrite Hc, bool_decide_eq_true_2 in Hck by done. done.
  - intros k Hk. rewrite Hc, bool_decide_eq_false_2; [done|]. intros Hin.
    apply (iteration_matches _ _ _ _ _ Hp Hit) in Hin. congruence.
Qed.

(** ** The listing *)

Lemma listActive_hit data s :
  redis_get ACTIVE_RESTAURANTS_KEY (cache_now s) (sys_cache s) = Some data ->
  json_truthy (Some data) = true -> run listActive s = (Ok (mkListing data "hit"), s).
Proof.
  intros Hg Ht. unfold listActive. rewrite run_bind, run_await. unfold getJson, tx_gets.
  by rewrite Hg, Ht.
Qed.

Lemma repository_lists w :
  exists views, RestaurantsRepository.listActive w = Ok (views, w).
Proof.
  unfold RestaurantsRepository.listActive. erewrite tx_bind_eq by done. unfold tx_gets. eauto.
Qed.

Lemma listActive_miss s :
  redis_get ACTIVE_RESTAURANTS_KEY (cache_now s) (sys_cache s) = None ->
  exists views, RestaurantsRepository.listActive (sys_world s) = Ok (views, sys_world s) /\
    run listActive s = (Ok (mkListing (listing_json views) "miss"),
      with_cache (<[ACTIVE_RESTAURANTS_KEY := (listing_json views, cache_now s + 60 * 1000)]>
        (sys_cache s)) s).
Proof.
  intros Hg. destruct (repository_lists (sys_world s)) as [views Hv]. exists views.
  split; [done|]. unfold listActive. rewrite run_bind, run_await. unfold getJson, tx_gets.
  rewrite Hg. cbn [json_truthy]. rewrite run_bind, run_await, (run_on_world _ _ _ _ Hv).
  cbv zeta. rewrite run_bind, run_await. unfold setJson. rewrite redis_set_spec. by destruct s.
Qed.

(** Cache-aside: when nothing is cached, the listing is read from the database, answers
    with exactly the active restaurants and their available items, and is kept; for a minute
    the cached listing is served, unchanged, without looking at the database; after the
    minute it is read again. *)
Theorem listing_cached s :
  redis_get ACTIVE_RESTAURANTS_KEY (cache_now s) (sys_cache s) = None ->
  exists views s', run listActive s = (Ok (mkListing (listing_json views) "miss"), s') /\
    Forall (listed (w_db (sys_world s))) views /\
    (forall k r, restaurants (w_db (sys_world s)) !! k = Some r -> r_active r = true ->
       exists v, v ∈ views /\ rv_restaurant v = r) /\
    (forall s2, sys_cache s2 !! ACTIVE_RESTAURANTS_KEY = sys_cache s' !! ACTIVE_RESTAURANTS_KEY ->
       if cache_now s2 <? cache_now s + 60000
       then run listActive s2 = (Ok (mkListing (listing_json views) "hit"), s2)
       else exists views2 s3, run listActive s2 = (Ok (mkListing (listing_json views2) "miss"), s3)).
Proof.
  intros Hg. destruct (listActive_miss s Hg) as (views & Hv & Hrun).
  apply listActive_inv in Hv as (_ & Hl & Hall). eexists views, _. split_and!; [done|done| |].
  - intros k r Hr Hact. destruct (Hall _ _ Hr Hact) as (v & ? & ? & _). eauto.
  - intros s2. simpl. rewrite lookup_insert_eq. intros Hs2.
    pose proof (redis_get_spec ACTIVE_RESTAURANTS_KEY (cache_now s2) (sys_cache s2)) as Hg2.
    rewrite Hs2 in Hg2. replace (60 * 1000) with 60000 in Hg2 by done.
    destruct (cache_now s2 <? cache_now s + 60000).
    + by apply listActive_hit.
    + destruct (listActive_miss s2 Hg2) as (views2 & _ & Hrun2). eauto.
Qed.

(** C40: A new restaurant is listed at once: once it is stored, the invalidation ends (it has
    fuel for an iteration over the cache), drops every cached listing and leaves the rest of
    the cache alone, and the next listing, read from the database, has the restaurant with
    its whole menu. *)
Theorem new_restaurant_listed fuel dto s view w :
  RestaurantsRepository.create (js_trim (cr_name dto))
    (map (fun i => mkCreateMenuItemDto (js_trim (cm_name i)) (cm_price i)) (cr_menuItems dto))
    (sys_world s) = Ok (view, w) ->
  (scan_rank (size (sys_cache s)) "0" < fuel)%nat ->
  exists s1 views v s2, run (create fuel dto) s = (Ok view, s1) /\ sys_world s1 = w /\
    (forall k, String.prefix "restaurants:active:" k = false -> sys_cache s1 !! k = sys_cache s !! k) /\
    run listActive s1 = (Ok (mkListing (listing_json views) "miss"), s2) /\
    v ∈ views /\ rv_restaurant v = rv_restaurant view /\
    (forall m, m ∈ rv_menu view -> m ∈ rv_menu v).
Proof.
  intros Hc Hfuel.
  destruct (invalidation_clears (size (sys_cache s)) fuel "restaurants:active:" (with_world w s)
    eq_refl (le_n _) Hfuel) as (m & c & Hrun & _ & Hclear & Hrest).
  set (s1 := with_cache c (with_world w s)).
  destruct (listActive_miss s1) as (views & Hv & Hlist); [by apply Hclear|].
  apply listActive_inv in Hv as (_ & _ & Hall).
  apply create_restaurant_inv in Hc as Hinv.
  destruct Hinv as (Hr & _ & _ & t & Hdb & _ & _ & Hrows & Hin).
  destruct (Hall (r_id (rv_restaurant view)) (rv_restaurant view)) as (v & Hvin & Hvr & Hmenu).
  { simpl. rewrite Hdb. simpl. apply lookup_insert_eq. }
  { by rewrite Hr. }
  exists s1, views, v. eexists. split_and!; [|done|exact Hrest|exact Hlist|done|done|].
  - unfold create. rewrite run_bind, run_await, (run_on_world _ _ _ _ Hc), run_bind, Hrun. done.
  - intros x Hx. apply (Hmenu (mi_id x)).
    + simpl. rewrite Hdb. simpl. by apply Hin.
    + apply list_elem_of_lookup in Hx as [n Hx].
      by destruct (Forall2_lookup_r _ _ _ _ _ Hrows Hx) as (i & _ & ? & _).
    + apply list_elem_of_lookup in Hx as [n Hx].
      by destruct (Forall2_lookup_r _ _ _ _ _ Hrows Hx) as (i & _ & _ & _ & _ & ? & _).
Qed.

Lemma sweep_world fuel prefix cursor deleted s :
  sys_world (snd (run (sweep fuel prefix cursor deleted) s)) = sys_world s.
Proof.
  revert cursor deleted s. induction fuel as [|fuel IH]; intros cursor deleted s; [done|].
  cbn [sweep]. rewrite run_bind, run_await. unfold scan, tx_gets.
  destruct (redis_scan _ _ _ _ _) as [next keys].
  destruct (turn_run keys deleted s) as (m & c & Hturn & _). rewrite run_bind, Hturn.
  destruct (String.eqb next "0"); [done|]. by rewrite IH.
Qed.

Lemma create_run_inv fuel dto s view s' :
  run (create fuel dto) s = (Ok view, s') ->
  exists w, RestaurantsRepository.create (js_trim (cr_name dto))
    (map (fun i => mkCreateMenuItemDto (js_trim (cm_name i)) (cm_price i)) (cr_menuItems dto))
    (sys_world s) = Ok (view, w) /\ sys_world s' = w.
Proof.
  unfold create. rewrite run_bind, run_await. unfold on_world.
  destruct (RestaurantsRepository.create _ _ (sys_world s)) as [[v w]|e] eqn:Hc; [|done].
  rewrite run_bind. pose proof (sweep_world fuel "restaurants:active:" "0" 0 (with_world w s)) as Hw.
  unfold invalidatePrefix. destruct (run (sweep _ _ _ _) _) as [[n|e] s1]; [|done].
  simpl in *. intros [= <- <-]. eauto.
Qed.

(** A new restaurant is open for orders: creating it stores an active restaurant under its
    trimmed name and one available menu item per requested item, with its trimmed name and
    its price, so that an order of any of those items, once each, is priced at exactly these
    prices. *)
Theorem restaurant_orderable fuel dto s view s' quantities :
  run (create fuel dto) s = (Ok view, s') ->
  length quantities = length (rv_menu view) ->
  let rid := r_id (rv_restaurant view) in
  let w' := sys_world s' in
  active_restaurant (w_db w') rid /\
  r_name (rv_restaurant view) = js_trim (cr_name dto) /\
  mi_price <$> rv_menu view = cm_price <$> cr_menuItems dto /\
  mi_name <$> rv_menu view = (fun i => js_trim (cm_name i)) <$> cr_menuItems dto /\
  priced_items (w_db w')
    (mkCreateOrderDto rid (zip_with (fun m q => mkCreateOrderItemDto (mi_id m) q)
       (rv_menu view) quantities))
    (zip_with (fun m q => mkLineItem (mi_id m) (mi_name m) (mi_price m) q (mi_price m * q))
       (rv_menu view) quantities).
Proof.
  intros H Hlen rid w'. apply create_run_inv in H as (w & Hc & Hw). fold w' in Hw. subst w.
  apply create_restaurant_inv in Hc as (Hr & Hn & _ & t & Hdb & Ht & _ & Hrows & Hin).
  simpl. split_and!.
  - exists (r_id (rv_restaurant view)), (rv_restaurant view). rewrite Hdb. simpl.
    rewrite lookup_insert_eq. split_and!; try done. by rewrite Hr.
  - by rewrite Hr.
  - clear -Hrows. remember (map _ (cr_menuItems dto)) as l.
    assert (cm_price <$> cr_menuItems dto = cm_price <$> l) as ->.
    { subst l. rewrite <- list_fmap_compose. by apply list_fmap_ext. }
    clear Heql. induction Hrows as [|i m l ms (_ & _ & Hp & _) _ IH]; [done|].
    by rewrite !fmap_cons, Hp, IH.
  - clear -Hrows. remember (map _ (cr_menuItems dto)) as l.
    assert ((fun i => js_trim (cm_name i)) <$> cr_menuItems dto = cm_name <$> l) as ->.
    { subst l. rewrite <- list_fmap_compose. by apply list_fmap_ext. }
    clear Heql. induction Hrows as [|i m l ms (_ & Hp & _) _ IH]; [done|].
    by rewrite !fmap_cons, Hp, IH.
  - assert (Hms : Forall (fun m => menuItems (w_db w') !! mi_id m = Some m /\
      mi_available m = true /\ mi_restaurantId m = r_id (rv_restaurant view)) (rv_menu view)).
    { apply Forall_forall. intros m Hm. rewrite Hdb. simpl. split; [by apply Hin|].
      apply list_elem_of_lookup in Hm as [n Hm].
      destruct (Forall2_lookup_r _ _ _ _ _ Hrows Hm) as (i & _ & ? & _ & _ & ? & _). done. }
    unfold priced_items. simpl. clear -Hms Hlen. revert quantities Hlen.
    induction Hms as [|m ms (Hm & Ha & Hrid) _ IH]; intros [|q qs] Hlen; try done; simpl; constructor.
    + exists m. by split_and!.
    + apply IH. by injection Hlen.
Qed.

(** ** In every interleaving *)

Lemma cache_step s c :
  (cache_sound s -> cache_sound (with_cache c s)) -> sys_evolves s (with_cache c s).
Proof.
  intros Hc. apply (sys_step_evolves _ _ []); simpl.
  - apply evolves_refl.
  - by rewrite app_nil_r.
  - intros k e He Hs. right. eauto.
  - by intros k m ?%not_elem_of_nil.
  - done.
Qed.

Lemma cache_shrinks s c : c ⊆ sys_cache s -> sys_evolves s (with_cache c s).
Proof. intros Hc. apply cache_step, cache_sound_mono; [apply evolves_refl|done]. Qed.

Lemma sweep_guarded fuel prefix cursor deleted :
  guarded sys_evolves sys_evolves (sweep fuel prefix cursor deleted) sys_wf.
Proof.
  revert cursor deleted. induction fuel as [|fuel IH]; intros cursor deleted; [done|].
  cbn [sweep]. apply guarded_await_then with (J := fun _ => sys_wf);
    [apply sys_wf_stable|intros _; apply sys_wf_stable| |].
  { intros s [next ks] s' Hwf H. unfold scan, tx_gets in H. injection H as _ <-.
    split; [apply sys_evolves_refl|done]. }
  intros [next keys]. apply guarded_then; [done|apply sys_wf_stable| |].
  - destruct keys as [|k keys]; [done|].
    apply guarded_await_then with (J := fun _ => sys_wf); try done;
      [apply sys_wf_stable|intros _; apply sys_wf_stable|].
    intros s n s' Hwf H. unfold del in H.
    pose proof (redis_del_spec (k :: keys) (cache_now s) (sys_cache s)) as Hd.
    destruct (redis_del _ _ _) as [n' c]. simplify_eq. split; [|done].
    apply cache_shrinks. by apply (cleared_subset (k :: keys)).
  - intros m. destruct (String.eqb next "0"); [done|apply IH].
Qed.

Lemma restaurants_create_guarded fuel dto :
  guarded sys_evolves sys_evolves (create fuel dto) sys_wf.
Proof.
  unfold create. apply guarded_await_then with (J := fun _ => sys_wf);
    [apply sys_wf_stable|intros _; apply sys_wf_stable| |].
  - intros s v s' Hwf H. unfold on_world in H.
    destruct (RestaurantsRepository.create _ _ (sys_world s)) as [[v' w]|e] eqn:Hc; [|done].
    simplify_eq. pose proof (create_restaurant_quiet _ _ _ _ _ Hwf Hc) as Hq.
    split; [by apply quiet_sys|]. by eapply evolves_wf.
  - intros v. apply guarded_then; [done|apply sys_wf_stable|apply sweep_guarded|done].
Qed.

(** What was read from the database is still there when it is cached. *)
Definition views_listed (views : list RestaurantView) (s : system) : Prop :=
  Forall (listed (w_db (sys_world s))) views.

Lemma views_listed_stable views : stable sys_evolves (views_listed views).
Proof.
  intros s s' Hv ((Ht & _) & _). eapply Forall_impl; [exact Hv|]. intros v. by eapply listed_mono.
Qed.

Lemma restaurants_list_guarded : guarded sys_evolves sys_evolves listActive sys_wf.
Proof.
  unfold listActive. apply guarded_await_then with (J := fun _ => sys_wf);
    [apply sys_wf_stable|intros _; apply sys_wf_stable| |].
  { intros s c s' Hwf H. unfold getJson, tx_gets in H. simplify_eq.
    split; [apply sys_evolves_refl|done]. }
  intros cached. destruct (if json_truthy cached then cached else None); [done|].
  apply guarded_await_then with (J := views_listed);
    [apply sys_wf_stable|apply views_listed_stable| |].
  - intros s views s' Hwf H. unfold on_world in H.
    destruct (RestaurantsRepository.listActive (sys_world s)) as [[v' w]|e] eqn:Hl; [|done].
    simplify_eq. apply listActive_inv in Hl as (-> & Hl & _).
    assert (with_world (sys_world s) s = s) as -> by (by destruct s).
    split; [apply sys_evolves_refl|done].
  - intros views. cbv zeta. apply guarded_await_then with (J := fun _ _ => True); try done;
      [apply views_listed_stable|].
    intros s u s' Hv H. unfold setJson in H. simplify_eq. split; [|done].
    apply cache_step. intros Hs data e. simpl. rewrite redis_set_spec, lookup_insert_eq.
    intros [= <- _]. by exists views.
Qed.

End cache.
