(* ===== verification/Outbox.v ===== *)
(** * The outbox publisher

    OutboxPublisherService (src/src/queue/outbox-publisher.service.ts) and
    RabbitPublisherService.publish: every second an instance leases up to 25 due events,
    publishes each one and marks it, or defers it with an exponential backoff. *)
From S2P Require Import Prelude JsStrings Errors Effects Prisma Schema Orders Evolution OrderFlow.
From S2P Require Import System.

Record LeasedOutboxEvent := mkLeasedOutboxEvent {
  le_id : string; le_type : string; le_aggregateType : string; le_aggregateId : string;
  le_payload : json; le_correlationId : option string; le_attempts : Z; le_createdAt : Z }.

Module RabbitPublisherService.

Definition message_of (event : DomainEvent) (key : string) : observation :=
  Published EVENT_EXCHANGE key (Json (event_json event))
    {| messageId := Some (de_id event); correlation := de_correlationId event;
       messageType := Some (de_type event); deliveryMode := 2; expiration := None;
       x_retry_count := None; x_final_error := None |}.

Definition publish (event : DomainEvent) : prog system unit :=
  _ ← await ensureConnected;
  match routingKeyFor (de_type event) with
  | None => Throw (JsError "Expecting a string for field 'routingKey'")
  | Some key =>
      _ ← await (tell (message_of event key));
      await (waitForConfirms (message_of event key))
  end.

(** [channel.checkExchange(...)]: a step that may fail, and changes nothing. *)
Definition checkExchange : tx system unit := fun s => Ok (tt, s).

Definition ping : prog system unit :=
  _ ← await ensureConnected;
  await checkExchange.

(** A failure at startup is logged. *)
Definition onModuleInit (SKIP_EXTERNAL_CONNECTIONS : bool) : prog system unit :=
  if SKIP_EXTERNAL_CONNECTIONS then Ret tt
  else try_catch (await ensureConnected) (fun _ => Ret tt).

End RabbitPublisherService.

Module OutboxPublisherService.
Section publisher.
Context `{Prisma, Uuids, HttpPlatform, ErrorText}.
Variable instanceId : string.

(** The [WHERE] of the lease: unpublished, due, and not locked in the last 30 seconds. *)
Definition leasable (t : Z) (e : OutboxEvent) : bool :=
  bool_decide (ob_publishedAt e = None) && (ob_nextAttemptAt e <=? t) &&
  match ob_lockedAt e with None => true | Some l => l <? t - 30 * 1000 end.

Definition oldest_first (e e' : OutboxEvent) : bool := ob_createdAt e <=? ob_createdAt e'.

Definition set_lock (t : Z) (e : OutboxEvent) : OutboxEvent := {|
  ob_id := ob_id e; ob_type := ob_type e; ob_aggregateType := ob_aggregateType e;
  ob_aggregateId := ob_aggregateId e; ob_payload := ob_payload e;
  ob_correlationId := ob_correlationId e; ob_attempts := ob_attempts e;
  ob_nextAttemptAt := ob_nextAttemptAt e; ob_lockedAt := Some t;
  ob_lockedBy := Some instanceId; ob_publishedAt := ob_publishedAt e;
  ob_lastError := ob_lastError e; ob_createdAt := ob_createdAt e |}.

Definition leased (e : OutboxEvent) : LeasedOutboxEvent :=
  mkLeasedOutboxEvent (ob_id e) (ob_type e) (ob_aggregateType e) (ob_aggregateId e)
    (ob_payload e) (ob_correlationId e) (ob_attempts e) (ob_createdAt e).

(** One SQL statement: pick, lock, return. *)
Definition lease (limit : nat) : tx world (list LeasedOutboxEvent) :=
  t ← now;
  picked ← db_findMany OutboxEvents (leasable t) oldest_first 0 (Some limit);
  _ ← db_updateMany OutboxEvents outbox_columns
        (fun e => bool_decide (ob_id e ∈ map ob_id picked)) (set_lock t);
  mret (map leased (returning picked)).

Definition set_published (t : Z) (e : OutboxEvent) : OutboxEvent := {|
  ob_id := ob_id e; ob_type := ob_type e; ob_aggregateType := ob_aggregateType e;
  ob_aggregateId := ob_aggregateId e; ob_payload := ob_payload e;
  ob_correlationId := ob_correlationId e; ob_attempts := ob_attempts e;
  ob_nextAttemptAt := ob_nextAttemptAt e; ob_lockedAt := None;
  ob_lockedBy := None; ob_publishedAt := Some t;
  ob_lastError := None; ob_createdAt := ob_createdAt e |}.

(** [where: { id: record.id, lockedBy: this.instanceId }]. *)
Definition held (id : string) (e : OutboxEvent) : bool :=
  String.eqb (ob_id e) id && bool_decide (ob_lockedBy e = Some instanceId).

Definition mark_published (record : LeasedOutboxEvent) : tx world nat :=
  t ← now;
  db_updateMany OutboxEvents outbox_columns (held (le_id record)) (set_published t).

(** [Math.min(60, 2 ** Math.min(attempts, 6))] with [attempts = record.attempts + 1]. *)
Definition delaySeconds (record : LeasedOutboxEvent) : Z :=
  Z.min 60 (2 ^ Z.min (le_attempts record + 1) 6).

Definition set_deferred (next : Z) (error : exn) (e : OutboxEvent) : OutboxEvent := {|
  ob_id := ob_id e; ob_type := ob_type e; ob_aggregateType := ob_aggregateType e;
  ob_aggregateId := ob_aggregateId e; ob_payload := ob_payload e;
  ob_correlationId := ob_correlationId e; ob_attempts := ob_attempts e + 1;
  ob_nextAttemptAt := next; ob_lockedAt := None;
  ob_lockedBy := None; ob_publishedAt := ob_publishedAt e;
  ob_lastError := Some (js_slice 2000 (error_message error)); ob_createdAt := ob_createdAt e |}.

Definition defer (record : LeasedOutboxEvent) (error : exn) : tx world nat :=
  t ← now;
  db_updateMany OutboxEvents outbox_columns (held (le_id record))
    (set_deferred (t + delaySeconds record * 1000) error).

Definition event_of (record : LeasedOutboxEvent) : DomainEvent :=
  mkDomainEvent (le_id record) (le_type record) (toISOString (le_createdAt record))
    (le_aggregateType record) (le_aggregateId record) (truthy (le_correlationId record))
    (le_payload record).

(** [this.metrics.outboxPublished.inc({ type: record.type })]. *)
Definition count (type : string) : prog system unit := await (tell (Counted instanceId type)).

Definition publishOne (record : LeasedOutboxEvent) : prog system unit :=
  try_catch
    (_ ← RabbitPublisherService.publish (event_of record);
     _ ← await (on_world (mark_published record));
     count (le_type record))
    (fun error =>
       _ ← await (on_world (defer record error));
       Ret tt).

(** [if (this.running) return; this.running = true], and the [finally]. *)
Definition enter : tx system bool := fun s =>
  if bool_decide (instanceId ∈ sys_running s) then Ok (false, s)
  else Ok (true, mkSystem (sys_world s) (sys_log s) ({[instanceId]} ∪ sys_running s)
                   (sys_reachable s) (sys_cache s)).
Definition leave : tx system unit := fun s =>
  Ok (tt, mkSystem (sys_world s) (sys_log s) (sys_running s ∖ {[instanceId]}) (sys_reachable s)
    (sys_cache s)).

Definition publishBatch (SKIP_EXTERNAL_CONNECTIONS : bool) : prog system unit :=
  if SKIP_EXTERNAL_CONNECTIONS then Ret tt
  else
    entered ← await enter;
    if negb entered then Ret tt
    else
      _ ← try_catch
            (events ← await (on_world (lease 25));
             for_each publishOne events)
            (fun _ => Ret tt);
      await leave.

End publisher.
End OutboxPublisherService.
