(* ===== verification/OutboxSpec.v ===== *)
(** * What the outbox publisher promises

    Leases are exclusive and oldest first, the backoff is bounded, a batch that runs alone
    publishes what it leased, and in every interleaving an event marked as published has
    been confirmed by the broker. *)
From S2P Require Import Prelude JsStrings Errors Effects Prisma Schema Orders Evolution OrderFlow.
From S2P Require Import System Outbox.

Import OutboxPublisherService.

(** ** The invariant and the outbox *)

Section invariant.
Context {Cl : Clients}.

Lemma wf_set_outbox d t :
  wf d -> table_evolves outbox_fresh outbox_change (outboxEvents d) t ->
  (forall k e, t !! k = Some e -> outbox_wf k e) ->
  wf (t_set OutboxEvents t d).
Proof.
  intros [Hu Hem Hnem Htok Hm Hi Hord Hpay Hpk Hout Hproc Hdel Hdk Htu Hntf] Ht Hw.
  split; simpl; try done.
  - intros k o Ho.
    eapply (order_wf_mono d); [exact Ht|apply table_evolves_refl|done|by apply Hord].
  - intros k p Hp. eapply (payment_wf_mono d);
      [apply table_evolves_refl|exact Ht|apply table_evolves_refl|by apply Hpay].
Qed.

Lemma evolves_outbox w p f :
  (forall k e, outboxEvents (w_db w) !! k = Some e -> p e = true ->
     outbox_change e (f e) /\ (outbox_wf k e -> outbox_wf k (f e))) ->
  evolves w (with_db (t_set OutboxEvents (update_where p f (outboxEvents (w_db w)))) w).
Proof.
  intros H.
  assert (Ht : table_evolves outbox_fresh outbox_change (outboxEvents (w_db w))
    (update_where p f (outboxEvents (w_db w)))).
  { apply table_evolves_update. intros k e Hk Hp. by destruct (H _ _ Hk Hp). }
  split_and!; simpl; [|intros Hwf|lia].
  - split; simpl; auto with evolves.
  - apply (wf_set_outbox (w_db w) (update_where p f (outboxEvents (w_db w)))); [done|done|].
    intros k e. rewrite lookup_update_where. intros (e' & He' & ->)%fmap_Some.
    pose proof (wf_outbox _ Hwf _ _ He'). destruct (p e') eqn:Hp; [|done].
    by apply (H _ _ He' Hp).
Qed.

End invariant.

Section publisher.
Context {Cl : Clients} {P : Prisma} {U : Uuids} {D : Decimals} {HP : HttpPlatform} {ET : ErrorText}
  {PL : PrismaLaws P}.
Implicit Types (w : world) (s : system) (record : LeasedOutboxEvent) (i : string).

(** ** Backoff *)

Lemma delay_cases record :
  0 <= le_attempts record ->
  delaySeconds record = if le_attempts record <? 5 then 2 ^ (le_attempts record + 1) else 60.
Proof.
  intros Hr. unfold delaySeconds. destruct (Z.ltb_spec (le_attempts record) 5).
  - rewrite (Z.min_l (_ + 1)) by lia.
    assert (2 ^ (le_attempts record + 1) <= 32)
      by (change 32 with (2 ^ 5); apply Z.pow_le_mono_r; lia).
    lia.
  - rewrite (Z.min_r (_ + 1)) by lia. reflexivity.
Qed.

Lemma delay_bounds record : 0 <= le_attempts record -> 2 <= delaySeconds record <= 60.
Proof.
  intros Hr. rewrite (delay_cases _ Hr). destruct (Z.ltb_spec (le_attempts record) 5); [|lia].
  assert (2 ^ 1 <= 2 ^ (le_attempts record + 1) <= 2 ^ 5) by (split; apply Z.pow_le_mono_r; lia).
  change (2 ^ 1) with 2 in *. change (2 ^ 5) with 32 in *. lia.
Qed.

(** The backoff of the publisher is bounded: from a non-negative count the delay is between
    2 and 60 seconds, doubles with each attempt until it reaches the cap at the sixth, and
    never decreases. *)
Lemma backoff_bounds record record' :
  0 <= le_attempts record <= le_attempts record' ->
  2 <= delaySeconds record <= 60 /\
  delaySeconds record <= delaySeconds record' /\
  (le_attempts record < 5 -> delaySeconds record = 2 ^ (le_attempts record + 1)) /\
  (5 <= le_attempts record -> delaySeconds record = 60).
Proof.
  intros [H0 Hle]. pose proof (delay_bounds record H0).
  rewrite !delay_cases in * by lia.
  destruct (Z.ltb_spec (le_attempts record) 5), (Z.ltb_spec (le_attempts record') 5);
    split_and!; try lia.
  apply Z.pow_le_mono_r; lia.
Qed.

(** ** Leases *)

Lemma oldest_first_total : Total (by_leb oldest_first).
Proof. intros e e'. unfold by_leb, oldest_first. rewrite !Z.leb_le. lia. Qed.
Lemma oldest_first_trans : Transitive (by_leb oldest_first).
Proof. intros x y z. unfold by_leb, oldest_first. rewrite !Z.leb_le. lia. Qed.

(** The events a lease at time [t] picks. *)
Definition picked (w : world) (limit : nat) : list OutboxEvent :=
  findMany (leasable (w_now w)) oldest_first 0 (Some limit) (outboxEvents (w_db w)).

Lemma picked_spec w limit :
  exists l, l ≡ₚ where_rows (leasable (w_now w)) (outboxEvents (w_db w)) /\
    Sorted (by_leb oldest_first) l /\ picked w limit = take limit l.
Proof.
  destruct (findMany_spec _ (leasable (w_now w)) oldest_first 0 (Some limit)
    (outboxEvents (w_db w)) oldest_first_total) as (l & Hp & Hs & Heq).
  by exists l.
Qed.

Lemma elem_of_picked w limit e :
  e ∈ picked w limit -> leasable (w_now w) e = true /\ exists k, outboxEvents (w_db w) !! k = Some e.
Proof.
  destruct (picked_spec w limit) as (l & Hp & _ & ->). intros He%elem_of_take.
  destruct He as (n & Hn & _). apply list_elem_of_lookup_2 in Hn. rewrite Hp in Hn.
  by apply elem_of_where_rows.
Qed.

Lemma lease_inv i limit w l w' :
  lease i limit w = Ok (l, w') ->
  (exists pk, pk ≡ₚ picked w limit /\ l = map leased pk) /\
  w' = with_db (t_set OutboxEvents (update_where
    (fun e => bool_decide (ob_id e ∈ map ob_id (picked w limit))) (set_lock i (w_now w))
    (outboxEvents (w_db w)))) w.
Proof.
  unfold lease. intros H. tx_draw H.
  apply tx_bind_Ok in H as (pk & s' & Hs & H). unfold db_findMany, tx_gets in Hs. simplify_eq.
  apply tx_bind_Ok in H as (n & s1 & Hs & H).
  apply db_updateMany_inv in Hs as (_ & -> & _). tx_return H.
  split; [|done]. eexists. split; [apply returning_spec|done].
Qed.

Lemma picked_by_id w limit k e :
  wf (w_db w) -> outboxEvents (w_db w) !! k = Some e ->
  ob_id e ∈ map ob_id (picked w limit) -> e ∈ picked w limit.
Proof.
  intros Hwf Hk (e' & Hid & He')%list_elem_of_fmap.
  destruct (elem_of_picked _ _ _ He') as [_ [k' Hk']].
  pose proof (bw_id _ _ (wf_outbox _ Hwf _ _ Hk)). pose proof (bw_id _ _ (wf_outbox _ Hwf _ _ Hk')).
  assert (k = k') as -> by congruence. assert (e = e') as -> by congruence. done.
Qed.

Lemma leasable_spec t e :
  leasable t e = true <->
  ob_publishedAt e = None /\ ob_nextAttemptAt e <= t /\
  (forall l, ob_lockedAt e = Some l -> l < t - 30000).
Proof.
  unfold leasable. rewrite !andb_true_iff, bool_decide_eq_true, Z.leb_le.
  destruct (ob_lockedAt e) as [l|]; [rewrite Z.ltb_lt|]; split.
  - intros [[? ?] ?]. split_and!; try done. by intros ? [= <-].
  - intros (? & ? & H). split; [done|]. by apply H.
  - intros [[? ?] _]. by split_and!.
  - by intros (? & ? & _).
Qed.

(** Marking and deferring are for the holder of the lock. *)
Lemma unheld_kept j id record p f (t : gmap string OutboxEvent) e :
  t !! id = Some e -> ob_lockedBy e <> Some j ->
  (forall x, p x = true -> held j (le_id record) x = true) ->
  update_where p f t !! id = Some e.
Proof.
  intros He Hl Hp. rewrite lookup_update_where, He. simpl. destruct (p e) eqn:Hpe; [|done].
  apply Hp, andb_true_iff in Hpe as [_ Hb%bool_decide_eq_true]. done.
Qed.

(** C32: A lease takes the oldest due events and nobody else's: at most the limit, each one
    unpublished, due and not locked in the last 30 seconds; every other such event is at
    least as young as each one taken. As long as its instance has not released it, by
    publishing or deferring it, an event that is taken is that instance's alone: whatever
    else has happened to the system since, no lease of the next 30 seconds takes it, and no
    other instance marks it or defers it. *)
Theorem lease_exclusive i limit w l w1 :
  wf (w_db w) -> lease i limit w = Ok (l, w1) ->
  (length l <= limit)%nat /\
  (forall r, r ∈ l -> exists e, outboxEvents (w_db w) !! le_id r = Some e /\ r = leased e /\
     ob_publishedAt e = None /\ ob_nextAttemptAt e <= w_now w /\
     (forall at_, ob_lockedAt e = Some at_ -> at_ < w_now w - 30000) /\
     outboxEvents (w_db w1) !! le_id r = Some (set_lock i (w_now w) e)) /\
  (forall r k e, r ∈ l -> outboxEvents (w_db w) !! k = Some e ->
     leasable (w_now w) e = true -> k ∉ map le_id l -> le_createdAt r <= ob_createdAt e) /\
  (forall id w2 e2, id ∈ map le_id l -> wf (w_db w2) ->
     outboxEvents (w_db w2) !! id = Some e2 -> ob_lockedAt e2 = Some (w_now w) ->
     ob_lockedBy e2 = Some i ->
     (forall j limit' l' w3, w_now w2 <= w_now w + 30000 ->
        lease j limit' w2 = Ok (l', w3) -> id ∉ map le_id l') /\
     (forall j record n w3, j <> i -> mark_published j record w2 = Ok (n, w3) ->
        outboxEvents (w_db w3) !! id = Some e2) /\
     (forall j record error n w3, j <> i -> defer j record error w2 = Ok (n, w3) ->
        outboxEvents (w_db w3) !! id = Some e2)).
Proof.
  intros Hwf Hl. apply lease_inv in Hl as [(pk & Hpks & ->) ->].
  destruct (picked_spec w limit) as (all & Hperm & Hsort & Hpk).
  assert (Hids : forall e, e ∈ picked w limit -> outboxEvents (w_db w) !! ob_id e = Some e).
  { intros e He. destruct (elem_of_picked _ _ _ He) as [_ [k Hk]].
    by rewrite (bw_id _ _ (wf_outbox _ Hwf _ _ Hk)). }
  split_and!.
  - rewrite length_map, Hpks, Hpk, length_take. lia.
  - intros r (e & -> & He)%list_elem_of_fmap. rewrite Hpks in He. exists e.
    destruct (elem_of_picked _ _ _ He) as [(? & ? & ?)%leasable_spec _].
    split_and!; [by apply Hids|done|done|done|done|]. simpl.
    rewrite lookup_update_where, (Hids _ He). simpl.
    rewrite bool_decide_eq_true_2; [done|]. apply list_elem_of_fmap. by exists e.
  - intros r k e (x & -> & Hx)%list_elem_of_fmap Hk Hle Hnot. rewrite Hpks, Hpk in Hx.
    assert (He : e ∈ drop limit all).
    { assert (e ∈ all) as He by (rewrite Hperm; apply elem_of_where_rows; eauto).
      rewrite <- (take_drop limit all) in He. apply elem_of_app in He as [He|He]; [|done].
      destruct Hnot. rewrite map_map. apply list_elem_of_fmap. exists e.
      rewrite Hpks, Hpk. split; [|done]. symmetry. apply (bw_id _ _ (wf_outbox _ Hwf _ _ Hk)). }
    simpl. apply Sorted_StronglySorted in Hsort; [|apply oldest_first_trans].
    rewrite <- (take_drop limit all) in Hsort.
    apply Z.leb_le. change (by_leb oldest_first x e).
    by eapply StronglySorted_app_1_elem_of.
  - intros id w2 e2 _ Hwf2 He2 Hat Hby. split_and!.
    + intros j limit' l' w3 Ht [(pk' & Hpks' & ->) _]%lease_inv.
      intros (r' & -> & (e' & -> & He')%list_elem_of_fmap)%list_elem_of_fmap. rewrite Hpks' in He'.
      destruct (elem_of_picked _ _ _ He') as [(_ & _ & Hlk)%leasable_spec [k Hk]]. simpl in *.
      rewrite (bw_id _ _ (wf_outbox _ Hwf2 _ _ Hk)), Hk in He2. injection He2 as ->.
      specialize (Hlk _ Hat). lia.
    + intros j record n w3 Hj H. unfold mark_published in H. tx_draw H.
      apply db_updateMany_inv in H as (_ & -> & _). simpl.
      eapply unheld_kept; [done| |by intros x Hx]. rewrite Hby. congruence.
    + intros j record error n w3 Hj H. unfold defer in H. tx_draw H.
      apply db_updateMany_inv in H as (_ & -> & _). simpl.
      eapply unheld_kept; [done| |by intros x Hx]. rewrite Hby. congruence.
Qed.


(** ** In every interleaving *)

Lemma outbox_sys s p f :
  (forall k e, outboxEvents (w_db (sys_world s)) !! k = Some e -> p e = true ->
     outbox_change e (f e) /\ (outbox_wf k e -> outbox_wf k (f e)) /\
     (is_Some (ob_publishedAt (f e)) -> accepted k (sys_log s))) ->
  sys_evolves s (with_world (with_db (t_set OutboxEvents
    (update_where p f (outboxEvents (w_db (sys_world s))))) (sys_world s)) s).
Proof.
  intros H. apply (sys_step_evolves _ _ []); simpl.
  - apply evolves_outbox. intros k e Hk Hp. by destruct (H _ _ Hk Hp) as (? & ? & _).
  - by rewrite app_nil_r.
  - intros k e. rewrite lookup_update_where. intros (e' & He' & ->)%fmap_Some Hs.
    destruct (p e') eqn:Hp; [left; by apply (H _ _ He' Hp)|right; eauto].
  - by intros consumer m ?%not_elem_of_nil.
  - apply cache_sound_mono; [|done]. apply evolves_outbox. intros k e Hk Hp.
    by destruct (H _ _ Hk Hp) as (? & ? & _).
Qed.

Lemma held_spec i id k e :
  outbox_wf k e -> held i id e = true ->
  ob_id e = id /\ k = id /\ ob_lockedBy e = Some i /\ ob_publishedAt e = None.
Proof.
  intros [Hid Hrel _] [He%String.eqb_eq Hl%bool_decide_eq_true]%andb_true_iff.
  split_and!; [done|congruence|done|].
  destruct (ob_publishedAt e); [|done]. by rewrite Hrel in Hl by eauto.
Qed.

Lemma mark_inv i record w n w' :
  mark_published i record w = Ok (n, w') ->
  w' = with_db (t_set OutboxEvents (update_where (held i (le_id record))
    (set_published (w_now w)) (outboxEvents (w_db w)))) w.
Proof.
  unfold mark_published. intros H. tx_draw H. by apply db_updateMany_inv in H as (_ & -> & _).
Qed.

Lemma defer_inv i record error w n w' :
  defer i record error w = Ok (n, w') ->
  w' = with_db (t_set OutboxEvents (update_where (held i (le_id record))
    (set_deferred (w_now w + delaySeconds record * 1000) error) (outboxEvents (w_db w)))) w.
Proof.
  unfold defer. intros H. tx_draw H. by apply db_updateMany_inv in H as (_ & -> & _).
Qed.

Lemma on_world_inv {X : Type} (m : tx world X) s a s' :
  on_world m s = Ok (a, s') -> exists w, m (sys_world s) = Ok (a, w) /\ s' = with_world w s.
Proof.
  unfold on_world. destruct (m (sys_world s)) as [[b w]|e]; [|done]. intros [= -> <-]. eauto.
Qed.

Lemma lease_sys i limit s l s' :
  sys_wf s -> on_world (lease i limit) s = Ok (l, s') -> sys_evolves s s'.
Proof.
  intros Hwf (w & [_ ->]%lease_inv & ->)%on_world_inv. apply outbox_sys.
  intros k e Hk Hin%bool_decide_eq_true. pose proof (wf_outbox _ Hwf _ _ Hk) as [? ? ?].
  assert (Hpk : e ∈ picked (sys_world s) limit) by (by eapply picked_by_id).
  destruct (elem_of_picked _ _ _ Hpk) as [(Hn & _ & _)%leasable_spec _].
  split_and!; [by split_and!; try left| |].
  - intros _. split; simpl; [done| |done]. rewrite Hn. by intros [? ?].
  - simpl. rewrite Hn. by intros [? ?].
Qed.

Lemma mark_sys i record s n s' :
  sys_wf s -> accepted (le_id record) (sys_log s) ->
  on_world (mark_published i record) s = Ok (n, s') -> sys_evolves s s'.
Proof.
  intros Hwf Hacc (w & ->%mark_inv & ->)%on_world_inv. apply outbox_sys.
  intros k e Hk Hh. pose proof (wf_outbox _ Hwf _ _ Hk) as Hw.
  destruct (held_spec _ _ _ _ Hw Hh) as (Hid & -> & _ & Hn). destruct Hw.
  split_and!; [by split_and!; try left| |done]. by intros _.
Qed.

Lemma defer_sys i record error s n s' :
  sys_wf s -> on_world (defer i record error) s = Ok (n, s') -> sys_evolves s s'.
Proof.
  intros Hwf (w & ->%defer_inv & ->)%on_world_inv. apply outbox_sys.
  intros k e Hk Hh. pose proof (wf_outbox _ Hwf _ _ Hk) as Hw.
  destruct (held_spec _ _ _ _ Hw Hh) as (Hid & -> & _ & Hn). destruct Hw.
  split_and!; [by split_and!; try right| |simpl; rewrite Hn; by intros [? ?]].
  intros _. split; simpl; [done|by rewrite Hn|lia].
Qed.

Definition sys_accepted (id : string) (s : system) : Prop :=
  sys_wf s /\ accepted id (sys_log s).

Lemma sys_accepted_stable id : stable sys_evolves (sys_accepted id).
Proof.
  intros s s' [Hw Ha] HE. split; [by eapply sys_wf_stable|].
  destruct HE as (_ & (new & ->) & _). by apply accepted_app.
Qed.

Lemma publishOne_guarded i record : guarded sys_evolves sys_evolves (publishOne i record) sys_wf.
Proof.
  unfold publishOne. apply guarded_try_catch; [done|apply sys_wf_stable| |].
  2: { intros error. apply guarded_await_then with (J := fun _ => sys_wf); try done;
       [apply sys_wf_stable|intros _; apply sys_wf_stable|].
       intros s n s' Hwf Hd. pose proof (defer_sys _ _ _ _ _ _ Hwf Hd) as HE. split; [done|].
       by eapply sys_wf_stable. }
  unfold RabbitPublisherService.publish. apply guarded_assoc.
  apply guarded_await_then with (J := fun _ => sys_wf); [apply sys_wf_stable|intros _; apply sys_wf_stable| |].
  { intros s u s' Hwf H. unfold ensureConnected in H. destruct (sys_reachable s); [|done].
    simplify_eq. split; [apply sys_evolves_refl|done]. }
  intros _. destruct (routingKeyFor _) as [key|]; [|done]. apply guarded_assoc.
  set (o := RabbitPublisherService.message_of (event_of record) key).
  apply guarded_await_then with (J := fun _ => sys_told o);
    [apply sys_wf_stable|intros _; apply sys_told_stable| |].
  { intros s u s' Hwf H. by eapply tell_told. }
  intros _. apply guarded_await_then with (J := fun _ => sys_accepted (le_id record));
    [apply sys_told_stable|intros _; apply sys_accepted_stable| |].
  { intros s u s' [Hwf Ho] H. destruct (confirms_sys _ _ _ _ H Ho) as [HE Ht].
    split; [done|]. split; [by eapply sys_wf_stable|]. by eexists _, _, _, _. }
  intros _. apply guarded_await_then with (J := fun _ _ => True); try done;
    [apply sys_accepted_stable|intros s n s' [Hwf Ha] Hm; split; [by eapply mark_sys|done]|].
  intros _. apply guarded_await; [done|]. intros s u s' _ H. by eapply tell_sys.
Qed.

Lemma running_sys s r :
  sys_evolves s (mkSystem (sys_world s) (sys_log s) r (sys_reachable s) (sys_cache s)).
Proof. split_and!; simpl; [apply evolves_refl|exists []; by rewrite app_nil_r|done]. Qed.

Lemma publishBatch_guarded i skip :
  guarded sys_evolves sys_evolves (publishBatch i skip) sys_wf.
Proof.
  unfold publishBatch. destruct skip; [done|].
  apply guarded_await_then with (J := fun _ => sys_wf);
    [apply sys_wf_stable|intros _; apply sys_wf_stable| |].
  { intros s b s' Hwf H. unfold enter in H. case_bool_decide; simplify_eq;
      (split; [|done]); [apply sys_evolves_refl|apply running_sys]. }
  intros b. destruct (negb b); [done|].
  apply guarded_then; [done|apply sys_wf_stable| |].
  - apply guarded_try_catch; [done|apply sys_wf_stable| |done].
    apply guarded_await_then with (J := fun _ => sys_wf);
      [apply sys_wf_stable|intros _; apply sys_wf_stable| |].
    + intros s l s' Hwf H. pose proof (lease_sys _ _ _ _ _ Hwf H) as HE. split; [done|].
      by eapply sys_wf_stable.
    + intros l. apply guarded_for_each; [done|apply sys_wf_stable|].
      intros r _. apply publishOne_guarded.
  - intros _. apply guarded_await; [apply sys_wf_stable|].
    intros s u s' _ H. unfold leave in H. simplify_eq. apply running_sys.
Qed.

End publisher.

(** ** One event, run alone *)

Section outcomes.
Context {Cl : Clients} {P : Prisma} {U : Uuids} {D : Decimals} {HP : HttpPlatform} {ET : ErrorText}
  {PL : PrismaLaws P}.
Implicit Types (w : world) (s : system) (record : LeasedOutboxEvent) (i : string).

(** The publication of a leased event. *)
Definition publication (record : LeasedOutboxEvent) : observation :=
  Published EVENT_EXCHANGE (default ""%string (routingKeyFor (le_type record)))
    (Json (event_json (event_of record)))
    {| messageId := Some (le_id record); correlation := truthy (le_correlationId record);
       messageType := Some (le_type record); deliveryMode := 2; expiration := None;
       x_retry_count := None; x_final_error := None |}.

(** What publishing an event adds to the log. *)
Definition publishing i record : list observation :=
  [publication record; Confirmed (publication record); Counted i (le_type record)].

Definition outbox_of (s : system) : gmap string OutboxEvent := outboxEvents (w_db (sys_world s)).

Definition set_event (id : string) (e : OutboxEvent) (s : system) : system :=
  with_world (with_db (t_set OutboxEvents (<[id := e]> (outbox_of s))) (sys_world s)) s.
Definition logged (o : observation) (s : system) : system :=
  mkSystem (sys_world s) (sys_log s ++ [o]) (sys_running s) (sys_reachable s) (sys_cache s).
(** A leased event has been published, and the broker has confirmed it. *)
Definition sent record (s : system) : system :=
  logged (Confirmed (publication record)) (logged (publication record) s).

Lemma held_key t i id :
  keyed ob_id t -> forall k e, t !! k = Some e -> held i id e = true -> k = id.
Proof.
  intros Hk k e He [Hid%String.eqb_eq _]%andb_true_iff. rewrite <- Hid. symmetry. by apply Hk.
Qed.

(** An [updateMany] on the row the instance holds. *)
Lemma update_held i record f s e :
  keyed ob_id (outbox_of s) -> outbox_of s !! le_id record = Some e ->
  ob_lockedBy e = Some i -> outbox_columns (f e) = true ->
  on_world (db_updateMany OutboxEvents outbox_columns (held i (le_id record)) f) s =
    Ok (1%nat, set_event (le_id record) (f e) s).
Proof.
  intros Hk He Hl Hc. assert (Hh : held i (le_id record) e = true).
  { unfold held. rewrite (Hk _ _ He), String.eqb_refl. by apply bool_decide_eq_true. }
  unfold on_world. rewrite db_updateMany_Ok.
  - simpl. fold (outbox_of s). rewrite (where_rows_key _ _ _ (held_key _ _ _ Hk)), He, Hh.
    by rewrite (update_where_key _ _ _ _ _ (held_key _ _ _ Hk) He Hh).
  - intros k e' He' Hh'. simpl in He'. fold (outbox_of s) in He'.
    rewrite (held_key _ _ _ Hk _ _ He' Hh') in He'. by simplify_eq.
Qed.

Lemma update_not_held i record f s :
  keyed ob_id (outbox_of s) ->
  (forall e, outbox_of s !! le_id record = Some e -> ob_lockedBy e <> Some i) ->
  on_world (db_updateMany OutboxEvents outbox_columns (held i (le_id record)) f) s = Ok (0%nat, s).
Proof.
  intros Hk Hno.
  assert (Hf : forall k e, outbox_of s !! k = Some e -> held i (le_id record) e = false).
  { intros k e He. destruct (held i (le_id record) e) eqn:Hh; [|done].
    pose proof (held_key _ _ _ Hk _ _ He Hh) as ->.
    apply andb_true_iff in Hh as [_ Hl%bool_decide_eq_true]. by destruct (Hno _ He). }
  unfold on_world. rewrite db_updateMany_Ok.
  - simpl. fold (outbox_of s). rewrite where_rows_none, update_where_none by done.
    unfold with_world, with_db, outbox_of. destruct s as [[[] ? ?] ? ? ?]. done.
  - intros k e He Hh. simpl in He. by rewrite (Hf _ _ He) in Hh.
Qed.

Lemma publish_run record s key :
  sys_reachable s = true -> routingKeyFor (le_type record) = Some key ->
  run (RabbitPublisherService.publish (event_of record)) s =
    (Ok tt, sent record s).
Proof.
  intros Hr Hk. unfold RabbitPublisherService.publish.
  erewrite run_await_then by (unfold ensureConnected; by rewrite Hr).
  simpl de_type. rewrite Hk. cbv beta iota. erewrite run_await_then by done.
  rewrite run_await. unfold waitForConfirms, tell, sent, publication, logged. by rewrite Hk.
Qed.

Lemma mark_eq i record s :
  on_world (mark_published i record) s =
  on_world (db_updateMany OutboxEvents outbox_columns (held i (le_id record))
    (set_published (w_now (sys_world s)))) s.
Proof. done. Qed.

Lemma defer_eq i record error s :
  on_world (defer i record error) s =
  on_world (db_updateMany OutboxEvents outbox_columns (held i (le_id record))
    (set_deferred (w_now (sys_world s) + delaySeconds record * 1000) error)) s.
Proof. done. Qed.

(** Publishing one event: with the broker reachable, the event is sent once and, once the broker
    has confirmed it, marked published, released and counted; with the broker unreachable
    nothing is sent, the event stays unpublished, its attempts go up by one, it is released and
    due again 2 to 60 seconds later; and an event that another instance has leased meanwhile is
    left as it is, but sent and counted all the same. *)
Theorem publish_one_outcome i record s e key :
  sys_wf s -> outbox_of s !! le_id record = Some e ->
  routingKeyFor (le_type record) = Some key -> 0 <= le_attempts record ->
  outbox_columns e = true -> ob_attempts e < 2 ^ 31 - 1 ->
  let t := w_now (sys_world s) in
  (ob_lockedBy e = Some i -> sys_reachable s = true ->
   run (publishOne i record) s =
     (Ok tt, logged (Counted i (le_type record))
        (set_event (le_id record) (set_published t e) (sent record s)))) /\
  (ob_lockedBy e = Some i -> sys_reachable s = false ->
   exists e', run (publishOne i record) s = (Ok tt, set_event (le_id record) e' s) /\
     ob_publishedAt e' = None /\ ob_attempts e' = ob_attempts e + 1 /\ ob_lockedBy e' = None /\
     t + 2000 <= ob_nextAttemptAt e' <= t + 60000) /\
  (ob_lockedBy e <> Some i ->
   run (publishOne i record) s =
     (Ok tt, if sys_reachable s
             then logged (Counted i (le_type record)) (sent record s) else s)).
Proof.
  intros Hwf He Hkey Hatt Hcol Hmax t.
  assert (Hkeyed : keyed ob_id (outbox_of s)).
  { intros k x Hx. apply (bw_id _ _ (wf_outbox _ Hwf _ _ Hx)). }
  assert (Hpub : outbox_columns (set_published t e) = true).
  { unfold outbox_columns in *. simpl. apply andb_true_iff in Hcol as [-> _]. done. }
  assert (Hdef : forall next error, outbox_columns (set_deferred next error e) = true).
  { intros next error. pose proof (bw_attempts _ _ (wf_outbox _ Hwf _ _ He)).
    unfold outbox_columns in *. simpl. rewrite !andb_true_iff in Hcol |- *.
    destruct Hcol as [[? _] _]. split_and!; try tauto. unfold int4.
    rewrite andb_true_iff, Z.leb_le, Z.ltb_lt. lia. }
  unfold publishOne. rewrite run_try_catch, run_bind.
  assert (Hup : sys_reachable s = true ->
    run (RabbitPublisherService.publish (event_of record)) s =
      (Ok tt, sent record s)) by (intros; by eapply publish_run).
  assert (Hdown : sys_reachable s = false ->
    run (RabbitPublisherService.publish (event_of record)) s =
      (Err (JsError "connect ECONNREFUSED"), s)).
  { intros Hr. unfold RabbitPublisherService.publish. rewrite run_bind, run_await.
    unfold ensureConnected. by rewrite Hr. }
  split_and!.
  - intros Hl Hr. rewrite (Hup Hr), run_bind, run_await, mark_eq.
    by erewrite (update_held _ _ _ (sent _ _)) by done.
  - intros Hl Hr. rewrite (Hdown Hr), run_bind, run_await, defer_eq.
    erewrite update_held; [|done|done|done|apply Hdef]. eexists. split; [done|].
    assert (Hn : ob_publishedAt e = None).
    { destruct (ob_publishedAt e) eqn:Hp; [|done].
      rewrite (bw_released _ _ (wf_outbox _ Hwf _ _ He)) in Hl; [done|by rewrite Hp]. }
    pose proof (delay_bounds record Hatt). simpl. split_and!; (done || lia).
  - intros Hl. destruct (sys_reachable s) eqn:Hr.
    + rewrite (Hup eq_refl), run_bind, run_await, mark_eq.
      by rewrite update_not_held; [|done|intros e0 He'; change (outbox_of s !! le_id record = Some e0) in He'; simplify_eq].
    + rewrite (Hdown eq_refl), run_bind, run_await, defer_eq.
      rewrite update_not_held; [done|done|]. intros ? He'. by simplify_eq.
Qed.


(** ** A batch, run alone *)

(** What the publisher can handle: events of a known type, with columns in range. *)
Definition publishable (e : OutboxEvent) : Prop :=
  is_Some (routingKeyFor (ob_type e)) /\ outbox_columns e = true.

(** The state after the events [ids] have been published at time [t]. *)
Definition published_ids (ids : list string) (t : Z) (m m' : gmap string OutboxEvent) : Prop :=
  forall k, m' !! k = (fun e => if bool_decide (k ∈ ids) then set_published t e else e) <$> m !! k.

(** The outbox becomes [t], the log grows by [new], and nothing else changes. *)
Definition outbox_and_log (t : gmap string OutboxEvent) (new : list observation) (s : system) : system :=
  mkSystem (with_db (t_set OutboxEvents t) (sys_world s)) (sys_log s ++ new) (sys_running s)
    (sys_reachable s) (sys_cache s).

Lemma publish_all i rs s :
  keyed ob_id (outbox_of s) -> sys_reachable s = true -> NoDup (map le_id rs) ->
  (forall r, r ∈ rs -> is_Some (routingKeyFor (le_type r)) /\
     exists e, outbox_of s !! le_id r = Some e /\ ob_lockedBy e = Some i /\
       outbox_columns e = true) ->
  exists t, run (for_each (publishOne i) rs) s =
      (Ok tt, outbox_and_log t (flat_map (publishing i) rs) s) /\
    published_ids (map le_id rs) (w_now (sys_world s)) (outbox_of s) t.
Proof.
  revert s. induction rs as [|r rs IH]; intros s Hk Hr Hnd Hall.
  { exists (outbox_of s). split; [|intros k; by destruct (outbox_of s !! k)].
    unfold outbox_and_log, with_db. rewrite app_nil_r. by destruct s as [[[] ? ?] ? ? ? ?]. }
  apply NoDup_cons in Hnd as [Hnin Hnd].
  destruct (Hall r ltac:(by left)) as ([key Hkey] & e & He & Hl & Hc).
  set (t := w_now (sys_world s)).
  set (s1 := logged (Counted i (le_type r))
    (set_event (le_id r) (set_published t e) (sent r s))).
  assert (Hpub : outbox_columns (set_published t e) = true).
  { unfold outbox_columns in *. simpl. apply andb_true_iff in Hc as [-> _]. done. }
  assert (Hone : run (publishOne i r) s = (Ok tt, s1)).
  { unfold publishOne. rewrite run_try_catch, run_bind, (publish_run _ _ _ Hr Hkey).
    rewrite run_bind, run_await, mark_eq. by erewrite (update_held _ _ _ (sent _ _)) by done. }
  assert (Ho1 : outbox_of s1 = <[le_id r := set_published t e]> (outbox_of s)) by done.
  destruct (IH s1) as (t' & Hrun & Hids).
  - rewrite Ho1. intros k x. rewrite lookup_insert. case_decide; [|apply Hk].
    intros [= <-]. subst. simpl. by apply Hk.
  - done.
  - done.
  - intros r' Hr'. destruct (Hall r' ltac:(by right)) as (? & e' & He' & ? & ?).
    split; [done|]. exists e'. rewrite Ho1, lookup_insert_ne; [done|].
    intros Heq. apply Hnin. rewrite Heq. apply list_elem_of_fmap. eauto.
  - exists t'. split.
    + change (run (publishOne i r ≫= fun _ => for_each (publishOne i) rs) s =
        (Ok tt, outbox_and_log t' (publishing i r ++ flat_map (publishing i) rs) s)).
      rewrite run_bind, Hone, Hrun. f_equal. unfold outbox_and_log, publishing. simpl.
      by rewrite <- !app_assoc.
    + intros k. rewrite Hids, Ho1, lookup_insert. fold t. case_decide as Hkr.
      * subst k. rewrite He. simpl. rewrite (bool_decide_eq_true_2 (le_id r ∈ _ :: _)) by (by left).
        by rewrite bool_decide_eq_false_2.
      * assert (Hb : bool_decide (k ∈ map le_id rs) = bool_decide (k ∈ map le_id (r :: rs))).
        { apply bool_decide_ext. cbn [map]. rewrite elem_of_cons.
          split; [by right|by intros [->|?]]. }
        by rewrite Hb.
Qed.

(** The table after a lease. *)
Definition locked (i : string) (w : world) (limit : nat) : gmap string OutboxEvent :=
  update_where (fun e => bool_decide (ob_id e ∈ map ob_id (picked w limit)))
    (set_lock i (w_now w)) (outboxEvents (w_db w)).

Lemma lease_run i limit s :
  (forall k e, outbox_of s !! k = Some e -> ob_id e ∈ map ob_id (picked (sys_world s) limit) ->
     outbox_columns (set_lock i (w_now (sys_world s)) e) = true) ->
  on_world (lease i limit) s =
    Ok (map leased (returning (picked (sys_world s) limit)),
        with_world (with_db (t_set OutboxEvents (locked i (sys_world s) limit)) (sys_world s)) s).
Proof.
  intros Hcol. unfold on_world, lease. erewrite tx_bind_eq by done. erewrite tx_bind_eq by done.
  erewrite tx_bind_eq by (apply db_updateMany_Ok; intros k e He Hin%bool_decide_eq_true; by eapply Hcol). done.
Qed.

Lemma locked_lookup i w limit k e :
  keyed ob_id (outboxEvents (w_db w)) -> outboxEvents (w_db w) !! k = Some e ->
  locked i w limit !! k =
    Some (if bool_decide (k ∈ map ob_id (picked w limit)) then set_lock i (w_now w) e else e).
Proof.
  intros Hk He. unfold locked. rewrite lookup_update_where, He. simpl. by rewrite (Hk _ _ He).
Qed.

Lemma locked_keyed i w limit :
  keyed ob_id (outboxEvents (w_db w)) -> keyed ob_id (locked i w limit).
Proof.
  intros Hk k x. unfold locked. rewrite lookup_update_where. intros (y & Hy & ->)%fmap_Some.
  apply Hk in Hy. by destruct (bool_decide _).
Qed.

(** What a lease returns: rows of the table, each once. *)
Lemma returning_picked w limit e :
  keyed ob_id (outboxEvents (w_db w)) -> e ∈ returning (picked w limit) ->
  outboxEvents (w_db w) !! ob_id e = Some e /\ ob_id e ∈ map ob_id (picked w limit).
Proof.
  intros Hk He. rewrite returning_spec in He. split.
  - destruct (elem_of_picked _ _ _ He) as [_ [k Hke]]. by rewrite (Hk _ _ Hke).
  - apply list_elem_of_fmap. eauto.
Qed.

Lemma returning_ids_NoDup w limit :
  keyed ob_id (outboxEvents (w_db w)) -> NoDup (map ob_id (returning (picked w limit))).
Proof.
  intros Hk. destruct (picked_spec w limit) as (l & Hl & _ & Hpk).
  change (NoDup (ob_id <$> returning (picked w limit))). rewrite returning_spec, Hpk.
  assert (Hnd : NoDup (map ob_id l)).
  { change (NoDup (ob_id <$> l)). rewrite Hl. by apply keyed_ids_NoDup. }
  rewrite <- (take_drop limit l), map_app in Hnd. by apply NoDup_app in Hnd as (? & _).
Qed.

Lemma returning_ids w limit k :
  k ∈ map ob_id (returning (picked w limit)) <-> k ∈ map ob_id (picked w limit).
Proof.
  change (k ∈ ob_id <$> returning (picked w limit) <-> k ∈ ob_id <$> picked w limit).
  by rewrite returning_spec.
Qed.

(** A batch, run alone: what it returns and leaves, event by event. *)
Lemma batch_run i s :
  sys_wf s -> sys_reachable s = true -> i ∉ sys_running s ->
  (forall e, e ∈ picked (sys_world s) 25 -> publishable e) ->
  (String.length i <= 100)%nat ->
  let evs := returning (picked (sys_world s) 25) in
  exists t, run (publishBatch i false) s =
      (Ok tt, outbox_and_log t (flat_map (publishing i) (map leased evs)) s) /\
    forall k, t !! k = (fun e =>
      if bool_decide (k ∈ map ob_id evs)
      then set_published (w_now (sys_world s)) (set_lock i (w_now (sys_world s)) e) else e)
      <$> outbox_of s !! k.
Proof.
  intros Hwf Hr Hrun Hpub Hlen. set (w := sys_world s). set (t := w_now w).
  set (evs := returning (picked w 25)). cbv zeta.
  assert (Hk : keyed ob_id (outbox_of s)).
  { intros k x Hx. apply (bw_id _ _ (wf_outbox _ Hwf _ _ Hx)). }
  assert (Hcol : forall k e, outbox_of s !! k = Some e -> ob_id e ∈ map ob_id (picked w 25) ->
    outbox_columns (set_lock i t e) = true).
  { intros k e He Hin. destruct (Hpub e (picked_by_id _ _ _ _ Hwf He Hin)) as [_ Hc].
    unfold outbox_columns in *. simpl. apply andb_true_iff in Hc as [-> _].
    by apply bool_decide_eq_true. }
  set (s0 := mkSystem w (sys_log s) ({[i]} ∪ sys_running s) (sys_reachable s) (sys_cache s)).
  set (s1 := with_world (with_db (t_set OutboxEvents (locked i w 25)) w) s0).
  assert (Hlease : on_world (lease i 25) s0 = Ok (map leased evs, s1)) by (by apply lease_run).
  assert (Hids : map le_id (map leased evs) = map ob_id evs) by (by rewrite map_map).
  destruct (publish_all i (map leased evs) s1) as (t' & Hall & Hpids).
  - by apply locked_keyed.
  - done.
  - rewrite Hids. by apply returning_ids_NoDup.
  - intros r (e & -> & He)%list_elem_of_fmap. destruct (returning_picked _ _ _ Hk He) as [Hin Hpk].
    destruct (Hpub e) as [? _]; [by unfold evs in He; rewrite returning_spec in He|]. split; [done|].
    exists (set_lock i t e). split_and!; [|done|by eapply Hcol].
    change (locked i w 25 !! ob_id e = Some (set_lock i t e)).
    by rewrite (locked_lookup _ _ _ _ _ Hk Hin), bool_decide_eq_true_2.
  - exists t'. split.
    + unfold publishBatch. erewrite run_await_then.
      2: { unfold enter. by rewrite bool_decide_eq_false_2. }
      cbn [negb]. rewrite run_bind, run_try_catch, run_bind, run_await.
      fold w. fold s0. rewrite Hlease, Hall. unfold leave, outbox_and_log. simpl.
      assert (Hset : ({[i]} ∪ sys_running s) ∖ {[i]} = sys_running s).
      { clear -Hrun. by rewrite difference_union_distr_l_L, difference_diag_L, union_empty_l_L,
          difference_disjoint_L by set_solver. }
      by rewrite Hset.
    + intros k. rewrite Hpids, Hids. change (outbox_of s1) with (locked i w 25).
      change (w_now (sys_world s1)) with t.
      destruct (outbox_of s !! k) as [e|] eqn:He.
      * rewrite (locked_lookup _ _ _ _ _ Hk He). simpl. fold evs.
        rewrite (bool_decide_ext _ _ (returning_ids w 25 k)). by destruct (bool_decide _).
      * unfold locked. rewrite lookup_update_where.
        change (outboxEvents (w_db w)) with (outbox_of s). by rewrite He.
Qed.

(** C30: A batch makes progress: an instance that is not already running, alone and with the
    broker reachable, whose due events are of known types and fit their columns, publishes each
    of the (at most 25) events it leases exactly once, has it confirmed, counts it once under its
    type, and leaves it marked as published and otherwise as it was. Every other event, every
    other table, the cache and the flags of the instances are as before: the instance is ready
    to run again. *)
Theorem batch_publishes i s :
  sys_wf s -> sys_reachable s = true -> i ∉ sys_running s ->
  (forall e, e ∈ picked (sys_world s) 25 -> publishable e) ->
  (String.length i <= 100)%nat ->
  exists evs t, evs ≡ₚ picked (sys_world s) 25 /\
    run (publishBatch i false) s =
      (Ok tt, mkSystem (with_db (t_set OutboxEvents t) (sys_world s))
                (sys_log s ++ flat_map (publishing i) (map leased evs))
                (sys_running s) (sys_reachable s) (sys_cache s)) /\
    (forall e, e ∈ evs -> t !! ob_id e =
       Some (set_published (w_now (sys_world s)) (set_lock i (w_now (sys_world s)) e))) /\
    (forall k, k ∉ map ob_id evs -> t !! k = outbox_of s !! k).
Proof.
  intros Hwf Hr Hrun Hpub Hlen.
  destruct (batch_run i s Hwf Hr Hrun Hpub Hlen) as (t & Hs' & Hout).
  exists (returning (picked (sys_world s) 25)), t. split_and!; [apply returning_spec|exact Hs'| |].
  - intros e He. destruct (returning_picked (sys_world s) 25 e) as [Hin _]; [|done|].
    { intros k x Hx. apply (bw_id _ _ (wf_outbox _ Hwf _ _ Hx)). }
    rewrite Hout. change (outboxEvents (w_db (sys_world s))) with (outbox_of s) in Hin.
    rewrite Hin. cbn [fmap option_fmap option_map].
    by rewrite bool_decide_eq_true_2 by (apply list_elem_of_fmap; eauto).
  - intros k Hnot. rewrite Hout, bool_decide_eq_false_2 by done. by destruct (outbox_of s !! k).
Qed.

End outcomes.
