(* ===== verification/Connection.v ===== *)
(** * The connection of the publisher

    RabbitPublisherService (src/src/queue/rabbit-publisher.service.ts) with its connection: the
    lazy [ensureConnected], the one [connect] that concurrent calls share, the broker that
    closes connections, and the calls waiting for all this. Any number of attempts to connect
    may be in flight as far as the state goes: that there is only one is up to [call]. Outbox.v
    and System.v take [ensureConnected] for a single step that succeeds or fails;
    ConnectionSpec.v shows that this is what the code comes to.

    The steps are those of the event loop. An event of the outside (a call, an answer of the
    broker, a closed connection) is handled to its end, and then every call whose promise has
    been resolved goes on, before the next event of the outside. *)
From S2P Require Import Prelude JsStrings Errors Effects System Outbox.

Module RabbitConnection.

(** How far a [connect()] is: [amqp.connect], [createConfirmChannel], [assertRabbitTopology];
    connections are numbered in the order they open. *)
Inductive stage := Dialling | Opening (c : nat) | Declaring (c : nat).

(** The methods that need the connection. *)
Inductive method := Publish (event : DomainEvent) | Ping | ModuleInit.

(** A call: waiting for the promise of an attempt to connect, resolved and about to go on,
    waiting for the confirms of a message or for the answer to [checkExchange], or ended. *)
Inductive progress :=
| Waiting (a : nat) | Resolved | Answering (o : option observation) | Ended (r : result unit).

Record state := mkState {
  channel : option nat;
  connection : option nat;
  connecting : option nat;     (* the attempt [this.connecting] is the promise of *)
  attempts : gmap nat stage;   (* every [connect()] in flight, by its number *)
  begun : nat;                 (* how many were ever begun *)
  watched : gset nat;          (* the connections with a 'close' listener *)
  open : gset nat;             (* the connections the broker has *)
  opened : nat;                (* how many were ever opened *)
  calls : list (method * progress);
  taken : list observation;    (* what the broker has been told, and has confirmed *)
}.

Definition init : state := mkState None None None ∅ 0 ∅ ∅ 0 [] [].

Definition with_calls (l : list (method * progress)) (s : state) : state :=
  mkState (channel s) (connection s) (connecting s) (attempts s) (begun s) (watched s) (open s)
    (opened s) l (taken s).
Definition with_attempts (k : option nat) (l : gmap nat stage) (s : state) : state :=
  mkState (channel s) (connection s) k l (begun s) (watched s) (open s) (opened s) (calls s)
    (taken s).
Definition with_taken (o : observation) (s : state) : state :=
  mkState (channel s) (connection s) (connecting s) (attempts s) (begun s) (watched s) (open s)
    (opened s) (calls s) (taken s ++ [o]).

(** The end of a call: [onModuleInit] logs an error and goes on. *)
Definition ends (m : method) (r : result unit) : progress :=
  match m with ModuleInit => Ended (Ok tt) | _ => Ended r end.

(** Settle the promise of an attempt: the calls that wait for it go on, or fail. *)
Definition resolve (a : nat) (l : list (method * progress)) : list (method * progress) :=
  map (fun '(m, p) =>
    (m, match p with Waiting b => if bool_decide (b = a) then Resolved else p | _ => p end)) l.
Definition reject (a : nat) (e : exn) (l : list (method * progress)) : list (method * progress) :=
  map (fun '(m, p) =>
    (m, match p with
        | Waiting b => if bool_decide (b = a) then ends m (Err e) else p
        | _ => p
        end)) l.

(** [this.connect()], begun by a call that will wait for it. *)
Definition begin (s : state) : state :=
  mkState (channel s) (connection s) (Some (begun s)) (<[begun s := Dialling]> (attempts s))
    (S (begun s)) (watched s) (open s) (opened s) (calls s) (taken s).

(** [ensureConnected], up to its first [await]. *)
Definition call (m : method) (s : state) : state :=
  match channel s, connecting s with
  | Some _, _ => with_calls (calls s ++ [(m, Resolved)]) s
  | None, Some a => with_calls (calls s ++ [(m, Waiting a)]) s
  | None, None => with_calls (calls s ++ [(m, Waiting (begun s))]) (begin s)
  end.

(** The rejection of a [connect()], and the [finally]. *)
Definition fail (a : nat) (e : exn) (s : state) : state :=
  with_attempts None (delete a (attempts s)) (with_calls (reject a e (calls s)) s).

Definition set_progress (i : nat) (m : method) (p : progress) (s : state) : state :=
  with_calls (<[i := (m, p)]> (calls s)) s.

Definition no_routing_key : exn := JsError "Expecting a string for field 'routingKey'".

(** What a call does once it is connected. *)
Definition go_on (i : nat) (m : method) (s : state) : state :=
  match m with
  | ModuleInit => set_progress i m (Ended (Ok tt)) s
  | _ =>
      match channel s with
      | None => set_progress i m (Ended (Err (JsError "Cannot read properties of undefined"))) s
      | Some _ =>
          match m with
          | Publish event =>
              match routingKeyFor (de_type event) with
              | None => set_progress i m (Ended (Err no_routing_key)) s
              | Some key =>
                  let o := RabbitPublisherService.message_of event key in
                  set_progress i m (Answering (Some o)) (with_taken o s)
              end
          | _ => set_progress i m (Answering None) s
          end
      end
  end.

(** [connection.on('close', ...)], if this connection has the listener. *)
Definition close (c : nat) (s : state) : state :=
  if bool_decide (c ∈ watched s)
  then mkState None None (connecting s) (attempts s) (begun s) (watched s) (open s ∖ {[c]})
         (opened s) (calls s) (taken s)
  else mkState (channel s) (connection s) (connecting s) (attempts s) (begun s) (watched s)
         (open s ∖ {[c]}) (opened s) (calls s) (taken s).

(** The answer of the broker a call waits for: the confirms of its message, or the exchange. *)
Definition answered (i : nat) (m : method) (o : option observation) (r : result unit) (s : state) :
    state :=
  set_progress i m (Ended r)
    match o, r with Some o, Ok _ => with_taken (Confirmed o) s | _, _ => s end.

Inductive event :=
| Call (m : method)
| GoesOn (i : nat)
| Dialled (a : nat) | Opened (a : nat) | Declared (a : nat)
| ConnectFails (a : nat) (e : exn)
| Answers (i : nat) (r : result unit)
| Closes (c : nat).

(** The calls that go on before the next event of the outside. *)
Definition quiescent (s : state) : bool :=
  forallb (fun '(_, p) => match p with Resolved => false | _ => true end) (calls s).

Definition inside (e : event) : bool := match e with GoesOn _ | Call _ => true | _ => false end.

Definition step (e : event) (s : state) : option state :=
  if negb (inside e || quiescent s) then None
  else
    match e with
    | Call m => Some (call m s)
    | GoesOn i =>
        match calls s !! i with Some (m, Resolved) => Some (go_on i m s) | _ => None end
    | Dialled a =>
        match attempts s !! a with
        | Some Dialling =>
            Some (mkState (channel s) (connection s) (connecting s)
                    (<[a := Opening (opened s)]> (attempts s)) (begun s) (watched s)
                    ({[opened s]} ∪ open s) (S (opened s)) (calls s) (taken s))
        | _ => None
        end
    | Opened a =>
        match attempts s !! a with
        | Some (Opening c) =>
            if bool_decide (c ∈ open s)
            then Some (with_attempts (connecting s) (<[a := Declaring c]> (attempts s)) s)
            else None
        | _ => None
        end
    | Declared a =>
        match attempts s !! a with
        | Some (Declaring c) =>
            if bool_decide (c ∈ open s)
            then Some (mkState (Some c) (Some c) None (delete a (attempts s)) (begun s)
                         ({[c]} ∪ watched s) (open s) (opened s) (resolve a (calls s)) (taken s))
            else None
        | _ => None
        end
    | ConnectFails a e =>
        match attempts s !! a with Some _ => Some (fail a e s) | None => None end
    | Answers i r =>
        match calls s !! i with
        | Some (m, Answering o) => Some (answered i m o r s)
        | _ => None
        end
    | Closes c => if bool_decide (c ∈ open s) then Some (close c s) else None
    end.

Fixpoint run (l : list event) (s : state) : option state :=
  match l with
  | [] => Some s
  | e :: l => step e s ≫= run l
  end.

End RabbitConnection.
