(* ===== verification/ConnectionSpec.v ===== *)
(** * The connection of the publisher, and the single step it stands for

    The methods of RabbitPublisherService find a channel whenever they go on after
    [ensureConnected]; at most one attempt to connect is in flight, however many calls wait; an
    old connection that closes never takes a newer one away; and every run of the event loop of
    Connection.v is a schedule of the programs of Outbox.v, for which connecting is one step. A
    connection whose set-up fails half way is never closed. *)
From S2P Require Import Prelude JsStrings Errors Effects System Outbox Connection.
Import RabbitConnection.

(** ** The invariant of the event loop *)

Record sound (s : state) : Prop := mkSound {
  sound_channel : channel s = connection s;
  sound_idle : forall c, channel s = Some c -> connecting s = None /\ c ∈ open s /\ c ∈ watched s;
  sound_watched : forall c, c ∈ watched s -> c ∈ open s -> channel s = Some c;
  sound_numbers : forall c, c ∈ open s -> (c < opened s)%nat;
  (* an attempt in flight is the one [this.connecting] is the promise of *)
  sound_attempts : forall a k, attempts s !! a = Some k -> connecting s = Some a;
  sound_connecting : forall a, connecting s = Some a -> is_Some (attempts s !! a);
  sound_stage : forall a k c, attempts s !! a = Some k -> k = Opening c \/ k = Declaring c ->
    (c ∉ watched s) /\ (c < opened s)%nat;
  sound_seen : forall c, c ∈ watched s -> (c < opened s)%nat;
  sound_calls : forall i m p, calls s !! i = Some (m, p) ->
    match p with
    | Waiting a => connecting s = Some a
    | Resolved => is_Some (channel s)
    | Answering _ | Ended _ => True
    end;
}.

Lemma init_sound : sound init.
Proof. split; try done; set_solver. Qed.

(** Only one attempt is in flight. *)
Lemma sound_none s a : sound s -> connecting s = None -> attempts s !! a = None.
Proof.
  intros Hs Hc. destruct (attempts s !! a) as [k|] eqn:Ha; [|done].
  apply (sound_attempts _ Hs) in Ha. congruence.
Qed.

Lemma sound_delete s a k b :
  sound s -> attempts s !! a = Some k -> delete a (attempts s) !! b = None.
Proof.
  intros Hs Ha. destruct (decide (a = b)) as [->|Hne]; [apply lookup_delete_eq|].
  rewrite lookup_delete_ne by done. destruct (attempts s !! b) as [k'|] eqn:Hb; [|done].
  apply (sound_attempts _ Hs) in Ha, Hb. congruence.
Qed.

Lemma quiescent_lookup s i m p : quiescent s = true -> calls s !! i = Some (m, p) -> p <> Resolved.
Proof.
  unfold quiescent. rewrite forallb_forall. intros Hq Hi ->.
  by specialize (Hq _ (proj1 (list_elem_of_In _ _) (list_elem_of_lookup_2 _ _ _ Hi))).
Qed.

(** The steps that only move the calls. *)
Lemma with_calls_sound s l :
  sound s ->
  (forall i m p, l !! i = Some (m, p) ->
     match p with
     | Waiting a => connecting s = Some a | Resolved => is_Some (channel s)
     | Answering _ | Ended _ => True
     end) ->
  sound (with_calls l s).
Proof. intros [] Hl. by split. Qed.

Lemma with_taken_sound o s : sound s -> sound (with_taken o s).
Proof. intros []. by split. Qed.

Lemma set_progress_sound i m p s :
  sound s ->
  match p with Waiting _ | Resolved => False | Answering _ | Ended _ => True end ->
  sound (set_progress i m p s).
Proof.
  intros Hs Hp. apply with_calls_sound; [done|]. intros j m' p' Hj.
  apply list_lookup_insert_Some in Hj as [(_ & [= <- <-] & _)|(_ & Hj)].
  - by destruct p.
  - by apply (sound_calls _ Hs) in Hj.
Qed.

Lemma go_on_sound i m s : sound s -> sound (go_on i m s).
Proof.
  intros Hs. unfold go_on. destruct m as [event| |]; [| |by apply set_progress_sound];
    (destruct (channel s); [|by apply set_progress_sound]).
  - destruct (routingKeyFor _); apply set_progress_sound; auto using with_taken_sound.
  - by apply set_progress_sound.
Qed.

Lemma answered_sound i m o r s : sound s -> sound (answered i m o r s).
Proof.
  intros Hs. apply set_progress_sound; [|done].
  destruct o, r; auto using with_taken_sound.
Qed.

(** A new call beside the others. *)
Lemma new_call_sound m p s :
  sound s ->
  match p with
  | Waiting a => connecting s = Some a | Resolved => is_Some (channel s)
  | Answering _ | Ended _ => True
  end -> sound (with_calls (calls s ++ [(m, p)]) s).
Proof.
  intros Hs Hp. apply with_calls_sound; [done|]. intros i m' q [Hi|(_ & Hi)]%lookup_app_Some.
  - by apply (sound_calls _ Hs) in Hi.
  - by apply list_lookup_singleton_Some in Hi as [_ [= <- <-]].
Qed.

Lemma begin_sound s : sound s -> channel s = None -> connecting s = None -> sound (begin s).
Proof.
  intros Hs Hc Hk. pose proof (fun a => sound_none s a Hs Hk) as Hno. destruct Hs.
  split; simpl; try done.
  - intros c Hc'. congruence.
  - intros a k. rewrite lookup_insert. case_decide; [by intros _; subst|by rewrite Hno].
  - intros a [= <-]. rewrite lookup_insert_eq. eauto.
  - intros a k c. rewrite lookup_insert. case_decide; [by intros [= <-] [?|?]|by rewrite Hno].
  - intros i m p Hi. specialize (sound_calls0 _ _ _ Hi). destruct p; try done. congruence.
Qed.

Lemma call_sound m s : sound s -> sound (call m s).
Proof.
  intros Hs. unfold call. destruct (channel s) as [c|] eqn:Hc;
    [|destruct (connecting s) as [a|] eqn:Hk].
  - apply new_call_sound; [done|]. by rewrite Hc.
  - by apply new_call_sound.
  - apply (new_call_sound m (Waiting (begun s)) (begin s)); [by apply begin_sound|done].
Qed.

Lemma resolve_lookup a l i m p :
  resolve a l !! i = Some (m, p) ->
  exists q, l !! i = Some (m, q) /\ (p = Resolved /\ q = Waiting a \/ p = q /\ q <> Waiting a).
Proof.
  unfold resolve. rewrite list_lookup_fmap, fmap_Some. intros ([m' q] & Hi & [= -> ->]).
  exists q. split; [done|]. destruct q as [b| | |]; try (by right).
  case_bool_decide; [left; by subst|right; split; congruence].
Qed.

Lemma reject_lookup a e l i m p :
  reject a e l !! i = Some (m, p) ->
  exists q, l !! i = Some (m, q) /\
    (p = ends m (Err e) /\ q = Waiting a \/ p = q /\ q <> Waiting a).
Proof.
  unfold reject. rewrite list_lookup_fmap, fmap_Some. intros ([m' q] & Hi & [= -> ->]).
  exists q. split; [done|]. destruct q as [b| | |]; try (by right).
  case_bool_decide; [left; by subst|right; split; congruence].
Qed.

Lemma fail_sound a k e s : sound s -> attempts s !! a = Some k -> sound (fail a e s).
Proof.
  intros Hs Ha. pose proof (fun b => sound_delete s a k b Hs Ha) as Hno.
  pose proof (sound_attempts _ Hs _ _ Ha) as Hka.
  pose proof (sound_calls _ Hs) as Hcalls. destruct Hs. split; simpl; try done.
  - intros c Hc. by destruct (sound_idle0 _ Hc).
  - intros b k'. by rewrite Hno.
  - intros b k' c. by rewrite Hno.
  - intros i m p (q & Hi & [[-> ->]|[-> Hq]])%reject_lookup; [by destruct m|].
    specialize (Hcalls _ _ _ Hi). destruct q; [|done..]. congruence.
Qed.

Lemma close_sound c s : sound s -> quiescent s = true -> c ∈ open s -> sound (close c s).
Proof.
  intros Hs Hq Hc. pose proof (quiescent_lookup s) as Hno. unfold close. case_bool_decide as Hw.
  - pose proof (sound_watched _ Hs _ Hw Hc) as Hch. destruct (sound_idle _ Hs _ Hch) as (Hk & _ & _).
    destruct Hs. split; simpl; try done.
    + intros c' Hw' (Ho & Hne)%elem_of_difference. rewrite (sound_watched0 _ Hw' Ho) in Hch.
      simplify_eq. set_solver.
    + set_solver.
    + intros i m p Hi. specialize (sound_calls0 _ _ _ Hi). destruct p; try done.
      by destruct (Hno i m Resolved Hq Hi).
  - destruct Hs. split; simpl; try done.
    + intros c' Hc'. destruct (sound_idle0 _ Hc') as (? & ? & ?). split_and!; [done| |done].
      apply elem_of_difference. split; [done|]. intros ->%elem_of_singleton. done.
    + set_solver.
    + set_solver.
Qed.

Lemma declared_sound a c s :
  sound s -> attempts s !! a = Some (Declaring c) -> c ∈ open s ->
  sound (mkState (Some c) (Some c) None (delete a (attempts s)) (begun s) ({[c]} ∪ watched s)
           (open s) (opened s) (resolve a (calls s)) (taken s)).
Proof.
  intros Hs Ha Hc. pose proof (fun b => sound_delete s a _ b Hs Ha) as Hno.
  pose proof (sound_attempts _ Hs _ _ Ha) as Hka.
  destruct (sound_stage _ Hs _ _ _ Ha (or_intror eq_refl)) as [Hw Hlt].
  destruct Hs. split; simpl; try done.
  - intros c' [= <-]. split_and!; [done|done|set_solver].
  - intros c' [->%elem_of_singleton|Hw']%elem_of_union Ho; [done|].
    destruct (sound_idle0 _ (sound_watched0 _ Hw' Ho)). congruence.
  - intros b k. by rewrite Hno.
  - intros b k c'. by rewrite Hno.
  - intros c' [->%elem_of_singleton|Hw']%elem_of_union; eauto.
  - intros i m p (q & Hi & [[-> ->]|[-> Hq]])%resolve_lookup; [done|].
    specialize (sound_calls0 _ _ _ Hi). destruct q; try done. congruence.
Qed.

(** An attempt moves on: the connection it is at is none that is watched. *)
Lemma stage_sound a k k' c s :
  sound s -> attempts s !! a = Some k -> k' = Opening c \/ k' = Declaring c ->
  c ∉ watched s -> (c < opened s)%nat ->
  sound (with_attempts (connecting s) (<[a := k']> (attempts s)) s).
Proof.
  intros Hs Ha Hk' Hw Hlt. pose proof (sound_attempts _ Hs _ _ Ha) as Hka.
  destruct Hs. split; simpl; try done.
  - intros b k1. rewrite lookup_insert. case_decide; [by intros _; subst|apply sound_attempts0].
  - intros b Hb. rewrite lookup_insert. case_decide; [eauto|by apply sound_connecting0].
  - intros b k1 c1. rewrite lookup_insert. case_decide; [|apply sound_stage0].
    intros [= <-] H1. by assert (c1 = c) as -> by (destruct Hk', H1; congruence).
Qed.

(** A new connection of the broker. *)
Lemma opened_sound s :
  sound s -> channel s = None ->
  sound (mkState (channel s) (connection s) (connecting s) (attempts s) (begun s) (watched s)
           ({[opened s]} ∪ open s) (S (opened s)) (calls s) (taken s)).
Proof.
  intros [] Hc. split; simpl; try done.
  - intros c Hc'. congruence.
  - intros c Hw [->%elem_of_singleton|Ho]%elem_of_union; [|by apply sound_watched0].
    specialize (sound_seen0 _ Hw). lia.
  - intros c [->%elem_of_singleton|Ho]%elem_of_union; [lia|]. specialize (sound_numbers0 _ Ho). lia.
  - intros a k c Ha Hk. destruct (sound_stage0 _ _ _ Ha Hk). split; [done|lia].
  - intros c Hw. specialize (sound_seen0 _ Hw). lia.
Qed.

Lemma attempt_no_channel s a k : sound s -> attempts s !! a = Some k -> channel s = None.
Proof.
  intros Hs Ha%(sound_attempts _ Hs). destruct (channel s) as [c|] eqn:Hc; [|done].
  destruct (sound_idle _ Hs _ Hc). congruence.
Qed.

Lemma step_sound e s s' : sound s -> step e s = Some s' -> sound s'.
Proof.
  intros Hs. unfold step. destruct (inside e || quiescent s) eqn:Hq; [simpl|done].
  destruct e as [m|i|a|a|a|a e|i r|c]; intros H.
  - simplify_eq. by apply call_sound.
  - destruct (calls s !! i) as [[m []]|]; simplify_eq. by apply go_on_sound.
  - destruct (attempts s !! a) as [[| |]|] eqn:Ha; simplify_eq.
    assert (Ho : sound (mkState (channel s) (connection s) (connecting s) (attempts s) (begun s)
      (watched s) ({[opened s]} ∪ open s) (S (opened s)) (calls s) (taken s))).
    { apply opened_sound; [done|]. by eapply attempt_no_channel. }
    eapply (stage_sound a _ (Opening (opened s)) (opened s)) in Ho;
      [exact Ho|exact Ha|by left| |simpl; lia].
    intros Hw. pose proof (sound_seen _ Hs _ Hw). lia.
  - destruct (attempts s !! a) as [[|c|]|] eqn:Ha; simplify_eq. case_bool_decide; simplify_eq.
    destruct (sound_stage _ Hs _ _ _ Ha (or_introl eq_refl)).
    eapply stage_sound; [done|exact Ha|by right|done|done].
  - destruct (attempts s !! a) as [[| |c]|] eqn:Ha; simplify_eq. case_bool_decide; simplify_eq.
    by apply declared_sound.
  - destruct (attempts s !! a) eqn:Ha; simplify_eq. by eapply fail_sound.
  - destruct (calls s !! i) as [[m []]|]; simplify_eq. by apply answered_sound.
  - case_bool_decide; simplify_eq. by apply close_sound.
Qed.

Lemma run_sound l s s' : sound s -> run l s = Some s' -> sound s'.
Proof.
  revert s. induction l as [|e l IH]; simpl; intros s Hs H; [by simplify_eq|].
  apply bind_Some in H as (t & Ht & Hl). eapply IH; [|done]. by eapply step_sound.
Qed.

(** C25: Whatever the broker does and however calls overlap, a call of the publisher that goes on
    after [ensureConnected] has a channel, [this.channel] belongs to an open connection, and when
    a connection closes, no other connection that is in use is forgotten; of all the attempts to
    connect that the calls begin at most one is in flight at a time, none while there is a
    channel, and every call that waits does so for the one in flight. *)
Theorem connection_sound l s :
  run l init = Some s ->
  channel s = connection s /\
  (forall c, channel s = Some c -> attempts s = ∅ /\ c ∈ open s) /\
  (forall i m, calls s !! i = Some (m, Resolved) -> is_Some (channel s)) /\
  (size (attempts s) <= 1)%nat /\
  (forall i m a, calls s !! i = Some (m, Waiting a) -> is_Some (attempts s !! a)) /\
  (forall c s', step (Closes c) s = Some s' -> channel s' <> channel s -> channel s = Some c).
Proof.
  intros Hs%run_sound; [|exact init_sound]. split_and!.
  - apply Hs.
  - intros c Hc. destruct (sound_idle _ Hs _ Hc) as (Hk & ? & _). split; [|done].
    apply map_empty. intros a. by apply sound_none.
  - intros i m Hi. exact (sound_calls _ Hs _ _ _ Hi).
  - destruct (connecting s) as [a|] eqn:Hk.
    + assert (Hsub : dom (attempts s) ⊆ {[a]}).
      { intros b [k Hb]%elem_of_dom. apply (sound_attempts _ Hs) in Hb.
        apply elem_of_singleton. congruence. }
      apply subseteq_size in Hsub. by rewrite size_dom, size_singleton in Hsub.
    + assert (attempts s = ∅) as -> by (apply map_empty; intros a; by apply sound_none).
      rewrite map_size_empty. lia.
  - intros i m a Hi. apply (sound_connecting _ Hs), (sound_calls _ Hs _ _ _ Hi).
  - intros c s' Hstep Hch. unfold step in Hstep. destruct (negb _); [done|].
    case_bool_decide as Ho; simplify_eq. unfold close in Hch. case_bool_decide as Hw; [|done].
    by apply (sound_watched _ Hs).
Qed.

(** ** The single step *)

(** The program of Outbox.v a call runs. *)
Definition program (m : method) : prog system unit :=
  match m with
  | Publish event => RabbitPublisherService.publish event
  | Ping => RabbitPublisherService.ping
  | ModuleInit => RabbitPublisherService.onModuleInit false
  end.

(** A call as a thread: connecting is the first step of its program, which it has not taken
    before it goes on. *)
Definition thread (call : method * progress) : prog system unit :=
  match call.2 with
  | Waiting _ | Resolved => program call.1
  | Answering (Some o) => await (waitForConfirms o)
  | Answering None => await RabbitPublisherService.checkExchange
  | Ended (Ok tt) => Ret tt
  | Ended (Err e) => Throw e
  end.

(** RabbitMQ is reachable while there is a channel; the log grows by what is taken. *)
Definition refined (base : system) (s : state) : config system unit :=
  mkConfig
    (mkSystem (sys_world base) (sys_log base ++ taken s) (sys_running base)
       (bool_decide (is_Some (channel s))) (sys_cache base))
    (map thread (calls s)).

(** What a schedule may do: start a method, go on with one, fail one, connect or disconnect. *)
Definition scheduled (a : action system unit) (c : config system unit) : Prop :=
  match a with
  | Spawn p => exists m, p = program m
  | Run _ | Fault _ _ => True
  | Environment s' =>
      exists b, s' = mkSystem (sys_world (shared c)) (sys_log (shared c)) (sys_running (shared c)) b
                       (sys_cache (shared c))
  | LoseAnswer _ _ | Crash _ => False
  end.

Inductive schedule : config system unit -> config system unit -> Prop :=
| schedule_nil c : schedule c c
| schedule_cons a c d c' :
    scheduled a c -> perform a c = Some d -> schedule d c' -> schedule c c'.

Lemma schedule_one a c d : scheduled a c -> perform a c = Some d -> schedule c d.
Proof. intros. eapply schedule_cons; [done..|constructor]. Qed.

Lemma schedule_app c d c' : schedule c d -> schedule d c' -> schedule c c'.
Proof. induction 1; [done|]. intros. eapply schedule_cons; eauto. Qed.

Lemma map_insert l i (call : method * progress) :
  map thread (<[i := call]> l) = <[i := thread call]> (map thread l).
Proof. apply list_fmap_insert. Qed.

(** Make one step of a thread fail. *)
Lemma schedule_fault (sh : system) ts i (B : Type) (m : tx system B) k e :
  ts !! i = Some (Step m k) ->
  schedule (mkConfig sh ts) (mkConfig sh (<[i := k (Err e)]> ts)).
Proof. intros Hi. apply (schedule_one (Fault i e)); [done|]. simpl. by rewrite Hi. Qed.

(** Have one step of a thread taken. *)
Lemma schedule_run (sh : system) ts i (B : Type) (m : tx system B) k b sh' :
  ts !! i = Some (Step m k) -> m sh = Ok (b, sh') ->
  schedule (mkConfig sh ts) (mkConfig sh' (<[i := k (Ok b)]> ts)).
Proof. intros Hi Hm. apply (schedule_one (Run i)); [done|]. simpl. by rewrite Hi, Hm. Qed.

Lemma program_first m :
  exists k, program m = Step ensureConnected k /\
    k (Ok tt) =
      match m with
      | Publish event =>
          match routingKeyFor (de_type event) with
          | None => Throw no_routing_key
          | Some key =>
              Step (tell (RabbitPublisherService.message_of event key))
                (fun r => prog_then
                   (fun _ => await (waitForConfirms (RabbitPublisherService.message_of event key)))
                   (match r with Ok a => Ret a | Err e => Throw e end))
          end
      | Ping => await RabbitPublisherService.checkExchange
      | ModuleInit => Ret tt
      end /\
    forall e, k (Err e) = thread (m, ends m (Err e)).
Proof.
  destruct m as [event| |]; (eexists; split; [reflexivity|]); simpl; [|done..].
  unfold no_routing_key. by destruct (routingKeyFor _).
Qed.

(** The rejection of an attempt is a failure of the first step of every call that waits for it. *)
Lemma schedule_reject (sh : system) a e l l' :
  schedule (mkConfig sh (map thread l ++ map thread l'))
           (mkConfig sh (map thread l ++ map thread (reject a e l'))).
Proof.
  revert l. induction l' as [|[m p] l' IH]; intros l; [constructor|].
  assert (Hcons : forall q, schedule (mkConfig sh (map thread l ++ thread (m, q) :: map thread l'))
    (mkConfig sh (map thread l ++ thread (m, q) :: map thread (reject a e l')))).
  { intros q. specialize (IH (l ++ [(m, q)])). by rewrite map_app, <-!(assoc_L (++)) in IH. }
  unfold reject. rewrite !map_cons. fold (reject a e l'). destruct p as [b| | |]; try apply Hcons.
  case_bool_decide as Hb; [|apply Hcons].
  eapply schedule_app; [|apply Hcons].
  destruct (program_first m) as (k & Hk & _ & He).
  change (thread (m, Waiting b)) with (program m). rewrite Hk, <-He.
  replace (map thread l ++ k (Err e) :: map thread l')
    with (<[length (map thread l) := k (Err e)]>
            (map thread l ++ Step ensureConnected k :: map thread l')).
  2: { rewrite <-(Nat.add_0_r (length _)), insert_app_r. done. }
  eapply schedule_fault. by rewrite lookup_app_r, Nat.sub_diag by lia.
Qed.

(** ** The steps of the event loop, refined *)

Section refinement.
Variable base : system.

Lemma refined_connection s s' :
  map thread (calls s') = map thread (calls s) -> taken s' = taken s ->
  schedule (refined base s) (refined base s').
Proof.
  intros Hc Ht. unfold refined. rewrite Hc, Ht.
  eapply (schedule_one (Environment _)); [|done]. by eexists.
Qed.

Lemma map_thread_resolve a l : map thread (resolve a l) = map thread l.
Proof.
  unfold resolve. rewrite map_map. apply map_ext. intros [m []]; try done.
  by case_bool_decide.
Qed.

Lemma refined_call m s : schedule (refined base s) (refined base (call m s)).
Proof.
  assert (Hs : forall p, (exists a, p = Waiting a) \/ p = Resolved ->
    map thread (calls s ++ [(m, p)]) = map thread (calls s) ++ [program m]).
  { intros p Hp. rewrite map_app. by destruct Hp as [[a ->] | ->]. }
  apply (schedule_one (Spawn (program m))); [by exists m|].
  unfold call, refined.
  destruct (channel s) eqn:Hch, (connecting s); simpl; rewrite Hch, Hs; eauto.
Qed.

Lemma thread_lookup s i m p :
  calls s !! i = Some (m, p) -> threads (refined base s) !! i = Some (thread (m, p)).
Proof. simpl. rewrite list_lookup_fmap. by intros ->. Qed.

Lemma refined_set_progress i m p s :
  refined base (set_progress i m p s) =
  mkConfig (shared (refined base s)) (<[i := thread (m, p)]> (threads (refined base s))).
Proof. unfold refined. simpl. by rewrite map_insert. Qed.

Lemma refined_go_on i m s :
  sound s -> calls s !! i = Some (m, Resolved) -> schedule (refined base s) (refined base (go_on i m s)).
Proof.
  intros Hs Hi. destruct (sound_calls _ Hs _ _ _ Hi) as [c Hc].
  pose proof (thread_lookup _ _ _ _ Hi) as Ht. change (thread (m, Resolved)) with (program m) in Ht.
  destruct (program_first m) as (k & Hk & Hnext & _). rewrite Hk in Ht.
  assert (Hen : ensureConnected (shared (refined base s)) = Ok (tt, shared (refined base s))).
  { unfold ensureConnected. simpl. by rewrite Hc. }
  eapply schedule_app; [exact (schedule_run _ _ _ _ _ _ _ _ Ht Hen)|].
  rewrite Hnext. unfold go_on. rewrite Hc. destruct m as [event| |].
  - destruct (routingKeyFor _) as [key|].
    + rewrite refined_set_progress.
      assert (Hi' : (i < length (threads (refined base s)))%nat) by by eapply lookup_lt_Some.
      eapply schedule_app;
        [exact (schedule_run _ _ i _ (tell (RabbitPublisherService.message_of event key)) _ tt _
                  (list_lookup_insert_eq _ _ _ Hi') eq_refl)|].
      rewrite list_insert_insert_eq. simpl. rewrite <-(assoc_L (++)). constructor.
    + rewrite refined_set_progress. constructor.
  - rewrite refined_set_progress. constructor.
  - rewrite refined_set_progress. constructor.
Qed.

Lemma refined_answer i m o r s :
  calls s !! i = Some (m, Answering o) ->
  schedule (refined base s) (refined base (answered i m o r s)).
Proof.
  intros Hi. pose proof (thread_lookup _ _ _ _ Hi) as Ht. unfold answered.
  rewrite refined_set_progress. destruct o as [o|], r as [[]|e].
  - eapply schedule_app; [exact (schedule_run _ _ _ _ _ _ tt _ Ht eq_refl)|].
    simpl. rewrite <-(assoc_L (++)). constructor.
  - exact (schedule_fault _ _ _ _ _ _ e Ht).
  - exact (schedule_run _ _ _ _ _ _ tt _ Ht eq_refl).
  - exact (schedule_fault _ _ _ _ _ _ e Ht).
Qed.

Lemma step_refined e s s' :
  sound s -> step e s = Some s' -> schedule (refined base s) (refined base s').
Proof.
  intros Hs. unfold step. destruct (inside e || quiescent s) eqn:Hq; [simpl|done].
  destruct e as [m|i|a|a|a|a e|i r|c]; intros H.
  - simplify_eq. apply refined_call.
  - destruct (calls s !! i) as [[m []]|] eqn:Hi; simplify_eq. by apply refined_go_on.
  - destruct (attempts s !! a) as [[| |]|]; simplify_eq. by apply refined_connection.
  - destruct (attempts s !! a) as [[|c|]|]; simplify_eq. case_bool_decide; simplify_eq.
    by apply refined_connection.
  - destruct (attempts s !! a) as [[| |c]|] eqn:Ha; simplify_eq. case_bool_decide; simplify_eq.
    apply refined_connection; [apply map_thread_resolve|done].
  - destruct (attempts s !! a); simplify_eq. apply (schedule_reject _ a e []).
  - destruct (calls s !! i) as [[m []]|] eqn:Hi; simplify_eq. by apply refined_answer.
  - case_bool_decide; simplify_eq. unfold close.
    case_bool_decide; by apply refined_connection.
Qed.

(** C19: The publisher with its connection refines the publisher whose [ensureConnected] is one
    step: every run of the event loop, whatever calls overlap and however the broker answers, is
    a schedule of the programs of the methods, with the same log and the same answers. *)
Theorem publisher_refines l s :
  run l init = Some s -> schedule (refined base init) (refined base s).
Proof.
  cut (forall l s0 s, sound s0 -> run l s0 = Some s -> schedule (refined base s0) (refined base s)).
  { intros Hr Hl. eapply Hr; [exact init_sound|exact Hl]. }
  clear. induction l as [|e l IH]; simpl; intros s0 s Hs H; [simplify_eq; constructor|].
  apply bind_Some in H as (t & Ht & Hl).
  eapply schedule_app; [by eapply step_refined|]. eapply IH; [|done]. by eapply step_sound.
Qed.

End refinement.

(** ** Abandoned connections *)

(** The attempt [a], whose set-up fails after [amqp.connect]. *)
Definition failed_attempt (e : exn) (a : nat) : list event :=
  [Call Ping; Dialled a; ConnectFails a e].

Lemma reject_quiescent a e l :
  forallb (fun '(_, p) => match p with Resolved => false | _ => true end) l = true ->
  forallb (fun '(_, p) => match p with Resolved => false | _ => true end) (reject a e l) = true.
Proof.
  induction l as [|[m p] l IH]; simpl; [done|].
  intros [Hp Hl]%andb_prop. rewrite IH by done. destruct p, m; simpl; try done; by case_bool_decide.
Qed.

Lemma failed_attempt_leaks e s :
  channel s = None -> connecting s = None -> attempts s = ∅ -> quiescent s = true ->
  exists s', run (failed_attempt e (begun s)) s = Some s' /\ channel s' = None /\
    connecting s' = None /\ attempts s' = ∅ /\ quiescent s' = true /\
    open s' = {[opened s]} ∪ open s /\ opened s' = S (opened s) /\ begun s' = S (begun s) /\
    watched s' = watched s.
Proof.
  intros Hc Hk Ha Hq.
  assert (Hcall : call Ping s = with_calls (calls s ++ [(Ping, Waiting (begun s))]) (begin s))
    by (unfold call; by rewrite Hc, Hk).
  assert (Hq' : quiescent (call Ping s) = true).
  { rewrite Hcall. unfold quiescent in *. simpl. by rewrite forallb_app, Hq. }
  eexists. split.
  - unfold failed_attempt, run, step. cbn [inside orb negb mbind option_bind]. rewrite Hq'.
    rewrite Hcall in *. cbn -[insert]. rewrite lookup_insert_eq.
    unfold quiescent in *. cbn -[insert] in *. rewrite Hq'. cbn -[insert].
    rewrite lookup_insert_eq. reflexivity.
  - simpl. rewrite Ha. split_and!; try done.
    + by rewrite insert_insert_eq, delete_insert_eq.
    + rewrite Hcall in Hq'. by apply reject_quiescent.
Qed.

(** Connections are abandoned: after [n] attempts whose set-up fails once they are connected,
    [n] connections are open, none of them known to the publisher. *)
Theorem connections_abandoned e n :
  exists s, run (flat_map (failed_attempt e) (seq 0 n)) init = Some s /\
    channel s = None /\ connection s = None /\ watched s = ∅ /\ size (open s) = n.
Proof.
  cut (exists s, run (flat_map (failed_attempt e) (seq 0 n)) init = Some s /\
    channel s = None /\ connecting s = None /\ attempts s = ∅ /\ quiescent s = true /\
    watched s = ∅ /\ opened s = n /\ begun s = n /\ open s = set_seq 0 n).
  { intros (s & Hr & Hc & Hk & _ & _ & Hw & _ & _ & Ho). exists s. rewrite Ho. split_and!; try done.
    - by rewrite <-(sound_channel _ (run_sound _ _ _ init_sound Hr)).
    - by rewrite size_set_seq. }
  assert (Happ : forall l l' s, run (l ++ l') s = run l s ≫= run l').
  { induction l as [|x l IHl]; intros l' s; simpl; [done|]. destruct (step x s); simpl; auto. }
  induction n as [|n (s & Hr & Hc & Hk & Ha & Hq & Hw & Hn & Hb & Ho)]; [by exists init|].
  destruct (failed_attempt_leaks e s Hc Hk Ha Hq)
    as (s' & Hs' & ? & ? & ? & ? & Ho' & Hn' & Hb' & Hw').
  exists s'. rewrite seq_S, flat_map_app. cbn [flat_map Nat.add]. rewrite app_nil_r.
  rewrite Happ, Hr. cbn [mbind option_bind]. rewrite Hb in Hs'.
  split_and!; try done; try congruence.
  rewrite Ho', Ho, Hn, set_seq_S_end_union_L. done.
Qed.
