(* ===== verification/Health.v ===== *)
(** * The health probes

    HealthController (src/src/health/health.controller.ts) and [ping] of RedisCacheService. The
    readiness probe runs three checks at once and waits until each has settled. *)
From S2P Require Import Prelude JsStrings Errors Effects System Outbox.

(** [Promise.allSettled]: nothing while one of the promises is pending. *)
Definition settled {S A : Type} (p : prog S A) : option (result A) :=
  match p with Ret a => Some (Ok a) | Throw e => Some (Err e) | Step _ _ => None end.

Definition allSettled {S A : Type} (ps : list (prog S A)) : option (list (result A)) :=
  mapM settled ps.

(** [this.client.ping()] and [SELECT 1]: steps that may fail, and change nothing. *)
Definition redis_ping : tx system unit := fun s => Ok (tt, s).
Definition queryRaw : tx system unit := fun s => Ok (tt, s).

Definition ServiceUnavailableException (message : string) (others : list (string * json)) : exn :=
  HttpException 503 (ResponseObject (Some (JStr message)) others).

Module HealthController.

Definition live `{HttpPlatform} (now : Z) : json :=
  JObj [("status", JStr "ok"); ("timestamp", JStr (toISOString now))].

Definition checks : list (prog system unit) :=
  [await queryRaw; await redis_ping; RabbitPublisherService.ping].

Definition names : list string := ["postgresql"; "redis"; "rabbitmq"].

(** [checks[index]?.status === 'fulfilled' ? 'up' : 'down']. *)
Definition state_of (check : option (result unit)) : string :=
  match check with Some (Ok _) => "up" | _ => "down" end.

Definition dependencies (results : list (result unit)) : list (string * string) :=
  imap (fun index name => (name, state_of (results !! index))) names.

Definition to_json (dependencies : list (string * string)) : json :=
  JObj (map (fun '(name, state) => (name, JStr state)) dependencies).

Definition ready (results : list (result unit)) : result json :=
  let dependencies := dependencies results in
  if existsb (fun '(_, state) => String.eqb state "down") dependencies
  then Err (ServiceUnavailableException "One or more dependencies are unavailable"
              [("dependencies", to_json dependencies)])
  else Ok (JObj [("status", JStr "ok"); ("dependencies", to_json dependencies)]).

End HealthController.

(** ** A probe *)

(** The three checks, in any order and with any failures. *)
Definition probing (a : action system unit) : Prop :=
  match a with Run _ | Fault _ _ => True | _ => False end.

Definition fails (i : nat) (l : list (action system unit)) : bool :=
  existsb (fun a => match a with Fault j _ => Nat.eqb i j | _ => false end) l.

(** Check [i] can succeed: only that of RabbitMQ depends on the state. *)
Definition reaches (s : system) (i : nat) : bool := negb (Nat.eqb i 2) || sys_reachable s.

(** What has become of check [i], according to whether it has been made to fail. *)
Inductive check_at (s : system) (i : nat) : bool -> prog system unit -> Prop :=
| check_starts p : HealthController.checks !! i = Some p -> check_at s i false p
| check_goes_on : i = 2%nat -> sys_reachable s = true ->
    check_at s i false (await RabbitPublisherService.checkExchange)
| check_up : reaches s i = true -> check_at s i false (Ret tt)
| check_down failed e : failed || negb (reaches s i) = true -> check_at s i failed (Throw e).

Definition probed (s : system) (l : list (action system unit)) (c : config system unit) : Prop :=
  shared c = s /\ length (threads c) = 3%nat /\
  forall i p, threads c !! i = Some p -> check_at s i (fails i l) p.

Lemma fails_app i l l' : fails i (l ++ l') = fails i l || fails i l'.
Proof. apply existsb_app. Qed.

Lemma check_cases i p : HealthController.checks !! i = Some p ->
  (i = 2%nat /\ p = RabbitPublisherService.ping) \/
  (i <> 2%nat /\ exists m, p = await m /\ forall s, m s = Ok (tt, s)).
Proof.
  destruct i as [|[|[|i]]]; simpl; intros [= <-]; [right|right|left]; eauto.
Qed.

(** One step of a check, taken or made to fail. *)
Lemma check_step s i b p :
  check_at s i b p ->
  match p with
  | Step m k =>
      match m s with
      | Ok (a, s') => s' = s /\ check_at s i b (k (Ok a))
      | Err e => check_at s i b (k (Err e))
      end /\ forall e, check_at s i true (k (Err e))
  | _ => True
  end.
Proof.
  destruct 1 as [p Hi|Hi Hr|Hr|f e Hr]; try done.
  - destruct (check_cases _ _ Hi) as [(Hi2 & ->)|(Hne & m & -> & Hm)]; simpl.
    + split; [|by intros e; constructor]. unfold ensureConnected.
      destruct (sys_reachable s) eqn:Hs.
      * split; [done|]. by apply check_goes_on.
      * apply check_down. unfold reaches. by rewrite Hi2, Hs.
    + rewrite Hm. split; [split; [done|]|by intros e; constructor].
      apply check_up. unfold reaches. apply Nat.eqb_neq in Hne. by rewrite Hne.
  - simpl. split; [split; [done|]|by intros e; constructor].
    apply check_up. unfold reaches. by rewrite Hr, orb_true_r.
Qed.

Lemma probed_step s l c a c' :
  probed s l c -> probing a -> perform a c = Some c' -> probed s (l ++ [a]) c'.
Proof.
  intros (Hs & Hlen & Ht) Ha Hp.
  destruct a as [|i|i e|i e|i|]; try done; simpl in Hp;
    (destruct (threads c !! i) as [[| |B m k]|] eqn:Hi; try done);
    (destruct (check_step _ _ _ _ (Ht _ _ Hi)) as [Hrun Hfault]); rewrite Hs in Hp.
  - destruct (m s) as [[b s']|e]; [destruct Hrun as [-> Hrun]|]; simplify_eq;
      (split_and!; simpl; [done|by rewrite length_insert|]);
      (intros j p Hj; rewrite fails_app, orb_false_r;
       apply list_lookup_insert_Some in Hj as [(<- & <- & _)|(_ & Hj)]; auto).
  - simplify_eq. split_and!; simpl; [done|by rewrite length_insert|].
    intros j p Hj. rewrite fails_app. simpl. rewrite orb_false_r.
    apply list_lookup_insert_Some in Hj as [(<- & <- & _)|(Hne & Hj)].
    + rewrite Nat.eqb_refl, orb_true_r. apply Hfault.
    + apply not_eq_sym, Nat.eqb_neq in Hne. rewrite Hne, orb_false_r. auto.
Qed.

Lemma probed_all s l l' c c' :
  probed s l c -> Forall probing l' -> perform_all l' c = Some c' -> probed s (l ++ l') c'.
Proof.
  revert l c. induction l' as [|a l' IH]; simpl; intros l c Hc Hl Hp; simplify_eq.
  { by rewrite app_nil_r. }
  inversion_clear Hl. apply bind_Some in Hp as (d & Hd & Hp).
  rewrite (app_assoc l [a] l' : l ++ a :: l' = _). eapply IH; [|done..]. by eapply probed_step.
Qed.

Lemma probed_start s : probed s [] (mkConfig s HealthController.checks).
Proof. split_and!; [done..|]. intros i p Hi. by apply check_starts. Qed.

Lemma settled_check s i b p r :
  check_at s i b p -> settled p = Some r ->
  HealthController.state_of (Some r) = if negb b && reaches s i then "up"%string else "down"%string.
Proof.
  destruct 1 as [p Hi| |Hr|f e Hr]; simpl; intros Hset; simplify_eq; simpl.
  - destruct (check_cases _ _ Hi) as [(_ & ->)|(_ & m & -> & _)]; done.
  - by rewrite Hr.
  - by destruct f, (reaches s i).
Qed.

(** C39: The readiness probe tells the truth, in whatever order its checks run and fail: it
    answers 200 with every dependency up when no check fails and RabbitMQ is reachable, and
    otherwise a 503 whose exception names exactly the dependencies that are down. The filter
    keeps the status and the message of that 503, and leaves the dependencies out. *)
Theorem readiness `{HttpPlatform} s l c results :
  Forall probing l -> perform_all l (mkConfig s HealthController.checks) = Some c ->
  allSettled (threads c) = Some results ->
  let up i := negb (fails i l) && reaches s i in
  let state i := JStr (if up i then "up" else "down") in
  let dependencies := JObj [("postgresql", state 0%nat); ("redis", state 1%nat);
                            ("rabbitmq", state 2%nat)] in
  shared c = s /\
  if up 0%nat && up 1%nat && up 2%nat
  then HealthController.ready results =
         Ok (JObj [("status", JStr "ok"); ("dependencies", dependencies)])
  else exists e, HealthController.ready results = Err e /\
         e = HttpException 503 (ResponseObject
               (Some (JStr "One or more dependencies are unavailable"))
               [("dependencies", dependencies)]) /\
         forall correlationId url now,
           let answer := AllExceptionsFilter.catch e correlationId url now in
           AllExceptionsFilter.replied_status answer = 503 /\
           AllExceptionsFilter.message (AllExceptionsFilter.replied_body answer) =
             "One or more dependencies are unavailable"%string /\
           AllExceptionsFilter.details (AllExceptionsFilter.replied_body answer) = None.
Proof.
  intros Hl Hp Hset up state deps. destruct (probed_all s [] l _ c (probed_start s) Hl Hp)
    as (Hs & Hlen & Ht). split; [done|]. simpl in Ht.
  destruct (threads c) as [|p0 [|p1 [|p2 [|]]]]; try done.
  unfold allSettled in Hset. apply mapM_Some in Hset.
  apply Forall2_cons_inv_l in Hset as (r0 & rs0 & H0 & Hset & ->).
  apply Forall2_cons_inv_l in Hset as (r1 & rs1 & H1 & Hset & ->).
  apply Forall2_cons_inv_l in Hset as (r2 & rs2 & H2 & Hset & ->).
  apply Forall2_nil_inv_l in Hset as ->.
  assert (Hdeps : HealthController.dependencies [r0; r1; r2] =
    [("postgresql", if up 0%nat then "up" else "down"); ("redis", if up 1%nat then "up" else "down");
     ("rabbitmq", if up 2%nat then "up" else "down")]%string).
  { transitivity [("postgresql"%string, HealthController.state_of (Some r0));
      ("redis"%string, HealthController.state_of (Some r1));
      ("rabbitmq"%string, HealthController.state_of (Some r2))]; [done|].
    by rewrite (settled_check _ _ _ _ _ (Ht 0%nat _ eq_refl) H0),
      (settled_check _ _ _ _ _ (Ht 1%nat _ eq_refl) H1),
      (settled_check _ _ _ _ _ (Ht 2%nat _ eq_refl) H2). }
  unfold HealthController.ready. rewrite Hdeps. unfold deps, state.
  destruct (up 0%nat), (up 1%nat), (up 2%nat); simpl; eauto 10.
Qed.
