(* ===== verification/Pipeline.v ===== *)
(** * Requests, from the socket to the answer

    What surrounds a handler of the API: CorrelationIdMiddleware and RequestContextService
    (src/src/common/request-context/), the three guards, HttpMetricsInterceptor and
    MetricsService (src/src/observability/), AllExceptionsFilter, in the order of the
    application module (src/src/app.module.ts). prom-client is a parameter. *)
From S2P Require Import Prelude JsStrings Errors JsNumbers Effects Prisma Schema Orders Auth Http.
From S2P Require Import Routes Throttle Evolution Restaurants System.

(** ** prom-client *)

Abbreviation labels := (list (string * string)).

(** A registry: counters and histograms by name and labels, and what a scrape shows of them. *)
Class PromClient := {
  registry : Type;
  inc : string -> labels -> registry -> registry;
  observe : string -> labels -> number -> registry -> registry;
  counter_value : string -> labels -> registry -> Z;
  histogram_count : string -> labels -> registry -> Z;
  metrics_text : registry -> string;
}.
Class PromClientLaws (P : PromClient) : Prop := {
  counter_inc : forall n l n' l' r,
    counter_value n' l' (inc n l r) =
      counter_value n' l' r + if bool_decide (n' = n /\ l' = l) then 1 else 0;
  counter_observe : forall n l x n' l' r,
    counter_value n' l' (observe n l x r) = counter_value n' l' r;
  histogram_inc : forall n l n' l' r, histogram_count n' l' (inc n l r) = histogram_count n' l' r;
  histogram_observe : forall n l x n' l' r,
    histogram_count n' l' (observe n l x r) =
      histogram_count n' l' r + if bool_decide (n' = n /\ l' = l) then 1 else 0;
}.

(** ** MetricsService *)
Module MetricsService.

Record metric := mkMetric {
  m_name : string; m_help : string; m_labelNames : list string; m_buckets : list number }.

Definition requestsTotal : metric :=
  mkMetric "scaleforge_http_requests_total" "HTTP requests completed by method, route, and status."
    ["method"; "route"; "status"] [].
Definition requestDuration : metric :=
  mkMetric "scaleforge_http_request_duration_seconds" "HTTP request latency in seconds."
    ["method"; "route"; "status"]
    [decimal 5 (-3); decimal 1 (-2); decimal 25 (-3); decimal 5 (-2); decimal 1 (-1);
     decimal 25 (-2); decimal 5 (-1); of_Z 1; decimal 25 (-1); of_Z 5].
Definition outboxPublished : metric :=
  mkMetric "scaleforge_outbox_published_total" "Outbox events published successfully." ["type"] [].
Definition messagingFailures : metric :=
  mkMetric "scaleforge_messaging_failures_total"
    "RabbitMQ consumer failures before retry or dead-lettering." ["consumer"; "eventType"] [].

(** [this.registry.metrics()]. *)
Definition render `{PromClient} (r : registry) : string := metrics_text r.

End MetricsService.

(** ** The server: the system, and of the process of the API the registry, the monotonic clock
    in nanoseconds, and what the throttler has seen *)

Record server `{PromClient} := mkServer {
  sv_system : system; sv_metrics : registry; sv_hrtime : Z; sv_hits : list hit }.

Section server.
Context `{PromClient}.

Definition on_system {A : Type} (m : tx system A) : tx server A := fun s =>
  match m (sv_system s) with
  | Ok (a, sys) => Ok (a, mkServer _ sys (sv_metrics s) (sv_hrtime s) (sv_hits s))
  | Err e => Err e
  end.

Fixpoint serve {A : Type} (p : prog system A) : prog server A :=
  match p with
  | Ret a => Ret a
  | Throw e => Throw e
  | Step m k => Step (on_system m) (fun r => serve (k r))
  end.

Definition on_metrics (f : registry -> registry) : tx server unit := fun s =>
  Ok (tt, mkServer _ (sv_system s) (f (sv_metrics s)) (sv_hrtime s) (sv_hits s)).

Definition hrtime : tx server Z := tx_gets sv_hrtime.

End server.

(** ** RequestContextService: what runs under [run(context)] finds [context] *)
Module RequestContextService.

Definition run {A : Type} (correlationId : string) (callback : option string -> A) : A :=
  callback (Some correlationId).
Definition getCorrelationId (store : option string) : option string := store.

End RequestContextService.

(** ** HttpMetricsInterceptor *)

(** What the program reads of a request; no route when none matches. *)
Record request := mkRequest {
  rq_method : verb;
  rq_route : option route;
  rq_ip : string;
  rq_url : string;
  rq_baseUrl : string;
  rq_matched : option string;      (* [request.route?.path] *)
  rq_correlation : option string;  (* the header [x-correlation-id] *)
  rq_authorization : option string;
}.

Module HttpMetricsInterceptor.
Section interceptor.
Context `{PromClient}.

(** [finalize]: the callback runs when the handler has answered, and when it has failed. *)
Fixpoint finalize {A : Type} (callback : prog server unit) (p : prog server A) : prog server A :=
  match p with
  | Ret a => prog_then (fun _ => Ret a) callback
  | Throw e => prog_then (fun _ => Throw e) callback
  | Step m k => Step m (fun r => finalize callback (k r))
  end.

Definition route_label (rq : request) : string :=
  match truthy (rq_matched rq) with
  | Some path => String.append (rq_baseUrl rq) path
  | None => "unmatched"
  end.

Definition request_labels (rq : request) (statusCode : Z) : labels :=
  [("method", verb_name (rq_method rq)); ("route", route_label rq);
   ("status", pretty statusCode)]%string.

(** [Number(process.hrtime.bigint() - started) / 1_000_000_000]. *)
Definition seconds (started finished : Z) : number :=
  div (of_Z (finished - started)) (of_Z 1000000000).

Definition intercept {A : Type} (rq : request) (statusCode : Z) (next : prog server A) :
    prog server A :=
  started ← await hrtime;
  finalize
    (finished ← await hrtime;
     let labels := request_labels rq statusCode in
     await (on_metrics (fun r =>
       observe (MetricsService.m_name MetricsService.requestDuration) labels (seconds started finished)
         (inc (MetricsService.m_name MetricsService.requestsTotal) labels r))))
    next.

End interceptor.
End HttpMetricsInterceptor.

(** ** A request *)

(** The throttler: the first of the guards. *)
Module ThrottlerGuard.
Section guard.
Context `{PromClient, Throttler}.

Definition hit_now (r : route) (ip : string) (s : server) : hit :=
  Throttle.ThrottlerGuard.seen r ip (w_now (sys_world (sv_system s))) (sv_hits s).
Definition with_hit (h : hit) (s : server) : server :=
  mkServer _ (sv_system s) (sv_metrics s) (sv_hrtime s) (sv_hits s ++ [h]).

Definition note (r : route) (ip : string) : tx server bool := fun s =>
  let h := hit_now r ip s in Ok (h_passed h, with_hit h s).

Definition canActivate (r : route) (ip : string) : prog server unit :=
  passed ← await (note r ip);
  if (passed : bool) then Ret tt else Throw ThrottlerException.

End guard.
End ThrottlerGuard.

(** The answer: a status, the header [x-correlation-id], and the data or the error. *)
Inductive body (A : Type) := Data (data : A) | Failure (error : AllExceptionsFilter.error_body).
Arguments Data {A} data.
Arguments Failure {A} error.
Record answer (A : Type) := mkAnswer {
  an_status : Z; an_correlation : string; an_body : body A }.
Arguments mkAnswer {A}.
Arguments an_status {A}.
Arguments an_correlation {A}.
Arguments an_body {A}.

Section request.
Context `{Uuids, Jwt, AuthConfig, HttpPlatform, PromClient, Router, Throttler}.

(** Middleware, guards, interceptor, handler, filter. A URL without a route gets as far as the
    filter. *)
Definition respond {A : Type}
    (handler : option RequestUser -> option string -> prog server A) (rq : request) :
    prog server (answer A) :=
  correlationId ← await (on_system (on_world (CorrelationIdMiddleware.use (rq_correlation rq))));
  RequestContextService.run correlationId (fun store =>
    try_catch
      (match rq_route rq with
       | None => Throw (no_route (rq_method rq) (rq_url rq))
       | Some r =>
           _ ← ThrottlerGuard.canActivate r (rq_ip rq);
           user ← serve (lift (authorize r (rq_authorization rq)));
           let statusCode := success_status r in
           data ← HttpMetricsInterceptor.intercept rq statusCode
                    (handler user (RequestContextService.getCorrelationId store));
           Ret (mkAnswer statusCode correlationId (Data data))
       end)
      (fun e =>
         time ← await (on_system (on_world now));
         let outcome := AllExceptionsFilter.catch e (RequestContextService.getCorrelationId store)
                          (rq_url rq) time in
         Ret (mkAnswer (AllExceptionsFilter.replied_status outcome) correlationId
                (Failure (AllExceptionsFilter.replied_body outcome))))).

End request.

(** ** Every request is answered, and counted if it reaches its handler *)

Section answers.
Context {U : Uuids} {J : Jwt} {C : AuthConfig} {HP : HttpPlatform} {M : PromClient}
  {Ro : Router} {Th : Throttler}
  {UL : UuidsLaws U} {JL : JwtLaws J} {ML : PromClientLaws M}.

Definition with_system (sys : system) (s : server) : server :=
  mkServer _ sys (sv_metrics s) (sv_hrtime s) (sv_hits s).

Lemma run_serve {A : Type} (p : prog system A) s :
  run (serve p) s = (fst (run p (sv_system s)), with_system (snd (run p (sv_system s))) s).
Proof.
  revert s. induction p as [a|e|B m k IH]; intros s; simpl; [by destruct s..|].
  unfold on_system. destruct (m (sv_system s)) as [[b sys]|e]; by rewrite IH.
Qed.

Lemma run_finalize {A : Type} (callback : prog server unit) (p : prog server A) s :
  run (HttpMetricsInterceptor.finalize callback p) s =
  match run callback (snd (run p s)) with
  | (Ok _, s') => (fst (run p s), s')
  | (Err e, s') => (Err e, s')
  end.
Proof.
  revert s. induction p as [a|e|B m k IH]; intros s; simpl.
  - pose proof (run_bind callback (fun _ => Ret a) s) as Hb. unfold mbind, prog_bind in Hb.
    rewrite Hb. by destruct (run callback s) as [[]].
  - pose proof (run_bind callback (fun _ => @Throw _ A e) s) as Hb. unfold mbind, prog_bind in Hb.
    rewrite Hb. by destruct (run callback s) as [[]].
  - destruct (m s) as [[b s']|e]; apply IH.
Qed.

(** The server after one more request has been counted. *)
Definition counted (rq : request) (statusCode : Z) (elapsed : number) (r : registry) : registry :=
  let labels := HttpMetricsInterceptor.request_labels rq statusCode in
  observe (MetricsService.m_name MetricsService.requestDuration) labels elapsed
    (inc (MetricsService.m_name MetricsService.requestsTotal) labels r).
Definition with_count (rq : request) (statusCode : Z) (started : Z) (s : server) : server :=
  mkServer _ (sv_system s)
    (counted rq statusCode (HttpMetricsInterceptor.seconds started (sv_hrtime s)) (sv_metrics s))
    (sv_hrtime s) (sv_hits s).

Lemma run_intercept {A : Type} rq statusCode (p : prog server A) s :
  run (HttpMetricsInterceptor.intercept rq statusCode p) s =
    (fst (run p s), with_count rq statusCode (sv_hrtime s) (snd (run p s))).
Proof.
  unfold HttpMetricsInterceptor.intercept. erewrite run_await_then by reflexivity.
  rewrite run_finalize. by rewrite run_bind, run_await.
Qed.

Lemma run_authorize r auth w : snd (run (authorize r auth) w) = w.
Proof.
  unfold authorize. rewrite run_bind, guard_run.
  destruct (IS_PUBLIC r); [|destruct (JwtAuthGuard.bearer auth) as [token|]; [|done];
    destruct (jwt_verify _ _ _) as [payload|]; [|done];
    destruct (match json_get "type" payload with Some (JStr s) => _ | _ => _ end); [|done]];
    by destruct (RolesGuard.canActivate _ _).
Qed.

(** What becomes of a request up to its handler: its route and its user, or a refusal. *)
Definition let_through (rq : request) (s : server) : result (route * option RequestUser) :=
  match rq_route rq with
  | None => Err (no_route (rq_method rq) (rq_url rq))
  | Some r =>
      if h_passed (ThrottlerGuard.hit_now r (rq_ip rq) s) then
        match fst (run (authorize r (rq_authorization rq)) (sys_world (sv_system s))) with
        | Ok user => Ok (r, user)
        | Err e => Err e
        end
      else Err ThrottlerException
  end.
(** The throttler has seen it, if it has a route. *)
Definition noted (rq : request) (s : server) : server :=
  match rq_route rq with
  | None => s
  | Some r => ThrottlerGuard.with_hit (ThrottlerGuard.hit_now r (rq_ip rq) s) s
  end.

(** The answer to a failure. *)
Definition failed_with {A : Type} (e : exn) (rq : request) (id : string) (time : Z)
    (a : answer A) : Prop :=
  an_status a = AllExceptionsFilter.statusOf e /\
  exists error, an_body a = Failure error /\ AllExceptionsFilter.correlationId error = Some id /\
    AllExceptionsFilter.path error = rq_url rq /\
    error = AllExceptionsFilter.replied_body (AllExceptionsFilter.catch e (Some id) (rq_url rq) time).

Lemma filter_answer {A : Type} e rq id time :
  failed_with (A := A) e rq id time
    (mkAnswer (AllExceptionsFilter.replied_status (AllExceptionsFilter.catch e (Some id) (rq_url rq) time))
       id (Failure (AllExceptionsFilter.replied_body
                      (AllExceptionsFilter.catch e (Some id) (rq_url rq) time)))).
Proof.
  unfold failed_with, AllExceptionsFilter.catch. simpl. destruct (500 <=? _); simpl; eauto 10.
Qed.

Lemma run_throttler r ip s :
  run (ThrottlerGuard.canActivate r ip) s =
  let h := ThrottlerGuard.hit_now r ip s in
  (if h_passed h then Ok tt else Err ThrottlerException, ThrottlerGuard.with_hit h s).
Proof.
  unfold ThrottlerGuard.canActivate. rewrite run_bind, run_await. simpl.
  by destruct (negb _).
Qed.

(** The guards and the interceptor around the handler. *)
Lemma run_guards {A : Type} (handler : option RequestUser -> prog server A) rq id s :
  run (match rq_route rq with
       | None => Throw (no_route (rq_method rq) (rq_url rq))
       | Some r =>
           _ ← ThrottlerGuard.canActivate r (rq_ip rq);
           user ← serve (lift (authorize r (rq_authorization rq)));
           data ← HttpMetricsInterceptor.intercept rq (success_status r) (handler user);
           Ret (mkAnswer (success_status r) id (Data data))
       end) s =
  match let_through rq s with
  | Err e => (Err e, noted rq s)
  | Ok (r, user) =>
      let (result, s') := run (handler user) (noted rq s) in
      (match result with
       | Ok data => Ok (mkAnswer (success_status r) id (Data data)) | Err e => Err e end,
       with_count rq (success_status r) (sv_hrtime s) s')
  end.
Proof.
  unfold let_through, noted. destruct (rq_route rq) as [r|]; [|done].
  rewrite run_bind, run_throttler. cbv zeta. set (h := ThrottlerGuard.hit_now r (rq_ip rq) s).
  destruct (h_passed h); [|done].
  rewrite run_bind, run_serve, run_lift. simpl sv_system. simpl fst. simpl snd.
  rewrite run_authorize.
  assert (Hs : with_system (with_world (sys_world (sv_system s)) (sv_system s))
    (ThrottlerGuard.with_hit h s) = ThrottlerGuard.with_hit h s) by (by destruct s as [[]]).
  rewrite Hs. destruct (fst (run (authorize r (rq_authorization rq)) (sys_world (sv_system s))))
    as [user|e]; [|done].
  rewrite run_bind, run_intercept.
  change (sv_hrtime (ThrottlerGuard.with_hit h s)) with (sv_hrtime s).
  destruct (run (handler user) (ThrottlerGuard.with_hit h s)) as [[data|e] s']; done.
Qed.

(** How often the requests of these labels have been counted. *)
Definition shown (n : labels) (s : server) : Z :=
  counter_value (MetricsService.m_name MetricsService.requestsTotal) n (sv_metrics s).

Lemma shown_with_count n rq statusCode started s :
  shown n (with_count rq statusCode started s) = shown n s +
    if bool_decide (n = HttpMetricsInterceptor.request_labels rq statusCode) then 1 else 0.
Proof.
  unfold shown, with_count, counted. simpl sv_metrics. rewrite counter_observe, counter_inc. f_equal.
  erewrite bool_decide_ext; [reflexivity|]. naive_solver.
Qed.

(** The whole of an answer. *)
Lemma respond_run {A : Type} (handler : option RequestUser -> option string -> prog server A) rq s :
  exists id w1, CorrelationIdMiddleware.use (rq_correlation rq) (sys_world (sv_system s)) =
      Ok (id, w1) /\ (1 <= String.length id <= 100)%nat /\
    let s1 := with_system (with_world w1 (sv_system s)) s in
    let (result, s') :=
      match let_through rq s1 with
      | Err e => (Err e, noted rq s1)
      | Ok (r, user) =>
          let (result, s') := run (handler user (Some id)) (noted rq s1) in
          (match result with
           | Ok data => Ok (mkAnswer (success_status r) id (Data data)) | Err e => Err e end,
           with_count rq (success_status r) (sv_hrtime s) s')
      end in
    exists a, run (respond handler rq) s = (Ok a, s') /\ an_correlation a = id /\
    match result with
    | Ok a' => a = a'
    | Err e => failed_with e rq id (w_now (sys_world (sv_system s'))) a
    end.
Proof.
  destruct (correlation_fits (rq_correlation rq) (sys_world (sv_system s))) as (id & w1 & Hu & Hl).
  exists id, w1. split; [done|]. split; [done|]. cbv zeta.
  set (s1 := with_system (with_world w1 (sv_system s)) s).
  assert (Huse : on_system (on_world (CorrelationIdMiddleware.use (rq_correlation rq))) s =
    Ok (id, s1)).
  { unfold on_system. erewrite run_on_world by exact Hu. done. }
  assert (Hnow : forall t : server, on_system (on_world now) t = Ok (w_now (sys_world (sv_system t)), t)).
  { by intros [[] ? ? ?]. }
  unfold respond. erewrite run_await_then by exact Huse.
  unfold RequestContextService.run, RequestContextService.getCorrelationId.
  rewrite run_try_catch, (run_guards (fun user => handler user (Some id))).
  change (sv_hrtime s1) with (sv_hrtime s).
  destruct (let_through rq s1) as [[r user]|e].
  - destruct (run (handler user (Some id)) (noted rq s1)) as [[data|e] s'].
    + by eexists.
    + erewrite run_await_then by apply Hnow. eexists. split; [reflexivity|]. split; [done|].
      apply filter_answer.
  - erewrite run_await_then by apply Hnow. eexists. split; [reflexivity|]. split; [done|].
    apply filter_answer.
Qed.

(** C16: Every request is answered, whatever the guards and the handler do, and the answer, its
    error body included, carries the correlation identifier of the request. A request without
    a route, or refused by the throttler, the token guard or the roles guard, runs nothing of
    the handler and is not counted. A request that reaches its handler is counted exactly once,
    under the status its route answers with when it succeeds: the metrics show a request that
    fails under 200 or 201. *)
Theorem request_answered {A : Type}
    (handler : option RequestUser -> option string -> prog server A) rq s :
  exists id w1 a s', CorrelationIdMiddleware.use (rq_correlation rq) (sys_world (sv_system s)) =
      Ok (id, w1) /\ (1 <= String.length id <= 100)%nat /\
    run (respond handler rq) s = (Ok a, s') /\ an_correlation a = id /\
    let s1 := with_system (with_world w1 (sv_system s)) s in
    match let_through rq s1 with
    | Err e => failed_with e rq id (w_now w1) a /\ s' = noted rq s1
    | Ok (r, user) =>
        let (result, s2) := run (handler user (Some id)) (noted rq s1) in
        sv_system s' = sv_system s2 /\ sv_hits s' = sv_hits s2 /\
        (forall n, shown n s' = shown n s2 +
           if bool_decide (n = HttpMetricsInterceptor.request_labels rq (success_status r))
           then 1 else 0) /\
        match result with
        | Ok data => an_status a = success_status r /\ an_body a = Data data
        | Err e => failed_with e rq id (w_now (sys_world (sv_system s2))) a
        end
    end.
Proof.
  destruct (respond_run handler rq s) as (id & w1 & Hu & Hl & H). cbv zeta in H |- *.
  set (s1 := with_system (with_world w1 (sv_system s)) s) in *.
  destruct (let_through rq s1) as [[r user]|e] eqn:Hlet.
  - destruct (run (handler user (Some id)) (noted rq s1)) as [result s2] eqn:Hrun.
    destruct H as (a & Ha & Hid & H). eexists id, w1, a, _.
    do 4 (split; [eassumption|]). fold s1. rewrite Hlet, Hrun. split; [done|]. split; [done|].
    split; [intros n; apply shown_with_count|]. destruct result as [data|e]; [by subst a|exact H].
  - destruct H as (a & Ha & Hid & H). eexists id, w1, a, _. do 4 (split; [eassumption|]).
    fold s1. rewrite Hlet. split; [|done]. unfold noted in H. by destruct (rq_route rq).
Qed.

End answers.
