(* ===== verification/Workers.v ===== *)
(** * The workers

    AuditRepository and AuditEventHandler (src/src/audit/), NotificationsRepository,
    NotificationEventHandler and NotificationQueueService (src/src/notifications/): the two
    consumers of the domain events, idempotent by their processed-message records, and the
    delivery of notifications.

    An event is the JSON value its message carried: a field the code uses as text is read
    with [need_string], which throws on any other value, as the database client does. *)
From S2P Require Import Prelude JsStrings Errors Effects Prisma Schema Orders Evolution System.
From S2P Require Import Outbox.

(** ** Fields of an event *)

Definition need_string (field : option json) : tx world string :=
  match field with
  | Some (JStr s) => mret s
  | _ => tx_throw (JsError "Argument is missing or has an invalid value")
  end.

Definition optional_string (field : option json) : tx world (option string) :=
  match field with
  | None | Some JNull => mret None
  | Some (JStr s) => mret (Some s)
  | Some _ => tx_throw (JsError "Argument has an invalid value")
  end.

(** [event.payload.userId], when it is a string. *)
Definition payload_of (event : json) : json := default JNull (json_get "payload" event).
Definition userId_of (event : json) : option string :=
  match json_get "userId" (payload_of event) with Some (JStr s) => Some s | _ => None end.

Section processed.
Context `{Prisma, Uuids}.

(** [processedMessage.findUnique({ where: { consumer_eventId } })]. *)
Definition find_processed (consumer eventId : string) : tx world (option ProcessedMessage) :=
  db_findFirst ProcessedMessages
    (fun p => String.eqb (pm_consumer p) consumer && String.eqb (pm_eventId p) eventId).

End processed.

(** ** Audit *)
Module AuditRepository.
Section repository.
Context `{Prisma, Uuids}.

Definition CONSUMER := "audit"%string.

Definition processEvent (event : json) : tx world bool :=
  id ← need_string (json_get "id" event);
  processed ← find_processed CONSUMER id;
  match processed with
  | Some _ => mret false
  | None =>
      let actorId := userId_of event in
      type ← need_string (json_get "type" event);
      aggregateType ← need_string (json_get "aggregateType" event);
      aggregateId ← need_string (json_get "aggregateId" event);
      correlationId ← optional_string (json_get "correlationId" event);
      _ ← auditLog_create actorId (String.append "EVENT_" (js_toUpperCase type)) aggregateType
            aggregateId correlationId (payload_of event);
      _ ← processedMessage_create CONSUMER id;
      mret true
  end.

Definition list (limit : nat) : tx world (list AuditLog) :=
  db_findMany AuditLogs (fun _ => true) (fun a b => al_createdAt b <=? al_createdAt a) 0
    (Some limit).

End repository.
End AuditRepository.

Module AuditEventHandler.
Section handler.
Context `{Prisma, Uuids}.
Definition handle (event : json) : prog world bool := await (AuditRepository.processEvent event).
End handler.
End AuditEventHandler.

Module AuditService.
Section service.
Context `{Prisma, Uuids}.
Definition list : prog world (list AuditLog) := await (AuditRepository.list 100).
End service.
End AuditService.

(** ** Notifications *)
Module NotificationsRepository.
Section repository.
Context `{Prisma, Uuids, ErrorText}.

Definition CONSUMER := "notification"%string.

Definition processOrderCreated (event : json) : tx world (option string) :=
  id ← need_string (json_get "id" event);
  existing ← find_processed CONSUMER id;
  match existing with
  | Some _ =>
      delivery ← db_findFirst NotificationDeliveries
        (fun n => String.eqb (nd_eventId n) id && String.eqb (nd_channel n) "IN_APP");
      mret (nd_id <$> delivery)
  | None =>
      match userId_of event with
      | None => tx_throw (JsError "OrderCreated event is missing userId")
      | Some userId =>
          key ← new_uuid;
          t ← now;
          delivery ← db_create NotificationDeliveries delivery_constraints key
            {| nd_id := key; nd_eventId := id; nd_userId := userId; nd_channel := "IN_APP";
               nd_template := "ORDER_CREATED"; nd_payload := payload_of event;
               nd_status := DelPending; nd_attempts := 0; nd_lastError := None;
               nd_createdAt := t; nd_updatedAt := t |};
          _ ← processedMessage_create CONSUMER id;
          mret (Some (nd_id delivery))
      end
  end.

(** [status: { in: ['PENDING', 'FAILED'] }, attempts: { lt: 5 }]. *)
Definition claimable (n : NotificationDelivery) : bool :=
  bool_decide (nd_status n = DelPending \/ nd_status n = DelFailed) && (nd_attempts n <? 5).

Definition findPending (limit : nat) : tx world (list string) :=
  l ← db_findMany NotificationDeliveries claimable
        (fun a b => nd_createdAt a <=? nd_createdAt b) 0 (Some limit);
  mret (map nd_id l).

Definition set_delivery (status : DeliveryStatus) (attempts : Z) (lastError : option string)
    (t : Z) (n : NotificationDelivery) : NotificationDelivery := {|
  nd_id := nd_id n; nd_eventId := nd_eventId n; nd_userId := nd_userId n;
  nd_channel := nd_channel n; nd_template := nd_template n; nd_payload := nd_payload n;
  nd_status := status; nd_attempts := attempts; nd_lastError := lastError;
  nd_createdAt := nd_createdAt n; nd_updatedAt := t |}.

Definition claim (id : string) : tx world nat :=
  t ← now;
  db_updateMany NotificationDeliveries delivery_columns
    (fun n => String.eqb (nd_id n) id && claimable n)
    (fun n => set_delivery DelProcessing (nd_attempts n + 1) None t n).

Definition set_delivered (id : string) : tx world NotificationDelivery :=
  t ← now;
  db_update NotificationDeliveries delivery_columns id
    (fun n => set_delivery DelDelivered (nd_attempts n) (nd_lastError n) t n).

Definition deliver (id : string) : prog world unit :=
  claimed ← await (claim id);
  if bool_decide (claimed = 0%nat) then Ret tt
  else
    _ ← await (set_delivered id);
    Ret tt.

Definition markFailed (id : string) (error : exn) : prog world unit :=
  _ ← await
    (t ← now;
     db_updateMany NotificationDeliveries delivery_columns
       (fun n => String.eqb (nd_id n) id && bool_decide (nd_status n = DelProcessing))
       (fun n => set_delivery DelFailed (nd_attempts n)
                   (Some (js_slice 2000 (error_message error))) t n));
  Ret tt.

End repository.
End NotificationsRepository.

Module NotificationEventHandler.
Section handler.
Context `{Prisma, Uuids, ErrorText}.

Definition handle (event : json) : prog world (option string) :=
  match json_get "type" event with
  | Some (JStr "OrderCreated") => await (NotificationsRepository.processOrderCreated event)
  | _ => Ret None
  end.

End handler.
End NotificationEventHandler.

Module NotificationQueueService.
Section service.
Context `{Prisma, Uuids, ErrorText}.

(** [initialized]: whether [onModuleInit] has opened the queue. *)
Definition enqueue (initialized : bool) (deliveryId : string) : prog system unit :=
  if negb initialized then Throw (JsError "Notification queue is not initialized")
  else await (tell (JobAdded deliveryId 5 1000)).

Definition recoverPending (initialized : bool) : prog system unit :=
  if negb initialized then Ret tt
  else
    pending ← lift (await (NotificationsRepository.findPending 100));
    for_each (enqueue initialized) pending.

Definition process (deliveryId : string) : prog world unit :=
  try_catch (NotificationsRepository.deliver deliveryId)
    (fun error =>
       _ ← NotificationsRepository.markFailed deliveryId error;
       Throw error).

End service.
End NotificationQueueService.
