(* ===== verification/WorkersFlow.v ===== *)
(** * What the workers promise

    Each consumer processes an event at most once however often it is delivered, a
    notification follows its state machine, and no step of a worker disturbs the rest. *)
From S2P Require Import Prelude JsStrings Errors Effects Prisma Schema Orders OrdersSpec.
From S2P Require Import Evolution OrderFlow System Outbox Workers.

(** ** The invariant and the tables of the workers *)

Section invariant.
Context {Cl : Clients}.

Lemma wf_set_workers d au ps ns :
  wf d -> table_evolves (fun _ => True) frozen (auditLogs d) au ->
  (forall k k' p p', ps !! k = Some p -> ps !! k' = Some p' ->
     pm_consumer p = pm_consumer p' -> pm_eventId p = pm_eventId p' -> k = k') ->
  (forall k n, ns !! k = Some n -> delivery_wf k n) ->
  (forall k k' n n', ns !! k = Some n -> ns !! k' = Some n' ->
     nd_eventId n = nd_eventId n' -> k = k') ->
  (forall k p, ps !! k = Some p -> pm_consumer p = "notification"%string ->
     exists i n, ns !! i = Some n /\ nd_eventId n = pm_eventId p) ->
  wf (t_set NotificationDeliveries ns (t_set ProcessedMessages ps (t_set AuditLogs au d))).
Proof.
  intros [Hu Hem Hnem Htok Hm Hi Hord Hpay Hpk Hout Hproc Hdel Hdk Htu Hntf] Ha Hps Hns Hnk Hnt.
  split; simpl; try done.
  - intros k o Ho.
    eapply (order_wf_mono d); [apply table_evolves_refl|exact Ha|done|by apply Hord].
  - intros k p Hp. eapply (payment_wf_mono d);
      [apply table_evolves_refl|apply table_evolves_refl|exact Ha|by apply Hpay].
Qed.

Lemma quiet_workers w w' au ps ns :
  wf (w_db w) ->
  w_db w' = t_set NotificationDeliveries ns (t_set ProcessedMessages ps
    (t_set AuditLogs au (w_db w))) ->
  w_now w' = w_now w ->
  table_evolves (fun _ => True) frozen (auditLogs (w_db w)) au ->
  table_evolves (fun _ => True) frozen (processedMessages (w_db w)) ps ->
  table_evolves delivery_fresh delivery_change (notificationDeliveries (w_db w)) ns ->
  (forall k k' p p', ps !! k = Some p -> ps !! k' = Some p' ->
     pm_consumer p = pm_consumer p' -> pm_eventId p = pm_eventId p' -> k = k') ->
  (forall k n, ns !! k = Some n -> delivery_wf k n) ->
  (forall k k' n n', ns !! k = Some n -> ns !! k' = Some n' ->
     nd_eventId n = nd_eventId n' -> k = k') ->
  (forall k p, ps !! k = Some p -> pm_consumer p = "notification"%string ->
     exists i n, ns !! i = Some n /\ nd_eventId n = pm_eventId p) ->
  quiet w w'.
Proof.
  intros Hwf Hdb Hnow Hau Hps Hns Hpu Hdw Hdu Hnt. split_and!; [|intros _|lia]; rewrite Hdb.
  - split; simpl; auto with evolves.
  - by apply wf_set_workers.
Qed.

End invariant.

Section workers.
Context {Cl : Clients} {P : Prisma} {U : Uuids} {D : Decimals} {HP : HttpPlatform} {ET : ErrorText}
  {PL : PrismaLaws P} {UL : UuidsLaws U}.
Implicit Types (event : json) (w : world).

(** ** Processed messages *)

Lemma find_processed_inv consumer id w o w' :
  find_processed consumer id w = Ok (o, w') -> w' = w /\
  match o with
  | Some _ => processed consumer id (w_db w)
  | None => ~ processed consumer id (w_db w)
  end.
Proof.
  unfold find_processed. intros [-> H]%db_findFirst_inv. split; [done|]. destruct o as [p|].
  - destruct H as [[?%String.eqb_eq ?%String.eqb_eq]%andb_true_iff [k Hk]]. by exists k, p.
  - intros (k & p & Hk & Hc & Hid). specialize (H _ _ Hk). simpl in H.
    by rewrite Hc, Hid, !String.eqb_refl in H.
Qed.

Lemma find_processed_yes consumer id w :
  processed consumer id (w_db w) -> exists p, find_processed consumer id w = Ok (Some p, w).
Proof.
  intros Hp. destruct (find_processed consumer id w) as [[o w']|e] eqn:H; [|done].
  apply find_processed_inv in H as [-> H]. destruct o; [eauto|done].
Qed.

Lemma need_string_inv f w s w' :
  need_string f w = Ok (s, w') -> w' = w /\ f = Some (JStr s).
Proof. unfold need_string, mret, tx_ret, tx_throw. destruct f as [[]|]; intros; by simplify_eq. Qed.

Lemma optional_string_inv f w s w' : optional_string f w = Ok (s, w') -> w' = w.
Proof. unfold optional_string, mret, tx_ret, tx_throw. destruct f as [[]|]; intros; by simplify_eq. Qed.

Lemma insert_processed_unique (t : gmap string ProcessedMessage) k consumer id m :
  (forall k k' p p', t !! k = Some p -> t !! k' = Some p' ->
     pm_consumer p = pm_consumer p' -> pm_eventId p = pm_eventId p' -> k = k') ->
  (forall k q, t !! k = Some q -> pm_consumer q = consumer -> pm_eventId q <> id) ->
  pm_consumer m = consumer -> pm_eventId m = id ->
  forall i j p p', <[k := m]> t !! i = Some p -> <[k := m]> t !! j = Some p' ->
     pm_consumer p = pm_consumer p' -> pm_eventId p = pm_eventId p' -> i = j.
Proof.
  intros Hu Hno Hc Hi i j p p'. rewrite !lookup_insert.
  do 2 case_decide; intros; simplify_eq; try done.
  - exfalso. by eapply Hno.
  - exfalso. by eapply Hno.
  - by eapply Hu.
Qed.

(** ** The audit consumer *)

Lemma processEvent_inv event w b w' :
  AuditRepository.processEvent event w = Ok (b, w') ->
  exists id, json_get "id" event = Some (JStr id) /\
  ((b = false /\ w' = w /\ processed "audit" id (w_db w)) \/
   (b = true /\ ~ processed "audit" id (w_db w) /\
    exists type aggType agg ak a mk m,
      json_get "type" event = Some (JStr type) /\
      json_get "aggregateType" event = Some (JStr aggType) /\
      json_get "aggregateId" event = Some (JStr agg) /\
      auditLogs (w_db w) !! ak = None /\
      al_action a = String.append "EVENT_" (js_toUpperCase type) /\ al_aggregateId a = agg /\
      al_metadata a = payload_of event /\ al_actorId a = userId_of event /\
      processedMessages (w_db w) !! mk = None /\
      (forall k q, processedMessages (w_db w) !! k = Some q ->
         pm_consumer q = "audit"%string -> pm_eventId q <> id) /\
      pm_consumer m = "audit"%string /\ pm_eventId m = id /\
      w_now w' = w_now w /\
      w_db w' = t_set ProcessedMessages (<[mk := m]> (processedMessages (w_db w)))
                  (t_set AuditLogs (<[ak := a]> (auditLogs (w_db w))) (w_db w)))).
Proof.
  unfold AuditRepository.processEvent. intros (id & s & Hs & H)%tx_bind_Ok.
  apply need_string_inv in Hs as [-> Hid]. exists id. split; [done|].
  apply tx_bind_Ok in H as (o & s & Hs & H). apply find_processed_inv in Hs as [-> Ho].
  destruct o as [p|]; [left; unfold mret, tx_ret in H; by simplify_eq|right].
  apply tx_bind_Ok in H as (type & s & Hs & H). apply need_string_inv in Hs as [-> Hty].
  apply tx_bind_Ok in H as (aggType & s & Hs & H). apply need_string_inv in Hs as [-> Hat].
  apply tx_bind_Ok in H as (agg & s & Hs & H). apply need_string_inv in Hs as [-> Hag].
  apply tx_bind_Ok in H as (corr & s & Hs & H). apply optional_string_inv in Hs as ->.
  apply tx_bind_Ok in H as (a & s & Ha & H).
  apply auditLog_create_inv in Ha as (Hak & Hact & Hagg & Hmeta & Hactor & _ & ->).
  apply tx_bind_Ok in H as (m & s & Hm & H).
  apply processedMessage_create_inv in Hm as (Hmk & Hno & Hm & ->).
  unfold mret, tx_ret in H. injection H as <- <-. simpl in *. split_and!; [done|done|].
  eexists type, aggType, agg, _, a, _, _. split_and!; try done; by rewrite Hm.
Qed.

Lemma processEvent_quiet event : preserves (AuditRepository.processEvent event).
Proof.
  intros w b w' Hwf (id & _ & [(_ & -> & _)|(_ & _ & type & aggType & agg & ak & a & mk & m & _ & _ & _ &
    Hak & _ & _ & _ & _ & Hmk & Hno & Hc & Hi & Hnow & Hdb)])%processEvent_inv; [apply evolves_refl|].
  eapply (quiet_workers w w' (<[ak := a]> (auditLogs (w_db w)))
    (<[mk := m]> (processedMessages (w_db w))) (notificationDeliveries (w_db w))); try done.
  - by apply table_evolves_insert.
  - by apply table_evolves_insert.
  - apply table_evolves_refl.
  - eapply insert_processed_unique; [apply (wf_processed _ Hwf)|exact Hno|done|done].
  - apply (wf_deliveries _ Hwf).
  - apply (wf_delivery_events _ Hwf).
  - intros k q. rewrite lookup_insert. case_decide; [|apply (wf_notified _ Hwf)].
    intros [= <-]. by rewrite Hc.
Qed.

(** The audit consumer records an event once: the first processing adds exactly one audit
    row, for the event's aggregate and under its type in capitals, together with the
    processed mark; when the event is delivered again, in any later state of the system,
    nothing is stored. *)
Theorem audit_once event w w1 w2 :
  AuditRepository.processEvent event w = Ok (true, w1) -> rtc evolves w1 w2 ->
  (exists k a type, auditLogs (w_db w) !! k = None /\
     auditLogs (w_db w1) = <[k := a]> (auditLogs (w_db w)) /\
     json_get "type" event = Some (JStr type) /\
     al_action a = String.append "EVENT_" (js_toUpperCase type) /\
     json_get "aggregateId" event = Some (JStr (al_aggregateId a)) /\
     al_actorId a = userId_of event) /\
  AuditRepository.processEvent event w2 = Ok (false, w2).
Proof.
  intros (id & Hid & [(? & _)|(_ & _ & type & aggType & agg & ak & a & mk & m & Hty & _ & Hag &
    Hak & Hact & Hagg & _ & Hactor & Hmk & _ & Hc & Hi & _ & Hdb)])%processEvent_inv HE; [done|].
  split.
  - exists ak, a, type. rewrite Hdb. split_and!; try done. by rewrite Hagg.
  - assert (Hp : processed "audit" id (w_db w1)).
    { exists mk, m. rewrite Hdb. simpl. split; [apply lookup_insert_eq|done]. }
    destruct (find_processed_yes _ _ _ (rtc_processed _ _ _ _ Hp HE)) as [p Hf].
    unfold AuditRepository.processEvent. rewrite Hid.
    erewrite tx_bind_eq by done. by erewrite tx_bind_eq by exact Hf.
Qed.

(** ** The notification consumer *)

Lemma processOrder_inv event w o w' :
  NotificationsRepository.processOrderCreated event w = Ok (o, w') ->
  exists id, json_get "id" event = Some (JStr id) /\
  ((w' = w /\ processed "notification" id (w_db w) /\
    exists d, o = nd_id <$> d /\
      match d with
      | Some n => nd_eventId n = id /\ exists k, notificationDeliveries (w_db w) !! k = Some n
      | None => forall k n, notificationDeliveries (w_db w) !! k = Some n ->
          nd_channel n = "IN_APP"%string -> nd_eventId n <> id
      end) \/
   (exists userId key n mk m,
      userId_of event = Some userId /\ o = Some key /\ key <> ""%string /\
      n = mkNotificationDelivery key id userId "IN_APP" "ORDER_CREATED" (payload_of event)
            DelPending 0 None (w_now w) (w_now w) /\
      notificationDeliveries (w_db w) !! key = None /\
      (forall k q, notificationDeliveries (w_db w) !! k = Some q ->
         nd_channel q = "IN_APP"%string -> nd_eventId q <> id) /\
      processedMessages (w_db w) !! mk = None /\
      (forall k q, processedMessages (w_db w) !! k = Some q ->
         pm_consumer q = "notification"%string -> pm_eventId q <> id) /\
      pm_consumer m = "notification"%string /\ pm_eventId m = id /\
      w_now w' = w_now w /\
      w_db w' = t_set ProcessedMessages (<[mk := m]> (processedMessages (w_db w)))
        (t_set NotificationDeliveries (<[key := n]> (notificationDeliveries (w_db w))) (w_db w)))).
Proof.
  unfold NotificationsRepository.processOrderCreated. intros (id & s & Hs & H)%tx_bind_Ok.
  apply need_string_inv in Hs as [-> Hid]. exists id. split; [done|].
  apply tx_bind_Ok in H as (p & s & Hs & H). apply find_processed_inv in Hs as [-> Hp].
  destruct p as [p|]; [left|right].
  { apply tx_bind_Ok in H as (d & s & Hs & H). apply db_findFirst_inv in Hs as [-> Hd].
    unfold mret, tx_ret in H. injection H as <- <-. split_and!; [done|done|]. exists d.
    split; [done|]. destruct d as [n|].
    - by destruct Hd as [[?%String.eqb_eq _]%andb_true_iff ?].
    - intros k n Hn Hc He. specialize (Hd _ _ Hn). simpl in Hd.
      by rewrite Hc, He, !String.eqb_refl in Hd. }
  destruct (userId_of event) as [userId|] eqn:Hu; [|done].
  apply tx_bind_Ok in H as (key & s & Hs & H). unfold new_uuid in Hs. injection Hs as Hkey <-.
  apply tx_bind_Ok in H as (t & s & Hs & H). unfold now, tx_gets in Hs. injection Hs as <- <-.
  apply tx_bind_Ok in H as (n & s & Hs & H).
  apply db_create_inv in Hs as (-> & [Hn Hcl] & _ & _ & ->).
  apply tx_bind_Ok in H as (m & s & Hm & H).
  apply processedMessage_create_inv in Hm as (Hmk & Hno & Hm & ->).
  unfold mret, tx_ret in H. injection H as <- <-. simpl in *.
  eexists userId, key, _, _, m. split_and!; try done; try (by rewrite Hm).
  { intros ->. pose proof (uuid_at_length (w_nonce w)) as Hl. by rewrite Hkey in Hl. }
  intros k q Hq Hc He. specialize (Hcl _ _ Hq). simpl in Hcl.
  by rewrite Hc, He, !String.eqb_refl in Hcl.
Qed.

Lemma processOrder_quiet event : preserves (NotificationsRepository.processOrderCreated event).
Proof.
  intros w o w' Hwf (id & _ & [(-> & _)|(userId & key & n & mk & m & _ & _ & Hne & Hn & Hkey & Hcl & Hmk &
    Hno & Hc & Hi & Hnow & Hdb)])%processOrder_inv; [apply evolves_refl|].
  eapply (quiet_workers w w' (auditLogs (w_db w)) (<[mk := m]> (processedMessages (w_db w)))
    (<[key := n]> (notificationDeliveries (w_db w)))); try done.
  - apply table_evolves_refl.
  - by apply table_evolves_insert.
  - apply table_evolves_insert; [done|by rewrite Hn].
  - eapply insert_processed_unique; [apply (wf_processed _ Hwf)|exact Hno|done|done].
  - intros k q. rewrite lookup_insert. case_decide; [|apply (wf_deliveries _ Hwf)].
    intros [= <-]. subst. by split.
  - intros k k' q q'. rewrite !lookup_insert. do 2 case_decide; intros; simplify_eq; try done.
    + exfalso. eapply Hcl; [done|by eapply dw_channel, (wf_deliveries _ Hwf)|done].
    + exfalso. eapply Hcl; [done|by eapply dw_channel, (wf_deliveries _ Hwf)|done].
    + by eapply (wf_delivery_events _ Hwf).
  - intros k q. rewrite lookup_insert. case_decide.
    + intros [= <-] _. exists key, n. rewrite lookup_insert_eq, Hn. by split.
    + intros Hq Hqc. destruct (wf_notified _ Hwf _ _ Hq Hqc) as (i & x & Hx & ?).
      exists i, x. rewrite lookup_insert_ne by congruence. done.
Qed.

(** What the consumer knows after processing: the notification exists. *)
Lemma processOrder_post event w o w' :
  wf (w_db w) -> NotificationsRepository.processOrderCreated event w = Ok (o, w') ->
  exists id key n, json_get "id" event = Some (JStr id) /\ o = Some key /\ key <> ""%string /\
    processed "notification" id (w_db w') /\
    notificationDeliveries (w_db w') !! key = Some n /\ nd_eventId n = id.
Proof.
  intros Hwf (id & Hid & [(-> & Hp & d & -> & Hd)|(userId & key & n & mk & m & _ & -> & Hne & Hn &
    _ & _ & Hmk & _ & Hc & Hi & _ & Hdb)])%processOrder_inv.
  - destruct d as [n|].
    + destruct Hd as [He [k Hk]]. pose proof (wf_deliveries _ Hwf _ _ Hk) as [Hnid Hne _ _ _ _].
      exists id, k, n. simpl. by rewrite Hnid.
    + destruct Hp as (k & p & Hk & Hc & He).
      destruct (wf_notified _ Hwf _ _ Hk Hc) as (i & n & Hn & Hne).
      destruct (Hd _ _ Hn); [by eapply dw_channel, (wf_deliveries _ Hwf)|congruence].
  - exists id, key, n. rewrite Hdb. split_and!; try done.
    + exists mk, m. simpl. split; [apply lookup_insert_eq|done].
    + apply lookup_insert_eq.
    + by rewrite Hn.
Qed.

Lemma rtc_delivery w w' k n :
  notificationDeliveries (w_db w) !! k = Some n -> rtc evolves w w' ->
  exists n', notificationDeliveries (w_db w') !! k = Some n' /\ nd_id n' = nd_id n /\
    nd_eventId n' = nd_eventId n /\ nd_channel n' = nd_channel n.
Proof.
  intros Hn H. revert n Hn. induction H as [|w1 w2 w3 (HE & _) _ IH]; intros n Hn; [by exists n|].
  destruct (table_evolves_fwd _ _ _ _ _ _ (te_deliveries _ _ _ HE) Hn) as (n' & Hn' & Hc).
  destruct (IH _ Hn') as (n2 & ? & ? & ? & ?). exists n2.
  destruct Hc as [->|(? & ? & ? & ? & _)]; split_and!; congruence.
Qed.

(** One notification per order: processing an OrderCreated event adds exactly one PENDING
    delivery, for the user the event names; when the event is delivered again, in any later
    state of the system, the same delivery is answered and nothing is stored. *)
Theorem notification_once event w o w1 w2 id :
  wf (w_db w) -> json_get "id" event = Some (JStr id) ->
  ~ processed "notification" id (w_db w) ->
  NotificationsRepository.processOrderCreated event w = Ok (o, w1) -> rtc evolves w1 w2 ->
  exists key n, o = Some key /\
    notificationDeliveries (w_db w) !! key = None /\
    notificationDeliveries (w_db w1) = <[key := n]> (notificationDeliveries (w_db w)) /\
    nd_status n = DelPending /\ nd_eventId n = id /\ userId_of event = Some (nd_userId n) /\
    NotificationsRepository.processOrderCreated event w2 = Ok (Some key, w2).
Proof.
  intros Hwf Hid Hnew Hrun HE.
  assert (Hwf2 : wf (w_db w2)).
  { eapply rtc_wf; [|exact HE]. eapply evolves_wf; [exact Hwf|].
    by apply quiet_evolves, (processOrder_quiet event _ _ _ Hwf Hrun). }
  apply processOrder_inv in Hrun as (id' & Hid' & Hcase). rewrite Hid in Hid'. injection Hid' as <-.
  destruct Hcase as [(_ & Hp & _)|(userId & key & n & mk & m & Hu & -> & _ & Hn & Hkey & _ & Hmk & _ & Hc & Hi &
    _ & Hdb)]; [done|].
  assert (Hn1 : notificationDeliveries (w_db w1) !! key = Some n).
  { rewrite Hdb. apply lookup_insert_eq. }
  assert (Hp : processed "notification" id (w_db w1)).
  { exists mk, m. rewrite Hdb. simpl. split; [apply lookup_insert_eq|done]. }
  exists key, n. rewrite Hdb. split_and!; try done; [by rewrite Hn..|].
  destruct (find_processed_yes _ _ _ (rtc_processed _ _ _ _ Hp HE)) as [pm Hf].
  destruct (rtc_delivery _ _ _ _ Hn1 HE) as (n2 & Hn2 & Hnid & Hne & Hnc). rewrite Hn in *.
  unfold NotificationsRepository.processOrderCreated. rewrite Hid.
  erewrite tx_bind_eq by done. erewrite tx_bind_eq by exact Hf.
  destruct (db_findFirst NotificationDeliveries (fun n => String.eqb (nd_eventId n) id &&
    String.eqb (nd_channel n) "IN_APP") w2) as [[d s]|e] eqn:Hd; [|done].
  erewrite tx_bind_eq by exact Hd. apply db_findFirst_inv in Hd as [-> Hd].
  destruct d as [n3|].
  - destruct Hd as [[He3%String.eqb_eq _]%andb_true_iff [k3 Hk3]].
    assert (k3 = key) as ->.
    { eapply (wf_delivery_events _ Hwf2); [exact Hk3|exact Hn2|]. simpl in Hne. congruence. }
    assert (n3 = n2) as -> by (simpl in Hk3; congruence). simpl in *. by rewrite Hnid.
  - specialize (Hd _ _ Hn2). simpl in *. by rewrite Hne, Hnc, !String.eqb_refl in Hd.
Qed.

(** ** Deliveries *)

Lemma delivery_change_wf k n n' : delivery_change n n' -> delivery_wf k n -> delivery_wf k n'.
Proof.
  intros (Hid & _ & _ & Hc & _ & _ & _ & Hs) [Hk Hne Hch Ha Hp Hcl].
  assert (nd_status n' <> DelPending).
  { destruct Hs as [(_ & -> & _)|[(-> & _)|(_ & -> & _)]]; done. }
  assert (1 <= nd_attempts n' <= 5).
  { destruct Hs as [(_ & _ & ? & ?)|[(_ & ? & ?)|(Hpr & _ & ?)]]; [lia|lia|].
    assert (1 <= nd_attempts n) by (apply Hcl; by rewrite Hpr). lia. }
  split; [congruence|done|congruence|lia|done|lia].
Qed.

Lemma quiet_deliveries w ns :
  wf (w_db w) ->
  (forall k n', ns !! k = Some n' -> exists n, notificationDeliveries (w_db w) !! k = Some n /\
     (n' = n \/ delivery_change n n')) ->
  (forall k n, notificationDeliveries (w_db w) !! k = Some n -> is_Some (ns !! k)) ->
  quiet w (with_db (t_set NotificationDeliveries ns) w).
Proof.
  intros Hwf Hb Hf.
  assert (He : forall k n', ns !! k = Some n' -> exists n,
    notificationDeliveries (w_db w) !! k = Some n /\ nd_eventId n' = nd_eventId n).
  { intros k n' Hk. destruct (Hb _ _ Hk) as (n & Hn & Hc). exists n. split; [done|].
    by destruct Hc as [->|(_ & ? & _)]. }
  eapply (quiet_workers w _ (auditLogs (w_db w)) (processedMessages (w_db w)) ns); try done.
  - apply table_evolves_refl.
  - apply table_evolves_refl.
  - split.
    + intros k n Hk. destruct (Hf _ _ Hk) as [n' Hn']. exists n'. split; [done|].
      destruct (Hb _ _ Hn') as (n2 & ? & ?). by simplify_eq.
    + intros k n' Hn Hn'. destruct (Hb _ _ Hn') as (n2 & ? & _). congruence.
  - apply (wf_processed _ Hwf).
  - intros k n' Hn'. destruct (Hb _ _ Hn') as (n & Hn & Hc).
    pose proof (wf_deliveries _ Hwf _ _ Hn).
    destruct Hc as [->|Hc]; [done|by eapply delivery_change_wf].
  - intros k k' n n' (x & Hx & ->)%He (x' & Hx' & ->)%He. by eapply (wf_delivery_events _ Hwf).
  - intros k q Hq Hqc. destruct (wf_notified _ Hwf _ _ Hq Hqc) as (i & x & Hx & Hxe).
    destruct (Hf _ _ Hx) as [x' Hx']. destruct (He _ _ Hx') as (y & Hy & Hye). simplify_eq.
    exists i, x'. split; [done|congruence].
Qed.

Lemma quiet_delivery_update w p f :
  wf (w_db w) ->
  (forall k n, notificationDeliveries (w_db w) !! k = Some n -> p n = true ->
     delivery_change n (f n)) ->
  quiet w (with_db (t_set NotificationDeliveries
    (update_where p f (notificationDeliveries (w_db w)))) w).
Proof.
  intros Hwf H. apply quiet_deliveries; [done|..].
  - intros k n'. rewrite lookup_update_where. intros (n & Hn & ->)%fmap_Some. exists n.
    split; [done|]. destruct (p n) eqn:Hp; eauto.
  - intros k n Hn. rewrite lookup_update_where, Hn. by eexists.
Qed.

Definition claim_where (id : string) (n : NotificationDelivery) : bool :=
  String.eqb (nd_id n) id && NotificationsRepository.claimable n.
Definition set_claimed (t : Z) (n : NotificationDelivery) : NotificationDelivery :=
  NotificationsRepository.set_delivery DelProcessing (nd_attempts n + 1) None t n.

Lemma claimed_change t n :
  NotificationsRepository.claimable n = true -> delivery_change n (set_claimed t n).
Proof.
  intros [Hs%bool_decide_eq_true Ha%Z.ltb_lt]%andb_true_iff. split_and!; try done. by left.
Qed.

Lemma claim_where_key d id :
  wf d -> forall k n, notificationDeliveries d !! k = Some n -> claim_where id n = true -> k = id.
Proof.
  intros Hwf k n Hn [He%String.eqb_eq _]%andb_true_iff.
  rewrite <- He. symmetry. by eapply dw_id, (wf_deliveries _ Hwf).
Qed.

Lemma claim_inv id w c w' :
  NotificationsRepository.claim id w = Ok (c, w') ->
  c = length (where_rows (claim_where id) (notificationDeliveries (w_db w))) /\
  w' = with_db (t_set NotificationDeliveries (update_where (claim_where id)
    (set_claimed (w_now w)) (notificationDeliveries (w_db w)))) w.
Proof.
  unfold NotificationsRepository.claim. intros (t & s & Hs & H)%tx_bind_Ok.
  unfold now, tx_gets in Hs. injection Hs as <- <-.
  by apply db_updateMany_inv in H as (-> & -> & _).
Qed.

Lemma claim_quiet id : preserves (NotificationsRepository.claim id).
Proof.
  intros w c w' Hwf [_ ->]%claim_inv. apply quiet_delivery_update; [done|].
  intros k n _ [_ Hc]%andb_true_iff. by apply claimed_change.
Qed.

(** A worker that has claimed a delivery knows that it was attempted. *)
Definition attempted (id : string) (w : world) : Prop :=
  wf_world w /\ exists n, notificationDeliveries (w_db w) !! id = Some n /\ 1 <= nd_attempts n.

Lemma attempted_stable id : stable evolves (attempted id).
Proof.
  intros w w' [Hwf (n & Hn & Ha)] HE. split; [by eapply wf_stable|]. destruct HE as (Ht & _).
  destruct (table_evolves_fwd _ _ _ _ _ _ (te_deliveries _ _ _ Ht) Hn) as (n' & Hn' & Hc).
  exists n'. split; [done|]. destruct Hc as [->|(_ & _ & _ & _ & _ & _ & _ & Hs)]; [done|].
  destruct Hs as [(_ & _ & _ & ?)|[(_ & ? & _)|(_ & _ & ?)]]; lia.
Qed.

Lemma claim_attempted id w c w' :
  wf (w_db w) -> NotificationsRepository.claim id w = Ok (c, w') -> c <> 0%nat -> attempted id w'.
Proof.
  intros Hwf H Hc. pose proof (claim_quiet id _ _ _ Hwf H) as Hq.
  split; [by eapply evolves_wf|]. apply claim_inv in H as [Hlen ->]. simpl.
  rewrite (where_rows_key _ _ _ (claim_where_key _ id Hwf)) in Hlen.
  destruct (notificationDeliveries (w_db w) !! id) as [n|] eqn:Hn; [|done].
  destruct (claim_where id n) eqn:Hw; [|done].
  exists (set_claimed (w_now w) n). rewrite lookup_update_where, Hn. simpl. rewrite Hw.
  split; [done|]. pose proof (dw_attempts _ _ (wf_deliveries _ Hwf _ _ Hn)). simpl. lia.
Qed.

Lemma set_delivered_inv id w n w' :
  NotificationsRepository.set_delivered id w = Ok (n, w') ->
  exists m, notificationDeliveries (w_db w) !! id = Some m /\
    n = NotificationsRepository.set_delivery DelDelivered (nd_attempts m) (nd_lastError m)
          (w_now w) m /\
    w' = with_db (t_set NotificationDeliveries (<[id := n]> (notificationDeliveries (w_db w)))) w.
Proof.
  unfold NotificationsRepository.set_delivered. intros (t & s & Hs & H)%tx_bind_Ok.
  unfold now, tx_gets in Hs. injection Hs as <- <-.
  apply db_update_inv in H as (m & Hm & -> & _ & ->). by exists m.
Qed.

Lemma set_delivered_quiet id w n w' :
  attempted id w -> NotificationsRepository.set_delivered id w = Ok (n, w') -> quiet w w'.
Proof.
  intros [Hwf (m & Hm & Ha)] (m' & Hm' & -> & ->)%set_delivered_inv. simplify_eq.
  apply quiet_deliveries; [done|..].
  - intros k q. rewrite lookup_insert. case_decide; [|eauto]. intros [= <-]. subst. exists m.
    split; [done|]. right. split_and!; try done. right; left. by split_and!.
  - intros k q Hq. rewrite lookup_insert. case_decide; eauto.
Qed.

Lemma deliver_guarded id : guarded evolves quiet (NotificationsRepository.deliver id) wf_world.
Proof.
  unfold NotificationsRepository.deliver.
  apply guarded_await_then with (J := fun c w => wf_world w /\ (c <> 0%nat -> attempted id w)).
  - apply wf_stable.
  - intros c w w' [Hw Ha] HE. split; [by eapply wf_stable|]. intros Hc.
    eapply attempted_stable; eauto.
  - intros w c w' Hwf H. pose proof (claim_quiet id _ _ _ Hwf H). split; [done|].
    split; [by eapply evolves_wf|]. intros. by eapply claim_attempted.
  - intros c. case_bool_decide as Hc; [done|].
    apply (guarded_impl _ _ _ (attempted id)); [|by intros w [_ ?]; auto|].
    { intros w w' [Hw Ha] HE. split; [by eapply wf_stable|]. intros _.
      eapply attempted_stable; eauto. }
    apply guarded_await_then with (J := fun _ _ => True); try done; [apply attempted_stable|].
    intros w n w' Ha H. split; [by eapply set_delivered_quiet|done].
Qed.

Definition mark_where (id : string) (n : NotificationDelivery) : bool :=
  String.eqb (nd_id n) id && bool_decide (nd_status n = DelProcessing).
Definition set_failed (error : exn) (t : Z) (n : NotificationDelivery) : NotificationDelivery :=
  NotificationsRepository.set_delivery DelFailed (nd_attempts n)
    (Some (js_slice 2000 (error_message error))) t n.

(** The statement of [markFailed]. *)
Definition mark (id : string) (error : exn) : tx world nat :=
  t ← now;
  db_updateMany NotificationDeliveries delivery_columns (mark_where id) (set_failed error t).

Lemma failed_mark_inv id error w c w' :
  mark id error w = Ok (c, w') ->
  w' = with_db (t_set NotificationDeliveries (update_where (mark_where id)
    (set_failed error (w_now w)) (notificationDeliveries (w_db w)))) w.
Proof.
  intros (t & s & Hs & H)%tx_bind_Ok. unfold now, tx_gets in Hs. injection Hs as <- <-.
  by apply db_updateMany_inv in H as (_ & -> & _).
Qed.

Lemma mark_quiet id error : preserves (mark id error).
Proof.
  intros w c w' Hwf ->%failed_mark_inv. apply quiet_delivery_update; [done|].
  intros k n _ [_ Hs%bool_decide_eq_true]%andb_true_iff. split_and!; try done. right; right.
  by split_and!.
Qed.

Lemma markFailed_guarded id e :
  guarded evolves quiet (NotificationsRepository.markFailed id e) wf_world.
Proof. apply (guarded_wf_then (mark id e)); [apply mark_quiet|done]. Qed.

Lemma process_guarded id : guarded evolves quiet (NotificationQueueService.process id) wf_world.
Proof.
  unfold NotificationQueueService.process.
  apply guarded_try_catch; [apply quiet_evolves|apply wf_stable|apply deliver_guarded|].
  intros e. apply guarded_then; [apply quiet_evolves|apply wf_stable|apply markFailed_guarded|done].
Qed.

(** Claiming, run alone. *)
Lemma claimed_columns w k n :
  wf (w_db w) -> notificationDeliveries (w_db w) !! k = Some n -> delivery_columns n = true ->
  NotificationsRepository.claimable n = true -> delivery_columns (set_claimed (w_now w) n) = true.
Proof.
  intros Hwf Hn Hcols [_ Ha%Z.ltb_lt]%andb_true_iff.
  pose proof (dw_attempts _ _ (wf_deliveries _ Hwf _ _ Hn)).
  unfold delivery_columns in *. simpl. rewrite !andb_true_iff in Hcols |- *.
  split_and!; try tauto. unfold int4. rewrite andb_true_iff, Z.leb_le, Z.ltb_lt. lia.
Qed.

Lemma claim_run id w :
  wf (w_db w) ->
  (forall k n, notificationDeliveries (w_db w) !! k = Some n -> delivery_columns n = true) ->
  NotificationsRepository.claim id w =
    match notificationDeliveries (w_db w) !! id with
    | Some n =>
        if NotificationsRepository.claimable n
        then Ok (1%nat, with_db (t_set NotificationDeliveries
               (<[id := set_claimed (w_now w) n]> (notificationDeliveries (w_db w)))) w)
        else Ok (0%nat, w)
    | None => Ok (0%nat, w)
    end.
Proof.
  intros Hwf Hcols. pose proof (claim_where_key _ id Hwf) as Hkey.
  assert (Hclaim : NotificationsRepository.claim id w =
    Ok (length (where_rows (claim_where id) (notificationDeliveries (w_db w))),
      with_db (t_set NotificationDeliveries (update_where (claim_where id)
        (set_claimed (w_now w)) (notificationDeliveries (w_db w)))) w)).
  { unfold NotificationsRepository.claim. erewrite tx_bind_eq by done.
    apply (db_updateMany_Ok NotificationDeliveries _ _ _ w).
    intros k n Hn [_ Hc]%andb_true_iff. eauto using claimed_columns. }
  rewrite Hclaim, (where_rows_key _ _ _ Hkey). clear Hclaim.
  assert (Hno : (forall n, notificationDeliveries (w_db w) !! id = Some n ->
      claim_where id n = false) ->
    update_where (claim_where id) (set_claimed (w_now w)) (notificationDeliveries (w_db w)) =
      notificationDeliveries (w_db w)).
  { intros Hf. apply update_where_none. intros k n Hn. destruct (claim_where id n) eqn:Hc; [|done].
    rewrite (Hkey _ _ Hn Hc) in Hn. by rewrite (Hf _ Hn) in Hc. }
  destruct (notificationDeliveries (w_db w) !! id) as [n|] eqn:Hn.
  2: { rewrite Hno by done. by destruct w as [[] ? ?]. }
  assert (Hcw : claim_where id n = NotificationsRepository.claimable n).
  { unfold claim_where. by rewrite (dw_id _ _ (wf_deliveries _ Hwf _ _ Hn)), String.eqb_refl. }
  rewrite Hcw. destruct (NotificationsRepository.claimable n) eqn:Hc.
  - by rewrite (update_where_key _ _ _ _ _ Hkey Hn Hcw).
  - rewrite Hno by (intros ? [= <-]; done). by destruct w as [[] ? ?].
Qed.

(** A delivery job, run alone, does its work once: a delivery that is PENDING or FAILED
    with fewer than five attempts ends DELIVERED with one more attempt and every other
    delivery is untouched; on any other delivery, or none, the job does nothing. *)
Theorem delivery_job id w :
  wf (w_db w) ->
  (forall k n, notificationDeliveries (w_db w) !! k = Some n -> delivery_columns n = true) ->
  match notificationDeliveries (w_db w) !! id with
  | Some n =>
      if NotificationsRepository.claimable n then
        exists n' w', run (NotificationQueueService.process id) w = (Ok tt, w') /\
          notificationDeliveries (w_db w') = <[id := n']> (notificationDeliveries (w_db w)) /\
          nd_status n' = DelDelivered /\ nd_attempts n' = nd_attempts n + 1 /\
          nd_eventId n' = nd_eventId n /\ nd_userId n' = nd_userId n
      else run (NotificationQueueService.process id) w = (Ok tt, w)
  | None => run (NotificationQueueService.process id) w = (Ok tt, w)
  end.
Proof.
  intros Hwf Hcols. pose proof (claim_run id w Hwf Hcols) as Hclaim.
  unfold NotificationQueueService.process. rewrite run_try_catch.
  unfold NotificationsRepository.deliver.
  destruct (notificationDeliveries (w_db w) !! id) as [n|] eqn:Hn;
    [|by rewrite (run_await_then _ _ _ _ _ Hclaim)].
  destruct (NotificationsRepository.claimable n) eqn:Hc;
    [|by rewrite (run_await_then _ _ _ _ _ Hclaim)].
  rewrite (run_await_then _ _ _ _ _ Hclaim).
  rewrite bool_decide_eq_false_2 by done. erewrite run_await_then.
  2: { unfold NotificationsRepository.set_delivered. erewrite tx_bind_eq by done.
       apply db_update_Ok with (r := set_claimed (w_now w) n); [apply lookup_insert_eq|].
       exact (claimed_columns _ _ _ Hwf Hn (Hcols _ _ Hn) Hc). }
  eexists _, _. split; [done|]. simpl. by rewrite insert_insert_eq.
Qed.

Lemma handle_audit_guarded event :
  guarded evolves quiet (AuditEventHandler.handle event) wf_world.
Proof. apply guarded_wf, processEvent_quiet. Qed.

Lemma handle_notification_guarded event :
  guarded evolves quiet (NotificationEventHandler.handle event) wf_world.
Proof.
  unfold NotificationEventHandler.handle.
  assert (H : guarded evolves quiet (await (NotificationsRepository.processOrderCreated event)) wf_world)
    by (apply guarded_wf, processOrder_quiet).
  repeat (case_match; try done).
Qed.

End workers.
