(* ===== verification/Rabbit.v ===== *)
(** * RabbitMQ: topology and consumers

    rabbit-topology.ts and RabbitConsumersService (src/src/queue/): the exchanges, queues and
    bindings the program declares, and what a consumer does with a message: handle and
    acknowledge it, schedule a retry, dead-letter it, or give it back. *)
From S2P Require Import Prelude JsStrings Errors Effects Prisma Schema Orders Evolution OrderFlow.
From S2P Require Import System Outbox Workers WorkersFlow.

(** ** Topology *)

(** A call of the topology on the channel. *)
Inductive declaration :=
| AssertExchange (name kind : string) (durable : bool)
| AssertQueue (name : string) (durable : bool) (deadLetterExchange : option string)
| BindQueue (queue exchange pattern : string).

Definition consumerDefinitions : list (string * (string * list string)) :=
  [("notification", ("notification.events", ["order.created"]));
   ("audit", ("audit.events", ["order.created"; "payment.completed"]))].

Definition dot (a b : string) : string := String.append a (String.append "." b).

Definition assertRabbitTopology : list declaration :=
  [AssertExchange EVENT_EXCHANGE "topic" true;
   AssertExchange RETRY_EXCHANGE "topic" true;
   AssertExchange DEAD_LETTER_EXCHANGE "topic" true] ++
  flat_map (fun '(name, (queue, bindings)) =>
    [AssertQueue queue true None] ++
    map (BindQueue queue EVENT_EXCHANGE) bindings ++
    [AssertQueue (dot queue "retry") true (Some EVENT_EXCHANGE)] ++
    map (BindQueue (dot queue "retry") RETRY_EXCHANGE) bindings ++
    [AssertQueue (dot queue "dlq") true None;
     BindQueue (dot queue "dlq") DEAD_LETTER_EXCHANGE (dot name "#")])
    consumerDefinitions.

(** How the broker matches a routing key against the pattern of a topic binding. *)
Class TopicMatching := { topic_match : string -> string -> bool }.

Definition no_wildcard (a : Ascii.ascii) : bool :=
  negb (Ascii.eqb a (Ascii.ascii_of_nat 35)) && negb (Ascii.eqb a (Ascii.ascii_of_nat 42)).

(** A pattern without [#] and [*] matches itself alone; [name.#] matches the keys of which
    [name] is the first word (or the first words). *)
Class TopicLaws (T : TopicMatching) : Prop := {
  topic_exact : forall p k, forallb no_wildcard (chars p) = true ->
    topic_match p k = String.eqb p k;
  topic_hash : forall name rest, topic_match (dot name "#") (dot name rest) = true;
  topic_hash_other : forall name k, forallb no_wildcard (chars name) = true ->
    topic_match (dot name "#") k = true ->
    k = name \/ String.prefix (String.append name ".") k = true;
}.

Section routing.
Context `{TopicMatching}.

(** The queues that get a message published to an exchange under a key. *)
Definition routes (exchange key : string) : list string :=
  omap (fun d => match d with
                 | BindQueue queue ex pattern =>
                     if String.eqb ex exchange && topic_match pattern key then Some queue else None
                 | _ => None
                 end) assertRabbitTopology.

(** Where a message goes when it expires in a queue: to the queue's dead-letter exchange,
    under its own key. *)
Definition expires_to (queue key : string) : list string :=
  flat_map (fun d => match d with
                     | AssertQueue q _ (Some ex) => if String.eqb q queue then routes ex key else []
                     | _ => []
                     end) assertRabbitTopology.

End routing.

(** ** Consumers *)
Module RabbitConsumersService.

Inductive ConsumerName := notification | audit.
Definition name_of (c : ConsumerName) : string :=
  match c with notification => "notification" | audit => "audit" end.

Definition MAX_RETRIES : Z := 3.

Section service.
Context `{Prisma, Uuids, ErrorText}.

Definition previousAttempts (m : message) : Z := default 0 (x_retry_count (msg_properties m)).

Definition retry_delay (nextAttempt : Z) : Z := Z.min 30000 (1000 * 2 ^ (nextAttempt - 1)).

Definition retry_properties (p : properties) (nextAttempt : Z) : properties := {|
  messageId := messageId p; correlation := correlation p; messageType := messageType p;
  deliveryMode := 2; expiration := Some (pretty (retry_delay nextAttempt));
  x_retry_count := Some nextAttempt; x_final_error := x_final_error p |}.

Definition dead_properties (p : properties) (nextAttempt : Z) (error : exn) : properties := {|
  messageId := messageId p; correlation := correlation p; messageType := messageType p;
  deliveryMode := 2; expiration := expiration p;
  x_retry_count := Some nextAttempt;
  x_final_error := Some (js_slice 500 (error_message error)) |}.

(** The publication a failed message causes. *)
Definition republication (consumer : ConsumerName) (m : message) (error : exn) : observation :=
  let nextAttempt := previousAttempts m + 1 in
  if nextAttempt <=? MAX_RETRIES then
    Published RETRY_EXCHANGE (msg_routingKey m) (msg_content m)
      (retry_properties (msg_properties m) nextAttempt)
  else
    Published DEAD_LETTER_EXCHANGE (dot (name_of consumer) (msg_routingKey m)) (msg_content m)
      (dead_properties (msg_properties m) nextAttempt error).

Definition retryOrDeadLetter (consumer : ConsumerName) (m : message) (error : exn) :
    prog system unit :=
  try_catch
    (_ ← await (tell (republication consumer m error));
     _ ← await (waitForConfirms (republication consumer m error));
     await (tell (Acked (name_of consumer) m)))
    (fun _ => await (tell (Nacked (name_of consumer) m))).

(** [null] has no properties to read. *)
Definition is_null (j : json) : bool := match j with JNull => true | _ => false end.

(** The work on a message, up to its acknowledgement. *)
Definition work (queue_open : bool) (consumer : ConsumerName) (m : message) : prog system unit :=
  match msg_content m with
  | NotJson => Throw (JsError "Unexpected token in JSON")
  | Json event =>
      if is_null event then Throw (JsError "Cannot read properties of null (reading 'id')")
      else if negb (json_truthy (json_get "id" event)) || negb (json_truthy (json_get "type" event)) ||
         negb (json_truthy (json_get "payload" event))
      then Throw (JsError "Malformed domain event")
      else
        match consumer with
        | audit =>
            _ ← lift (AuditEventHandler.handle event);
            Ret tt
        | notification =>
            deliveryId ← lift (NotificationEventHandler.handle event);
            match truthy deliveryId with
            | Some id => NotificationQueueService.enqueue queue_open id
            | None => Ret tt
            end
        end
  end.

Definition consume (queue_open : bool) (consumer : ConsumerName) (m : message) :
    prog system unit :=
  try_catch
    (_ ← work queue_open consumer m;
     await (tell (Acked (name_of consumer) m)))
    (fun error => retryOrDeadLetter consumer m error).

End service.
End RabbitConsumersService.
