(* ===== verification/RabbitSpec.v ===== *)
(** * What the messaging promises

    Where a message goes, that a consumer settles every message, that retries are bounded,
    and that in every interleaving a message is only acknowledged when its work is done or a
    copy of it is with the broker. *)
From S2P Require Import Prelude JsStrings Errors Effects Prisma Schema Orders OrdersSpec.
From S2P Require Import Evolution OrderFlow System Outbox OutboxSpec Workers WorkersFlow Rabbit.

Import RabbitConsumersService.

(** ** Routing *)

Section routing.
Context {T : TopicMatching} {TL : TopicLaws T}.

Definition queue_of (c : ConsumerName) : string :=
  match c with notification => "notification.events" | audit => "audit.events" end.

(** The patterns of the event and the retry exchange have no wildcards. *)
Ltac compute_routes :=
  cbv -[topic_match]; rewrite ?topic_exact by reflexivity; reflexivity.

Lemma event_routes :
  routes EVENT_EXCHANGE "order.created" = [queue_of notification; queue_of audit] /\
  routes EVENT_EXCHANGE "payment.completed" = [queue_of audit].
Proof. split; compute_routes. Qed.

Lemma dead_letter_routes c key :
  routes DEAD_LETTER_EXCHANGE (dot (name_of c) key) = [dot (queue_of c) "dlq"].
Proof.
  assert (Hother : forall c', c' <> c ->
    topic_match (dot (name_of c') "#") (dot (name_of c) key) = false).
  { intros c' Hne. destruct (topic_match _ _) eqn:Hm; [|done].
    apply topic_hash_other in Hm; [|by destruct c'].
    destruct Hm as [Hm|Hm]; by destruct c, c'. }
  pose proof (topic_hash (name_of c) key) as Hown.
  destruct c; [pose proof (Hother audit ltac:(done)) as Ho
              |pose proof (Hother notification ltac:(done)) as Ho];
    cbv -[topic_match dot]; cbv -[topic_match dot] in Ho, Hown; by rewrite Ho, Hown.
Qed.

(** Where events go: an OrderCreated event reaches the notification queue and the audit
    queue, a PaymentCompleted event the audit queue alone; and a message a consumer gives up
    on, whatever its routing key, lands in that consumer's own dead-letter queue and in no
    other. *)
Lemma event_routing type key :
  routingKeyFor type = Some key ->
  routes EVENT_EXCHANGE key =
    (if String.eqb type "OrderCreated" then ["notification.events"; "audit.events"]
     else ["audit.events"])%string /\
  (forall c any, routes DEAD_LETTER_EXCHANGE (dot (name_of c) any) = [dot (queue_of c) "dlq"]).
Proof.
  intros Hk. split; [|intros; apply dead_letter_routes].
  destruct event_routes as [Ho Hp]. unfold routingKeyFor in Hk.
  destruct (String.eqb type "OrderCreated"); [by simplify_eq|].
  destruct (String.eqb type "PaymentCompleted"); by simplify_eq.
Qed.

(** A retry is not the failing consumer's own: an order.created message either consumer
    schedules for a retry is queued in the retry queues of both, and when it expires there
    each copy goes back to both consumers, so one failure of one consumer becomes two
    deliveries to each of them. A payment.completed message comes back once, to the audit
    consumer. *)
Theorem retry_fans_out :
  routes RETRY_EXCHANGE "order.created" =
    [dot (queue_of notification) "retry"; dot (queue_of audit) "retry"] /\
  flat_map (fun q => expires_to q "order.created") (routes RETRY_EXCHANGE "order.created") =
    [queue_of notification; queue_of audit; queue_of notification; queue_of audit] /\
  flat_map (fun q => expires_to q "payment.completed") (routes RETRY_EXCHANGE "payment.completed") =
    [queue_of audit].
Proof.
  split_and!; compute_routes.
Qed.

Ltac declared :=
  repeat match goal with
    | |- _ /\ _ => split
    | |- exists _, _ => eexists
    | |- forall _, _ => intros
    | H : Some _ = Some _ |- _ => injection H as <-
    | |- _ ∈ _ => first [apply list_elem_of_here | apply list_elem_of_further]
    end.

(** The declarations are in a working order: every binding names an exchange and a queue
    declared before it, every dead-letter exchange is one of the declared ones, everything is
    durable, and each consumer has its queue, its retry queue, which dead-letters to the
    event exchange, and its dead-letter queue. *)
Lemma topology_declared :
  (forall n d, assertRabbitTopology !! n = Some d ->
     match d with
     | AssertExchange _ kind durable => kind = "topic"%string /\ durable = true
     | AssertQueue _ durable dlx => durable = true /\
         (forall ex, dlx = Some ex -> AssertExchange ex "topic" true ∈ take n assertRabbitTopology)
     | BindQueue queue exchange _ =>
         AssertExchange exchange "topic" true ∈ take n assertRabbitTopology /\
         exists dlx, AssertQueue queue true dlx ∈ take n assertRabbitTopology
     end) /\
  (forall c, AssertQueue (queue_of c) true None ∈ assertRabbitTopology /\
     AssertQueue (dot (queue_of c) "retry") true (Some EVENT_EXCHANGE) ∈ assertRabbitTopology /\
     AssertQueue (dot (queue_of c) "dlq") true None ∈ assertRabbitTopology).
Proof.
  split.
  - intros n d. do 17 (destruct n as [|n]; [intros [= <-]; simpl; by declared|]). done.
  - intros []; split_and!; simpl; by declared.
Qed.

End routing.

(** ** One message, run alone *)

Section consumers.
Context {Cl : Clients} {P : Prisma} {U : Uuids} {D : Decimals} {HP : HttpPlatform} {ET : ErrorText}
  {PL : PrismaLaws P} {UL : UuidsLaws U}.
Implicit Types (m : message) (s : system) (c : ConsumerName).

Lemma tell_run o s : run (await (tell o)) s = (Ok tt, logged o s).
Proof. done. Qed.

Lemma retry_run c m e s :
  run (retryOrDeadLetter c m e) s =
    (Ok tt, logged (Acked (name_of c) m)
              (logged (Confirmed (republication c m e)) (logged (republication c m e) s))).
Proof. done. Qed.

(** The acknowledgements and rejections of a log. *)
Definition settlement (o : observation) : bool :=
  match o with Acked _ _ | Nacked _ _ => true | _ => false end.

Lemma enqueue_run b id s :
  run (NotificationQueueService.enqueue b id) s =
    if b then (Ok tt, logged (JobAdded id 5 1000) s)
    else (Err (JsError "Notification queue is not initialized"), s).
Proof. by destruct b. Qed.

Lemma work_run b c m s r s' :
  run (work b c m) s = (r, s') ->
  sys_log s' = sys_log s \/
  exists id, c = notification /\ r = Ok tt /\ sys_log s' = sys_log s ++ [JobAdded id 5 1000].
Proof.
  unfold work. destruct (msg_content m) as [event|]; [|simpl; intros; simplify_eq; by left].
  destruct (is_null event); [simpl; intros; simplify_eq; by left|].
  destruct (_ || _ || _); [simpl; intros; simplify_eq; by left|]. destruct c.
  - rewrite run_bind, run_lift.
    destruct (run (NotificationEventHandler.handle event) (sys_world s)) as [[o|e] w];
      cbn [fst snd].
    + destruct (truthy o) as [id|]; [|simpl; intros; simplify_eq; by left].
      rewrite enqueue_run. destruct b; intros; simplify_eq; [right; by eexists|by left].
    + intros; simplify_eq; by left.
  - rewrite run_bind, run_lift.
    destruct (run (AuditEventHandler.handle event) (sys_world s)) as [[o|e] w]; simpl;
      intros; simplify_eq; by left.
Qed.

(** C33: Every message is settled: whatever its content and however its handling ends, a
    consumer run alone neither throws nor leaves the message open. When the work succeeds
    the message is acknowledged after it; when it fails, a copy is first published, to the
    retry exchange while attempts remain and else to the dead-letter exchange, and confirmed,
    and then the message is acknowledged, exactly once. *)
Theorem consume_settles b c m s :
  exists s', run (consume b c m) s = (Ok tt, s') /\
    match run (work b c m) s with
    | (Ok _, s1) => s' = logged (Acked (name_of c) m) s1
    | (Err e, s1) => s' = logged (Acked (name_of c) m)
        (logged (Confirmed (republication c m e)) (logged (republication c m e) s1))
    end /\
    exists new, sys_log s' = sys_log s ++ new /\ filter settlement new = [Acked (name_of c) m].
Proof.
  unfold consume. rewrite run_try_catch, run_bind.
  destruct (run (work b c m) s) as [[u|e] s1] eqn:Hw.
  - rewrite tell_run. eexists. split_and!; [done|done|]. simpl.
    destruct (work_run _ _ _ _ _ _ Hw) as [->|(id & _ & _ & ->)]; [by eexists|].
    eexists. split; [by rewrite <- app_assoc|done].
  - rewrite retry_run. eexists. split_and!; [done|done|]. simpl.
    destruct (work_run _ _ _ _ _ _ Hw) as [->|(id & _ & ? & _)]; [|done].
    eexists. split; [by rewrite <- !app_assoc|].
    unfold republication. by destruct (_ <=? _).
Qed.

(** [m'] is a copy of [m] that comes back after a retry: some consumer has failed on [m] and
    published [m'], which has kept its content, its key, its identifier and its counter on its
    way through the retry queue. *)
Definition retried m m' : Prop :=
  exists c e props, republication c m e =
      Published RETRY_EXCHANGE (msg_routingKey m) (msg_content m) props /\
    msg_content m' = msg_content m /\ msg_routingKey m' = msg_routingKey m /\
    messageId (msg_properties m') = messageId props /\
    x_retry_count (msg_properties m') = x_retry_count props.

Lemma retried_once m m' :
  retried m m' -> previousAttempts m' = previousAttempts m + 1 /\ previousAttempts m' <= 3 /\
    msg_content m' = msg_content m /\ messageId (msg_properties m') = messageId (msg_properties m).
Proof.
  intros (c & e & props & Hr & Hm & _ & Hi & Hx). unfold republication, MAX_RETRIES in Hr.
  destruct (Z.leb_spec (previousAttempts m + 1) 3); [|done]. injection Hr as <-.
  unfold previousAttempts at 1 3. rewrite Hx. simpl in *. split_and!; (done || lia).
Qed.

Lemma retried_often n m m' :
  nsteps retried n m m' ->
  previousAttempts m' = previousAttempts m + Z.of_nat n /\
  ((0 < n)%nat -> previousAttempts m' <= 3) /\
  msg_content m' = msg_content m /\ messageId (msg_properties m') = messageId (msg_properties m).
Proof.
  induction 1 as [m|n m m1 m' H _ IH]; [split_and!; (done || lia)|].
  destruct (retried_once _ _ H) as (Ha & Hle & Hc & Hi), IH as (Ha' & Hle' & Hc' & Hi').
  split_and!; [lia| |congruence|congruence].
  intros _. destruct n as [|n]; [lia|apply Hle'; lia].
Qed.

(** C34: Retries are bounded: a message that has failed n times before goes to the retry
    exchange, under its own key and with its content, exactly when n is below 3; its counter
    then reads n + 1, at most 3, and it waits 1, 2 or 4 seconds (the cap of 30 seconds is
    never reached). From the fourth failure on it goes to the dead-letter exchange under the
    consumer's name, with the counter and the error recorded. Along any chain of copies, each
    the retry of the one before, whichever consumers fail, there are therefore at most three
    retries, all with the content and the identifier of the first. (A retry comes back as
    several copies, see [retry_fans_out]: there may be as many such chains.) *)
Theorem retries_bounded c m e :
  0 <= previousAttempts m ->
  (previousAttempts m < 3 ->
   exists props, republication c m e =
       Published RETRY_EXCHANGE (msg_routingKey m) (msg_content m) props /\
     x_retry_count props = Some (previousAttempts m + 1) /\ previousAttempts m + 1 <= 3 /\
     expiration props = Some (pretty (1000 * 2 ^ previousAttempts m)) /\
     1000 <= 1000 * 2 ^ previousAttempts m <= 4000 /\
     messageId props = messageId (msg_properties m) /\ deliveryMode props = 2) /\
  (3 <= previousAttempts m ->
   exists props, republication c m e =
       Published DEAD_LETTER_EXCHANGE (dot (name_of c) (msg_routingKey m)) (msg_content m) props /\
     x_retry_count props = Some (previousAttempts m + 1) /\
     x_final_error props = Some (js_slice 500 (error_message e)) /\
     messageId props = messageId (msg_properties m) /\ deliveryMode props = 2) /\
  (forall n m', nsteps retried n m m' ->
     (n <= 3)%nat /\ previousAttempts m' = previousAttempts m + Z.of_nat n /\
     msg_content m' = msg_content m /\ messageId (msg_properties m') = messageId (msg_properties m)).
Proof.
  intros H0. unfold republication, MAX_RETRIES. split_and!; intros H.
  - replace (_ <=? 3) with true by lia. eexists. split; [done|].
    assert (Hp : 1 <= 2 ^ previousAttempts m <= 4).
    { change 1 with (2 ^ 0) at 1. change 4 with (2 ^ 2). split; apply Z.pow_le_mono_r; lia. }
    cbn -[Z.pow Z.mul]. unfold retry_delay. replace (previousAttempts m + 1 - 1) with (previousAttempts m) by lia.
    rewrite Z.min_r by lia. split_and!; (done || lia).
  - replace (_ <=? 3) with false by lia. by eexists.
  - intros m' (Ha & Hle & ? & ?)%retried_often. split_and!; [|done..].
    destruct H as [|n]; [lia|]. specialize (Hle ltac:(lia)). lia.
Qed.

(** ** In every interleaving *)

Lemma guarded_lift_await {X Y : Type} (G : system -> system -> Prop) (I : system -> Prop)
    (J : X -> system -> Prop) (mm : tx world X) (f : X -> prog system Y) :
  stable sys_evolves I -> (forall x, stable sys_evolves (J x)) ->
  (forall s x w, I s -> mm (sys_world s) = Ok (x, w) ->
     G s (with_world w s) /\ J x (with_world w s)) ->
  (forall x, guarded sys_evolves G (f x) (J x)) ->
  guarded sys_evolves G (lift (await mm) ≫= f) I.
Proof.
  intros HI HJ Hm Hf. exists J. split_and!; [done|done| |exact Hf|done].
  intros s x s' Hs (w & Hw & ->)%on_world_inv. by apply Hm.
Qed.

Definition sys_handled c m s : Prop := sys_wf s /\ handled (name_of c) m s.

Lemma sys_handled_stable c m : stable sys_evolves (sys_handled c m).
Proof.
  intros s s' [Hw Hh] HE. split; [by eapply sys_wf_stable|].
  destruct HE as (HE & Hlog & _). by eapply handled_mono.
Qed.

Definition sys_republished c m s : Prop := sys_wf s /\ republished (name_of c) m (sys_log s).

Lemma sys_republished_stable c m : stable sys_evolves (sys_republished c m).
Proof.
  intros s s' [Hw Hh] HE. split; [by eapply sys_wf_stable|].
  destruct HE as (_ & (new & ->) & _). by apply republished_app.
Qed.

Lemma ack_guarded c m (I : system -> Prop) :
  stable sys_evolves I ->
  (forall s, I s -> handled (name_of c) m s \/ republished (name_of c) m (sys_log s)) ->
  guarded sys_evolves sys_evolves (await (tell (Acked (name_of c) m))) I.
Proof.
  intros HI Hsafe. apply guarded_await; [done|]. intros s u s' Hs H.
  eapply tell_sys; [done|]. intros consumer m' [= <- <-].
  unfold tell in H. injection H as <- <-. destruct (Hsafe _ Hs) as [Hh|Hr].
  - left. eapply handled_mono; [| |exact Hh]; [apply evolves_refl|by eexists].
  - right. by apply republished_app.
Qed.

Lemma republication_copies c m e log :
  broker_has (republication c m e) log -> republished (name_of c) m log.
Proof.
  unfold republication. destruct (_ <=? _); intros H; eexists; [left|right]; exact H.
Qed.

Lemma retry_guarded c m e :
  guarded sys_evolves sys_evolves (retryOrDeadLetter c m e) sys_wf.
Proof.
  unfold retryOrDeadLetter. apply guarded_try_catch; [done|apply sys_wf_stable| |].
  - apply guarded_await_then with (J := fun _ => sys_told (republication c m e));
      [apply sys_wf_stable|intros _; apply sys_told_stable| |].
    { intros s u s' Hwf H. eapply tell_told; [done|exact H|].
      intros consumer m'. unfold republication. by destruct (_ <=? _). }
    intros _. apply guarded_await_then with (J := fun _ => sys_republished c m);
      [apply sys_told_stable|intros _; apply sys_republished_stable| |].
    { intros s u s' [Hwf Ho] H. destruct (confirms_sys _ _ _ _ H Ho) as [HE Ht].
      split; [done|]. split; [by eapply sys_wf_stable|]. by eapply republication_copies. }
    intros _. apply ack_guarded; [apply sys_republished_stable|]. intros s [_ ?]. by right.
  - intros _. apply guarded_await; [apply sys_wf_stable|].
    intros s u s' _ H. by eapply tell_sys.
Qed.

(** What handling a notification leaves: nothing to notify, or a stored notification. *)
Definition notified (event : json) (o : option string) (s : system) : Prop :=
  sys_wf s /\
  ((json_get "type" event <> Some (JStr "OrderCreated") /\ o = None) \/
   exists id key n, json_get "id" event = Some (JStr id) /\ o = Some key /\ key <> ""%string /\
     processed "notification" id (w_db (sys_world s)) /\
     notificationDeliveries (w_db (sys_world s)) !! key = Some n /\ nd_eventId n = id).

Lemma notified_stable event o : stable sys_evolves (notified event o).
Proof.
  intros s s' [Hw Hn] HE. split; [by eapply sys_wf_stable|].
  destruct Hn as [?|(id & key & n & ? & ? & ? & Hp & Hn & He)]; [by left|right].
  destruct HE as (HE & _). destruct (rtc_delivery _ _ _ _ Hn (rtc_once _ _ HE)) as (n' & Hn' & _ & Hne & _).
  exists id, key, n'. split_and!; try done; [by eapply rtc_processed, rtc_once|congruence].
Qed.

Lemma handle_not_order event :
  json_get "type" event <> Some (JStr "OrderCreated") ->
  NotificationEventHandler.handle event = Ret None.
Proof.
  intros Hne. unfold NotificationEventHandler.handle.
  repeat (case_match; subst; try done).
Qed.

#[export] Instance json_is_str_dec (o : option json) (s : string) : Decision (o = Some (JStr s)).
Proof.
  destruct o as [[| | |s'| |]|]; try (right; done).
  destruct (decide (s' = s)) as [->|Hne]; [by left|right; congruence].
Defined.

Lemma audit_consume_guarded m event :
  msg_content m = Json event ->
  guarded sys_evolves sys_evolves
    ((_ ← (_ ← lift (AuditEventHandler.handle event); Ret tt);
      await (tell (Acked (name_of audit) m))) : prog system unit) sys_wf.
Proof.
  intros Hm. apply guarded_assoc.
  apply guarded_lift_await with (J := fun _ => sys_handled audit m);
    [apply sys_wf_stable|intros _; apply sys_handled_stable| |].
  - intros s b w Hwf Hp. pose proof (processEvent_quiet event _ _ _ Hwf Hp) as Hq.
    split; [by apply quiet_sys|]. split; [by eapply evolves_wf|].
    exists event. split; [done|]. simpl.
    apply processEvent_inv in Hp as (id & Hid & [(_ & -> & Hp)|(_ & _ & ty & at_ & ag & ak & a & mk & pm & _ & _ & _ &
      _ & _ & _ & _ & _ & _ & _ & Hc & Hi & _ & Hdb)]); exists id; (split; [done|]); [done|].
    exists mk, pm. rewrite Hdb. simpl. split; [apply lookup_insert_eq|done].
  - intros b. apply ack_guarded; [apply sys_handled_stable|]. intros s [_ ?]. by left.
Qed.

Lemma notification_consume_guarded q m event :
  msg_content m = Json event ->
  guarded sys_evolves sys_evolves
    ((_ ← (deliveryId ← lift (NotificationEventHandler.handle event);
           match truthy deliveryId with
           | Some id => NotificationQueueService.enqueue q id
           | None => Ret tt
           end);
      await (tell (Acked (name_of notification) m))) : prog system unit) sys_wf.
Proof.
  intros Hm. destruct (decide (json_get "type" event = Some (JStr "OrderCreated"))) as [Hty|Hty].
  2: { rewrite handle_not_order by done. apply ack_guarded; [apply sys_wf_stable|].
       intros s _. left. exists event. split; [done|]. by left. }
  unfold NotificationEventHandler.handle. rewrite Hty. apply guarded_assoc.
  apply guarded_lift_await with (J := notified event);
    [apply sys_wf_stable|apply notified_stable| |].
  - intros s o w Hwf Hp. pose proof (processOrder_quiet event _ _ _ Hwf Hp) as Hq.
    split; [by apply quiet_sys|]. split; [by eapply evolves_wf|]. right.
    by apply (processOrder_post event _ _ _ Hwf Hp).
  - intros o. destruct o as [key|].
    2: { apply ack_guarded; [apply notified_stable|].
         intros s [_ [[? _]|(? & ? & ? & _ & ? & _)]]; done. }
    destruct (truthy (Some key)) as [key'|] eqn:Ht.
    2: { apply ack_guarded; [apply notified_stable|].
         intros s [_ [[? _]|(? & key' & ? & _ & [= <-] & ? & _)]]; [done|]. by destruct key. }
    assert (key' = key) as -> by (destruct key; simpl in Ht; congruence).
    unfold NotificationQueueService.enqueue. destruct q; [|done]. cbn [negb].
    apply guarded_await_then with (J := fun _ => sys_handled notification m);
      [apply notified_stable|intros _; apply sys_handled_stable| |].
    + intros s u s' [Hwf Hn] H.
      assert (HE : sys_evolves s s') by (by eapply tell_sys).
      split; [done|]. split; [by eapply sys_wf_stable|].
      destruct Hn as [[? _]|(id & k & n & Hid & [= <-] & _ & Hp & Hn & He)]; [done|].
      unfold tell in H. injection H as _ <-. exists event. split; [done|]. right.
      exists id, key, n. split_and!; try done. simpl. apply elem_of_app. right. by left.
    + intros _. apply ack_guarded; [apply sys_handled_stable|]. intros s [_ ?]. by left.
Qed.

Lemma consume_guarded q c m : guarded sys_evolves sys_evolves (consume q c m) sys_wf.
Proof.
  unfold consume. apply guarded_try_catch; [done|apply sys_wf_stable| |intros; apply retry_guarded].
  unfold work. destruct (msg_content m) as [event|] eqn:Hm; [|done].
  destruct (is_null event); [done|]. destruct (_ || _ || _); [done|]. destruct c.
  - by apply notification_consume_guarded.
  - by apply audit_consume_guarded.
Qed.

Lemma enqueue_guarded q id :
  guarded sys_evolves sys_evolves (NotificationQueueService.enqueue q id) sys_wf.
Proof.
  unfold NotificationQueueService.enqueue. destruct q; [|done].
  apply guarded_await; [apply sys_wf_stable|]. intros s u s' _ H. by eapply tell_sys.
Qed.

Lemma recover_guarded q :
  guarded sys_evolves sys_evolves (NotificationQueueService.recoverPending q) sys_wf.
Proof.
  unfold NotificationQueueService.recoverPending. destruct q; [|done]. cbn [negb].
  apply guarded_lift_await with (J := fun _ => sys_wf);
    [apply sys_wf_stable|intros _; apply sys_wf_stable| |].
  - intros s l w Hwf H. assert (Hq : quiet (sys_world s) w).
    { eapply (read_only_preserves (NotificationsRepository.findPending 100)); [|exact Hwf|exact H].
      apply read_only_bind; [apply gets_read_only|]. intros; apply ret_read_only. }
    split; [by apply quiet_sys|by eapply evolves_wf].
  - intros l. apply guarded_for_each; [done|apply sys_wf_stable|].
    intros id _. apply enqueue_guarded.
Qed.

End consumers.
