(* ===== verification/Consumers.v ===== *)
(** * The consumers and their channel

    RabbitConsumersService (src/src/queue/rabbit-consumers.service.ts) with the channel it works
    on: the one connection [onModuleInit] makes, the messages the broker delivers, what [consume]
    and [retryOrDeadLetter] (Rabbit.v) do with them between their [await]s when the channel may
    have closed, the failures that are counted, and [onApplicationShutdown].

    An operation on a channel that has closed throws (amqplib's IllegalOperationError); a
    rejected promise that nobody waits for, and an 'error' event nobody listens to, end the
    process. The work on a message (Rabbit.v, [work]) is one event here, with its result. *)
From S2P Require Import Prelude JsStrings Errors Effects Prisma Schema Orders Evolution System.
From S2P Require Import Outbox Workers Rabbit.
Import RabbitConsumersService.

Module ConsumersChannel.

(** Where [onModuleInit] is. *)
Inductive stage :=
| Idle | Dialling | Opening | Asserting (rest : list declaration) | Prefetching
| Subscribing (rest : list ConsumerName) | Serving.

(** Where [consume] is with a message: waiting for its work, for the confirms, or ended. *)
Inductive phase := Working | Confirming (error : exn) | Settled.

Record delivery := mkDelivery { d_consumer : ConsumerName; d_message : message; d_phase : phase }.

Record state := mkState {
  at_stage : stage;
  is_open : bool;                            (* the channel can be used *)
  prefetch : option nat;                     (* the limit of the consumers to come, if it is set *)
  attached : list (ConsumerName * option nat);   (* the broker delivers to these, up to a limit *)
  work_on : list delivery;                   (* every message delivered, in order *)
  taken : list (nat * observation);          (* what the broker was told, by message *)
  failures : list (string * string);         (* [messagingFailures.inc({ consumer, eventType })] *)
  exited : bool;                             (* the process has ended *)
}.

Definition init : state := mkState Idle false None [] [] [] [] false.

Definition at_ (g : stage) (s : state) : state :=
  mkState g (is_open s) (prefetch s) (attached s) (work_on s) (taken s) (failures s) (exited s).
Definition with_open (b : bool) (s : state) : state :=
  mkState (at_stage s) b (prefetch s) (attached s) (work_on s) (taken s) (failures s) (exited s).
Definition with_prefetch (n : nat) (s : state) : state :=
  mkState (at_stage s) (is_open s) (Some n) (attached s) (work_on s) (taken s) (failures s)
    (exited s).
Definition with_attached (l : list (ConsumerName * option nat)) (s : state) : state :=
  mkState (at_stage s) (is_open s) (prefetch s) l (work_on s) (taken s) (failures s) (exited s).
Definition exit (s : state) : state :=
  mkState (at_stage s) (is_open s) (prefetch s) (attached s) (work_on s) (taken s) (failures s) true.
Definition set_phase (i : nat) (d : delivery) (p : phase) (s : state) : state :=
  mkState (at_stage s) (is_open s) (prefetch s) (attached s)
    (<[i := mkDelivery (d_consumer d) (d_message d) p]> (work_on s)) (taken s) (failures s)
    (exited s).

(** An operation on the channel; [None] is the exception of a closed one. *)
Definition send (i : nat) (o : observation) (s : state) : option state :=
  if is_open s
  then Some (mkState (at_stage s) (is_open s) (prefetch s) (attached s) (work_on s) (taken s ++ [(i, o)])
               (failures s) (exited s))
  else None.

(** [event?.type ?? 'unknown']: what a parsed message has for a type. *)
Definition eventType (m : message) : string :=
  match msg_content m with
  | NotJson => "unknown"
  | Json event =>
      match json_get "type" event with
      | None | Some JNull => "unknown"
      | Some type => js_String type
      end
  end.
Definition count_failure (d : delivery) (s : state) : state :=
  mkState (at_stage s) (is_open s) (prefetch s) (attached s) (work_on s) (taken s)
    (failures s ++ [(name_of (d_consumer d), eventType (d_message d))]) (exited s).

Definition closed_error : exn := JsError "Channel closed".

Section consumers.
Context `{ErrorText}.

(** [channel.nack(message, false, true)], the last thing [retryOrDeadLetter] tries: what it
    throws, nobody catches. *)
Definition nack (i : nat) (d : delivery) (s : state) : state :=
  match send i (Nacked (name_of (d_consumer d)) (d_message d)) s with
  | Some s' => set_phase i d Settled s'
  | None => exit s
  end.

(** The rest of [retryOrDeadLetter] when the confirms have come. *)
Definition confirmed (i : nat) (d : delivery) (s : state) : state :=
  match send i (Acked (name_of (d_consumer d)) (d_message d)) s with
  | Some s' => set_phase i d Settled s'
  | None => nack i d s
  end.

(** [retryOrDeadLetter], up to its [await]. *)
Definition retry (i : nat) (d : delivery) (error : exn) (s : state) : state :=
  match send i (republication (d_consumer d) (d_message d) error) s with
  | Some s' => set_phase i d (Confirming error) s'
  | None => nack i d s
  end.

(** The rest of [consume] when the work has ended. *)
Definition worked (i : nat) (d : delivery) (r : result unit) (s : state) : state :=
  match r with
  | Ok _ =>
      match send i (Acked (name_of (d_consumer d)) (d_message d)) s with
      | Some s' => set_phase i d Settled s'
      | None => retry i d closed_error (count_failure d s)
      end
  | Err e => retry i d e (count_failure d s)
  end.

(** [channel.prefetch(10)]: from then on each new consumer of the channel gets at most so many
    messages it has not settled. *)
Definition PREFETCH : nat := 10.

(** [await] of one operation of [onModuleInit] has come to its end. *)
Definition advance (s : state) : option state :=
  match at_stage s with
  | Dialling => Some (at_ Opening s)
  | Opening => Some (at_ (Asserting assertRabbitTopology) (with_open true s))
  | Asserting (_ :: rest) =>
      Some (at_ (match rest with [] => Prefetching | _ => Asserting rest end) s)
  | Prefetching => Some (at_ (Subscribing [notification; audit]) (with_prefetch PREFETCH s))
  | Subscribing (c :: rest) =>
      Some (at_ (match rest with [] => Serving | _ => Subscribing rest end)
              (with_attached (attached s ++ [(c, prefetch s)]) s))
  | _ => None
  end.

Definition unsettled (c : ConsumerName) (s : state) : nat :=
  length (List.filter (fun d => bool_decide (name_of (d_consumer d) = name_of c) &&
    match d_phase d with Settled => false | _ => true end) (work_on s)).

(** Whether the broker may deliver another message to a consumer. *)
Definition deliverable (c : ConsumerName) (s : state) : bool :=
  match List.find (fun a => String.eqb (name_of a.1) (name_of c)) (attached s) with
  | Some (_, Some limit) => (unsettled c s <? limit)%nat
  | Some (_, None) => true
  | None => false
  end.

Inductive event :=
| Starts (skip : bool)
| Advances
| Refuses (e : exn)                        (* an operation of [onModuleInit] fails *)
| Delivers (c : ConsumerName) (m : message)
| Cancels (c : ConsumerName)               (* the callback gets [null] *)
| Ends (i : nat) (r : result unit)         (* the work on a message *)
| Confirms (i : nat) (r : result unit)     (* [waitForConfirms] *)
| Closes                                   (* the connection closes, without an error *)
| Fails                                    (* the connection or the channel emits 'error' *)
| ShutsDown.                               (* [onApplicationShutdown] *)

Definition awaiting (s : state) : bool :=
  match at_stage s with Idle | Serving => false | _ => true end.

Definition step (e : event) (s : state) : option state :=
  if exited s then None
  else
    match e with
    | Starts skip =>
        match at_stage s with
        | Idle => Some (if skip then s else at_ Dialling s)
        | _ => None
        end
    | Advances =>
        match at_stage s with
        | Dialling | Opening => advance s
        | _ => if is_open s then advance s else None
        end
    | Refuses _ => if awaiting s then Some (exit s) else None
    | Delivers c m =>
        if is_open s && deliverable c s
        then Some (mkState (at_stage s) (is_open s) (prefetch s) (attached s)
                     (work_on s ++ [mkDelivery c m Working]) (taken s) (failures s) (exited s))
        else None
    | Cancels c =>
        if is_open s
        then Some (with_attached
                     (List.filter (fun a => negb (String.eqb (name_of a.1) (name_of c))) (attached s)) s)
        else None
    | Ends i r =>
        match work_on s !! i with
        | Some d => match d_phase d with Working => Some (worked i d r s) | _ => None end
        | None => None
        end
    | Confirms i r =>
        match work_on s !! i with
        | Some d =>
            match d_phase d, r with
            | Confirming _, Ok _ => Some (confirmed i d s)
            | Confirming _, Err _ => Some (nack i d s)
            | _, _ => None
            end
        | None => None
        end
    | Closes => if is_open s then Some (with_open false s) else None
    | Fails => if is_open s then Some (exit s) else None
    | ShutsDown => Some (with_open false s)
    end.

Fixpoint run (l : list event) (s : state) : option state :=
  match l with
  | [] => Some s
  | e :: l => step e s ≫= run l
  end.

End consumers.
End ConsumersChannel.
