(* ===== verification/ConsumersSpec.v ===== *)
(** * What the consumers promise of their channel

    Each message is settled at most once and in one of three ways, whatever the channel and the
    work do; every failure is counted under its consumer and type; the broker's limit bounds
    what is in work. The channel is opened once: after it has closed, nothing is told to the
    broker and no message comes in for as long as the process lives, and it lives until the work
    on a message that was left open ends. *)
From S2P Require Import Prelude JsStrings Errors Effects Prisma Schema Orders Evolution System.
From S2P Require Import Outbox Workers Rabbit Consumers.
Import RabbitConsumersService ConsumersChannel.

Section spec.
Context {ET : ErrorText}.
Implicit Types (s : state) (d : delivery) (e : event).

(** What the broker was told of the [i]-th message. *)
Definition told (i : nat) (l : list (nat * observation)) : list observation :=
  omap (fun '(k, o) => if decide (k = i) then Some o else None) l.

Definition acked d : observation := Acked (name_of (d_consumer d)) (d_message d).
Definition nacked d : observation := Nacked (name_of (d_consumer d)) (d_message d).
Definition copied d (error : exn) : observation :=
  republication (d_consumer d) (d_message d) error.

(** Nothing while it is in work; a copy while its confirms are awaited; then acknowledged, or a
    copy and acknowledged, or a copy and given back. *)
Definition history_ok d (l : list observation) : Prop :=
  match d_phase d with
  | Working => l = []
  | Confirming error => l = [copied d error]
  | Settled => l = [acked d] \/ (exists error, l = [copied d error; acked d]) \/
      exists error, l = [copied d error; nacked d]
  end.

(** The labels a publication stands for: those of the message it is a copy of. *)
Definition label s (entry : nat * observation) : option (string * string) :=
  match entry.2 with
  | Published _ _ _ _ =>
      (fun d => (name_of (d_consumer d), eventType (d_message d))) <$> work_on s !! entry.1
  | _ => None
  end.

Definition early (g : stage) : bool :=
  match g with Idle | Dialling | Opening => true | _ => false end.

(** The stages in which [channel.prefetch] has been called. *)
Definition limited (g : stage) : bool :=
  match g with Subscribing _ | Serving => true | _ => false end.

Record sound s : Prop := mkSound {
  so_history : forall i d, work_on s !! i = Some d -> history_ok d (told i (taken s));
  so_known : forall i o, (i, o) ∈ taken s -> (i < length (work_on s))%nat;
  so_unsettled : forall c, (unsettled c s <= PREFETCH)%nat;
  so_prefetch : limited (at_stage s) = true -> prefetch s = Some PREFETCH;
  so_attached : forall c limit, (c, limit) ∈ attached s -> limit = Some PREFETCH;
  so_early : early (at_stage s) = true -> is_open s = false;
  so_failures : exited s = false -> failures s = omap (label s) (taken s);
}.

Lemma told_app i l l' : told i (l ++ l') = told i l ++ told i l'.
Proof. apply omap_app. Qed.

Lemma told_snoc i k o l :
  told i (l ++ [(k, o)]) = told i l ++ (if decide (k = i) then [o] else []).
Proof. rewrite told_app. simpl. by destruct (decide (k = i)). Qed.

(** *** The number of messages in work *)

Definition in_work (c : ConsumerName) d : bool :=
  bool_decide (name_of (d_consumer d) = name_of c) &&
  match d_phase d with Settled => false | _ => true end.

Lemma in_work_moved c l i d p :
  l !! i = Some d -> d_phase d <> Settled ->
  (length (List.filter (in_work c) (<[i := mkDelivery (d_consumer d) (d_message d) p]> l)) <=
   length (List.filter (in_work c) l))%nat.
Proof.
  revert i. induction l as [|x l IH]; intros [|i] Hi Hp; simpl in Hi |- *; [done|done| |].
  - injection Hi as ->.
    assert (H : in_work c (mkDelivery (d_consumer d) (d_message d) p) = true -> in_work c d = true).
    { unfold in_work. simpl. intros [? _]%andb_true_iff. apply andb_true_iff. split; [done|].
      by destruct (d_phase d). }
    destruct (in_work c (mkDelivery _ _ _)), (in_work c d); simpl; lia.
  - specialize (IH i Hi Hp). destruct (in_work c x); simpl; lia.
Qed.

(** *** A message moves on *)

Lemma label_moved s s' :
  (forall i o, (i, o) ∈ taken s ->
     (fun d => (d_consumer d, d_message d)) <$> work_on s' !! i =
     (fun d => (d_consumer d, d_message d)) <$> work_on s !! i) ->
  omap (label s') (taken s) = omap (label s) (taken s).
Proof.
  intros H. apply list_omap_ext. apply Forall_Forall2_diag, Forall_forall. intros [i o] Hin.
  unfold label. simpl. destruct o; try done. specialize (H i _ Hin).
  destruct (work_on s' !! i) as [d'|], (work_on s !! i) as [d|]; simplify_eq/=; congruence.
Qed.

Lemma told_tagged i k ops : told i (map (pair k) ops) = if decide (k = i) then ops else [].
Proof.
  induction ops as [|o ops IH]; simpl; [by destruct (decide _)|].
  unfold told in *. simpl. rewrite IH. by destruct (decide (k = i)).
Qed.

(** The [i]-th message moves to the phase [p] after [ops], with [new] failures counted. *)
Definition moved s i d p (ops : list observation) (new : list (string * string)) : state :=
  mkState (at_stage s) (is_open s) (prefetch s) (attached s)
    (<[i := mkDelivery (d_consumer d) (d_message d) p]> (work_on s))
    (taken s ++ map (pair i) ops) (failures s ++ new) (exited s).

Lemma list_omap_fmap_labels {X Y Z : Type} (f : X -> option Z) (g : Y -> option Z) (h : X -> Y) l :
  (forall x, f x = g (h x)) -> omap f l = omap g (map h l).
Proof.
  intros H. apply list_omap_ext. induction l; simpl; constructor; auto.
Qed.

(** The failures the copies among [ops] are counted as. *)
Definition counted d (ops : list observation) : list (string * string) :=
  omap (fun o => match o with
                 | Published _ _ _ _ => Some (name_of (d_consumer d), eventType (d_message d))
                 | _ => None end) ops.

Lemma moved_sound s i d p ops :
  sound s -> work_on s !! i = Some d -> d_phase d <> Settled ->
  history_ok (mkDelivery (d_consumer d) (d_message d) p) (told i (taken s) ++ ops) ->
  sound (moved s i d p ops (counted d ops)).
Proof.
  intros [Hh Hk Hp Hpf Hat He Hf] Hi Hd Hok. pose proof (lookup_lt_Some _ _ _ Hi) as Hlt.
  set (s' := moved s i d p ops (counted d ops)).
  assert (Hsame : omap (label s') (taken s) = omap (label s) (taken s)).
  { apply label_moved. intros k o _. simpl. destruct (decide (k = i)) as [->|Hne].
    - by rewrite list_lookup_insert_eq, Hi.
    - by rewrite list_lookup_insert_ne. }
  split.
  - intros k d'. simpl. rewrite told_app, told_tagged.
    rewrite list_lookup_insert_Some. intros [(-> & <- & _)|(Hne & Hk')].
    + by rewrite decide_True.
    + rewrite decide_False by done. rewrite app_nil_r. by apply Hh.
  - intros k o. simpl. rewrite length_insert, elem_of_app, list_elem_of_fmap.
    intros [Hin|(o' & [= -> ->] & _)]; [by eapply Hk|done].
  - intros c. etrans; [|apply (Hp c)]. by apply in_work_moved.
  - done.
  - done.
  - done.
  - intros Hx. change (failures s ++ counted d ops = omap (label s') (taken s ++ map (pair i) ops)).
    rewrite omap_app, Hsame, <-Hf by done. f_equal.
    apply list_omap_fmap_labels. intros o. unfold label. simpl.
    by rewrite list_lookup_insert_eq.
Qed.

(** *** The steps *)

Lemma exit_sound s fl : sound s ->
  sound (mkState (at_stage s) (is_open s) (prefetch s) (attached s) (work_on s) (taken s) fl true).
Proof. intros []. by split. Qed.

Lemma settle_sound s i d o :
  sound s -> work_on s !! i = Some d -> d_phase d <> Settled -> counted d [o] = [] ->
  history_ok (mkDelivery (d_consumer d) (d_message d) Settled) (told i (taken s) ++ [o]) ->
  sound (moved s i d Settled [o] []).
Proof. intros Hs Hi Hd Ho Hh. rewrite <-Ho. by apply moved_sound. Qed.

(** What [send] and [set_phase] come to on an open channel. *)
Lemma sent_phase s i d o p :
  mkState (at_stage s) (is_open s) (prefetch s) (attached s)
    (<[i := mkDelivery (d_consumer d) (d_message d) p]> (work_on s))
    (taken s ++ [(i, o)]) (failures s) (exited s) = moved s i d p [o] [].
Proof. unfold moved. simpl. by rewrite app_nil_r. Qed.

Lemma nack_sound s i d error :
  sound s -> work_on s !! i = Some d -> d_phase d = Confirming error -> sound (nack i d s).
Proof.
  intros Hs Hi Hd. unfold nack, send. destruct (is_open s) eqn:Ho; [|by apply exit_sound].
  unfold set_phase. cbn -[set_phase]. rewrite <-Ho, sent_phase.
  apply settle_sound; [done|done|by rewrite Hd|done|].
  pose proof (so_history _ Hs _ _ Hi) as Hh. unfold history_ok in *. rewrite Hd in Hh. rewrite Hh.
  right; right. by exists error.
Qed.

Lemma confirmed_sound s i d error :
  sound s -> work_on s !! i = Some d -> d_phase d = Confirming error -> sound (confirmed i d s).
Proof.
  intros Hs Hi Hd. unfold confirmed, send. destruct (is_open s) eqn:Ho; [|by eapply nack_sound].
  unfold set_phase. cbn -[set_phase]. rewrite <-Ho, sent_phase.
  apply settle_sound; [done|done|by rewrite Hd|done|].
  pose proof (so_history _ Hs _ _ Hi) as Hh. unfold history_ok in *. rewrite Hd in Hh. rewrite Hh.
  right; left. by exists error.
Qed.

Lemma copied_counted d error :
  counted d [copied d error] = [(name_of (d_consumer d), eventType (d_message d))].
Proof. unfold counted, copied, republication. simpl. by destruct (_ <=? _). Qed.

(** On a closed channel a failure ends the process. *)
Lemma retry_closed s i d error :
  is_open s = false -> retry i d error s = exit s.
Proof. intros Ho. unfold retry, nack, send. by rewrite Ho. Qed.

Lemma retry_sound s i d error :
  sound s -> work_on s !! i = Some d -> d_phase d = Working ->
  sound (retry i d error (count_failure d s)).
Proof.
  intros Hs Hi Hd. destruct (is_open s) eqn:Ho; [|rewrite retry_closed by done; exact (exit_sound s _ Hs)].
  unfold retry, send. simpl. rewrite Ho. unfold set_phase. simpl. rewrite <-Ho.
  pose proof (moved_sound s i d (Confirming error) [copied d error] Hs Hi) as Hm.
  rewrite copied_counted in Hm. apply Hm; [by rewrite Hd|].
  pose proof (so_history _ Hs _ _ Hi) as Hh. unfold history_ok in *. rewrite Hd in Hh. by rewrite Hh.
Qed.

Lemma worked_closed s i d r : is_open s = false ->
  worked i d r s = exit (count_failure d s).
Proof. intros Ho. unfold worked, send. rewrite Ho. destruct r; by rewrite retry_closed. Qed.

Lemma worked_sound s i d r :
  sound s -> work_on s !! i = Some d -> d_phase d = Working -> sound (worked i d r s).
Proof.
  intros Hs Hi Hd. destruct (is_open s) eqn:Ho.
  2: { rewrite worked_closed by done. exact (exit_sound s _ Hs). }
  destruct r as [u|e]; [|by apply retry_sound].
  unfold worked, send. rewrite Ho. unfold set_phase. cbn -[set_phase]. rewrite <-Ho, sent_phase.
  apply settle_sound; [done|done|by rewrite Hd|done|].
  pose proof (so_history _ Hs _ _ Hi) as Hh. unfold history_ok in *. rewrite Hd in Hh. rewrite Hh.
  by left.
Qed.

(** The connection: stage, openness, the limit and the consumers move together. *)
Lemma link_sound s g (b : bool) pf l :
  sound s -> (early g = true -> b = false) -> (limited g = true -> pf = Some PREFETCH) ->
  (forall c limit, (c, limit) ∈ l -> limit = Some PREFETCH) ->
  sound (mkState g b pf l (work_on s) (taken s) (failures s) (exited s)).
Proof. intros [] Hg. by split. Qed.

(** A consumer the broker may deliver to is below the limit. *)
Lemma deliverable_below c s : sound s -> deliverable c s = true -> (unsettled c s < PREFETCH)%nat.
Proof.
  intros Hs. unfold deliverable. destruct (List.find _ _) as [[c' limit]|] eqn:Hf; [|done].
  apply List.find_some in Hf as [Hin%list_elem_of_In _]. apply (so_attached _ Hs) in Hin as ->.
  by intros ?%Nat.ltb_lt.
Qed.

Lemma unsettled_delivered s s' c c' m :
  work_on s' = work_on s ++ [mkDelivery c m Working] ->
  unsettled c' s' = (unsettled c' s + if bool_decide (name_of c = name_of c') then 1 else 0)%nat.
Proof.
  intros Hw. unfold unsettled. rewrite Hw, List.filter_app, length_app. simpl.
  by destruct (bool_decide (name_of c = name_of c')).
Qed.

Lemma delivers_sound s c m :
  sound s -> (unsettled c s < PREFETCH)%nat ->
  sound (mkState (at_stage s) (is_open s) (prefetch s) (attached s) (work_on s ++ [mkDelivery c m Working])
           (taken s) (failures s) (exited s)).
Proof.
  intros [Hh Hk Hp Hpf Hat He Hf] Hc. set (s' := mkState _ _ _ _ _ _ _ _).
  assert (Hnone : told (length (work_on s)) (taken s) = []).
  { destruct (told _ _) as [|o l] eqn:Ht; [done|].
    assert (Hin : o ∈ told (length (work_on s)) (taken s)) by (rewrite Ht; by left).
    apply list_elem_of_omap in Hin as ([k o'] & Hin & Ho). case_decide; [|done].
    subst. apply Hk in Hin. lia. }
  split; simpl.
  - intros i d [Hi|(Hle & Hi)]%lookup_app_Some; [by apply Hh|].
    apply list_lookup_singleton_Some in Hi as [Hz <-].
    replace i with (length (work_on s)) by lia. exact Hnone.
  - intros i o Hin. rewrite length_app. apply Hk in Hin. simpl. lia.
  - intros c'. rewrite (unsettled_delivered s s' c c' m) by done. specialize (Hp c').
    case_bool_decide as Heq; [|lia]. assert (c' = c) as -> by (by destruct c, c'). lia.
  - done.
  - done.
  - done.
  - intros Hx. change (failures s = omap (label s') (taken s)). rewrite (label_moved s s'); [auto|].
    intros i o Hin. simpl. rewrite lookup_app_l by by eapply Hk. done.
Qed.

Lemma event_sound e s s' : sound s -> step e s = Some s' -> sound s'.
Proof.
  intros Hs. unfold step. destruct (exited s) eqn:Hx; [done|]. pose proof (so_early _ Hs) as He.
  pose proof (so_prefetch _ Hs) as Hpf. pose proof (so_attached _ Hs) as Hat.
  destruct e as [skip| |e|c m|c|i r|i r| | |]; intros H.
  - destruct (at_stage s) eqn:Hg; simplify_eq. destruct skip; [done|].
    apply (link_sound s); [done| |done|done]. intros _. by apply He.
  - assert (Ha : advance s = Some s').
    { destruct (at_stage s); try done; destruct (is_open s); done. }
    unfold advance in Ha. destruct (at_stage s) as [| | |[|d rest]| |[|c rest]|] eqn:Hg; simplify_eq.
    + apply (link_sound s); [done| |done|done]. intros _. by apply He.
    + by apply (link_sound s).
    + apply (link_sound s); [done|by destruct rest|by destruct rest|done].
    + by apply (link_sound s).
    + apply (link_sound s); [done|by destruct rest|intros _; by apply Hpf|].
      intros c' limit [Hin|[= _ ->]%list_elem_of_singleton]%elem_of_app; [by eapply Hat|by apply Hpf].
  - destruct (awaiting s); simplify_eq. by apply exit_sound.
  - destruct (is_open s && _) eqn:Hc; simplify_eq.
    apply andb_true_iff in Hc as [_ Hc]. rewrite <-Hx.
    by apply delivers_sound, deliverable_below.
  - destruct (is_open s) eqn:Ho; simplify_eq. apply (link_sound s); [done| |done|].
    + intros Hg. by rewrite (He Hg) in Ho.
    + intros c' limit Hin%list_elem_of_In%filter_In. destruct Hin as [Hin%list_elem_of_In _].
      by eapply Hat.
  - destruct (work_on s !! i) as [d|] eqn:Hi; [|done]. destruct (d_phase d) eqn:Hd; simplify_eq.
    by apply worked_sound.
  - destruct (work_on s !! i) as [d|] eqn:Hi; [|done].
    destruct (d_phase d) eqn:Hd, r; simplify_eq; [by eapply confirmed_sound|by eapply nack_sound].
  - destruct (is_open s); simplify_eq. by apply (link_sound s).
  - destruct (is_open s); simplify_eq. by apply exit_sound.
  - simplify_eq. by apply (link_sound s).
Qed.

Lemma start_sound : sound init.
Proof.
  split; simpl; try done.
  - by intros i o ?%not_elem_of_nil.
  - intros c. unfold unsettled. simpl. lia.
  - by intros c limit ?%not_elem_of_nil.
Qed.

Lemma reached_sound l : forall s s', sound s -> run l s = Some s' -> sound s'.
Proof.
  induction l as [|e l IH]; simpl; intros s s' Hs H; [by simplify_eq|].
  apply bind_Some in H as (t & Ht & Hl). eapply IH; [|done]. by eapply event_sound.
Qed.


(** ** After the channel has closed *)

Definition settled_all s : Prop := forall i d, work_on s !! i = Some d -> d_phase d = Settled.

(** The channel is gone: it was there, and has closed. *)
Definition gone s : Prop := at_stage s = Serving /\ is_open s = false.

Lemma gone_step e s s' : gone s -> step e s = Some s' ->
  gone s' /\ taken s' = taken s /\ work_on s' = work_on s /\
  (settled_all s -> exited s' = false).
Proof.
  intros [Hg Ho] H. unfold step in H. destruct (exited s) eqn:Hx; [done|].
  rewrite Hg, Ho in H. unfold awaiting in H. rewrite Hg in H.
  destruct e as [skip| |e|c m|c|i r|i r| | |]; simpl in H; try done.
  - destruct (work_on s !! i) as [d|] eqn:Hi; [|done]. destruct (d_phase d) eqn:Hd; simplify_eq.
    rewrite worked_closed by done. split_and!; try done. intros Hall.
    by rewrite (Hall _ _ Hi) in Hd.
  - destruct (work_on s !! i) as [d|] eqn:Hi; [|done]. unfold confirmed, nack, send in H.
    rewrite Ho in H.
    destruct (d_phase d) eqn:Hd, r; simplify_eq; split_and!; try done;
      intros Hall; by rewrite (Hall _ _ Hi) in Hd.
  - simplify_eq. by split_and!.
Qed.

Lemma gone_run l : forall s s', gone s -> exited s = false -> run l s = Some s' ->
  gone s' /\ taken s' = taken s /\ work_on s' = work_on s /\
  (settled_all s -> exited s' = false).
Proof.
  induction l as [|e l IH]; intros s s' Hg Hx H; simpl in H; [by simplify_eq|].
  apply bind_Some in H as (t & Ht & Hl).
  destruct (gone_step _ _ _ Hg Ht) as (Hg' & Htk & Hw & Hex).
  destruct (exited t) eqn:Hxt.
  - destruct l as [|e' l]; [|simpl in Hl; unfold step in Hl; by rewrite Hxt in Hl].
    simpl in Hl. simplify_eq. by rewrite Hxt.
  - destruct (IH _ _ Hg' Hxt Hl) as (? & Htk' & Hw' & Hex').
    split_and!; [done|congruence|congruence|]. intros Hall. apply Hex'.
    intros i d. rewrite Hw. apply Hall.
Qed.


End spec.
