(* ===== verification/Modules.v ===== *)
(** * The wiring of the modules

    The modules of both processes (every *.module.ts under src/src/) and the constructors of
    their classes, as data, and what NestJS makes of them: which classes a process has one
    instance of, what each may be given, and in which order they can be made. The library's
    modules are a parameter: which classes they export. *)
From S2P Require Import Prelude JsStrings Errors Effects JsNumbers Prisma Schema Orders Auth Http.
From S2P Require Import Environment System Outbox Workers WorkersFlow Rabbit Startup.

(** ** Modules *)

(** A provider: a class, or a token of the library that a class of the program stands for. *)
Inductive provider := Class_ (c : string) | UseClass (token c : string).
Definition class_of (p : provider) : string :=
  match p with Class_ c => c | UseClass _ c => c end.

Record module := mkModule {
  mod_name : string;
  mod_global : bool;
  mod_imports : list string;
  mod_controllers : list string;
  mod_providers : list provider;
  mod_exports : list string;       (* classes, and modules that are passed on *)
  mod_middleware : list string;
}.

Section modules.
#[local] Open Scope string_scope.

Definition DatabaseModule : module :=
  mkModule "DatabaseModule" true [] [] [Class_ "PrismaService"] ["PrismaService"] [].
Definition CommonModule : module :=
  mkModule "CommonModule" true [] [] [Class_ "RequestContextService"; Class_ "RedisCacheService"]
    ["RequestContextService"; "RedisCacheService"] ["CorrelationIdMiddleware"].
Definition ObservabilityModule : module :=
  mkModule "ObservabilityModule" true [] ["MetricsController"] [Class_ "MetricsService"]
    ["MetricsService"] [].
Definition UsersModule : module :=
  mkModule "UsersModule" false [] ["UsersController"]
    [Class_ "UsersRepository"; Class_ "UsersService"] ["UsersRepository"; "UsersService"] [].
Definition AuthModule : module :=
  mkModule "AuthModule" false ["JwtModule"; "UsersModule"] ["AuthController"]
    [Class_ "AuthService"] ["JwtModule"; "AuthService"] [].
Definition RestaurantsModule : module :=
  mkModule "RestaurantsModule" false [] ["RestaurantsController"]
    [Class_ "RestaurantsRepository"; Class_ "RestaurantsService"]
    ["RestaurantsRepository"; "RestaurantsService"] [].
Definition OrdersModule : module :=
  mkModule "OrdersModule" false [] ["OrdersController"]
    [Class_ "OrdersRepository"; Class_ "OrdersService"] ["OrdersRepository"; "OrdersService"] [].
Definition PaymentsModule : module :=
  mkModule "PaymentsModule" false ["OrdersModule"] ["PaymentsController"]
    [Class_ "PaymentsRepository"; Class_ "PaymentsService"] [] [].
Definition AuditModule : module :=
  mkModule "AuditModule" false [] ["AuditController"]
    [Class_ "AuditRepository"; Class_ "AuditEventHandler"; Class_ "AuditService"]
    ["AuditEventHandler"] [].
Definition QueueModule : module :=
  mkModule "QueueModule" false [] []
    [Class_ "RabbitPublisherService"; Class_ "OutboxPublisherService"] ["RabbitPublisherService"] [].
Definition HealthModule : module :=
  mkModule "HealthModule" false ["QueueModule"] ["HealthController"] [] [] [].
Definition NotificationsModule : module :=
  mkModule "NotificationsModule" false [] []
    [Class_ "NotificationsRepository"; Class_ "NotificationEventHandler";
     Class_ "NotificationQueueService"]
    ["NotificationEventHandler"; "NotificationQueueService"] [].
Definition RabbitWorkerModule : module :=
  mkModule "RabbitWorkerModule" false ["AuditModule"; "NotificationsModule"] []
    [Class_ "RabbitConsumersService"] [] [].

Definition AppModule : module :=
  mkModule "AppModule" false
    ["ConfigModule"; "LoggerModule"; "ThrottlerModule"; "ScheduleModule"; "CommonModule";
     "DatabaseModule"; "ObservabilityModule"; "AuthModule"; "UsersModule"; "RestaurantsModule";
     "OrdersModule"; "PaymentsModule"; "AuditModule"; "QueueModule"; "HealthModule"]
    []
    [UseClass "APP_GUARD" "ThrottlerGuard"; UseClass "APP_GUARD" "JwtAuthGuard";
     UseClass "APP_GUARD" "RolesGuard"; UseClass "APP_INTERCEPTOR" "HttpMetricsInterceptor";
     UseClass "APP_FILTER" "AllExceptionsFilter"]
    [] [].
Definition WorkerModule : module :=
  mkModule "WorkerModule" false
    ["ConfigModule"; "LoggerModule"; "ScheduleModule"; "CommonModule"; "DatabaseModule";
     "ObservabilityModule"; "AuditModule"; "NotificationsModule"; "RabbitWorkerModule"]
    [] [] [] [].

Definition program_modules : list module :=
  [DatabaseModule; CommonModule; ObservabilityModule; UsersModule; AuthModule; RestaurantsModule;
   OrdersModule; PaymentsModule; AuditModule; QueueModule; HealthModule; NotificationsModule;
   RabbitWorkerModule; AppModule; WorkerModule].

End modules.

(** ** Constructors: what each class of the program is given *)

Record class := mkClass { c_name : string; c_needs : list string }.

Module Constructors.
Section classes.
#[local] Open Scope string_scope.

Definition PrismaService : class := mkClass "PrismaService" ["ConfigService"].
Definition RedisCacheService : class := mkClass "RedisCacheService" ["ConfigService"].
Definition RequestContextService : class := mkClass "RequestContextService" [].
Definition CorrelationIdMiddleware : class :=
  mkClass "CorrelationIdMiddleware" ["RequestContextService"].
Definition MetricsService : class := mkClass "MetricsService" [].
Definition MetricsController : class := mkClass "MetricsController" ["MetricsService"].
Definition HttpMetricsInterceptor : class := mkClass "HttpMetricsInterceptor" ["MetricsService"].
Definition JwtAuthGuard : class := mkClass "JwtAuthGuard" ["Reflector"; "JwtService"].
Definition RolesGuard : class := mkClass "RolesGuard" ["Reflector"].
Definition AllExceptionsFilter : class :=
  mkClass "AllExceptionsFilter" ["HttpAdapterHost"; "RequestContextService"].
Definition UsersRepository : class := mkClass "UsersRepository" ["PrismaService"].
Definition UsersService : class := mkClass "UsersService" ["UsersRepository"].
Definition UsersController : class := mkClass "UsersController" ["UsersService"].
Definition AuthService : class :=
  mkClass "AuthService" ["UsersRepository"; "JwtService"; "ConfigService"].
Definition AuthController : class := mkClass "AuthController" ["AuthService"].
Definition RestaurantsRepository : class := mkClass "RestaurantsRepository" ["PrismaService"].
Definition RestaurantsService : class :=
  mkClass "RestaurantsService" ["RestaurantsRepository"; "RedisCacheService"].
Definition RestaurantsController : class :=
  mkClass "RestaurantsController" ["RestaurantsService"].
Definition OrdersRepository : class := mkClass "OrdersRepository" ["PrismaService"].
Definition OrdersService : class :=
  mkClass "OrdersService" ["OrdersRepository"; "RequestContextService"].
Definition OrdersController : class := mkClass "OrdersController" ["OrdersService"].
Definition PaymentsRepository : class := mkClass "PaymentsRepository" ["PrismaService"].
Definition PaymentsService : class :=
  mkClass "PaymentsService" ["PaymentsRepository"; "OrdersRepository"; "RequestContextService"].
Definition PaymentsController : class := mkClass "PaymentsController" ["PaymentsService"].
Definition AuditRepository : class := mkClass "AuditRepository" ["PrismaService"].
Definition AuditEventHandler : class := mkClass "AuditEventHandler" ["AuditRepository"].
Definition AuditService : class := mkClass "AuditService" ["AuditRepository"].
Definition AuditController : class := mkClass "AuditController" ["AuditService"].
Definition RabbitPublisherService : class := mkClass "RabbitPublisherService" ["ConfigService"].
Definition OutboxPublisherService : class :=
  mkClass "OutboxPublisherService" ["PrismaService"; "RabbitPublisherService"; "MetricsService"].
Definition HealthController : class :=
  mkClass "HealthController" ["PrismaService"; "RedisCacheService"; "RabbitPublisherService"].
Definition NotificationsRepository : class := mkClass "NotificationsRepository" ["PrismaService"].
Definition NotificationEventHandler : class :=
  mkClass "NotificationEventHandler" ["NotificationsRepository"].
Definition NotificationQueueService : class :=
  mkClass "NotificationQueueService" ["ConfigService"; "NotificationsRepository"].
Definition RabbitConsumersService : class :=
  mkClass "RabbitConsumersService"
    ["ConfigService"; "AuditEventHandler"; "NotificationEventHandler"; "NotificationQueueService";
     "MetricsService"].

End classes.
End Constructors.

Section of_the_program.
Import Constructors.
Definition program_classes : list class := [
   PrismaService; RedisCacheService; RequestContextService; CorrelationIdMiddleware;
   MetricsService; MetricsController; HttpMetricsInterceptor; JwtAuthGuard; RolesGuard;
   AllExceptionsFilter; UsersRepository; UsersService; UsersController; AuthService;
   AuthController; RestaurantsRepository; RestaurantsService; RestaurantsController;
   OrdersRepository; OrdersService; OrdersController; PaymentsRepository; PaymentsService;
   PaymentsController; AuditRepository; AuditEventHandler; AuditService; AuditController;
   RabbitPublisherService; OutboxPublisherService; HealthController; NotificationsRepository;
   NotificationEventHandler; NotificationQueueService; RabbitConsumersService ].
End of_the_program.

(** The [onModuleInit] hooks, by class (Startup.v). *)
Definition hook_of `{UrlParts} (c : string) :
    option (environment -> instance -> result (list command)) :=
  if String.eqb c "PrismaService" then Some PrismaService_start
  else if String.eqb c "RedisCacheService" then Some RedisCacheService_start
  else if String.eqb c "RabbitPublisherService" then Some RabbitPublisherService_start
  else if String.eqb c "NotificationQueueService" then Some NotificationQueueService_start
  else if String.eqb c "RabbitConsumersService" then Some RabbitConsumersService_start
  else None.

(** A class of the program: what its constructor asks for. *)
Definition needs (c : string) : option (list string) :=
  c_needs <$> List.find (fun C => String.eqb (c_name C) c) program_classes.

Definition find_module (m : string) : option module :=
  List.find (fun M => String.eqb (mod_name M) m) program_modules.

(** ** The library *)

(** What a module of the library exports, whether it is global as it is imported here
    ([ConfigModule.forRoot({ isGlobal: true })]), and what NestJS itself gives to every class. *)
Class NestLibrary := {
  library_exports : string -> list string;
  library_global : string -> bool;
  core : list string;
}.
Class NestLibraryLaws (L : NestLibrary) : Prop := {
  config_global : library_global "ConfigModule" = true;
  config_exports : "ConfigService"%string ∈ library_exports "ConfigModule";
  jwt_exports : "JwtService"%string ∈ library_exports "JwtModule";
  core_reflector : "Reflector"%string ∈ core;
  core_adapter : "HttpAdapterHost"%string ∈ core;
}.

(** ** Instances *)

(** The modules of a process: its root and what that imports, directly or not; [fuel] bounds the
    depth of the imports. *)
Fixpoint reach (fuel : nat) (m : string) : list string :=
  m :: match fuel with
       | O => []
       | S fuel =>
           match find_module m with
           | Some M => flat_map (reach fuel) (mod_imports M)
           | None => []
           end
       end.

Definition root (p : process) : string :=
  match p with Api => "AppModule" | Worker => "WorkerModule" end.
Definition depth : nat := 4.
Definition names (p : process) : list string := remove_dups (reach depth (root p)).
Definition modules_of (p : process) : list module := omap find_module (names p).

(** The classes a module makes an instance of. *)
Definition instances (M : module) : list string :=
  mod_controllers M ++ map class_of (mod_providers M) ++ mod_middleware M.
Definition classes (p : process) : list string := flat_map instances (modules_of p).

(** ** What a class may be given *)

Section wiring.
Context `{NestLibrary}.

(** The classes that importing a module makes available, those it passes on included. *)
Fixpoint exported (fuel : nat) (m : string) : list string :=
  match find_module m with
  | None => library_exports m
  | Some M =>
      flat_map (fun e => if existsb (String.eqb e) (mod_imports M)
                         then match fuel with O => [] | S fuel => exported fuel e end
                         else [e]) (mod_exports M)
  end.

Definition is_global (m : string) : bool :=
  match find_module m with Some M => mod_global M | None => library_global m end.

(** A class that is made in [M] may be given a [d]: [M] provides it, or imports it, or a global
    module of the process exports it, or it is NestJS's own. *)
Definition visible (p : process) (M : module) (d : string) : Prop :=
  d ∈ map class_of (mod_providers M) \/
  (exists m, m ∈ mod_imports M /\ d ∈ exported depth m) \/
  (exists m, m ∈ names p /\ is_global m = true /\ d ∈ exported depth m) \/
  d ∈ core.

End wiring.

(** ** An order in which the instances can be made *)

(** Every class of the program that [c] needs is in [made]. *)
Definition makeable (made : list string) (c : string) : bool :=
  forallb (fun d => existsb (String.eqb d) made || negb (bool_decide (is_Some (needs d))))
    (default [] (needs c)).

(** Make, again and again, the first class that can be made. *)
Fixpoint plan (fuel : nat) (made todo : list string) : option (list string) :=
  match todo with
  | [] => Some made
  | _ =>
      match fuel with
      | O => None
      | S fuel =>
          c ← List.find (makeable made) todo;
          plan fuel (made ++ [c]) (List.filter (fun c' => negb (String.eqb c' c)) todo)
      end
  end.
Definition construction (p : process) : option (list string) :=
  plan (length (classes p)) [] (classes p).

(** ** The wiring is complete *)

Definition among (c : string) (l : list string) : bool := existsb (String.eqb c) l.

Lemma among_spec c l : among c l = true <-> c ∈ l.
Proof.
  unfold among. rewrite existsb_exists. split.
  - intros (x & Hin & ->%String.eqb_eq). by apply list_elem_of_In.
  - intros Hin. exists c. split; [by apply list_elem_of_In|apply String.eqb_refl].
Qed.

(** Made in an order that respects what each class of the program needs. *)
Definition in_order (order : list string) : Prop :=
  forall l1 c l2 deps d, order = l1 ++ c :: l2 -> needs c = Some deps -> d ∈ deps ->
    is_Some (needs d) -> d ∈ l1.

Lemma makeable_spec made c deps d :
  makeable made c = true -> needs c = Some deps -> d ∈ deps -> is_Some (needs d) -> d ∈ made.
Proof.
  unfold makeable. intros Hm Hn Hd Hp. rewrite Hn in Hm. simpl in Hm.
  rewrite forallb_forall in Hm. specialize (Hm d ltac:(by apply list_elem_of_In)).
  apply orb_true_iff in Hm as [Hm|Hm]; [by apply among_spec|].
  by rewrite bool_decide_eq_true_2 in Hm.
Qed.

Lemma in_order_snoc made c :
  in_order made -> makeable made c = true -> in_order (made ++ [c]).
Proof.
  intros Ho Hm l1 c' l2 deps d Heq Hn Hd Hp. destruct (decide (l2 = [])) as [->|Hne].
  - apply app_inj_tail in Heq as [-> ->]. by eapply makeable_spec.
  - destruct l2 as [|x l2 _] using rev_ind; [done|].
    rewrite app_comm_cons, app_assoc in Heq. apply app_inj_tail in Heq as [-> ->].
    by eapply (Ho l1 c' l2).
Qed.

Lemma remove_perm c l :
  NoDup l -> c ∈ l -> l ≡ₚ c :: List.filter (fun c' => negb (String.eqb c' c)) l.
Proof.
  induction l as [|x l IH]; intros Hnd Hin; [by apply not_elem_of_nil in Hin|].
  apply NoDup_cons in Hnd as [Hx Hnd]. simpl. destruct (String.eqb_spec x c) as [->|Hne]; simpl.
  - f_equiv. clear -Hx. induction l as [|y l IH]; simpl; [done|].
    apply not_elem_of_cons in Hx as [Hy Hx]. destruct (String.eqb_spec y c); [by subst|].
    simpl. by rewrite <-IH.
  - apply elem_of_cons in Hin as [->|Hin]; [done|]. rewrite (IH Hnd Hin) at 1. apply perm_swap.
Qed.

Lemma filter_NoDup (f : string -> bool) l : NoDup l -> NoDup (List.filter f l).
Proof.
  induction 1 as [|x l Hx _ IH]; simpl; [constructor|]. destruct (f x); [|done].
  constructor; [|done]. intros [Hin _]%list_elem_of_In%filter_In. by apply Hx, list_elem_of_In.
Qed.

Lemma plan_sound fuel : forall made todo order,
  NoDup todo -> in_order made -> plan fuel made todo = Some order ->
  in_order order /\ order ≡ₚ made ++ todo.
Proof.
  induction fuel as [|fuel IH]; intros made todo order Hnd Ho Hp; destruct todo as [|c todo];
    cbn [plan] in Hp; try done; try (simplify_eq; by rewrite app_nil_r).
  apply bind_Some in Hp as (x & Hx & Hp). apply List.find_some in Hx as [Hin Hm].
  apply list_elem_of_In in Hin.
  destruct (IH _ _ _ (filter_NoDup _ _ Hnd) (in_order_snoc _ _ Ho Hm) Hp) as [? Hperm].
  split; [done|]. rewrite Hperm, <-app_assoc. simpl. by rewrite <-(remove_perm x (c :: todo)).
Qed.

Section complete.
Context {L : NestLibrary} {LL : NestLibraryLaws L} {UP : UrlParts}.

(** What a module of the program hands on directly. *)
Definition hands_on (m d : string) : bool :=
  match find_module m with
  | Some N => among d (mod_exports N) && negb (among d (mod_imports N))
  | None => false
  end.
(** It passes on, or is, the library's [JwtModule]. *)
Definition hands_on_jwt (m : string) : bool :=
  match find_module m with
  | Some N => among "JwtModule" (mod_exports N) && among "JwtModule" (mod_imports N)
  | None => String.eqb m "JwtModule"
  end.

Definition supplied (p : process) (M : module) (d : string) : bool :=
  among d (map class_of (mod_providers M)) ||
  existsb (fun m => hands_on m d) (mod_imports M) ||
  existsb (fun m => is_global m && hands_on m d) (List.filter (fun m => bool_decide (is_Some (find_module m))) (names p)) ||
  (String.eqb d "ConfigService" && among "ConfigModule" (names p)) ||
  (String.eqb d "JwtService" && existsb hands_on_jwt (mod_imports M)) ||
  among d ["Reflector"; "HttpAdapterHost"]%string.

Lemma hands_on_exported fuel m d : hands_on m d = true -> d ∈ exported fuel m.
Proof.
  unfold hands_on. destruct (find_module m) as [N|] eqn:Hf; [|done].
  intros [Hd Hi]%andb_true_iff. apply among_spec in Hd.
  assert (H : d ∈ flat_map (fun e => if existsb (String.eqb e) (mod_imports N)
      then match fuel with O => [] | S fuel => exported fuel e end else [e]) (mod_exports N)).
  { apply list_elem_of_In, in_flat_map. exists d. split; [by apply list_elem_of_In|].
    unfold among in Hi. apply negb_true_iff in Hi. rewrite Hi. by left. }
  destruct fuel; cbn [exported]; by rewrite Hf.
Qed.

Lemma hands_on_jwt_exported fuel m :
  hands_on_jwt m = true -> "JwtService"%string ∈ exported (S fuel) m.
Proof.
  unfold hands_on_jwt. cbn [exported]. destruct (find_module m) as [N|] eqn:Hf.
  - intros [Hd Hi]%andb_true_iff. apply among_spec in Hd. apply list_elem_of_In, in_flat_map.
    exists "JwtModule"%string. split; [by apply list_elem_of_In|]. unfold among in Hi. rewrite Hi.
    apply list_elem_of_In. destruct fuel; cbn; apply jwt_exports.
  - intros ->%String.eqb_eq. apply jwt_exports.
Qed.

Lemma supplied_visible p M d : supplied p M d = true -> visible p M d.
Proof.
  unfold supplied, visible. rewrite !orb_true_iff. intros [[[[[H|H]|H]|H]|H]|H].
  - left. by apply among_spec.
  - right; left. apply existsb_exists in H as (m & Hin & Hm). exists m.
    split; [by apply list_elem_of_In|by apply hands_on_exported].
  - right; right; left. apply existsb_exists in H as (m & [Hin _]%filter_In & [Hg Hm]%andb_true_iff).
    exists m. split_and!; [by apply list_elem_of_In|done|by apply hands_on_exported].
  - right; right; left. apply andb_true_iff in H as [->%String.eqb_eq H]. apply among_spec in H.
    exists "ConfigModule"%string. split_and!; [done|apply config_global|apply config_exports].
  - right; left. apply andb_true_iff in H as [->%String.eqb_eq H].
    apply existsb_exists in H as (m & Hin & Hm). exists m.
    split; [by apply list_elem_of_In|by apply (hands_on_jwt_exported 3)].
  - right; right; right. apply among_spec in H. apply elem_of_cons in H as [->|H].
    + apply core_reflector.
    + apply list_elem_of_singleton in H as ->. apply core_adapter.
Qed.

(** All of it, by evaluation. *)
Definition all_supplied (p : process) : bool :=
  forallb (fun M => forallb (fun c => forallb (supplied p M) (default [] (needs c))) (instances M))
    (modules_of p).

Lemma all_supplied_true p : all_supplied p = true.
Proof. destruct p; vm_compute; reflexivity. Qed.

Lemma closed_names p m M :
  m ∈ names p -> find_module m = Some M -> forall i, i ∈ mod_imports M -> i ∈ names p.
Proof.
  intros Hm HM i Hi.
  assert (H : forallb (fun m => match find_module m with
      | Some M => forallb (fun i => among i (names p)) (mod_imports M) | None => true end) (names p) = true)
    by (destruct p; vm_compute; reflexivity).
  rewrite forallb_forall in H. specialize (H m ltac:(by apply list_elem_of_In)). rewrite HM in H.
  rewrite forallb_forall in H. by apply among_spec, H, list_elem_of_In.
Qed.

Lemma classes_once p : NoDup (classes p).
Proof. apply (bool_decide_unpack _). destruct p; vm_compute; reflexivity. Qed.

(** C38: The wiring of both processes is complete: the modules of a process are closed under their
    imports; each constructor is given only what its module provides, imports, or finds in a
    global module or in NestJS; each class has one instance in the process, so that the
    publisher the probe asks is the one the outbox uses; there is an order in which all of them
    can be made, each after what it needs; the classes made are those whose hooks the start runs;
    and only the API polls the outbox, only the worker consumes and delivers. *)
Theorem wiring_complete p :
  (forall m M i, m ∈ names p -> find_module m = Some M -> i ∈ mod_imports M -> i ∈ names p) /\
  (forall M c deps d, M ∈ modules_of p -> c ∈ instances M -> needs c = Some deps -> d ∈ deps ->
     visible p M d) /\
  NoDup (classes p) /\
  (exists order, construction p = Some order /\ order ≡ₚ classes p /\ in_order order /\
     omap hook_of order ≡ₚ hooks p) /\
  ("OutboxPublisherService"%string ∈ classes p <-> p = Api) /\
  ("RabbitConsumersService"%string ∈ classes p <-> p = Worker) /\
  ("NotificationQueueService"%string ∈ classes p <-> p = Worker).
Proof.
  split_and!.
  - intros. by eapply closed_names.
  - intros M c deps d HM Hc Hn Hd. apply supplied_visible.
    pose proof (all_supplied_true p) as Hall. unfold all_supplied in Hall.
    rewrite forallb_forall in Hall. specialize (Hall M ltac:(by apply list_elem_of_In)).
    rewrite forallb_forall in Hall. specialize (Hall c ltac:(by apply list_elem_of_In)).
    rewrite Hn, forallb_forall in Hall. by apply Hall, list_elem_of_In.
  - apply classes_once.
  - destruct (construction p) as [order|] eqn:Ho; [|by destruct p; vm_compute in Ho].
    destruct (plan_sound _ [] _ _ (classes_once p) ltac:(by intros [] ? ? ? ? ?) Ho) as [Hin Hperm].
    exists order. split_and!; [done|by rewrite Hperm|done|].
    destruct p; vm_compute in Ho; injection Ho as <-; unfold hooks; cbn -[PrismaService_start];
      solve_Permutation.
  - rewrite <-among_spec. by destruct p; vm_compute.
  - rewrite <-among_spec. by destruct p; vm_compute.
  - rewrite <-among_spec. by destruct p; vm_compute.
Qed.

End complete.
