(* ===== verification/Shutdown.v ===== *)
(** * How the processes stop

    The [onApplicationShutdown] hooks of both processes (PrismaService, RedisCacheService, the two
    RabbitMQ services, NotificationQueueService): what they close, in the order of their
    [await]s, which failures they swallow, and that they close all that the start (Startup.v) has
    opened. A closing may fail; the hooks run in any order. *)
From S2P Require Import Prelude JsStrings Errors Effects JsNumbers Prisma Schema Orders Auth Http.
From S2P Require Import Environment System Outbox Workers WorkersFlow Rabbit Startup Modules.

(** What a process holds open. *)
Inductive resource :=
| Database | Cache | AmqpConnection | AmqpChannel | DeliveryQueue | DeliveryWorker.
#[export] Instance resource_eq_dec : EqDecision resource.
Proof. solve_decision. Defined.

(** What a command of the start opens. *)
Definition opens (c : command) : option resource :=
  match c with
  | PrismaConnect _ _ => Some Database
  | RedisConnect _ _ => Some Cache
  | AmqpConnect _ => Some AmqpConnection
  | CreateConfirmChannel => Some AmqpChannel
  | QueueOpen _ _ => Some DeliveryQueue
  | WorkerOpen _ _ _ => Some DeliveryWorker
  | AssertTopology _ | Prefetch _ | Consume _ _ => None
  end.

Section hooks.
(** The closings that fail. *)
Variable fails : resource -> bool.

Abbreviation held := (list resource).

(** Close a resource; [?.] does nothing when there is none. *)
Definition close (r : resource) : tx held unit := fun s =>
  if negb (bool_decide (r ∈ s)) then Ok (tt, s)
  else if fails r then Err (JsError "The resource could not be closed")
  else Ok (tt, List.filter (fun r' => negb (bool_decide (r' = r))) s).

(** [await x?.close().catch(() => undefined)]. *)
Definition close_quietly (r : resource) : prog held unit :=
  try_catch (await (close r)) (fun _ => Ret tt).

Definition PrismaService_stop : prog held unit := await (close Database).
(** [if (this.client.status !== 'end') await this.client.quit()]. *)
Definition RedisCacheService_stop : prog held unit := await (close Cache).
Definition RabbitPublisherService_stop : prog held unit :=
  _ ← close_quietly AmqpChannel; close_quietly AmqpConnection.
Definition RabbitConsumersService_stop : prog held unit :=
  _ ← close_quietly AmqpChannel; close_quietly AmqpConnection.
Definition NotificationQueueService_stop : prog held unit :=
  _ ← await (close DeliveryWorker); await (close DeliveryQueue).

Definition stop_hooks (p : process) : list (prog held unit) :=
  match p with
  | Api => [PrismaService_stop; RedisCacheService_stop; RabbitPublisherService_stop]
  | Worker => [PrismaService_stop; RedisCacheService_stop; NotificationQueueService_stop;
               RabbitConsumersService_stop]
  end.

(** The hooks, one after the other; the first that throws ends the shutdown. *)
Definition shutdown (hooks : list (prog held unit)) : prog held unit :=
  for_each (fun hook => hook) hooks.

(** ** What a hook leaves *)

Definition without (rs : list resource) (s : held) : held :=
  List.filter (fun r => negb (bool_decide (r ∈ rs))) s.
(** The resources of [rs] that could be closed. *)
Definition closable (rs : list resource) : list resource :=
  List.filter (fun r => negb (fails r)) rs.

Lemma elem_of_without r rs s : r ∈ without rs s <-> r ∈ s /\ r ∉ rs.
Proof.
  unfold without. rewrite list_elem_of_In, filter_In, <-list_elem_of_In, negb_true_iff.
  by rewrite bool_decide_eq_false.
Qed.

Lemma close_ok r s :
  fails r = false -> exists s', close r s = Ok (tt, s') /\ forall x, x ∈ s' <-> x ∈ s /\ x <> r.
Proof.
  intros Hf. unfold close. destruct (bool_decide (r ∈ s)) eqn:Hr; simpl.
  - rewrite Hf. eexists. split; [done|]. intros x.
    rewrite list_elem_of_In, filter_In, <-list_elem_of_In, negb_true_iff, bool_decide_eq_false. done.
  - apply bool_decide_eq_false in Hr. exists s. split; [done|]. intros x.
    split; [|by intros [? _]]. intros Hx. split; [done|]. by intros ->.
Qed.

Lemma run_close r s :
  fails r = false ->
  exists s', run (await (close r)) s = (Ok tt, s') /\ forall x, x ∈ s' <-> x ∈ s /\ x <> r.
Proof.
  intros (s' & Hc & Hs)%(close_ok r s). exists s'. by rewrite run_await, Hc.
Qed.

Lemma run_close_quietly r s :
  exists s', run (close_quietly r) s = (Ok tt, s') /\
    forall x, x ∈ s' <-> x ∈ s /\ (x <> r \/ fails r = true).
Proof.
  unfold close_quietly. rewrite run_try_catch, run_await. destruct (fails r) eqn:Hf.
  - unfold close. destruct (bool_decide (r ∈ s)); simpl; [rewrite Hf|];
      exists s; (split; [done|]); naive_solver.
  - destruct (close_ok r s Hf) as (s' & Hc & Hs). rewrite Hc. exists s'. split; [done|].
    intros x. rewrite Hs. naive_solver.
Qed.

(** A hook that closes [rs], whatever [quiet] ones fail. *)
Definition closes (hook : prog held unit) (rs : list resource) : Prop :=
  forall s, exists s', run hook s = (Ok tt, s') /\
    forall x, x ∈ s' <-> x ∈ s /\ (x ∉ rs \/ fails x = true).

Hypothesis fails_amqp : forall r, fails r = true -> r = AmqpChannel \/ r = AmqpConnection.

Lemma close_closes r : r <> AmqpChannel -> r <> AmqpConnection -> closes (await (close r)) [r].
Proof.
  intros H1 H2 s. assert (Hf : fails r = false).
  { destruct (fails r) eqn:Hf; [|done]. by destruct (fails_amqp _ Hf). }
  destruct (run_close r s Hf) as (s' & Hr & Hs). exists s'. split; [done|]. intros x. rewrite Hs.
  rewrite list_elem_of_singleton. destruct (decide (x = r)) as [->|]; [|naive_solver].
  rewrite Hf. naive_solver.
Qed.

Lemma close_quietly_closes r : closes (close_quietly r) [r].
Proof.
  intros s. destruct (run_close_quietly r s) as (s' & Hr & Hs). exists s'. split; [done|].
  intros x. rewrite Hs, list_elem_of_singleton. destruct (decide (x = r)) as [->|]; naive_solver.
Qed.

Lemma then_closes h h' rs rs' : closes h rs -> closes h' rs' -> closes (_ ← h; h') (rs ++ rs').
Proof.
  intros H H' s. destruct (H s) as (s1 & Hr1 & Hs1). destruct (H' s1) as (s2 & Hr2 & Hs2).
  exists s2. rewrite run_bind, Hr1. split; [done|]. intros x.
  rewrite Hs2, Hs1, not_elem_of_app. destruct (fails x); naive_solver.
Qed.

Lemma shutdown_closes hooks rss :
  Forall2 closes hooks rss -> closes (shutdown hooks) (concat rss).
Proof.
  induction 1 as [|hook rs hooks rss Hh _ IH]; simpl.
  - intros s. exists s. split; [done|]. intros x. set_solver.
  - by apply (then_closes hook (shutdown hooks)).
Qed.

(** What the hooks of a process close. *)
Definition closed_by (p : process) : list (list resource) :=
  match p with
  | Api => [[Database]; [Cache]; [AmqpChannel; AmqpConnection]]
  | Worker => [[Database]; [Cache]; [DeliveryWorker; DeliveryQueue]; [AmqpChannel; AmqpConnection]]
  end.

Lemma hooks_close p : Forall2 closes (stop_hooks p) (closed_by p).
Proof.
  assert (Hdb : closes PrismaService_stop [Database]) by by apply close_closes.
  assert (Hre : closes RedisCacheService_stop [Cache]) by by apply close_closes.
  assert (Hra : closes RabbitPublisherService_stop [AmqpChannel; AmqpConnection])
    by (apply (then_closes _ _ [_] [_]); apply close_quietly_closes).
  assert (Hno : closes NotificationQueueService_stop [DeliveryWorker; DeliveryQueue])
    by (apply (then_closes _ _ [_] [_]); by apply close_closes).
  destruct p; repeat constructor; done.
Qed.

Context {V : ClassValidator} {VL : ClassValidatorLaws V} {UP : UrlParts}.

(** What a start has opened. *)
Definition opened_by (commands : list command) : held := omap opens commands.

Lemma opened_app cs cs' : opened_by (cs ++ cs') = opened_by cs ++ opened_by cs'.
Proof. apply omap_app. Qed.

(** What a start hook opens, when it does not throw. *)
Definition hook_opens (hook : environment -> instance -> result (list command))
    (rs : list resource) : Prop :=
  forall env config commands, hook env config = Ok commands -> opened_by commands ⊆ rs.

Lemma hooks_open p : Forall2 hook_opens (hooks p) (closed_by p).
Proof.
  assert (hook_opens PrismaService_start [Database]).
  { intros env config cs. unfold PrismaService_start. destruct (getOrThrow _ _); [simpl|done].
    destruct (skips env); intros; simplify_eq; set_solver. }
  assert (hook_opens RedisCacheService_start [Cache]).
  { intros env config cs. unfold RedisCacheService_start. destruct (getOrThrow _ _); [simpl|done].
    destruct (skips env); intros; simplify_eq; set_solver. }
  assert (hook_opens RabbitPublisherService_start [AmqpChannel; AmqpConnection]).
  { intros env config cs. unfold RabbitPublisherService_start.
    destruct (skips env); [intros; simplify_eq; set_solver|].
    destruct (getOrThrow _ _); intros [= <-]; [|set_solver].
    cbn. set_solver. }
  assert (hook_opens NotificationQueueService_start [DeliveryWorker; DeliveryQueue]).
  { intros env config cs. unfold NotificationQueueService_start.
    destruct (skips env); [intros; simplify_eq; set_solver|].
    destruct (getOrThrow _ _); [simpl|done]. destruct (redisConnection _); [simpl|done].
    intros [= <-]. set_solver. }
  assert (hook_opens RabbitConsumersService_start [AmqpChannel; AmqpConnection]).
  { intros env config cs. unfold RabbitConsumersService_start.
    destruct (skips env); [intros; simplify_eq; set_solver|].
    destruct (getOrThrow _ _); [simpl|done]. intros [= <-].
    cbn. set_solver. }
  destruct p; repeat (apply Forall2_cons_2; [assumption|]); apply Forall2_nil_2.
Qed.

Lemma run_hooks_open l rss env config commands :
  Forall2 hook_opens l rss -> run_hooks l env config = Ok commands ->
  opened_by commands ⊆ concat rss.
Proof.
  intros H. revert commands. induction H as [|hook rs l rss Hh _ IH]; intros commands; simpl.
  - intros [= <-]. set_solver.
  - destruct (hook env config) as [cs|] eqn:Hc; [simpl|done].
    destruct (run_hooks l env config) as [rest|]; [simpl|done]. intros [= <-].
    rewrite opened_app. specialize (IH _ eq_refl). apply Hh in Hc. set_solver.
Qed.

Lemma startup_opens p env commands :
  startup p env = Ok commands -> opened_by commands ⊆ concat (closed_by p).
Proof.
  unfold startup. destruct (validateEnvironment env); [simpl|done].
  apply run_hooks_open, hooks_open.
Qed.

(** Hooks in another order close the same. *)
Lemma reordered p hooks :
  hooks ≡ₚ stop_hooks p -> exists rss, rss ≡ₚ closed_by p /\ Forall2 closes hooks rss.
Proof.
  intros Hp. destruct (Permutation_Forall2 (symmetry Hp) (hooks_close p)) as (rss & ? & ?).
  by exists rss.
Qed.

(** What the start opens, the shutdown closes. In every environment in which a process starts,
    its hooks, run in any order, close everything the start has opened, and the shutdown does not
    throw, also when RabbitMQ cannot be told: then the channel or connection whose closing has
    failed is all that is left. *)
Theorem shutdown_complete p env commands hooks :
  startup p env = Ok commands -> hooks ≡ₚ stop_hooks p ->
  exists left, run (shutdown hooks) (opened_by commands) = (Ok tt, left) /\
    forall r, r ∈ left -> fails r = true /\ (r = AmqpChannel \/ r = AmqpConnection).
Proof.
  intros Hopen%startup_opens (rss & Hrss & Hc)%reordered.
  destruct (shutdown_closes _ _ Hc (opened_by commands)) as (left & Hr & Hleft).
  exists left. split; [done|]. intros r [Hin [Hno|Hf]]%Hleft; [|auto].
  destruct Hno. apply Hopen in Hin. revert Hin. rewrite !list_elem_of_In, !in_concat.
  intros (rs & Hrs & Hin). exists rs. split; [|done]. by rewrite <-list_elem_of_In, Hrss, list_elem_of_In.
Qed.

End hooks.
