(* ===== verification/Validation.v ===== *)
(** * The validation of what requests carry

    The DTO classes (every dto/*.dto.ts under src/src/) as data: their properties with their
    decorators, types and initial values; the options of the global ValidationPipe
    (src/src/bootstrap/setup-application.ts); and the pipe as it is documented: a body becomes
    an instance of its class, an instance that breaks a rule is refused with a 400.
    class-transformer, class-validator and the pipe are parameters, the numbers of a body are
    doubles. *)
From S2P Require Import Prelude JsStrings Errors Effects JsNumbers Prisma Schema Orders.
From S2P Require Import Payments Auth Restaurants.

(** ** What a body is, and what a class is *)

Inductive value :=
| Undefined | Null | Boolean (b : bool) | Num (x : number) | Str (s : string)
| Arr (l : list value) | Obj (o : list (string * value)).
Abbreviation object := (list (string * value)).

(** A query, as Express parses it: a name that is repeated has a list of texts. *)
Inductive query_value := Once (s : string) | Repeated (l : list string).
Definition query := list (string * query_value).
Definition query_object (q : query) : object :=
  map (fun '(k, v) => (k, match v with Once s => Str s | Repeated l => Arr (map Str l) end)) q.

(** [o[name]]; the properties of an object have different names. *)
Definition get (name : string) (o : object) : value :=
  match List.find (fun p => String.eqb p.1 name) o with Some p => p.2 | None => Undefined end.
Definition keys (o : object) : list string := map fst o.

Inductive decorator :=
| IsString | IsEmail | IsJWT | IsUUID | IsDateString
| Length (least most : nat) | MinLength (n : nat) | MaxLength (n : nat)
| IsInt | IsNumber (maxDecimalPlaces : nat) | Min (m : number) | Max (m : number)
| IsEnum (values : list string)
| IsArray | ArrayMinSize (n : nat) | ArrayMaxSize (n : nat)
| IsOptional | ValidateNested.

(** A property; [AsNumber] is [@Type(() => Number)], [Items C] is [@Type(() => C)] on a list. *)
Inductive field :=
| mkField (name : string) (decorators : list decorator) (type : ftype) (initial : value)
with ftype :=
| Any | AsNumber | Items (item : list field).

Definition f_name (f : field) : string := match f with mkField name _ _ _ => name end.
Definition f_decorators (f : field) : list decorator := match f with mkField _ ds _ _ => ds end.
Definition f_type (f : field) : ftype := match f with mkField _ _ t _ => t end.
Definition f_initial (f : field) : value := match f with mkField _ _ _ v => v end.

(** ** The classes *)

Module Classes.
Section classes.
#[local] Open Scope string_scope.

Definition roles : list string := map Role_name [ADMIN; MANAGER; USER].
Definition statuses : list string :=
  map OrderStatus_name [PENDING; CONFIRMED; PREPARING; READY; COMPLETED; CANCELLED].

Definition RegisterDto : list field := [
  mkField "email" [IsEmail; MaxLength 320] Any Undefined;
  mkField "password" [IsString; MinLength 12; MaxLength 128] Any Undefined;
  mkField "displayName" [IsString; Length 2 100] Any Undefined ].
Definition LoginDto : list field := [
  mkField "email" [IsEmail; MaxLength 320] Any Undefined;
  mkField "password" [IsString; MaxLength 128] Any Undefined ].
Definition RefreshTokenDto : list field := [ mkField "refreshToken" [IsJWT] Any Undefined ].
Definition UpdateUserRoleDto : list field := [ mkField "role" [IsEnum roles] Any Undefined ].
Definition CreateMenuItemDto : list field := [
  mkField "name" [IsString; Length 2 160] Any Undefined;
  mkField "price" [IsNumber 2; Min (decimal 1 (-2))] Any Undefined ].
Definition CreateRestaurantDto : list field := [
  mkField "name" [IsString; Length 2 160] Any Undefined;
  mkField "menuItems" [IsArray; ArrayMinSize 1; ArrayMaxSize 100; ValidateNested]
    (Items CreateMenuItemDto) Undefined ].
Definition CreateOrderItemDto : list field := [
  mkField "menuItemId" [IsUUID] Any Undefined;
  mkField "quantity" [IsInt; Min (of_Z 1); Max (of_Z 50)] Any Undefined ].
Definition CreateOrderDto : list field := [
  mkField "restaurantId" [IsUUID] Any Undefined;
  mkField "items" [IsArray; ArrayMinSize 1; ArrayMaxSize 50; ValidateNested]
    (Items CreateOrderItemDto) Undefined ].
Definition UpdateOrderStatusDto : list field := [
  mkField "status" [IsEnum statuses] Any Undefined;
  mkField "version" [IsInt; Min (of_Z 1)] Any Undefined ].
Definition ListOrdersQueryDto : list field := [
  mkField "page" [IsOptional; IsInt; Min (of_Z 1)] AsNumber (Num (of_Z 1));
  mkField "limit" [IsOptional; IsInt; Min (of_Z 1); Max (of_Z 100)] AsNumber (Num (of_Z 20));
  mkField "status" [IsOptional; IsEnum statuses] Any Undefined;
  mkField "restaurantId" [IsOptional; IsUUID] Any Undefined;
  mkField "createdFrom" [IsOptional; IsDateString] Any Undefined;
  mkField "createdTo" [IsOptional; IsDateString] Any Undefined ].
Definition CompletePaymentDto : list field := [
  mkField "providerReference" [IsOptional; IsString; MaxLength 160] Any Undefined ].

End classes.
End Classes.

(** ** The pipe *)

Record ValidationPipeOptions := mkValidationPipeOptions {
  whitelist : bool; forbidNonWhitelisted : bool; transform : bool;
  enableImplicitConversion : bool }.

(** [app.useGlobalPipes(new ValidationPipe({ ... }))]. *)
Definition globalPipe : ValidationPipeOptions := mkValidationPipeOptions true true true false.

(** [validate] is what class-validator says of an instance, with [whitelist] and
    [forbidNonWhitelisted]: its messages. *)
Class ValidationLibrary := {
  ValidationPipe_transform : ValidationPipeOptions -> list field -> object -> result object;
  plainToInstance : bool -> list field -> object -> object;   (* implicit conversion *)
  validate : bool -> bool -> list field -> object -> list string;
  accepts : decorator -> value -> bool;
}.

(** [undefined] or [null], which [@IsOptional()] lets pass. *)
Definition absent (v : value) : bool :=
  match v with Undefined | Null => true | _ => false end.
Definition optional (f : field) : bool :=
  existsb (fun d => match d with IsOptional => true | _ => false end) (f_decorators f).
Definition items_of (f : field) : option (list field) :=
  match f_type f with Items C => Some C | _ => None end.

Section pipe.
Context `{ValidationLibrary}.

(** BadRequestException, as the pipe constructs it. *)
Definition refusal (messages : list string) : exn :=
  HttpException 400 (ResponseObject (Some (JArr (map JStr messages)))
    [("error", JStr "Bad Request"); ("statusCode", JNum 400)])%string.

(** A decorator other than those for the whole property. *)
Definition rule_ok (v : value) (d : decorator) : bool :=
  match d with IsOptional | ValidateNested => true | _ => accepts d v end.

(** What [@ValidateNested()] makes of a value: an object is validated by the rules of the class,
    the elements of a list one by one, and what is missing is let pass. *)
Fixpoint nested_ok (C : list field) (v : value) : bool :=
  match v with
  | Undefined | Null => true
  | Obj o => bool_decide (validate true true C o = [])
  | Arr l => forallb (nested_ok C) l
  | Boolean _ | Num _ | Str _ => false
  end.

(** A property is in order: it may be missing, or meets every rule, its items too. *)
Definition field_ok (f : field) (v : value) : Prop :=
  (optional f = true /\ absent v = true) \/
  (forallb (rule_ok v) (f_decorators f) = true /\
   (ValidateNested ∈ f_decorators f -> forall C, items_of f = Some C -> nested_ok C v = true)).

(** What becomes of an element of a list with a type, and of a property. *)
Definition element (C : list field) (given got : value) : Prop :=
  match given with
  | Obj o => got = Obj (plainToInstance false C o)
  | Arr _ => exists l, got = Arr l
  | _ => got = given
  end.
Definition converted (f : field) (given got : value) : Prop :=
  match given, f_type f with
  | Undefined, _ => got = f_initial f
  | _, Any => got = given
  | Str s, AsNumber => got = Num (Number s)
  | Arr _, AsNumber => exists l, got = Arr l
  | _, AsNumber => True
  | Arr l, Items C => exists l', got = Arr l' /\ Forall2 (element C) l l'
  | _, Items _ => forall l, got <> Arr l
  end.

End pipe.

(** As the libraries document and do it; without [transform], the pipe hands on the body itself. *)
Class ValidationLibraryLaws (L : ValidationLibrary) : Prop := {
  pipe_answers : forall o metatype body,
    let entity := plainToInstance (enableImplicitConversion o) metatype body in
    ValidationPipe_transform o metatype body =
      match validate (whitelist o) (forbidNonWhitelisted o) metatype entity with
      | [] => Ok (if transform o then entity else body)
      | messages => Err (refusal messages)
      end;
  instance_get : forall fields o f, f ∈ fields -> NoDup (map f_name fields) ->
    converted f (get (f_name f) o) (get (f_name f) (plainToInstance false fields o));
  instance_others : forall fields o k, k ∉ map f_name fields ->
    (k ∈ keys (plainToInstance false fields o) <-> k ∈ keys o);
  validate_nothing : forall fields o,
    validate true true fields o = [] <->
    (forall k, k ∈ keys o -> k ∈ map f_name fields) /\
    forall f, f ∈ fields -> field_ok f (get (f_name f) o);
  accepts_IsString : forall v,
    accepts IsString v = match v with Str _ => true | _ => false end;
  accepts_text : forall d v, d ∈ [IsEmail; IsJWT; IsUUID; IsDateString] ->
    accepts d v = true -> exists s, v = Str s;
  accepts_Length : forall a b s,
    accepts (Length a b) (Str s) = bool_decide (a <= String.length s <= b)%nat;
  accepts_MinLength : forall n s,
    accepts (MinLength n) (Str s) = bool_decide (n <= String.length s)%nat;
  accepts_MaxLength : forall n s,
    accepts (MaxLength n) (Str s) = bool_decide (String.length s <= n)%nat;
  accepts_IsInt : forall v, accepts IsInt v = true <-> exists n, v = Num (Finite (n * one));
  accepts_IsNumber : forall p v, accepts (IsNumber p) v = true ->
    exists n z, v = Num (Finite z) /\ decimal n (- Z.of_nat p) = Finite z;
  accepts_decimal : forall p n z, (p <= 6)%nat -> 0 <= n <= 10 ^ 15 ->
    decimal n (- Z.of_nat p) = Finite z -> accepts (IsNumber p) (Num (Finite z)) = true;
  accepts_Min : forall m x, accepts (Min m) (Num x) = leb m x;
  accepts_Max : forall m x, accepts (Max m) (Num x) = leb x m;
  accepts_IsEnum : forall l v,
    accepts (IsEnum l) v = match v with Str s => bool_decide (s ∈ l) | _ => false end;
  accepts_IsArray : forall v, accepts IsArray v = match v with Arr _ => true | _ => false end;
  accepts_ArrayMinSize : forall n l,
    accepts (ArrayMinSize n) (Arr l) = bool_decide (n <= length l)%nat;
  accepts_ArrayMaxSize : forall n l,
    accepts (ArrayMaxSize n) (Arr l) = bool_decide (length l <= n)%nat;
}.
