(* ===== verification/ValidationSpec.v ===== *)
(** * What the services are given

    Behind the validation pipe (Validation.v) a handler gets an instance that stands for a
    request of the model, with the numbers, sizes and names the services count on, or for one
    whose list of items has a gap, since null and lists pass for items; every other body is
    answered with a 400. That every such request can be sent is in ValidationWritten.v. *)
From S2P Require Import Prelude JsStrings Errors Effects JsNumbers Prisma Schema Orders.
From S2P Require Import Payments Auth Restaurants Validation.
#[local] Open Scope Z_scope.
#[local] Opaque of_Z decimal one.

(** ** Requests *)

Inductive dto_class :=
| RegisterClass | LoginClass | RefreshClass | RoleClass | RestaurantClass | OrderClass
| StatusClass | OrderListClass | PaymentClass.
Definition fields_of (c : dto_class) : list field :=
  match c with
  | RegisterClass => Classes.RegisterDto | LoginClass => Classes.LoginDto
  | RefreshClass => Classes.RefreshTokenDto | RoleClass => Classes.UpdateUserRoleDto
  | RestaurantClass => Classes.CreateRestaurantDto | OrderClass => Classes.CreateOrderDto
  | StatusClass => Classes.UpdateOrderStatusDto | OrderListClass => Classes.ListOrdersQueryDto
  | PaymentClass => Classes.CompletePaymentDto
  end.

(** A request, as the services take it. *)
Inductive dto : dto_class -> Type :=
| Register (d : RegisterDto) : dto RegisterClass
| Login (d : LoginDto) : dto LoginClass
| Refresh (token : string) : dto RefreshClass
| UpdateRole (r : Role) : dto RoleClass
| NewRestaurant (d : CreateRestaurantDto) : dto RestaurantClass
| NewOrder (d : CreateOrderDto) : dto OrderClass
| UpdateStatus (d : UpdateOrderStatusDto) : dto StatusClass
| ListOrders (q : ListOrdersQueryDto) : dto OrderListClass
| Complete (d : CompletePaymentDto) : dto PaymentClass.

Definition LoginDto_valid (d : LoginDto) : bool :=
  varchar 320 (ld_email d) && varchar 128 (ld_password d).
Definition CreateMenuItemDto_valid (i : CreateMenuItemDto) : bool :=
  bool_decide (2 <= String.length (cm_name i) <= 160)%nat && (1 <=? cm_price i).
Definition CreateRestaurantDto_valid (d : CreateRestaurantDto) : bool :=
  bool_decide (2 <= String.length (cr_name d) <= 160)%nat &&
  bool_decide (1 <= length (cr_menuItems d) <= 100)%nat &&
  forallb CreateMenuItemDto_valid (cr_menuItems d).

Definition dto_valid {c} (d : dto c) : bool :=
  match d with
  | Register d => RegisterDto_valid d
  | Login d => LoginDto_valid d
  | Refresh _ | UpdateRole _ => true
  | NewRestaurant d => CreateRestaurantDto_valid d
  | NewOrder d => CreateOrderDto_valid d
  | UpdateStatus d => UpdateOrderStatusDto_valid d
  | ListOrders q => ListOrdersQueryDto_valid q
  | Complete d => CompletePaymentDto_valid d
  end.

(** ** What an instance stands for *)

Definition integer (n : Z) : value := Num (Finite (n * one)).
Definition may_be (s : option string) (v : value) : Prop :=
  match s with Some s => v = Str s | None => absent v = true end.
Definition item_is (i : CreateOrderItemDto) (v : value) : Prop :=
  exists o, v = Obj o /\ get "menuItemId" o = Str (ci_menuItemId i) /\
    get "quantity" o = integer (ci_quantity i).
Definition dish_is (i : CreateMenuItemDto) (v : value) : Prop :=
  exists o z, v = Obj o /\ get "name" o = Str (cm_name i) /\ get "price" o = Num (Finite z) /\
    decimal (cm_price i) (-2) = Finite z.

Definition stands_for {c} (o : object) (d : dto c) : Prop :=
  match d with
  | Register d => get "email" o = Str (rd_email d) /\ get "password" o = Str (rd_password d) /\
      get "displayName" o = Str (rd_displayName d)
  | Login d => get "email" o = Str (ld_email d) /\ get "password" o = Str (ld_password d)
  | Refresh token => get "refreshToken" o = Str token
  | UpdateRole r => get "role" o = Str (Role_name r)
  | NewRestaurant d => get "name" o = Str (cr_name d) /\
      exists l, get "menuItems" o = Arr l /\ Forall2 dish_is (cr_menuItems d) l
  | NewOrder d => get "restaurantId" o = Str (co_restaurantId d) /\
      exists l, get "items" o = Arr l /\ Forall2 item_is (co_items d) l
  | UpdateStatus d => get "status" o = Str (OrderStatus_name (us_status d)) /\
      get "version" o = integer (us_version d)
  | ListOrders q => get "page" o = integer (q_page q) /\ get "limit" o = integer (q_limit q) /\
      may_be (OrderStatus_name <$> q_status q) (get "status" o) /\
      may_be (q_restaurantId q) (get "restaurantId" o) /\
      may_be (q_createdFrom q) (get "createdFrom" o) /\
      may_be (q_createdTo q) (get "createdTo" o)
  | Complete d => may_be (cp_providerReference d) (get "providerReference" o)
  end.

(** What the rules let pass besides: where an item of a list belongs, nothing, or a list. *)
Inductive entry (A : Type) := Item (a : A) | Nothing | Inner.
Arguments Item {A} a.
Arguments Nothing {A}.
Arguments Inner {A}.

Definition entry_is {A : Type} (R : A -> value -> Prop) (e : entry A) (v : value) : Prop :=
  match e with Item a => R a v | Nothing => absent v = true | Inner => exists l, v = Arr l end.
Definition is_gap {A : Type} (e : entry A) : bool := match e with Item _ => false | _ => true end.
Definition entry_valid {A : Type} (valid : A -> bool) (e : entry A) : bool :=
  match e with Item a => valid a | _ => true end.

(** A request whose list has a gap. *)
Inductive gappy : dto_class -> Type :=
| GappyRestaurant (name : string) (menuItems : list (entry CreateMenuItemDto)) : gappy RestaurantClass
| GappyOrder (restaurantId : string) (items : list (entry CreateOrderItemDto)) : gappy OrderClass.

Definition stands_gappy {c} (o : object) (g : gappy c) : Prop :=
  match g with
  | GappyRestaurant name menuItems => get "name" o = Str name /\
      exists l, get "menuItems" o = Arr l /\ Forall2 (entry_is dish_is) menuItems l
  | GappyOrder restaurantId items => get "restaurantId" o = Str restaurantId /\
      exists l, get "items" o = Arr l /\ Forall2 (entry_is item_is) items l
  end.
Definition gappy_valid {c} (g : gappy c) : bool :=
  match g with
  | GappyRestaurant name menuItems =>
      bool_decide (2 <= String.length name <= 160)%nat &&
      bool_decide (1 <= length menuItems <= 100)%nat &&
      forallb (entry_valid CreateMenuItemDto_valid) menuItems && existsb is_gap menuItems
  | GappyOrder _ items =>
      bool_decide (1 <= length items <= 50)%nat &&
      forallb (entry_valid CreateOrderItemDto_valid) items && existsb is_gap items
  end.

(** What reaches the pipe: a body is any JSON object, a query is text. *)
Definition input (c : dto_class) : Type :=
  match c with OrderListClass => query | _ => object end.
Definition as_object {c : dto_class} : input c -> object :=
  match c return input c -> object with OrderListClass => query_object | _ => fun o => o end.

(** ** Numbers *)

Lemma at_least m n : 0 <= m <= 2 ^ 53 -> leb (of_Z m) (Finite (n * one)) = true <-> m <= n.
Proof.
  intros Hm. pose proof one_pos. rewrite of_Z_exact, leb_Finite, Z.leb_le by done. nia.
Qed.
Lemma at_most m n : 0 <= m <= 2 ^ 53 -> leb (Finite (n * one)) (of_Z m) = true <-> n <= m.
Proof.
  intros Hm. pose proof one_pos. rewrite of_Z_exact, leb_Finite, Z.leb_le by done. nia.
Qed.

(** A cent is not nothing, and no more than any other price. *)
Lemma at_least_a_cent n z :
  decimal n (-2) = Finite z -> leb (decimal 1 (-2)) (Finite z) = true <-> 1 <= n.
Proof.
  Transparent decimal. pose proof one_pos as H1. unfold decimal, round. change (0 <=? -2) with false. cbv iota.
  change (10 ^ (- (-2))) with 100. set (c := round_nonneg (Z.abs (1 * one)) 100).
  assert (Hc : 1 <= c).
  { apply round_positive; [done|]. Transparent one. unfold one. lia. }
  Opaque one decimal.
  assert (Hlt : c < too_large).
  { pose proof (round_mono (Z.abs (1 * one)) (one * 100) 100 ltac:(done) ltac:(lia) ltac:(lia)) as Hm.
    rewrite round_exact in Hm; [|done|lia|].
    - pose proof (integer_in_range 1 ltac:(lia)). fold c in Hm. lia.
    - replace one with (1 * one) by lia. by apply representable_integer. }
  rewrite (proj2 (Z.leb_gt too_large c)) by done. rewrite (Z.sgn_pos (1 * one)) by lia.
  destruct (too_large <=? round_nonneg (Z.abs (n * one)) 100); [done|]. intros [= <-]. rewrite leb_Finite, Z.leb_le.
  split.
  - intros Hle. destruct (Z.le_gt_cases 1 n) as [|Hn]; [done|exfalso].
    pose proof (round_nonneg_nonneg (Z.abs (n * one)) 100 ltac:(done) ltac:(lia)).
    assert (Z.sgn (n * one) <= 0) by (apply Z.sgn_nonpos; nia). nia.
  - intros Hn. rewrite Z.sgn_pos by nia.
    pose proof (round_mono (Z.abs (1 * one)) (Z.abs (n * one)) 100 ltac:(done) ltac:(lia) ltac:(nia)).
    fold c in H. lia.
Qed.

(** ** Instances *)

Section validation.
Context {V : ValidationLibrary} {VL : ValidationLibraryLaws V}.
Implicit Types (o : object) (C : list field) (f : field) (v : value).

Definition instance_of C o : object := plainToInstance false C o.

(** A class whose names differ. *)
Definition sound_class C : Prop := NoDup (map f_name C).

(** An instance is in order when nothing is undeclared and every property is in order. *)
Lemma instance_valid C o :
  validate true true C (instance_of C o) = [] <->
  (forall k, k ∈ keys o -> k ∈ map f_name C) /\
  forall f, f ∈ C -> field_ok f (get (f_name f) (instance_of C o)).
Proof.
  rewrite validate_nothing.
  f_equiv. split; intros Hk k Hin.
  - destruct (decide (k ∈ map f_name C)) as [|Hno]; [done|]. apply Hk.
    by apply (instance_others C o k Hno).
  - destruct (decide (k ∈ map f_name C)) as [|Hno]; [done|]. apply Hk.
    by apply (instance_others C o k Hno) in Hin.
Qed.

Lemma transform_Ok C o inst :
  ValidationPipe_transform globalPipe C o = Ok inst <->
  inst = instance_of C o /\ (forall k, k ∈ keys o -> k ∈ map f_name C) /\
  forall f, f ∈ C -> field_ok f (get (f_name f) (instance_of C o)).
Proof.
  rewrite <-instance_valid by done. rewrite pipe_answers. simpl.
  unfold instance_of. destruct (validate _ _ _ _) as [|m ms]; split; intros; destruct_and?; simplify_eq; done.
Qed.

Lemma transform_Err C o e :
  ValidationPipe_transform globalPipe C o = Err e -> exists m ms, e = refusal (m :: ms).
Proof.
  rewrite pipe_answers. simpl. destruct (validate _ _ _ _) as [|m ms]; [done|].
  intros [= <-]. eauto.
Qed.

Lemma sound_fields c : sound_class (fields_of c).
Proof. by destruct c; apply (bool_decide_unpack _). Qed.
Lemma sound_item : sound_class Classes.CreateOrderItemDto.
Proof. by apply (bool_decide_unpack _). Qed.
Lemma sound_dish : sound_class Classes.CreateMenuItemDto.
Proof. by apply (bool_decide_unpack _). Qed.

(** ** Rules *)

Lemma plain_ok name ds t i v :
  optional (mkField name ds t i) = false -> ValidateNested ∉ ds ->
  field_ok (mkField name ds t i) v <-> forallb (rule_ok v) ds = true.
Proof.
  intros Ho Hn. unfold field_ok. rewrite Ho. simpl. split; [by intros [[? _]|[? _]]|].
  intros ?. right. by split.
Qed.
Lemma optional_ok name ds t i v :
  optional (mkField name ds t i) = true -> ValidateNested ∉ ds ->
  field_ok (mkField name ds t i) v <-> absent v = true \/ forallb (rule_ok v) ds = true.
Proof. intros Ho Hn. unfold field_ok. rewrite Ho. simpl. naive_solver. Qed.

Lemma is_text d v :
  d ∈ [IsString; IsEmail; IsJWT; IsUUID; IsDateString] -> accepts d v = true -> exists s, v = Str s.
Proof.
  intros [->|Hd]%elem_of_cons; [|by apply accepts_text].
  rewrite accepts_IsString. destruct v; try done. eauto.
Qed.

(** A property that is text: its other rules are about that text. *)
Lemma text_ok d ds v :
  d ∈ [IsString; IsEmail; IsJWT; IsUUID; IsDateString] -> forallb (rule_ok v) (d :: ds) = true ->
  exists s, v = Str s /\ forallb (rule_ok (Str s)) ds = true.
Proof.
  intros Hd [H Hds]%andb_true_iff.
  assert (Ha : accepts d v = true).
  { clear Hds. repeat (apply elem_of_cons in Hd as [->|Hd]; [done|]). by apply not_elem_of_nil in Hd. }
  apply is_text in Ha as [s ->]; [|done]. eauto.
Qed.
Lemma whole_ok ds v :
  forallb (rule_ok v) (IsInt :: ds) = true ->
  exists n, v = integer n /\ forallb (rule_ok (integer n)) ds = true.
Proof. intros [[n ->]%accepts_IsInt Hds]%andb_true_iff. by exists n. Qed.
Lemma enum_ok (names : list string) v :
  forallb (rule_ok v) [IsEnum names] = true <-> exists s, v = Str s /\ s ∈ names.
Proof.
  simpl. rewrite andb_true_r, accepts_IsEnum. destruct v; split; try (by intros (? & ? & _)); try done.
  - rewrite bool_decide_eq_true. eauto.
  - intros (s' & [= <-] & ?). by rewrite bool_decide_eq_true.
Qed.
Lemma status_ok s : s ∈ Classes.statuses <-> exists st, s = OrderStatus_name st.
Proof.
  unfold Classes.statuses. rewrite list_elem_of_fmap. split; [intros (st & -> & _); eauto|].
  intros [st ->]. exists st. split; [done|]. destruct st; set_solver.
Qed.
Lemma role_ok s : s ∈ Classes.roles <-> exists r, s = Role_name r.
Proof.
  unfold Classes.roles. rewrite list_elem_of_fmap. split; [intros (r & -> & _); eauto|].
  intros [r ->]. exists r. split; [done|]. destruct r; set_solver.
Qed.

Lemma Length_ok a b s : rule_ok (Str s) (Length a b) = bool_decide (a <= String.length s <= b)%nat.
Proof. apply accepts_Length. Qed.
Lemma MinLength_ok n s : rule_ok (Str s) (MinLength n) = bool_decide (n <= String.length s)%nat.
Proof. apply accepts_MinLength. Qed.
Lemma MaxLength_ok n s : rule_ok (Str s) (MaxLength n) = bool_decide (String.length s <= n)%nat.
Proof. apply accepts_MaxLength. Qed.
Lemma Min_ok m n : 0 <= m <= 2 ^ 53 -> rule_ok (integer n) (Min (of_Z m)) = (m <=? n).
Proof.
  intros Hm. apply eq_bool_prop_intro. rewrite !Is_true_true. unfold rule_ok, integer.
  rewrite accepts_Min, at_least, Z.leb_le by done. done.
Qed.
Lemma Max_ok m n : 0 <= m <= 2 ^ 53 -> rule_ok (integer n) (Max (of_Z m)) = (n <=? m).
Proof.
  intros Hm. apply eq_bool_prop_intro. rewrite !Is_true_true. unfold rule_ok, integer.
  rewrite accepts_Max, at_most, Z.leb_le by done. done.
Qed.

(** ** An instance in order stands for a valid request *)

Definition in_order C o : Prop := Forall (fun f => field_ok f (get (f_name f) o)) C.

(** A property that must be given is text, or an integer, with these other rules. *)
Ltac text_in H s E :=
  apply plain_ok in H; [|done|set_solver]; apply text_ok in H as (s & E & H); [|set_solver];
  cbn [forallb] in H;
  rewrite ?Length_ok, ?MinLength_ok, ?MaxLength_ok, ?andb_true_iff, ?bool_decide_eq_true in H.
Ltac integer_in H n E :=
  apply plain_ok in H; [|done|set_solver]; apply whole_ok in H as (n & E & H);
  cbn [forallb] in H; rewrite ?Min_ok, ?Max_ok, ?andb_true_iff, ?Z.leb_le in H by lia.
(** The conditions on the properties of a class, one by one. *)
Ltac properties H C :=
  unfold in_order, C in H; rewrite ?Forall_cons, Forall_nil in H; cbn [f_name] in H.
Ltac valid_by C :=
  unfold C, varchar; simpl; rewrite ?andb_true_iff, ?bool_decide_eq_true, ?Z.leb_le; lia.

Lemma reads_register o :
  in_order Classes.RegisterDto o ->
  exists d, stands_for o (Register d) /\ RegisterDto_valid d = true.
Proof.
  intros H. properties H Classes.RegisterDto. destruct H as (H1 & H2 & H3 & _).
  text_in H1 email E1. text_in H2 pass E2. text_in H3 disp E3.
  exists (mkRegisterDto email pass disp). split; [done|]. valid_by RegisterDto_valid.
Qed.

Lemma reads_login o :
  in_order Classes.LoginDto o -> exists d, stands_for o (Login d) /\ LoginDto_valid d = true.
Proof.
  intros H. properties H Classes.LoginDto. destruct H as (H1 & H2 & _).
  text_in H1 email E1. text_in H2 pass E2.
  exists (mkLoginDto email pass). split; [done|]. valid_by LoginDto_valid.
Qed.

Lemma reads_refresh o :
  in_order Classes.RefreshTokenDto o -> exists token, stands_for o (Refresh token).
Proof.
  intros H. properties H Classes.RefreshTokenDto. destruct H as (H1 & _).
  text_in H1 token E1. by exists token.
Qed.

Lemma reads_role o :
  in_order Classes.UpdateUserRoleDto o -> exists r, stands_for o (UpdateRole r).
Proof.
  intros H. properties H Classes.UpdateUserRoleDto. destruct H as (H1 & _).
  apply plain_ok in H1; [|done|set_solver].
  apply enum_ok in H1 as (s & E & [r ->]%role_ok). by exists r.
Qed.

Lemma reads_status o :
  in_order Classes.UpdateOrderStatusDto o ->
  exists d, stands_for o (UpdateStatus d) /\ UpdateOrderStatusDto_valid d = true.
Proof.
  intros H. properties H Classes.UpdateOrderStatusDto. destruct H as (H1 & H2 & _).
  apply plain_ok in H1; [|done|set_solver]. apply enum_ok in H1 as (s & E & [st ->]%status_ok).
  integer_in H2 n E2. exists (mkUpdateOrderStatusDto st n). split; [done|].
  valid_by UpdateOrderStatusDto_valid.
Qed.

Lemma reads_payment o :
  in_order Classes.CompletePaymentDto o ->
  exists d, stands_for o (Complete d) /\ CompletePaymentDto_valid d = true.
Proof.
  intros H. properties H Classes.CompletePaymentDto. destruct H as (H1 & _).
  apply optional_ok in H1; [|done|set_solver].
  destruct H1 as [Ha|H1]; [by exists (mkCompletePaymentDto None)|].
  cbn [forallb rule_ok andb] in H1. apply (text_ok IsString [MaxLength 160]) in H1 as (s & E & H1); [|set_solver].
  exists (mkCompletePaymentDto (Some s)). split; [done|].
  simpl in H1. rewrite accepts_MaxLength, andb_true_r, bool_decide_eq_true in H1.
  unfold CompletePaymentDto_valid, varchar_opt. valid_by varchar.
Qed.

(** *** Lists of items *)

Definition list_field (name : string) (a b : nat) C : field :=
  mkField name [IsArray; ArrayMinSize a; ArrayMaxSize b; ValidateNested] (Items C) Undefined.

Lemma list_ok name a b C v :
  field_ok (list_field name a b C) v ->
  exists l, v = Arr l /\ (a <= length l <= b)%nat /\ Forall (fun v => nested_ok C v = true) l.
Proof.
  intros [[? _]|[H Hnested]]; [done|]. cbn [f_decorators list_field forallb rule_ok] in H.
  rewrite accepts_IsArray in H. destruct v as [| | | | |l|]; try done.
  rewrite accepts_ArrayMinSize, accepts_ArrayMaxSize, !andb_true_iff, !bool_decide_eq_true in H.
  exists l. split; [done|]. split; [lia|]. apply Forall_forall. intros v Hv.
  specialize (Hnested ltac:(set_solver) C eq_refl). cbn [nested_ok] in Hnested.
  rewrite forallb_forall in Hnested. by apply Hnested, list_elem_of_In.
Qed.

(** The elements: each stands for an item, or is a gap. *)
Lemma entries_stand {A : Type} (R : A -> value -> Prop) (valid : A -> bool) C l :
  (forall o', in_order C o' -> exists i, R i (Obj o') /\ valid i = true) ->
  Forall (fun v => nested_ok C v = true) l ->
  exists es, Forall2 (entry_is R) es l /\ forallb (entry_valid valid) es = true /\
    length es = length l.
Proof.
  intros Hreads. induction 1 as [|v l Hv _ (es & Hi & Hes & Hlen)]; [by exists []|].
  assert (He : exists e, entry_is R e v /\ entry_valid valid e = true).
  { destruct v as [| | | | |l'|o']; try done; [by exists Nothing..|by exists Inner; split; [exists l'|]|].
    cbn [nested_ok] in Hv. apply bool_decide_eq_true in Hv.
    destruct (Hreads o') as (i & ? & ?); [|by exists (Item i)].
    unfold in_order. rewrite Forall_forall. by apply validate_nothing in Hv as [_ Hv]. }
  destruct He as (e & He & Hev). exists (e :: es).
  split_and!; [by constructor|by apply andb_true_iff|by simpl; f_equal].
Qed.

(** Without a gap they are items. *)
Lemma no_gap_items {A : Type} (R : A -> value -> Prop) (valid : A -> bool) es l :
  existsb is_gap es = false -> Forall2 (entry_is R) es l -> forallb (entry_valid valid) es = true ->
  exists items, Forall2 R items l /\ forallb valid items = true /\ length items = length es.
Proof.
  intros Hg H. induction H as [|e v es l He _ IH]; intros Hv; [by exists []|].
  simpl in Hg, Hv. apply orb_false_iff in Hg as [Hge Hg]. apply andb_true_iff in Hv as [Hve Hv].
  destruct e as [i| |]; try done. destruct (IH Hg Hv) as (items & ? & ? & Hlen).
  exists (i :: items). split_and!; [by constructor|by apply andb_true_iff|by simpl; f_equal].
Qed.

Lemma reads_item o :
  in_order Classes.CreateOrderItemDto o ->
  exists i, item_is i (Obj o) /\ CreateOrderItemDto_valid i = true.
Proof.
  intros H. properties H Classes.CreateOrderItemDto. destruct H as (H1 & H2 & _).
  text_in H1 key E1. integer_in H2 n E2. exists (mkCreateOrderItemDto key n).
  split; [by exists o|]. valid_by CreateOrderItemDto_valid.
Qed.

Lemma reads_dish o :
  in_order Classes.CreateMenuItemDto o ->
  exists i, dish_is i (Obj o) /\ CreateMenuItemDto_valid i = true.
Proof.
  intros H. properties H Classes.CreateMenuItemDto. destruct H as (H1 & H2 & _).
  text_in H1 name E1. apply plain_ok in H2; [|done|set_solver].
  cbn [forallb rule_ok] in H2. rewrite andb_true_r, andb_true_iff in H2.
  destruct H2 as [(n & z & E2 & Hn)%accepts_IsNumber H2]. rewrite E2, accepts_Min in H2.
  apply (at_least_a_cent n z Hn) in H2. exists (mkCreateMenuItemDto name n).
  split; [by exists o, z|].
  valid_by CreateMenuItemDto_valid.
Qed.

Lemma reads_order o :
  in_order Classes.CreateOrderDto o ->
  (exists d, stands_for o (NewOrder d) /\ CreateOrderDto_valid d = true) \/
  exists g : gappy OrderClass, stands_gappy o g /\ gappy_valid g = true.
Proof.
  intros H. properties H Classes.CreateOrderDto. destruct H as (H1 & H2 & _).
  text_in H1 key E1. apply (list_ok "items" 1 50) in H2 as (l & E2 & Hl & Hall).
  destruct (entries_stand _ _ _ _ reads_item Hall) as (es & Hes & Hv & Hlen).
  destruct (existsb is_gap es) eqn:Hg; [right|left].
  - exists (GappyOrder key es). split; [split; [done|by exists l]|].
    cbn [gappy_valid]. by rewrite Hv, Hg, Hlen, bool_decide_eq_true_2.
  - destruct (no_gap_items _ _ _ _ Hg Hes Hv) as (items & Hi & Hvi & Hleni).
    exists (mkCreateOrderDto key items). split; [split; [done|by exists l]|].
    unfold CreateOrderDto_valid. simpl. rewrite Hvi, Hleni, Hlen, bool_decide_eq_true_2; [done|lia].
Qed.

Lemma reads_restaurant o :
  in_order Classes.CreateRestaurantDto o ->
  (exists d, stands_for o (NewRestaurant d) /\ CreateRestaurantDto_valid d = true) \/
  exists g : gappy RestaurantClass, stands_gappy o g /\ gappy_valid g = true.
Proof.
  intros H. properties H Classes.CreateRestaurantDto. destruct H as (H1 & H2 & _).
  text_in H1 name E1. apply (list_ok "menuItems" 1 100) in H2 as (l & E2 & Hl & Hall).
  destruct (entries_stand _ _ _ _ reads_dish Hall) as (es & Hes & Hv & Hlen).
  destruct (existsb is_gap es) eqn:Hg; [right|left].
  - exists (GappyRestaurant name es). split; [split; [done|by exists l]|].
    cbn [gappy_valid]. rewrite Hv, Hg, Hlen, !bool_decide_eq_true_2; [done|lia..].
  - destruct (no_gap_items _ _ _ _ Hg Hes Hv) as (items & Hi & Hvi & Hleni).
    exists (mkCreateRestaurantDto name items). split; [split; [done|by exists l]|].
    unfold CreateRestaurantDto_valid. simpl. rewrite Hvi, Hleni, Hlen, !bool_decide_eq_true_2; [done|lia..].
Qed.

(** *** A query *)

Lemma reads_optional name ds v d :
  d ∈ [IsString; IsEmail; IsJWT; IsUUID; IsDateString] -> ValidateNested ∉ d :: ds ->
  field_ok (mkField name (IsOptional :: d :: ds) Any Undefined) v -> exists s, may_be s v.
Proof.
  intros Hd Hn H. apply optional_ok in H; [|done|set_solver].
  destruct H as [Ha|H]; [by exists None|].
  cbn [forallb rule_ok] in H. apply (text_ok d ds) in H as (s & -> & _); [|done]. by exists (Some s).
Qed.

Lemma reads_list o :
  absent (get "page" o) = false -> absent (get "limit" o) = false ->
  in_order Classes.ListOrdersQueryDto o ->
  exists q, stands_for o (ListOrders q) /\ ListOrdersQueryDto_valid q = true.
Proof.
  intros Hp Hl H. properties H Classes.ListOrdersQueryDto.
  destruct H as (H1 & H2 & H3 & H4 & H5 & H6 & _).
  apply optional_ok in H1 as [H1|H1]; [congruence| |done|set_solver].
  apply optional_ok in H2 as [H2|H2]; [congruence| |done|set_solver].
  apply (whole_ok [Min (of_Z 1)]) in H1 as (page & E1 & H1).
  apply (whole_ok [Min (of_Z 1); Max (of_Z 100)]) in H2 as (limit & E2 & H2).
  cbn [forallb] in H1, H2. rewrite Min_ok, andb_true_iff, Z.leb_le in H1 by lia.
  rewrite Min_ok, Max_ok, !andb_true_iff, !Z.leb_le in H2 by lia.
  apply reads_optional in H4 as [r H4]; [|set_solver..].
  apply reads_optional in H5 as [from H5]; [|set_solver..].
  apply reads_optional in H6 as [to H6]; [|set_solver..].
  assert (Hs : exists st, may_be (OrderStatus_name <$> st) (get "status" o)).
  { apply optional_ok in H3 as [H3|H3]; [by exists None| |done|set_solver].
    apply (enum_ok Classes.statuses) in H3 as (s & E3 & [st ->]%status_ok). by exists (Some st). }
  destruct Hs as [st Hs]. exists (mkListOrdersQueryDto page limit st r from to).
  split; [done|]. valid_by ListOrdersQueryDto_valid.
Qed.

(** ** The gate *)

(** A number of a query, which is text or has a default. *)
Lemma queried_number (q : query) name ds n :
  mkField name ds AsNumber (Num n) ∈ Classes.ListOrdersQueryDto ->
  absent (get name (instance_of Classes.ListOrdersQueryDto (query_object q))) = false.
Proof.
  intros Hf. pose proof (instance_get _ (query_object q) _ Hf (sound_fields OrderListClass)) as Hg.
  cbn [f_name] in Hg. unfold converted in Hg. cbn [f_type f_initial] in Hg. unfold instance_of.
  unfold get at 1 in Hg.
  destruct (List.find _ (query_object q)) as [[k v]|] eqn:Hv; [|by rewrite Hg].
  apply List.find_some in Hv as [([k' [s|l]] & [= <- <-] & _)%in_map_iff _]; simpl in Hg.
  - by rewrite Hg.
  - by destruct Hg as [l' ->].
Qed.

(** What passes the pipe is an instance of a request that meets the rules, or has a gap. *)
Lemma pipe_stands c (i : input c) inst :
  ValidationPipe_transform globalPipe (fields_of c) (as_object i) = Ok inst ->
  (forall k, k ∈ keys (as_object i) -> k ∈ map f_name (fields_of c)) /\
  ((exists d : dto c, stands_for inst d /\ dto_valid d = true) \/
   exists g : gappy c, stands_gappy inst g /\ gappy_valid g = true).
Proof.
  intros (-> & Hk & Hall)%transform_Ok. split; [done|]. apply Forall_forall in Hall.
  destruct c; cbn [fields_of as_object] in *.
  - left. destruct (reads_register _ Hall) as (d & ? & ?). by exists (Register d).
  - left. destruct (reads_login _ Hall) as (d & ? & ?). by exists (Login d).
  - left. destruct (reads_refresh _ Hall) as (token & ?). by exists (Refresh token).
  - left. destruct (reads_role _ Hall) as (r & ?). by exists (UpdateRole r).
  - destruct (reads_restaurant _ Hall) as [(d & ? & ?)|?]; [left; by exists (NewRestaurant d)|by right].
  - destruct (reads_order _ Hall) as [(d & ? & ?)|?]; [left; by exists (NewOrder d)|by right].
  - left. destruct (reads_status _ Hall) as (d & ? & ?). by exists (UpdateStatus d).
  - left. destruct (reads_list (instance_of Classes.ListOrdersQueryDto (query_object i))) as (q & ? & ?);
      [..|done|by exists (ListOrders q)].
    + eapply queried_number. by apply (list_elem_of_lookup_2 _ 0).
    + eapply queried_number. by apply (list_elem_of_lookup_2 _ 1).
  - left. destruct (reads_payment _ Hall) as (d & ? & ?). by exists (Complete d).
Qed.


End validation.
