(* ===== verification/ValidationWritten.v ===== *)
(** * Every request can be sent

    A request of the model, written as a body or a query: it passes the validation pipe
    (Validation.v), and the instance the handler gets stands for it (ValidationSpec.v). And a
    price the rules let pass that the column of the prices does not hold. *)
From S2P Require Import Prelude JsStrings Errors Effects JsNumbers Prisma Schema Orders Evolution.
From S2P Require Import OrderFlow Payments Auth Restaurants Validation ValidationSpec.
#[local] Open Scope Z_scope.
#[local] Opaque of_Z decimal one.

Section validation.
Context {V : ValidationLibrary} {VL : ValidationLibraryLaws V}.
Implicit Types (o : object) (C : list field) (f : field) (v : value).

(** ** What a client sends *)

Definition text_if (name : string) (s : option string) : object :=
  match s with Some s => [(name, Str s)] | None => [] end.
Definition written_item (i : CreateOrderItemDto) : object :=
  [("menuItemId", Str (ci_menuItemId i)); ("quantity", integer (ci_quantity i))]%string.
Definition written_dish (i : CreateMenuItemDto) : object :=
  [("name", Str (cm_name i)); ("price", Num (decimal (cm_price i) (-2)))]%string.
Definition numeral (n : Z) : string := toString (Finite (n * one)).

(** The body or the query of a request. *)
Definition written {c} (d : dto c) : object :=
  match d with
  | Register d => [("email", Str (rd_email d)); ("password", Str (rd_password d));
                   ("displayName", Str (rd_displayName d))]
  | Login d => [("email", Str (ld_email d)); ("password", Str (ld_password d))]
  | Refresh token => [("refreshToken", Str token)]
  | UpdateRole r => [("role", Str (Role_name r))]
  | NewRestaurant d => [("name", Str (cr_name d));
                        ("menuItems", Arr (map (fun i => Obj (written_dish i)) (cr_menuItems d)))]
  | NewOrder d => [("restaurantId", Str (co_restaurantId d));
                   ("items", Arr (map (fun i => Obj (written_item i)) (co_items d)))]
  | UpdateStatus d => [("status", Str (OrderStatus_name (us_status d)));
                       ("version", integer (us_version d))]
  | ListOrders q =>
      ("page", Str (numeral (q_page q))) :: ("limit", Str (numeral (q_limit q))) ::
      (text_if "status" (OrderStatus_name <$> q_status q) ++
       text_if "restaurantId" (q_restaurantId q) ++
       text_if "createdFrom" (q_createdFrom q) ++ text_if "createdTo" (q_createdTo q))%list
  | Complete d => text_if "providerReference" (cp_providerReference d)
  end%string.

(** What the library has to recognise: emails, tokens, UUIDs, dates; and numbers that a double
    holds exactly enough. *)
Definition is_a (d : decorator) (s : string) : Prop := accepts d (Str s) = true.
Definition recognised {c} (d : dto c) : Prop :=
  match d with
  | Register d => is_a IsEmail (rd_email d)
  | Login d => is_a IsEmail (ld_email d)
  | Refresh token => is_a IsJWT token
  | NewRestaurant d =>
      Forall (fun i => cm_price i <= 10 ^ 15) (cr_menuItems d)
  | NewOrder d => is_a IsUUID (co_restaurantId d) /\
      Forall (fun i => is_a IsUUID (ci_menuItemId i)) (co_items d)
  | ListOrders q => q_page q <= 2 ^ 53 /\
      (forall s, q_restaurantId q = Some s -> is_a IsUUID s) /\
      (forall s, q_createdFrom q = Some s -> is_a IsDateString s) /\
      (forall s, q_createdTo q = Some s -> is_a IsDateString s)
  | UpdateRole _ | UpdateStatus _ | Complete _ => True
  end.

Lemma Number_numeral_of n : 0 <= n <= 2 ^ 53 -> Number (numeral n) = Finite (n * one).
Proof.
  intros Hn. pose proof one_pos. pose proof (integer_in_range n ltac:(lia)).
  apply Number_toString; [nia|lia|]. apply representable_integer. lia.
Qed.

(** A property that is handed on as it is. *)
Lemma kept C o f :
  f ∈ C -> NoDup (map f_name C) -> f_type f = Any -> f_initial f = Undefined ->
  get (f_name f) (instance_of C o) = get (f_name f) o.
Proof.
  intros Hf Hn Ht Hi. pose proof (instance_get C o f Hf Hn) as Hg. unfold converted in Hg.
  rewrite Ht, Hi in Hg. unfold instance_of. by destruct (get (f_name f) o).
Qed.

(** A class all of whose properties are. *)
Definition plain_class C : bool :=
  forallb (fun f => match f_type f, f_initial f with Any, Undefined => true | _, _ => false end) C.

Lemma plain_kept C o f :
  plain_class C = true -> sound_class C -> f ∈ C ->
  get (f_name f) (instance_of C o) = get (f_name f) o.
Proof.
  unfold plain_class. rewrite forallb_forall. intros Hp Hn Hf.
  specialize (Hp f ltac:(by apply list_elem_of_In)).
  apply kept; [done..| |]; by destruct (f_type f), (f_initial f).
Qed.

Lemma plain_in_order C o :
  plain_class C = true -> sound_class C -> in_order C (instance_of C o) <-> in_order C o.
Proof.
  intros Hp HC. unfold in_order. rewrite !Forall_forall.
  split; intros H f Hf; specialize (H f Hf); by rewrite (plain_kept C o f) in *.
Qed.

(** The keys of what is written are declared. *)
Lemma written_keys {c} (d : dto c) k : k ∈ keys (written d) -> k ∈ map f_name (fields_of c).
Proof.
  destruct d as [| | | | | | |q|[p]]; try (intros Hk; exact Hk).
  - destruct q as [page limit st r from to]. simpl.
    destruct st, r, from, to; simpl; set_solver.
  - destruct p; simpl; set_solver.
Qed.

Lemma IsString_ok s : rule_ok (Str s) IsString = true.
Proof. simpl. by rewrite accepts_IsString. Qed.
Lemma IsInt_ok n : rule_ok (integer n) IsInt = true.
Proof. apply accepts_IsInt. by exists n. Qed.
Lemma recognised_ok d s :
  match d with IsOptional | ValidateNested => False | _ => True end -> is_a d s ->
  rule_ok (Str s) d = true.
Proof. by destruct d. Qed.

(** The properties of a class whose every property must be given, one goal each. *)
Ltac each_rule C :=
  unfold in_order, C; rewrite ?Forall_cons, Forall_nil;
  split_and!; [apply plain_ok; [done|set_solver|].. |done]; cbn -[rule_ok].
(** The rules on a text or an integer, from the bounds in the context. *)
Ltac rules_hold :=
  rewrite ?recognised_ok, ?IsString_ok, ?IsInt_ok, ?Length_ok, ?MinLength_ok, ?MaxLength_ok,
    ?Min_ok, ?Max_ok by (done || lia);
  rewrite ?bool_decide_eq_true_2 by lia; rewrite ?(proj2 (Z.leb_le _ _)) by lia; done.
Ltac bounds_of C H :=
  unfold C, varchar in H; rewrite ?andb_true_iff, ?bool_decide_eq_true, ?Z.leb_le in H.

Lemma writes_register (d : RegisterDto) :
  RegisterDto_valid d = true -> is_a IsEmail (rd_email d) ->
  in_order Classes.RegisterDto (written (Register d)).
Proof. intros Hv He. bounds_of RegisterDto_valid Hv. each_rule Classes.RegisterDto; rules_hold. Qed.

Lemma writes_login (d : LoginDto) :
  LoginDto_valid d = true -> is_a IsEmail (ld_email d) ->
  in_order Classes.LoginDto (written (Login d)).
Proof. intros Hv He. bounds_of LoginDto_valid Hv. each_rule Classes.LoginDto; rules_hold. Qed.

Lemma writes_refresh token :
  is_a IsJWT token -> in_order Classes.RefreshTokenDto (written (Refresh token)).
Proof. intros Ht. each_rule Classes.RefreshTokenDto; rules_hold. Qed.

Lemma writes_role r : in_order Classes.UpdateUserRoleDto (written (UpdateRole r)).
Proof.
  each_rule Classes.UpdateUserRoleDto. apply (enum_ok Classes.roles). eexists. split; [done|].
  apply role_ok. eauto.
Qed.

Lemma writes_status (d : UpdateOrderStatusDto) :
  UpdateOrderStatusDto_valid d = true -> in_order Classes.UpdateOrderStatusDto (written (UpdateStatus d)).
Proof.
  intros Hv. bounds_of UpdateOrderStatusDto_valid Hv. each_rule Classes.UpdateOrderStatusDto.
  - apply (enum_ok Classes.statuses). eexists. split; [done|]. apply status_ok. eauto.
  - rules_hold.
Qed.

Lemma writes_payment (d : CompletePaymentDto) :
  CompletePaymentDto_valid d = true -> in_order Classes.CompletePaymentDto (written (Complete d)).
Proof.
  destruct d as [[p|]]; intros Hv; bounds_of CompletePaymentDto_valid Hv;
    unfold in_order, Classes.CompletePaymentDto; rewrite Forall_cons, Forall_nil;
    (split; [|done]); apply optional_ok; [done|set_solver| |done|set_solver|]; cbn -[rule_ok].
  - right. unfold varchar_opt in Hv. simpl in Hv. bounds_of varchar Hv. change (rule_ok ?v IsOptional) with true.
    rules_hold.
  - by left.
Qed.

Lemma writes_item (i : CreateOrderItemDto) :
  CreateOrderItemDto_valid i = true -> is_a IsUUID (ci_menuItemId i) ->
  in_order Classes.CreateOrderItemDto (written_item i).
Proof.
  intros Hv Hu. bounds_of CreateOrderItemDto_valid Hv. each_rule Classes.CreateOrderItemDto; rules_hold.
Qed.

(** A price of up to ten thousand billion is a double. *)
Lemma cents_finite n : 0 <= n <= 10 ^ 15 -> exists z, decimal n (-2) = Finite z.
Proof.
  intros Hn. pose proof one_pos. Transparent decimal. unfold decimal. Opaque decimal.
  change (0 <=? -2) with false. cbv iota. change (10 ^ (- (-2))) with 100.
  eexists. apply round_finite; [done|nia|done|].
  eapply Z.le_lt_trans; [apply (round_mono _ (10 ^ 13 * one * 100)); nia|].
  rewrite round_exact; [|done|nia|by apply representable_integer].
  pose proof (integer_in_range (10 ^ 13) ltac:(done)). lia.
Qed.

Lemma writes_dish (i : CreateMenuItemDto) :
  CreateMenuItemDto_valid i = true -> cm_price i <= 10 ^ 15 ->
  in_order Classes.CreateMenuItemDto (written_dish i).
Proof.
  intros Hv Hf. bounds_of CreateMenuItemDto_valid Hv. each_rule Classes.CreateMenuItemDto; [rules_hold|].
  destruct (cents_finite (cm_price i)) as [z Hz]; [lia|]. rewrite Hz. cbn [rule_ok].
  rewrite accepts_Min, (proj2 (at_least_a_cent (cm_price i) z Hz)) by lia.
  by rewrite (accepts_decimal 2 (cm_price i)) by (done || lia).
Qed.

(** *** Lists and queries, written and read *)

Lemma plain_get C o name :
  plain_class C = true -> sound_class C -> name ∈ map f_name C ->
  get name (instance_of C o) = get name o.
Proof. intros Hp HC (f & -> & Hf)%list_elem_of_fmap. by apply plain_kept. Qed.

Lemma list_instance {A : Type} (w : A -> object) C name a b C' items o :
  sound_class C -> list_field name a b C' ∈ C ->
  get name o = Arr (map (fun i => Obj (w i)) items) ->
  get name (instance_of C o) = Arr (map (fun i => Obj (instance_of C' (w i))) items).
Proof.
  intros Hn Hf Ho. pose proof (instance_get C o _ Hf Hn) as Hg. unfold converted in Hg.
  cbn [f_name f_type list_field] in Hg. rewrite Ho in Hg. unfold instance_of.
  destruct Hg as (l & -> & Hl). f_equal. clear Ho. revert l Hl.
  induction items as [|i items IH]; intros l Hl; inversion_clear Hl as [|? v ? l' Hv Hl']; [done|].
  simpl in Hv. subst. simpl. f_equal. by apply IH.
Qed.

Lemma list_fits {A : Type} (w : A -> object) name a b C' items :
  plain_class C' = true -> sound_class C' -> (a <= length items <= b)%nat ->
  (forall i k, k ∈ keys (w i) -> k ∈ map f_name C') ->
  Forall (fun i => in_order C' (w i)) items ->
  field_ok (list_field name a b C') (Arr (map (fun i => Obj (instance_of C' (w i))) items)).
Proof.
  intros Hp HC Hlen Hk Hall. right. split.
  - cbn [f_decorators list_field forallb rule_ok].
    rewrite accepts_IsArray, accepts_ArrayMinSize, accepts_ArrayMaxSize, length_map.
    by rewrite !bool_decide_eq_true_2 by lia.
  - intros _ C [= <-]. cbn [nested_ok]. apply forallb_forall. intros v (i & <- & Hi)%in_map_iff.
    rewrite Forall_forall in Hall. apply bool_decide_eq_true, instance_valid.
    split; [apply Hk|]. by apply Forall_forall, plain_in_order, Hall, list_elem_of_In.
Qed.

Lemma list_stands {A : Type} (R : A -> value -> Prop) (w : A -> object) C items :
  (forall i, i ∈ items -> R i (Obj (instance_of C (w i)))) ->
  Forall2 R items (map (fun i => Obj (instance_of C (w i))) items).
Proof.
  intros H. induction items as [|i items IH]; constructor; [apply H; by left|].
  apply IH. intros j Hj. apply H. by right.
Qed.

Lemma item_stands i : item_is i (Obj (instance_of Classes.CreateOrderItemDto (written_item i))).
Proof.
  eexists. split; [done|].
  rewrite !plain_get by (done || apply sound_item || set_solver). done.
Qed.
Lemma dish_stands i :
  0 <= cm_price i <= 10 ^ 15 ->
  dish_is i (Obj (instance_of Classes.CreateMenuItemDto (written_dish i))).
Proof.
  intros [z Hz]%cents_finite. eexists _, z. split; [done|].
  rewrite !plain_get by (done || apply sound_dish || set_solver). by rewrite <-Hz.
Qed.

(** A request arrives: its instance is in order and stands for it. *)
Definition arrives {c} (d : dto c) : Prop :=
  in_order (fields_of c) (instance_of (fields_of c) (written d)) /\
  stands_for (instance_of (fields_of c) (written d)) d.

(** A text and a list of items, as restaurants and orders are written. *)
Lemma list_arrives {A : Type} (w : A -> object) n1 ds n2 a b C' items s :
  let C := [mkField n1 ds Any Undefined; list_field n2 a b C'] in
  let o := [(n1, Str s); (n2, Arr (map (fun i => Obj (w i)) items))] in
  sound_class C -> optional (mkField n1 ds Any Undefined) = false -> ValidateNested ∉ ds ->
  forallb (rule_ok (Str s)) ds = true ->
  plain_class C' = true -> sound_class C' -> (a <= length items <= b)%nat ->
  (forall i k, k ∈ keys (w i) -> k ∈ map f_name C') ->
  (forall i, i ∈ items -> in_order C' (w i)) ->
  in_order C (instance_of C o) /\ get n1 (instance_of C o) = Str s /\
  get n2 (instance_of C o) = Arr (map (fun i => Obj (instance_of C' (w i))) items).
Proof.
  intros C o HC Hopt Hds Hs Hp HC' Hlen Hk Hall.
  assert (Hne : n1 <> n2).
  { apply NoDup_cons in HC as [Hno _]. intros ->. apply Hno. by left. }
  assert (H1 : get n1 o = Str s) by (unfold get, o; simpl; by rewrite String.eqb_refl).
  assert (H2 : get n2 o = Arr (map (fun i => Obj (w i)) items)).
  { unfold get, o. simpl. by rewrite (proj2 (String.eqb_neq n1 n2) Hne), String.eqb_refl. }
  assert (E1 : get n1 (instance_of C o) = Str s).
  { rewrite <-H1. by apply (kept C o (mkField n1 ds Any Undefined)); [by left|apply HC|..]. }
  assert (E2 : get n2 (instance_of C o) = Arr (map (fun i => Obj (instance_of C' (w i))) items)).
  { apply (list_instance w C n2 a b); [done|by right; left|done]. }
  split_and!; [|done..].
  apply Forall_cons_2; [|apply Forall_cons_2; [|by apply Forall_nil_2]]; cbn [f_name list_field].
  - rewrite E1. by apply plain_ok.
  - rewrite E2. apply list_fits; [done..|]. by apply Forall_forall.
Qed.

Lemma order_arrives (d : CreateOrderDto) :
  CreateOrderDto_valid d = true -> recognised (NewOrder d) -> arrives (NewOrder d).
Proof.
  intros Hv [Hr Hu]. unfold CreateOrderDto_valid in Hv.
  apply andb_true_iff in Hv as [Hlen%bool_decide_eq_true Hv].
  rewrite Forall_forall in Hu. rewrite forallb_forall in Hv.
  destruct (list_arrives written_item "restaurantId" [IsUUID] "items" 1 50 Classes.CreateOrderItemDto
    (co_items d) (co_restaurantId d)) as (H2 & H3 & H4); try done.
  - apply (sound_fields OrderClass).
  - set_solver.
  - simpl. by rewrite Hr.
  - apply sound_item.
  - intros i Hi. apply writes_item; [by apply Hv, list_elem_of_In|by apply Hu].
  - split; [exact H2|]. split; [exact H3|].
    eexists. split; [exact H4|]. apply list_stands. intros. apply item_stands.
Qed.

Lemma restaurant_arrives (d : CreateRestaurantDto) :
  CreateRestaurantDto_valid d = true -> recognised (NewRestaurant d) -> arrives (NewRestaurant d).
Proof.
  intros Hv Hf. unfold CreateRestaurantDto_valid in Hv. rewrite !andb_true_iff in Hv.
  destruct Hv as [[Hname%bool_decide_eq_true Hlen%bool_decide_eq_true] Hv].
  cbn [recognised] in Hf. rewrite Forall_forall in Hf. rewrite forallb_forall in Hv.
  destruct (list_arrives written_dish "name" [IsString; Length 2 160] "menuItems" 1 100
    Classes.CreateMenuItemDto (cr_menuItems d) (cr_name d)) as (H2 & H3 & H4); try done.
  - apply (sound_fields RestaurantClass).
  - set_solver.
  - cbn [forallb]. rules_hold.
  - apply sound_dish.
  - intros i Hi. apply writes_dish; [by apply Hv, list_elem_of_In|by apply Hf].
  - split; [exact H2|]. split; [exact H3|].
    eexists. split; [exact H4|]. apply list_stands. intros i Hi.
    apply dish_stands. specialize (Hf i Hi). specialize (Hv i (proj1 (list_elem_of_In _ _) Hi)).
    bounds_of CreateMenuItemDto_valid Hv. lia.
Qed.

Lemma plain_arrives {c} (d : dto c) :
  plain_class (fields_of c) = true -> in_order (fields_of c) (written d) ->
  stands_for (instance_of (fields_of c) (written d)) d -> arrives d.
Proof.
  intros Hp Ho Hs. split; [|done].
  by apply plain_in_order; [|apply sound_fields|].
Qed.

Lemma query_number name ds n m o :
  mkField name ds AsNumber (Num n) ∈ Classes.ListOrdersQueryDto -> 0 <= m <= 2 ^ 53 ->
  get name o = Str (numeral m) -> get name (instance_of Classes.ListOrdersQueryDto o) = integer m.
Proof.
  intros Hf Hm Ho. pose proof (instance_get _ o _ Hf (sound_fields OrderListClass)) as Hg.
  unfold converted in Hg. cbn [f_name f_type] in Hg. rewrite Ho in Hg. unfold instance_of.
  by rewrite Hg, Number_numeral_of.
Qed.

Lemma query_text name ds o :
  mkField name ds Any Undefined ∈ Classes.ListOrdersQueryDto ->
  get name (instance_of Classes.ListOrdersQueryDto o) = get name o.
Proof.
  intros Hf. by apply (kept _ o (mkField name ds Any Undefined)); [|apply (sound_fields OrderListClass)|..].
Qed.

Lemma optional_fits name d v s :
  match d with IsOptional | ValidateNested => False | _ => True end ->
  may_be s v -> (forall x, s = Some x -> is_a d x) ->
  field_ok (mkField name [IsOptional; d] Any Undefined) v.
Proof.
  intros Hd Hs Ha. apply optional_ok; [done|by destruct d; set_solver|].
  destruct s as [s|]; simpl in Hs; [right; subst|by left].
  cbn [forallb]. by rewrite (recognised_ok d s Hd (Ha s eq_refl)).
Qed.

Lemma list_query_arrives (q : ListOrdersQueryDto) :
  ListOrdersQueryDto_valid q = true -> recognised (ListOrders q) -> arrives (ListOrders q).
Proof.
  intros Hv (Hp & Hr & Hf & Ht). bounds_of ListOrdersQueryDto_valid Hv.
  set (o := written (ListOrders q)).
  assert (E1 : get "page" (instance_of Classes.ListOrdersQueryDto o) = integer (q_page q)).
  { eapply query_number; [by apply (list_elem_of_lookup_2 _ 0)|lia|done]. }
  assert (E2 : get "limit" (instance_of Classes.ListOrdersQueryDto o) = integer (q_limit q)).
  { eapply query_number; [by apply (list_elem_of_lookup_2 _ 1)|lia|done]. }
  assert (Hrest : may_be (OrderStatus_name <$> q_status q) (get "status" o) /\
    may_be (q_restaurantId q) (get "restaurantId" o) /\
    may_be (q_createdFrom q) (get "createdFrom" o) /\ may_be (q_createdTo q) (get "createdTo" o)).
  { unfold o. destruct q as [? ? [] [] [] []]; split_and!; done. }
  destruct Hrest as (H3 & H4 & H5 & H6).
  rewrite <-(query_text "status" [IsOptional; IsEnum Classes.statuses]) in H3
    by by apply (list_elem_of_lookup_2 _ 2).
  rewrite <-(query_text "restaurantId" [IsOptional; IsUUID]) in H4
    by by apply (list_elem_of_lookup_2 _ 3).
  rewrite <-(query_text "createdFrom" [IsOptional; IsDateString]) in H5
    by by apply (list_elem_of_lookup_2 _ 4).
  rewrite <-(query_text "createdTo" [IsOptional; IsDateString]) in H6
    by by apply (list_elem_of_lookup_2 _ 5).
  split; [|by split_and!].
  repeat apply Forall_cons_2; [..|by apply Forall_nil_2]; cbn [f_name fields_of]; fold o.
  - rewrite E1. apply optional_ok; [done|set_solver|right]. cbn [forallb].
    change (rule_ok ?v IsOptional) with true. rules_hold.
  - rewrite E2. apply optional_ok; [done|set_solver|right]. cbn [forallb].
    change (rule_ok ?v IsOptional) with true. rules_hold.
  - eapply optional_fits; [done|exact H3|]. intros x (st & _ & ->)%fmap_Some.
    unfold is_a. rewrite accepts_IsEnum. apply bool_decide_eq_true, status_ok. eauto.
  - by eapply optional_fits.
  - by eapply optional_fits.
  - by eapply optional_fits.
Qed.

(** Every class: what is written arrives. *)
Lemma request_arrives {c} (d : dto c) : dto_valid d = true -> recognised d -> arrives d.
Proof.
  intros Hv Hr.
  assert (Hkeep : plain_class (fields_of c) = true -> forall name, name ∈ map f_name (fields_of c) ->
    get name (instance_of (fields_of c) (written d)) = get name (written d))
    by (intros; by apply plain_get; [|apply sound_fields|]).
  destruct d; try (by apply order_arrives || by apply restaurant_arrives || by apply list_query_arrives);
    specialize (Hkeep eq_refl); (apply plain_arrives; [done|..]); cbn [stands_for];
    rewrite ?Hkeep by set_solver; try done.
  - by apply writes_register.
  - by apply writes_login.
  - by apply writes_refresh.
  - by apply writes_role.
  - by apply writes_status.
  - by apply writes_payment.
  - by destruct d as [[]].
Qed.

(** What arrives passes. *)
Lemma arrives_passes {c} (d : dto c) :
  arrives d ->
  ValidationPipe_transform globalPipe (fields_of c) (written d) =
    Ok (instance_of (fields_of c) (written d)) /\
  stands_for (instance_of (fields_of c) (written d)) d.
Proof.
  intros [Hi Hs]. split; [|exact Hs]. apply transform_Ok. split; [done|].
  split; [apply written_keys|]. by apply Forall_forall.
Qed.

(** C23: Every request of the model can be sent. A request that meets the rules of its DTO, whose
    emails, tokens, UUIDs and dates the library recognises, passes the pipe when it is written
    as a body or a query, and the instance the handler gets stands for it: numbers of a query
    read back from their text, missing properties stay missing. *)
Theorem pipe_roundtrip {c} (d : dto c) :
  dto_valid d = true -> recognised d ->
  exists inst, ValidationPipe_transform globalPipe (fields_of c) (written d) = Ok inst /\
    stands_for inst d.
Proof.
  intros Hv Hr. eexists. by apply arrives_passes, request_arrives.
Qed.

(** [@ValidateNested()] lets null pass: an order of nothing gets to the handler. *)
Theorem null_item_passes restaurantId :
  is_a IsUUID restaurantId ->
  exists inst, ValidationPipe_transform globalPipe Classes.CreateOrderDto
      [("restaurantId", Str restaurantId); ("items", Arr [Null])]%string = Ok inst /\
    stands_gappy inst (GappyOrder restaurantId [Nothing]).
Proof.
  intros Hr. set (o := [_; _]).
  assert (E1 : get "restaurantId" (instance_of Classes.CreateOrderDto o) = Str restaurantId).
  { apply (kept _ o (mkField "restaurantId" [IsUUID] Any Undefined)); [by left|apply (sound_fields OrderClass)|done..]. }
  assert (E2 : get "items" (instance_of Classes.CreateOrderDto o) = Arr [Null]).
  { pose proof (instance_get Classes.CreateOrderDto o
      (list_field "items" 1 50 Classes.CreateOrderItemDto) ltac:(set_solver) (sound_fields OrderClass)) as Hg.
    destruct Hg as (l & Hl & He). unfold instance_of. cbn [f_name list_field] in Hl. rewrite Hl.
    inversion_clear He as [|? v ? l' Hv He']. inversion He'. subst. by rewrite Hv. }
  eexists. split.
  - apply transform_Ok. split; [done|]. split; [intros k Hk; exact Hk|]. apply Forall_forall.
    apply Forall_cons_2; [|apply Forall_cons_2; [|by apply Forall_nil_2]]; cbn [f_name].
    + rewrite E1. apply plain_ok; [done|set_solver|]. cbn [forallb]. by rewrite recognised_ok.
    + rewrite E2. right. split; [|by intros _ C [= <-]]. cbn [f_decorators forallb rule_ok].
      by rewrite accepts_IsArray, accepts_ArrayMinSize, accepts_ArrayMaxSize.
  - split; [exact E1|]. exists [Null]. split; [exact E2|]. repeat constructor.
Qed.

End validation.

(** ** Prices *)

Section prices.
Context {P : Prisma} {U : Uuids} {PL : PrismaLaws P} {UL : UuidsLaws U}.

Lemma menu_prices_fit rid items : forall w ms w',
  RestaurantsRepository.create_menu rid items w = Ok (ms, w') ->
  Forall (fun i => decimal_12_2 (cm_price i) = true) items.
Proof.
  induction items as [|i items IH]; intros w ms w' H; [done|].
  cbn [RestaurantsRepository.create_menu] in H. tx_inv H.
  constructor; [|by eapply IH].
  match goal with Hc : c_columns _ _ = true |- _ => by apply andb_true_iff in Hc as [_ ?] end.
Qed.

(** [@Min(0.01)] without a [@Max]: the rules let a price pass that no column holds, and then
    nothing is created. *)
Lemma price_too_large :
  let dear := mkCreateMenuItemDto "Caviar" (10 ^ 12) in
  CreateMenuItemDto_valid dear = true /\
  forall name items w r, dear ∈ items -> RestaurantsRepository.create name items w <> Ok r.
Proof.
  intros dear. split; [done|]. intros name items w [view w'] Hin H.
  unfold RestaurantsRepository.create in H. tx_inv H.
  match goal with Hm : RestaurantsRepository.create_menu _ _ _ = Ok _ |- _ =>
    apply menu_prices_fit in Hm; rewrite Forall_forall in Hm; by specialize (Hm _ Hin) end.
Qed.

End prices.
