(* ===== verification/Reading.v ===== *)
(** * What a handler reads of an instance

    The request a handler of the controllers (src/src/*/*.controller.ts) finds in the instance
    the validation pipe hands on, as a function: it is there whenever the pipe has let the
    instance pass, meets the rules of its DTO, or has a gap in its list, and is the one the
    client has written. *)
From S2P Require Import Prelude JsStrings Errors Effects JsNumbers Prisma Schema Orders.
From S2P Require Import Payments Auth Restaurants Validation ValidationSpec ValidationWritten.
#[local] Open Scope Z_scope.
#[local] Opaque of_Z decimal one.

(** ** Decimals *)

(** The number of units in the last of [p] places. *)
Definition places (p : nat) (z : Z) : Z := nearest (z * 10 ^ Z.of_nat p) one.

(** What rounding changes is little. *)
Lemma round_error n d :
  0 < d -> 0 <= n -> 2 * Z.abs (round_nonneg n d * d - n) <= Z.max d (n / 2 ^ 52).
Proof.
  intros Hd Hn. rewrite round_nonneg_eq. set (k := binade n d).
  assert (Hk : 0 <= k) by apply binade_nonneg. pose proof (pow2_pos k Hk) as Hp.
  pose proof (nearest_spec n (d * 2 ^ k) ltac:(nia)) as Hs.
  replace (nearest n (d * 2 ^ k) * 2 ^ k * d) with (nearest n (d * 2 ^ k) * (d * 2 ^ k)) by lia.
  destruct (Z.eq_dec k 0) as [Hk0|Hk0]; [rewrite Hk0 in *; change (2 ^ 0) with 1 in *; lia|].
  pose proof (binade_lower n d Hd ltac:(lia)) as Hl. fold k in Hl.
  rewrite Z.pow_add_r in Hl by lia.
  assert (d * 2 ^ k <= n / 2 ^ 52) by (apply Z.div_le_lower_bound; lia). lia.
Qed.

Lemma places_decimal p n z :
  (p <= 6)%nat -> 0 <= n <= 10 ^ 15 -> decimal n (- Z.of_nat p) = Finite z -> places p z = n.
Proof.
  intros Hp Hn Hz. unfold places.
  pose proof one_pos as H1. set (d := 10 ^ Z.of_nat p).
  assert (Hd : 1 <= d <= 10 ^ 6).
  { unfold d. split; [apply (Z.pow_le_mono_r 10 0); lia|apply Z.pow_le_mono_r; lia]. }
  assert (Hr : z = round_nonneg (n * one) d).
  { Transparent decimal. unfold decimal, round in Hz. Opaque decimal.
    destruct (Z.leb_spec 0 (- Z.of_nat p)) as [Hp0|_].
    - assert (p = 0%nat) as -> by lia. change (10 ^ (- Z.of_nat 0)) with 1 in Hz.
      change d with 1. rewrite Z.mul_1_r, Z.abs_eq in Hz by nia.
      destruct (_ <=? _); [done|]. injection Hz as <-.
      destruct (Z.eq_dec n 0) as [->|]; [done|]. rewrite Z.sgn_pos by nia. lia.
    - rewrite Z.opp_involutive, Z.abs_eq in Hz by nia. fold d in Hz.
      destruct (_ <=? _); [done|]. injection Hz as <-.
      destruct (Z.eq_dec n 0) as [->|]; [|rewrite Z.sgn_pos by nia; lia].
      pose proof (round_exact 0 d ltac:(lia) ltac:(lia) ltac:(by apply representable_small)) as Hr.
      rewrite Z.mul_0_l in Hr. change (0 * one) with 0. by rewrite Hr. }
  rewrite Hr. apply nearest_unique; [done|].
  pose proof (round_error (n * one) d ltac:(lia) ltac:(nia)) as He.
  assert (n * one / 2 ^ 52 < one) by (apply Z.div_lt_upper_bound; nia).
  assert (10 ^ 6 < one) by (rewrite one_pow2; by apply Z.pow_lt_mono_r || done). lia.
Qed.

(** ** Properties *)

Definition text_at (name : string) (o : object) : option string :=
  match get name o with Str s => Some s | _ => None end.
Definition optional_at (name : string) (o : object) : option (option string) :=
  match get name o with Undefined | Null => Some None | Str s => Some (Some s) | _ => None end.
Definition whole_at (name : string) (o : object) : option Z :=
  match get name o with Num (Finite z) => Some (z / one) | _ => None end.
Definition cents_at (name : string) (o : object) : option Z :=
  match get name o with Num (Finite z) => Some (places 2 z) | _ => None end.
Definition list_at {A : Type} (name : string) (item : object -> option A) (o : object) :
    option (list A) :=
  match get name o with
  | Arr l => mapM (fun v => match v with Obj o => item o | _ => None end) l
  | _ => None
  end.

(** The member of an enum with this name. *)
Definition named {A : Type} (name_of : A -> string) (members : list A) (s : string) : option A :=
  List.find (fun a => String.eqb (name_of a) s) members.
Definition role_named : string -> option Role := named Role_name [ADMIN; MANAGER; USER].
Definition status_named : string -> option OrderStatus :=
  named OrderStatus_name [PENDING; CONFIRMED; PREPARING; READY; COMPLETED; CANCELLED].

(** ** Requests *)

Definition read_item (o : object) : option CreateOrderItemDto :=
  menuItemId ← text_at "menuItemId" o;
  quantity ← whole_at "quantity" o;
  Some (mkCreateOrderItemDto menuItemId quantity).
Definition read_dish (o : object) : option CreateMenuItemDto :=
  name ← text_at "name" o;
  price ← cents_at "price" o;
  Some (mkCreateMenuItemDto name price).

Definition read (c : dto_class) (o : object) : option (dto c) :=
  match c with
  | RegisterClass =>
      email ← text_at "email" o;
      password ← text_at "password" o;
      displayName ← text_at "displayName" o;
      Some (Register (mkRegisterDto email password displayName))
  | LoginClass =>
      email ← text_at "email" o;
      password ← text_at "password" o;
      Some (Login (mkLoginDto email password))
  | RefreshClass => Refresh <$> text_at "refreshToken" o
  | RoleClass => UpdateRole <$> (text_at "role" o ≫= role_named)
  | RestaurantClass =>
      name ← text_at "name" o;
      menuItems ← list_at "menuItems" read_dish o;
      Some (NewRestaurant (mkCreateRestaurantDto name menuItems))
  | OrderClass =>
      restaurantId ← text_at "restaurantId" o;
      items ← list_at "items" read_item o;
      Some (NewOrder (mkCreateOrderDto restaurantId items))
  | StatusClass =>
      status ← text_at "status" o ≫= status_named;
      version ← whole_at "version" o;
      Some (UpdateStatus (mkUpdateOrderStatusDto status version))
  | OrderListClass =>
      page ← whole_at "page" o;
      limit ← whole_at "limit" o;
      name ← optional_at "status" o;
      status ← match name with Some s => Some <$> status_named s | None => Some None end;
      restaurantId ← optional_at "restaurantId" o;
      createdFrom ← optional_at "createdFrom" o;
      createdTo ← optional_at "createdTo" o;
      Some (ListOrders (mkListOrdersQueryDto page limit status restaurantId createdFrom createdTo))
  | PaymentClass =>
      reference ← optional_at "providerReference" o;
      Some (Complete (mkCompletePaymentDto reference))
  end.

(** ** What is read is what the instance stands for *)

Lemma text_read name o s : get name o = Str s -> text_at name o = Some s.
Proof. unfold text_at. by intros ->. Qed.
Lemma whole_read name o n : get name o = integer n -> whole_at name o = Some n.
Proof.
  unfold whole_at, integer. intros ->. f_equal. apply Z.div_mul. pose proof one_pos. lia.
Qed.
Lemma optional_read name o s : may_be s (get name o) -> optional_at name o = Some s.
Proof. unfold optional_at, may_be. destruct s; [by intros ->|]. by destruct (get name o). Qed.
Lemma role_read r : role_named (Role_name r) = Some r.
Proof. by destruct r. Qed.
Lemma status_read s : status_named (OrderStatus_name s) = Some s.
Proof. by destruct s. Qed.

(** A list, element by element. *)
Lemma list_read {A : Type} (R : A -> A -> Prop) (stands : A -> value -> Prop)
    (item : object -> option A) name o l items :
  (forall i v, stands i v -> exists o' i', v = Obj o' /\ item o' = Some i' /\ R i i') ->
  get name o = Arr l -> Forall2 stands items l ->
  exists items', list_at name item o = Some items' /\ Forall2 R items items'.
Proof.
  intros Hitem Hl Hs. unfold list_at. rewrite Hl. clear Hl.
  induction Hs as [|i v items l Hi _ (items' & Hr & IH)]; [by exists []|].
  destruct (Hitem i v Hi) as (o' & i' & -> & Hi' & HR). exists (i' :: items').
  split; [|by constructor]. change (mapM ?f (Obj o' :: l)) with
    (y ← item o'; ys ← mapM f l; Some (y :: ys)). by rewrite Hi', Hr.
Qed.

Lemma item_read i v : item_is i v -> exists o i', v = Obj o /\ read_item o = Some i' /\ i = i'.
Proof.
  intros (o & -> & Hk & Hq). exists o, i. split_and!; [done| |done].
  unfold read_item. rewrite (text_read _ _ _ Hk), (whole_read _ _ _ Hq). by destruct i.
Qed.

(** A price is read as it was written, if it has up to 15 digits, and is never nothing. *)
Definition same_dish (i i' : CreateMenuItemDto) : Prop :=
  cm_name i' = cm_name i /\ (1 <= cm_price i -> 1 <= cm_price i') /\
  (0 <= cm_price i <= 10 ^ 15 -> i' = i).

Lemma cents_read o n z :
  get "price" o = Num (decimal n (-2)) -> decimal n (-2) = Finite z ->
  cents_at "price" o = Some (places 2 z) /\
  (1 <= n -> 1 <= places 2 z) /\ (0 <= n <= 10 ^ 15 -> places 2 z = n).
Proof.
  intros Hp Hz. unfold cents_at. rewrite Hp, Hz. split; [done|]. split.
  - intros Hn. apply (at_least_a_cent n z Hz) in Hn. pose proof one_pos.
    assert (Hc : exists c, decimal 1 (-2) = Finite c /\ one < 2 * (c * 100)).
    { Transparent decimal one. eexists. split; [vm_compute; reflexivity|]. done. }
    Opaque decimal one. destruct Hc as (c & Hc & Hhalf). rewrite Hc, leb_Finite, Z.leb_le in Hn.
    pose proof (nearest_spec (z * 10 ^ Z.of_nat 2) one one_pos) as Hs. unfold places.
    change (10 ^ Z.of_nat 2) with 100 in *. nia.
  - intros Hn. by apply (places_decimal 2 n z); [lia| |].
Qed.

Lemma dish_read i v :
  dish_is i v -> exists o i', v = Obj o /\ read_dish o = Some i' /\ same_dish i i'.
Proof.
  intros (o & z & -> & Hn & Hp & Hz). rewrite <-Hz in Hp.
  destruct (cents_read o _ z Hp Hz) as (Hc & H1 & H2).
  exists o, (mkCreateMenuItemDto (cm_name i) (places 2 z)).
  unfold read_dish. rewrite (text_read _ _ _ Hn), Hc.
  do 4 (split; [done|]). intros Hb. destruct i. simpl in *. by rewrite H2.
Qed.

Lemma same_dishes items items' :
  Forall2 same_dish items items' -> forallb CreateMenuItemDto_valid items = true ->
  length items' = length items /\ forallb CreateMenuItemDto_valid items' = true /\
  (Forall (fun i => cm_price i <= 10 ^ 15) items -> items' = items).
Proof.
  induction 1 as [|i i' items items' (Hn & H1 & H2) _ IH]; [done|]. simpl.
  intros [Hi Hv]%andb_true_iff. destruct (IH Hv) as (Hlen & Hv' & Heq).
  unfold CreateMenuItemDto_valid in Hi |- *. rewrite Hn, !andb_true_iff, Z.leb_le in *.
  split; [lia|]. split; [split; [split; [apply Hi|apply H1, Hi]|done]|].
  intros Hf. inversion_clear Hf. rewrite H2, Heq by (done || lia). done.
Qed.

(** Prices of up to 15 digits. *)
Definition affordable {c} (d : dto c) : Prop :=
  match d with
  | NewRestaurant d => Forall (fun i => cm_price i <= 10 ^ 15) (cr_menuItems d)
  | _ => True
  end.

Lemma read_stands {c} o (d : dto c) :
  stands_for o d -> dto_valid d = true ->
  exists d' : dto c, read c o = Some d' /\ dto_valid d' = true /\ (affordable d -> d' = d).
Proof.
  assert (Hsame : read c o = Some d -> dto_valid d = true ->
    exists d' : dto c, read c o = Some d' /\ dto_valid d' = true /\ (affordable d -> d' = d)) by eauto.
  destruct d as [d|d|t|r|d|d|d|q|d]; cbn [stands_for]; intros Hs Hv;
    [..|clear Hsame| | | |]; try (apply Hsame; [|exact Hv]; clear Hsame); cbn [read].
  - destruct Hs as (H1%text_read & H2%text_read & H3%text_read). rewrite H1, H2, H3. by destruct d.
  - destruct Hs as (H1%text_read & H2%text_read). rewrite H1, H2. by destruct d.
  - by rewrite (text_read _ _ _ Hs).
  - rewrite (text_read _ _ _ Hs). simpl. by rewrite role_read.
  - destruct Hs as (H1%text_read & l & Hl & Hs).
    destruct (list_read same_dish dish_is read_dish _ _ _ _ dish_read Hl Hs) as (items & Hr & Hi).
    cbn [dto_valid] in Hv. unfold CreateRestaurantDto_valid in Hv. rewrite !andb_true_iff in Hv.
    destruct Hv as [[Hn Hlen] Hv]. destruct (same_dishes _ _ Hi Hv) as (Heq & Hv' & Hsame).
    exists (NewRestaurant (mkCreateRestaurantDto (cr_name d) items)). rewrite H1, Hr.
    split; [done|]. split.
    + cbn [dto_valid]. unfold CreateRestaurantDto_valid. simpl. by rewrite Hn, Heq, Hlen, Hv'.
    + intros Hp. rewrite (Hsame Hp). by destruct d.
  - destruct Hs as (H1%text_read & l & Hl & Hs).
    destruct (list_read eq item_is read_item _ _ _ _ item_read Hl Hs) as (items & Hr & Hi).
    apply list_eq_Forall2 in Hi as <-. rewrite H1, Hr. by destruct d.
  - destruct Hs as (H1%text_read & H2%whole_read). rewrite H1, H2. simpl. rewrite status_read.
    by destruct d.
  - destruct Hs as (H1%whole_read & H2%whole_read & H3%optional_read & H4%optional_read &
      H5%optional_read & H6%optional_read). rewrite H1, H2, H3. destruct q as [p l [s|] r f t]; simpl in *;
      rewrite ?status_read; simpl; by rewrite H4, H5, H6.
  - rewrite (optional_read _ _ _ Hs). by destruct d.
Qed.

(** ** A request whose list has a gap *)

Definition entries_at {A : Type} (name : string) (item : object -> option A) (o : object) :
    option (list (entry A)) :=
  match get name o with
  | Arr l => mapM (fun v => match v with
      | Undefined | Null => Some Nothing
      | Arr _ => Some Inner
      | Obj o => Item <$> item o
      | _ => None end) l
  | _ => None
  end.
Definition read_gappy (c : dto_class) (o : object) : option (gappy c) :=
  match c with
  | RestaurantClass =>
      name ← text_at "name" o;
      menuItems ← entries_at "menuItems" read_dish o;
      Some (GappyRestaurant name menuItems)
  | OrderClass =>
      restaurantId ← text_at "restaurantId" o;
      items ← entries_at "items" read_item o;
      Some (GappyOrder restaurantId items)
  | _ => None
  end.
Definition has_gap {c} (g : gappy c) : bool :=
  match g with
  | GappyRestaurant _ menuItems => existsb is_gap menuItems
  | GappyOrder _ items => existsb is_gap items
  end.

Section gaps.
Context {A : Type} (stands : A -> value -> Prop) (item : object -> option A).
Hypothesis stands_read : forall i v, stands i v -> exists o i', v = Obj o /\ item o = Some i'.

Lemma entries_read name o l es :
  get name o = Arr l -> Forall2 (entry_is stands) es l ->
  exists es', entries_at name item o = Some es' /\ existsb is_gap es' = existsb is_gap es.
Proof.
  intros Hl Hs. unfold entries_at. rewrite Hl. clear Hl.
  set (f := fun v => match v with Undefined | Null => _ | _ => _ end).
  assert (Hf : forall e v, entry_is stands e v -> exists e', f v = Some e' /\ is_gap e' = is_gap e).
  { intros [i| |] v He.
    - destruct (stands_read i v He) as (o' & i' & -> & Hi). exists (Item i'). simpl. by rewrite Hi.
    - exists Nothing. by destruct v.
    - destruct He as [l' ->]. by exists Inner. }
  induction Hs as [|e v es l He _ (es' & Hr & IH)]; [by exists []|].
  destruct (Hf e v He) as (e' & He' & Hg). exists (e' :: es').
  change (mapM f (v :: l)) with (y ← f v; ys ← mapM f l; Some (y :: ys)).
  rewrite He', Hr. split; [done|]. simpl. by rewrite Hg, IH.
Qed.

Lemma gap_unread name o l es :
  get name o = Arr l -> Forall2 (entry_is stands) es l -> existsb is_gap es = true ->
  list_at name item o = None.
Proof.
  intros Hl Hs. unfold list_at. rewrite Hl. clear Hl.
  set (f := fun v => match v with Obj o => item o | _ => None end).
  induction Hs as [|e v es l He _ IH]; [done|]. simpl.
  change (mapM f (v :: l)) with (y ← f v; ys ← mapM f l; Some (y :: ys)).
  destruct e as [i| |]; simpl in *.
  - intros Hg. rewrite IH by done. by destruct (f v).
  - by destruct v.
  - by destruct He as [l' ->].
Qed.
End gaps.

Lemma item_reads i v : item_is i v -> exists o i', v = Obj o /\ read_item o = Some i'.
Proof. intros (o & i' & ? & ? & _)%item_read. eauto. Qed.
Lemma dish_reads i v : dish_is i v -> exists o i', v = Obj o /\ read_dish o = Some i'.
Proof. intros (o & i' & ? & ? & _)%dish_read. eauto. Qed.

Lemma gappy_read {c} o (g : gappy c) :
  stands_gappy o g -> gappy_valid g = true ->
  read c o = None /\ exists g', read_gappy c o = Some g' /\ has_gap g' = true.
Proof.
  destruct g as [name items|key items]; intros (H1%text_read & l & Hl & Hs) Hv;
    cbn [gappy_valid] in Hv; apply andb_true_iff in Hv as [_ Hg]; cbn [read read_gappy]; rewrite H1.
  - destruct (entries_read _ _ dish_reads _ _ _ _ Hl Hs) as (es & He & Hge).
    split; [cbn; by rewrite (gap_unread dish_is read_dish _ _ _ _ Hl Hs Hg)|].
    exists (GappyRestaurant name es). simpl. by rewrite He, Hge.
  - destruct (entries_read _ _ item_reads _ _ _ _ Hl Hs) as (es & He & Hge).
    split; [cbn; by rewrite (gap_unread item_is read_item _ _ _ _ Hl Hs Hg)|].
    exists (GappyOrder key es). simpl. by rewrite He, Hge.
Qed.

(** ** Behind the pipe *)

(** What a handler receives. *)
Inductive received (c : dto_class) := Whole (d : dto c) | Gappy (g : gappy c).
Arguments Whole {c} d.
Arguments Gappy {c} g.

Section pipe.
Context {V : ValidationLibrary} {VL : ValidationLibraryLaws V}.

(** What the handler is given. *)
Definition given (c : dto_class) (o : object) : result (received c) :=
  inst ← ValidationPipe_transform globalPipe (fields_of c) o;
  match read c inst, read_gappy c inst with
  | Some d, _ => Ok (Whole d)
  | None, Some g => Ok (Gappy g)
  | None, None => Err (JsError "not a request")
  end.

Lemma given_outcome c (i : input c) :
  match given c (as_object i) with
  | Ok (Whole d) => dto_valid d = true
  | Ok (Gappy g) => has_gap g = true
  | Err e => exists m ms, e = refusal (m :: ms)
  end.
Proof.
  unfold given. destruct (ValidationPipe_transform _ _ _) as [inst|e] eqn:Ht.
  - destruct (pipe_stands c i inst Ht) as (_ & [(d & Hd & Hv)|(g & Hg & Hv)]).
    + destruct (read_stands _ _ Hd Hv) as (d' & Hr & Hv' & _). cbn. by rewrite Hr.
    + destruct (gappy_read _ _ Hg Hv) as (Hno & g' & Hg' & Hgap). cbn. by rewrite Hno, Hg'.
  - cbn. by eapply transform_Err.
Qed.

Lemma given_written {c} (d : dto c) :
  dto_valid d = true -> recognised d -> given c (written d) = Ok (Whole d).
Proof.
  intros Hv Hr. destruct (arrives_passes d (request_arrives d Hv Hr)) as [Ht Hs]. unfold given. rewrite Ht.
  destruct (read_stands _ _ Hs Hv) as (d' & Hread & _ & Heq). cbn. rewrite Hread.
  rewrite Heq; [done|]. by destruct d.
Qed.

End pipe.
