(* ===== verification/DeliveryQueue.v ===== *)
(** * The delivery queue

    NotificationQueueService (src/src/notifications/notification-queue.service.ts) with the
    BullMQ queue and worker it opens: jobs are added by the consumer and by the recovery, a
    worker locks a job and runs [process] on it, and what [process] answers or throws settles
    the job: it is completed, retried after a delay, or failed for good. BullMQ is a parameter;
    its state is what [getJob] shows. A worker works on ten jobs at a time; as there may be any
    number of worker processes, the jobs at work are not bounded here.

    A step is one step of a running program (with its failures), or one event of the queue. *)
From S2P Require Import Prelude JsStrings Errors Effects Prisma Schema Orders Evolution System.
From S2P Require Import Outbox Workers Rabbit.

(** ** BullMQ *)

Inductive job_state := Queued | Active | Delayed (until : Z) | Completed | Failed.
#[export] Instance job_state_eq_dec : EqDecision job_state.
Proof. solve_decision. Defined.

(** [{ attempts, backoff: { type: 'exponential', delay } }]. *)
Record JobOptions := mkJobOptions { jo_attempts : Z; jo_delay : Z }.
(** [{ removeOnComplete, removeOnFail }]. *)
Record QueueOptions := mkQueueOptions { removeOnComplete : nat; removeOnFail : nat }.

Record job := mkJob {
  j_data : string; j_options : JobOptions; j_attemptsMade : Z; j_state : job_state }.

Definition in_state (st : job_state) (j : job) : job :=
  mkJob (j_data j) (j_options j) (j_attemptsMade j) st.

(** A worker may take a job that waits, or whose delay is over. *)
Definition ready (t : Z) (j : job) : bool :=
  match j_state j with Queued => true | Delayed until => until <=? t | _ => false end.

(** What becomes of a job whose processor has answered ([ok]) or thrown. *)
Definition settled (ok : bool) (t : Z) (j : job) : job :=
  let made := j_attemptsMade j + 1 in
  mkJob (j_data j) (j_options j) made
    (if ok then Completed
     else if made <? jo_attempts (j_options j)
          then Delayed (t + jo_delay (j_options j) * 2 ^ (made - 1))
          else Failed).

Definition finished (st : job_state) : bool :=
  match st with Completed | Failed => true | _ => false end.

Class BullMQ := {
  queue : Type;
  new_queue : QueueOptions -> queue;
  options : queue -> QueueOptions;
  getJob : string -> queue -> option job;
  add : string -> string -> JobOptions -> queue -> queue;   (* the job's id, its data *)
  lock : string -> Z -> queue -> option queue;              (* a worker takes a job *)
  settle : string -> bool -> Z -> queue -> option queue;
  stall : string -> queue -> option queue;                  (* its worker has died *)
}.

(** As documented: adding a job under an id the queue holds changes nothing; a job that is
    finished is kept until as many others of its kind are as the options say; a job whose worker
    has died is queued again, or failed. *)
Class BullMQLaws (B : BullMQ) : Prop := {
  getJob_new : forall o id, getJob id (new_queue o) = None;
  options_new : forall o, options (new_queue o) = o;
  add_known : forall id d o q, is_Some (getJob id q) -> add id d o q = q;
  add_fresh : forall id d o q id', getJob id q = None ->
    getJob id' (add id d o q) =
      if bool_decide (id' = id) then Some (mkJob d o 0 Queued) else getJob id' q;
  options_add : forall id d o q, options (add id d o q) = options q;
  lock_ready : forall id t q j,
    getJob id q = Some j -> ready t j = true -> is_Some (lock id t q);
  lock_inv : forall id t q q', lock id t q = Some q' -> options q' = options q /\
    exists j, getJob id q = Some j /\ ready t j = true /\
      getJob id q' = Some (in_state Active j) /\
      forall id', id' <> id -> getJob id' q' = getJob id' q;
  settle_active : forall id ok t q j,
    getJob id q = Some j -> j_state j = Active -> is_Some (settle id ok t q);
  settle_inv : forall id ok t q q', settle id ok t q = Some q' -> options q' = options q /\
    exists j, getJob id q = Some j /\ j_state j = Active /\ getJob id q' = Some (settled ok t j);
  settle_others : forall id ok t q q' id' j, settle id ok t q = Some q' -> id' <> id ->
    getJob id' q = Some j ->
    getJob id' q' = Some j \/
    (getJob id' q' = None /\ finished (j_state j) = true /\
     exists l, NoDup l /\
       (match j_state j with Completed => removeOnComplete | _ => removeOnFail end (options q) <=
        length l)%nat /\
       forall i, i ∈ l -> exists ji, getJob i q' = Some ji /\ j_state ji = j_state j);
  settle_none : forall id ok t q q' id', settle id ok t q = Some q' ->
    getJob id' q = None -> getJob id' q' = None;
  stall_active : forall id q j, getJob id q = Some j -> j_state j = Active -> is_Some (stall id q);
  stall_inv : forall id q q', stall id q = Some q' -> options q' = options q /\
    exists j st, getJob id q = Some j /\ j_state j = Active /\ (st = Queued \/ st = Failed) /\
      getJob id q' = Some (in_state st j) /\
      forall id', id' <> id -> getJob id' q' = getJob id' q;
}.

(** [{ connection, defaultJobOptions: { removeOnComplete: 1_000, removeOnFail: 5_000 } }]. *)
Definition defaultJobOptions : QueueOptions := mkQueueOptions 1000 5000.

(** ** The queue, its worker, and the programs that add jobs *)

Module Delivery.
Section delivery.
Context `{BullMQ, Prisma, Uuids, ErrorText}.

Record state := mkState {
  st_system : system;
  st_queue : queue;
  st_active : gmap string (prog world unit);  (* the processors at work, by job *)
  st_others : list (prog system unit);        (* consumers and recoveries *)
}.

Definition opened (s : system) : state := mkState s (new_queue defaultJobOptions) ∅ [].

(** What the service tells the queue, reaching it: [jobId] and [deliveryId] are the same. *)
Definition receive (o : observation) (q : queue) : queue :=
  match o with
  | JobAdded id attempts delay => add id id (mkJobOptions attempts delay) q
  | _ => q
  end.
Definition receive_all (l : list observation) (q : queue) : queue :=
  foldl (fun q o => receive o q) q l.
Definition news (s s' : system) : list observation := drop (length (sys_log s)) (sys_log s').

(** The programs that add jobs: the consumers, and the recovery every 30 seconds. *)
Inductive starter :=
| Message (c : RabbitConsumersService.ConsumerName) (m : message)
| Recovery.
Definition started (p : starter) : prog system unit :=
  match p with
  | Message c m => RabbitConsumersService.consume true c m
  | Recovery => NotificationQueueService.recoverPending true
  end.

(** How a step of a program may go: taken, failed, or taken with its answer lost. *)
Inductive way := Taken | Fails (e : exn) | AnswerLost (e : exn).
Definition way_action {S A : Type} (v : way) (i : nat) : action S A :=
  match v with Taken => Run i | Fails e => Fault i e | AnswerLost e => LoseAnswer i e end.

Inductive event :=
| Begins (p : starter)
| Goes (i : nat) (v : way)
| Vanishes (i : nat)
| Locks (id : string)
| Works (id : string) (v : way)
| Settles (id : string)
| Dies (id : string)
| Stalls (id : string)
| Elsewhere (s' : system).

Definition after_others (c : config system unit) (s : state) : state :=
  mkState (shared c) (receive_all (news (st_system s) (shared c)) (st_queue s)) (st_active s)
    (threads c).

Definition step (e : event) (s : state) : option state :=
  let sys := st_system s in
  let t := w_now (sys_world sys) in
  match e with
  | Begins p => Some (mkState sys (st_queue s) (st_active s) (st_others s ++ [started p]))
  | Goes i v =>
      c ← perform (way_action v i) (mkConfig sys (st_others s)); Some (after_others c s)
  | Vanishes i => c ← perform (Crash i) (mkConfig sys (st_others s)); Some (after_others c s)
  | Locks id =>
      q ← lock id t (st_queue s);
      j ← getJob id q;
      Some (mkState sys q
              (<[id := NotificationQueueService.process (j_data j)]> (st_active s)) (st_others s))
  | Works id v =>
      p ← st_active s !! id;
      c ← perform (way_action v 0) (mkConfig (sys_world sys) [p]);
      p' ← threads c !! 0%nat;
      Some (mkState (with_world (shared c) sys) (st_queue s) (<[id := p']> (st_active s))
              (st_others s))
  | Settles id =>
      p ← st_active s !! id;
      ok ← match p with Ret _ => Some true | Throw _ => Some false | _ => None end;
      q ← settle id ok t (st_queue s);
      Some (mkState sys q (delete id (st_active s)) (st_others s))
  | Dies id =>
      _ ← st_active s !! id;
      Some (mkState sys (st_queue s) (delete id (st_active s)) (st_others s))
  | Stalls id =>
      match st_active s !! id with
      | Some _ => None
      | None => q ← stall id (st_queue s); Some (mkState sys q (st_active s) (st_others s))
      end
  | Elsewhere s' => Some (mkState s' (st_queue s) (st_active s) (st_others s))
  end.

Fixpoint run (l : list event) (s : state) : option state :=
  match l with
  | [] => Some s
  | e :: l => step e s ≫= run l
  end.

End delivery.
End Delivery.
