(* ===== verification/DeliveryQueueSpec.v ===== *)
(** * What the delivery queue promises

    Whatever steps fail and whichever workers die: a job is only completed when its delivery is
    settled, so a delivery that is still owed has a job that waits or no job at all, and then it
    can be delivered; unless its job has failed for good, and then the recovery cannot queue it
    again, since BullMQ keeps the failed job under the same id. *)
From S2P Require Import Prelude JsStrings Errors Effects Prisma Schema Orders Evolution OrderFlow.
From S2P Require Import System Outbox OutboxSpec Workers WorkersFlow Rabbit RabbitSpec DeliveryQueue.
Import Delivery.

Abbreviation deliveries s := (notificationDeliveries (w_db (sys_world s))).

(** ** The programs that add jobs *)

Section adders.
Context {Cl : Clients} {P : Prisma} {U : Uuids} {D : Decimals} {HP : HttpPlatform} {ET : ErrorText}
  {PL : PrismaLaws P} {UL : UuidsLaws U}.
Implicit Types (s : system) (w : world).

(** They leave the deliveries there are alone, and add jobs for deliveries there are. *)
Definition job_for_delivery s (o : observation) : Prop :=
  match o with
  | JobAdded id a d => a = 5 /\ d = 1000 /\ is_Some (deliveries s !! id)
  | _ => True
  end.
Definition adds_known s s' : Prop :=
  deliveries s ⊆ deliveries s' /\
  exists new, sys_log s' = sys_log s ++ new /\ Forall (job_for_delivery s') new.

Definition keeps_deliveries w w' : Prop :=
  notificationDeliveries (w_db w) ⊆ notificationDeliveries (w_db w').

Lemma adds_known_refl s : adds_known s s.
Proof. split; [done|]. exists []. by rewrite app_nil_r. Qed.

Lemma on_world_adds s w : keeps_deliveries (sys_world s) w -> adds_known s (with_world w s).
Proof. intros Hk. split; [done|]. exists []. by rewrite app_nil_r. Qed.

Lemma tell_adds o (I : system -> Prop) :
  stable sys_evolves I -> (forall s, I s -> job_for_delivery s o) ->
  guarded sys_evolves adds_known (await (tell o)) I.
Proof.
  intros HI Ho. apply guarded_await; [done|]. intros s u s' Hs H. unfold tell in H.
  injection H as _ <-. split; [done|]. exists [o]. split; [done|].
  constructor; [|done]. specialize (Ho _ Hs). by destruct o.
Qed.

Lemma anywhere_stable : stable sys_evolves (fun _ => True).
Proof. done. Qed.

Lemma retry_adds c m e :
  guarded sys_evolves adds_known (RabbitConsumersService.retryOrDeadLetter c m e) (fun _ => True).
Proof.
  apply guarded_try_any; [done| |intros _; by apply tell_adds].
  apply guarded_then_any; [done|apply tell_adds; [done|]|].
  { intros s _. unfold RabbitConsumersService.republication. by destruct (_ <=? _). }
  intros _. apply guarded_then_any; [done|by apply tell_adds|intros _; by apply tell_adds].
Qed.

Lemma processEvent_keeps event w b w' :
  AuditRepository.processEvent event w = Ok (b, w') -> keeps_deliveries w w'.
Proof.
  intros (id & _ & [(_ & -> & _)|(_ & _ & ? & ? & ? & ? & ? & ? & ? & _ & _ & _ & _ & _ & _ & _ &
    _ & _ & _ & _ & _ & _ & Hdb)])%processEvent_inv; unfold keeps_deliveries; [done|by rewrite Hdb].
Qed.

Lemma processOrder_keeps event w o w' :
  NotificationsRepository.processOrderCreated event w = Ok (o, w') -> keeps_deliveries w w'.
Proof.
  intros (id & _ & [(-> & _)|(? & key & n & ? & ? & _ & _ & _ & _ & Hkey & _ & _ & _ & _ & _ & _ &
    Hdb)])%processOrder_inv; unfold keeps_deliveries; [done|rewrite Hdb].
  by apply insert_subseteq.
Qed.

Definition known (o : option string) s : Prop :=
  sys_wf s /\ forall key, o = Some key -> is_Some (deliveries s !! key).

Lemma deliveries_stay s s' key :
  sys_evolves s s' -> is_Some (deliveries s !! key) -> is_Some (deliveries s' !! key).
Proof.
  intros (HE & _) [n Hn]. destruct (rtc_delivery _ _ _ _ Hn (rtc_once _ _ HE)) as (n' & ? & _). eauto.
Qed.

Lemma known_stable o : stable sys_evolves (known o).
Proof.
  intros s s' [Hw Hk] HE. split; [by eapply sys_wf_stable|]. eauto using deliveries_stay.
Qed.

Lemma enqueue_adds o :
  guarded sys_evolves adds_known
    (match o with Some id => NotificationQueueService.enqueue true id | None => Ret tt end) (known o).
Proof.
  destruct o as [id|]; [|done]. apply tell_adds; [apply known_stable|].
  intros s [_ Hk]. split_and!; [done|done|]. by apply Hk.
Qed.

Lemma work_adds c m : guarded sys_evolves adds_known (RabbitConsumersService.work true c m) sys_wf.
Proof.
  unfold RabbitConsumersService.work. destruct (msg_content m) as [event|]; [|done].
  destruct (RabbitConsumersService.is_null event); [done|]. destruct (_ || _ || _); [done|].
  destruct c.
  - destruct (decide (json_get "type" event = Some (JStr "OrderCreated"))) as [Hty|Hty];
      [|by rewrite handle_not_order].
    unfold NotificationEventHandler.handle. rewrite Hty.
    apply guarded_lift_await with (J := fun o => known (truthy o)).
    + apply sys_wf_stable.
    + intros o. apply known_stable.
    + intros s o w Hwf Hp. split; [by apply on_world_adds, (processOrder_keeps event _ o)|].
      split; [eapply evolves_wf, (processOrder_quiet event); eauto|].
      destruct (processOrder_post event _ _ _ Hwf Hp) as (id & key & n & _ & -> & Hne & _ & Hn & _).
      intros key' Hk. assert (key' = key) as -> by (destruct key; simpl in Hk; congruence). eauto.
    + intros o. apply enqueue_adds.
  - unfold AuditEventHandler.handle.
    apply guarded_lift_await with (J := fun _ _ => True); [apply sys_wf_stable|done| |done].
    intros s b w _ Hp. split; [|done]. by apply on_world_adds, (processEvent_keeps event _ b).
Qed.

Lemma pending_order_total :
  Total (by_leb (fun a b : NotificationDelivery => nd_createdAt a <=? nd_createdAt b)).
Proof. intros x y. unfold by_leb. rewrite !Z.leb_le. lia. Qed.

Lemma findPending_inv limit w l w' :
  NotificationsRepository.findPending limit w = Ok (l, w') ->
  w' = w /\ forall id, id ∈ l -> exists k n, notificationDeliveries (w_db w) !! k = Some n /\ nd_id n = id /\
    NotificationsRepository.claimable n = true.
Proof.
  unfold NotificationsRepository.findPending. intros (rows & s & Hs & H)%tx_bind_Ok.
  unfold db_findMany, tx_gets in Hs. injection Hs as <- <-. unfold mret, tx_ret in H.
  injection H as <- <-. split; [done|]. intros id (n & -> & Hn)%list_elem_of_fmap.
  destruct (findMany_spec _ NotificationsRepository.claimable _ 0 (Some limit)
    (notificationDeliveries (w_db w)) pending_order_total) as (l & Hp & _ & Heq).
  simpl in Hn. rewrite Heq in Hn. apply elem_of_take in Hn as (i & Hi & _).
  apply list_elem_of_lookup_2 in Hi. rewrite Hp in Hi.
  apply elem_of_where_rows in Hi as [Hc [k Hk]]. eauto.
Qed.

Lemma recover_adds : guarded sys_evolves adds_known (NotificationQueueService.recoverPending true) sys_wf.
Proof.
  unfold NotificationQueueService.recoverPending. cbn [negb].
  apply guarded_lift_await with
    (J := fun l s => sys_wf s /\ forall id, id ∈ l -> is_Some (deliveries s !! id)).
  - apply sys_wf_stable.
  - intros l s s' [Hw Hk] HE. split; [by eapply sys_wf_stable|]. eauto using deliveries_stay.
  - intros s l w Hwf [-> Hl]%findPending_inv. split; [by apply on_world_adds; unfold keeps_deliveries|].
    split; [done|]. intros id (k & n & Hn & <- & _)%Hl. simpl in *.
    rewrite (dw_id _ _ (wf_deliveries _ Hwf _ _ Hn)). eauto.
  - intros l. apply guarded_impl with (I := fun s => forall id, id ∈ l -> is_Some (deliveries s !! id)).
    { intros s s' [Hw Hk] HE. split; [by eapply sys_wf_stable|]. eauto using deliveries_stay. }
    { by intros s [_ ?]. }
    induction l as [|id l IH]; simpl; [done|].
    exists (fun _ s => forall id, id ∈ l -> is_Some (deliveries s !! id)). split_and!.
    + intros s s' Hk HE. eauto using deliveries_stay.
    + intros _ s s' Hk HE. eauto using deliveries_stay.
    + intros s u s' Hk H. unfold tell in H. injection H as _ <-. split.
      * split; [done|]. eexists [_]. split; [done|]. constructor; [|done].
        split_and!; [done|done|]. apply Hk. by left.
      * intros id' Hin. apply Hk. by right.
    + intros []. apply IH.
    + done.
Qed.

(** Both guarantees of a consumer or a recovery at work. *)
Definition adder s s' : Prop := sys_evolves s s' /\ adds_known s s'.
Definition kept : system -> prog system unit -> Prop := covered_by sys_evolves adder.

Lemma started_kept s p : sys_wf s -> kept s (started p).
Proof.
  intros Hs. exists (fun s => sys_wf s /\ sys_wf s). split; [done|]. destruct p as [c m|].
  - apply guarded_conj; [apply consume_guarded|]. unfold started, RabbitConsumersService.consume.
    apply guarded_try_any; [apply sys_wf_stable| |intros; apply retry_adds].
    apply guarded_then_any; [apply sys_wf_stable|apply work_adds|intros _; by apply tell_adds].
  - apply guarded_conj; [apply recover_guarded|apply recover_adds].
Qed.

End adders.

(** ** A processor at work *)

Section processor.
Context {Cl : Clients} {P : Prisma} {U : Uuids} {D : Decimals} {HP : HttpPlatform} {ET : ErrorText}
  {PL : PrismaLaws P} {UL : UuidsLaws U}.
Implicit Types (w : world) (id : string) (n : NotificationDelivery).

Definition handler id (error : exn) : prog world unit :=
  _ ← NotificationsRepository.markFailed id error; Throw error.
Definition delivering id : prog world unit :=
  try_catch (_ ← await (NotificationsRepository.set_delivered id); Ret tt) (handler id).

(** How far a processor is with its delivery, and what it knows of it: the lock on the job
    keeps every other processor away. *)
Inductive at_stage id n : prog world unit -> Prop :=
| stage_start : at_stage id n (NotificationQueueService.process id)
| stage_claimed : nd_status n = DelProcessing -> at_stage id n (delivering id)
| stage_failing e : at_stage id n (handler id e)
| stage_done : NotificationsRepository.claimable n = false -> at_stage id n (Ret tt)
| stage_failed e : at_stage id n (Throw e).

(** One step: the delivery of the job may change, no other does. *)
Definition stepped id w (c : config world unit) : Prop :=
  exists p n, threads c = [p] /\
    notificationDeliveries (w_db (shared c)) = <[id := n]> (notificationDeliveries (w_db w)) /\
    at_stage id n p /\ quiet w (shared c).

Lemma stepped_still id n w p :
  notificationDeliveries (w_db w) !! id = Some n -> at_stage id n p -> stepped id w (mkConfig w [p]).
Proof.
  intros Hn Hp. exists p, n. split_and!; [done| |done|apply evolves_refl]. simpl. by rewrite insert_id.
Qed.

Lemma claim_stage id n w c w' :
  wf (w_db w) -> notificationDeliveries (w_db w) !! id = Some n ->
  NotificationsRepository.claim id w = Ok (c, w') ->
  exists n', notificationDeliveries (w_db w') = <[id := n']> (notificationDeliveries (w_db w)) /\
    (c = 0%nat /\ NotificationsRepository.claimable n' = false \/
     c <> 0%nat /\ nd_status n' = DelProcessing).
Proof.
  intros Hwf Hn [Hc ->]%claim_inv. simpl. pose proof (claim_where_key _ id Hwf) as Hkey.
  rewrite (where_rows_key _ _ _ Hkey), Hn in Hc.
  assert (Hcw : claim_where id n = NotificationsRepository.claimable n).
  { unfold claim_where. by rewrite (dw_id _ _ (wf_deliveries _ Hwf _ _ Hn)), String.eqb_refl. }
  destruct (claim_where id n) eqn:Hw; rewrite Hcw in Hw.
  - exists (set_claimed (w_now w) n). split; [|by right; subst].
    apply (update_where_key _ _ _ _ _ Hkey Hn). by rewrite Hcw.
  - exists n. split; [|by left]. rewrite insert_id by done. apply update_where_none.
    intros k r Hr. destruct (claim_where id r) eqn:Hcr; [|done].
    assert (k = id) as -> by (by eapply Hkey). congruence.
Qed.

Lemma mark_stage id e n w c w' :
  wf (w_db w) -> notificationDeliveries (w_db w) !! id = Some n ->
  mark id e w = Ok (c, w') ->
  exists n', notificationDeliveries (w_db w') = <[id := n']> (notificationDeliveries (w_db w)).
Proof.
  intros Hwf Hn ->%failed_mark_inv. simpl.
  exists (if mark_where id n then set_failed e (w_now w) n else n).
  apply map_eq. intros k. rewrite lookup_update_where, lookup_insert. case_decide as Hk.
  - subst. by rewrite Hn.
  - destruct (notificationDeliveries (w_db w) !! k) as [r|] eqn:Hr; [|done]. simpl.
    destruct (mark_where id r) eqn:Hm; [|done]. destruct Hk.
    apply andb_true_iff in Hm as [<-%String.eqb_eq _].
    by apply (dw_id _ _ (wf_deliveries _ Hwf _ _ Hr)).
Qed.

(** The three ways a step may go. *)
Lemma one_step {X : Type} (v : way) w (m : tx world X) (k : result X -> prog world unit)
    (Q : config world unit -> Prop) c :
  perform (way_action v 0) (mkConfig w [Step m k]) = Some c ->
  (forall e, Q (mkConfig w [k (Err e)])) ->
  (forall x w' r, m w = Ok (x, w') -> r = Ok x \/ (exists e, r = Err e) ->
     Q (mkConfig w' [k r])) ->
  Q c.
Proof.
  intros Hp Hf Hok. destruct v as [|e|e]; simpl in Hp.
  - destruct (m w) as [[x w']|e] eqn:Hm; simplify_eq; [by eapply Hok; [|left]|done].
  - by simplify_eq.
  - destruct (m w) as [[x w']|e'] eqn:Hm; simplify_eq. eapply Hok; [done|]. right. eauto.
Qed.

Lemma works_stage id n w p v c :
  wf (w_db w) -> notificationDeliveries (w_db w) !! id = Some n -> at_stage id n p ->
  perform (way_action v 0) (mkConfig w [p]) = Some c -> stepped id w c.
Proof.
  intros Hwf Hn Hp H. destruct Hp as [|Hs|e| |e]; [| | |by destruct v..].
  - eapply one_step; [exact H| |].
    + intros e. eapply stepped_still; [exact Hn|constructor].
    + intros x w' r Hx Hr. pose proof (claim_quiet id _ _ _ Hwf Hx) as Hq.
      destruct (claim_stage _ _ _ _ _ Hwf Hn Hx) as (n' & Hdb & Hc).
      eexists _, n'. split_and!; [reflexivity|exact Hdb| |exact Hq].
      destruct Hr as [-> | [e ->]]; [|constructor]. simpl.
      destruct Hc as [[-> Hcl]|[Hne Hst]]; [by constructor|].
      rewrite bool_decide_eq_false_2 by done. by apply stage_claimed.
  - eapply one_step; [exact H| |].
    + intros e. eapply stepped_still; [exact Hn|constructor].
    + intros x w' r Hx Hr.
      assert (Ha : attempted id w).
      { split; [done|]. exists n. split; [done|].
        apply (dw_claimed _ _ (wf_deliveries _ Hwf _ _ Hn)). by rewrite Hs. }
      pose proof (set_delivered_quiet _ _ _ _ Ha Hx) as Hq.
      apply set_delivered_inv in Hx as (m & _ & Hx & ->).
      eexists _, x. split_and!; [reflexivity|done| |exact Hq].
      destruct Hr as [-> | [e ->]]; [|constructor]. apply stage_done. by rewrite Hx.
  - eapply one_step; [exact H| |].
    + intros e'. eapply stepped_still; [exact Hn|constructor].
    + intros x w' r Hx Hr. pose proof (mark_quiet id e _ _ _ Hwf Hx) as Hq.
      destruct (mark_stage _ _ _ _ _ _ Hwf Hn Hx) as (n' & Hdb).
      eexists _, n'. split_and!; [reflexivity|exact Hdb| |exact Hq].
      destruct Hr as [-> | [e' ->]]; constructor.
Qed.

End processor.

(** ** The invariant *)

Section machine.
Context {Cl : Clients} {P : Prisma} {U : Uuids} {D : Decimals} {HP : HttpPlatform} {ET : ErrorText}
  {PL : PrismaLaws P} {UL : UuidsLaws U} {B : BullMQ} {BL : BullMQLaws B}.
Implicit Types (s : state) (sys : system) (id : string) (j : job) (n : NotificationDelivery).

(** The rest of the system moves, without the notifications. *)
Definition permitted (e : event) s : Prop :=
  match e with
  | Elsewhere sys => sys_evolves (st_system s) sys /\ deliveries sys = deliveries (st_system s)
  | _ => True
  end.
Definition moves s s' : Prop := exists e, permitted e s /\ step e s = Some s'.

(** A job of the service: its data is its id, it has five attempts and the first delay is a
    second; it is only completed when there is nothing left to do. *)
Record job_sound sys id j : Prop := {
  js_data : j_data j = id;
  js_options : j_options j = mkJobOptions 5 1000;
  js_attempts : 0 <= j_attemptsMade j <= 5;
  js_left : finished (j_state j) = false -> j_attemptsMade j < 5;
  js_delivery : exists n, deliveries sys !! id = Some n /\
    (j_state j = Completed -> NotificationsRepository.claimable n = false);
}.
Definition jobs_sound sys (q : queue) : Prop :=
  options q = defaultJobOptions /\ forall id j, getJob id q = Some j -> job_sound sys id j.

Record tidy s : Prop := {
  tidy_wf : sys_wf (st_system s);
  tidy_jobs : jobs_sound (st_system s) (st_queue s);
  tidy_active : forall id p, st_active s !! id = Some p -> exists j n,
    getJob id (st_queue s) = Some j /\ j_state j = Active /\
    deliveries (st_system s) !! id = Some n /\ at_stage id n p;
  tidy_others : Forall (kept (st_system s)) (st_others s);
}.

Lemma opened_tidy sys : sys_wf sys -> tidy (opened sys).
Proof.
  intros Hs. split; simpl.
  - done.
  - split; [apply options_new|]. intros id j. by rewrite getJob_new.
  - intros id p. by rewrite lookup_empty.
  - done.
Qed.

Lemma job_sound_keeps sys sys' id j :
  deliveries sys ⊆ deliveries sys' -> job_sound sys id j -> job_sound sys' id j.
Proof.
  intros Hk [? ? ? ? (n & Hn & ?)]. split; try done. exists n. split; [|done].
  by eapply lookup_weaken.
Qed.

(** What an addition does: nothing to the jobs there are. *)
Lemma receive_sound sys o (q : queue) :
  job_for_delivery sys o -> jobs_sound sys q ->
  jobs_sound sys (receive o q) /\
  (forall id j, getJob id q = Some j -> getJob id (receive o q) = Some j).
Proof.
  intros Ho Hq. destruct o as [| | |id a d| |]; simpl; try by split.
  destruct Ho as (-> & -> & [n Hn]). destruct (getJob id q) as [j|] eqn:Hj.
  { rewrite add_known by (rewrite Hj; eauto). by split. }
  destruct Hq as [Ho Hq]. split; [split; [by rewrite options_add|]|].
  - intros id' j. rewrite add_fresh by done. case_bool_decide as Hid; [|by apply Hq].
    intros [= <-]. subst. split; simpl; [done|done|done|done|]. by exists n.
  - intros id' j Hj'. rewrite add_fresh by done. case_bool_decide; [congruence|done].
Qed.

Lemma receive_all_sound sys l (q : queue) :
  Forall (job_for_delivery sys) l -> jobs_sound sys q ->
  jobs_sound sys (receive_all l q) /\
  (forall id j, getJob id q = Some j -> getJob id (receive_all l q) = Some j).
Proof.
  intros Hl. revert q. induction Hl as [|o l Ho Hl IH]; intros q Hq; [done|].
  destruct (receive_sound _ _ _ Ho Hq) as [Hq' Hk]. destruct (IH _ Hq') as [? Hk'].
  split; [done|]. intros id j Hj. by apply Hk', Hk.
Qed.

Lemma kept_forall sys sys' ps :
  sys_evolves sys sys' -> Forall (kept sys) ps -> Forall (kept sys') ps.
Proof. intros HE Hall. eapply Forall_impl; [exact Hall|]. intros p Hp. by eapply covered_by_mono. Qed.

Lemma adds_news sys sys' :
  adds_known sys sys' -> Forall (job_for_delivery sys') (news sys sys').
Proof. intros [_ (new & Hlog & Hnew)]. unfold news. by rewrite Hlog, drop_app_length. Qed.

Lemma others_tidy s c :
  tidy s -> adder (st_system s) (shared c) -> Forall (kept (shared c)) (threads c) ->
  tidy (after_others c s).
Proof.
  intros Hs [HE Hadd] Hall. destruct (tidy_jobs _ Hs) as [Ho Hj].
  assert (Hsub : deliveries (st_system s) ⊆ deliveries (shared c)) by apply Hadd.
  destruct (receive_all_sound (shared c) (news (st_system s) (shared c)) (st_queue s))
    as [Hq Hk]; [by apply adds_news| |].
  { split; [done|]. intros id j Hid. eapply job_sound_keeps; eauto. }
  split; simpl.
  - eapply sys_wf_stable; [apply (tidy_wf _ Hs)|done].
  - done.
  - intros id p Hp. destruct (tidy_active _ Hs _ _ Hp) as (j & n & ? & ? & ? & ?).
    exists j, n. split_and!; auto. by eapply lookup_weaken.
  - done.
Qed.

Lemma adder_refl (sys : system) : adder sys sys.
Proof. split; [apply sys_evolves_refl|apply adds_known_refl]. Qed.

Definition inward (a : action system unit) : Prop :=
  match a with Spawn _ | Environment _ => False | _ => True end.

Lemma acts_tidy s a c :
  inward a -> tidy s -> perform a (mkConfig (st_system s) (st_others s)) = Some c ->
  tidy (after_others c s).
Proof.
  intros Ha Hs Hp.
  destruct (perform_covered_by sys_evolves adder sys_evolves_refl adder_refl
    (fun _ _ H => proj1 H) a (mkConfig (st_system s) (st_others s)) c) as (_ & Hall & HG); try done.
  - apply (tidy_others _ Hs).
  - by destruct a.
  - apply others_tidy; [done| |done]. by destruct a.
Qed.

(** A change of one delivery and of the job it belongs to. *)
Lemma begins_tidy s p :
  tidy s -> tidy (mkState (st_system s) (st_queue s) (st_active s) (st_others s ++ [started p])).
Proof.
  intros [? ? ? ?]. split; simpl; try done. apply Forall_app. split; [done|].
  constructor; [by apply started_kept|done].
Qed.

Lemma elsewhere_tidy s sys :
  tidy s -> sys_evolves (st_system s) sys -> deliveries sys = deliveries (st_system s) ->
  tidy (mkState sys (st_queue s) (st_active s) (st_others s)).
Proof.
  intros [Hw [Ho Hj] Ha Hk] HE Hd. split; simpl.
  - by eapply sys_wf_stable.
  - split; [done|]. intros id j Hid. apply (job_sound_keeps (st_system s)); [by rewrite Hd|by apply Hj].
  - rewrite Hd. done.
  - by eapply kept_forall.
Qed.

Lemma works_tidy s id v p c p' :
  tidy s -> st_active s !! id = Some p ->
  perform (way_action v 0) (mkConfig (sys_world (st_system s)) [p]) = Some c ->
  threads c !! 0%nat = Some p' ->
  tidy (mkState (with_world (shared c) (st_system s)) (st_queue s) (<[id := p']> (st_active s))
          (st_others s)).
Proof.
  intros Hs Hp Hc Hp'. destruct (tidy_active _ Hs _ _ Hp) as (j & n & Hj & Hst & Hn & Hat).
  destruct (works_stage id n _ p v c (tidy_wf _ Hs) Hn Hat Hc) as (q & n' & Hth & Hdb & Hat' & Hq).
  rewrite Hth in Hp'. simpl in Hp'. injection Hp' as <-. destruct (tidy_jobs _ Hs) as [Ho Hjobs].
  split; simpl.
  - eapply sys_wf_stable; [apply (tidy_wf _ Hs)|by apply quiet_sys].
  - split; [done|]. intros id' j' Hj'. destruct (Hjobs _ _ Hj') as [? ? ? ? (m & Hm & Hcl)].
    split; try done. simpl. rewrite Hdb. destruct (decide (id' = id)) as [->|Hne].
    + exists n'. rewrite lookup_insert_eq. split; [done|]. intros Hco. congruence.
    + exists m. by rewrite lookup_insert_ne.
  - intros id' p'. rewrite Hdb, !lookup_insert. case_decide as Hid.
    + subst. intros [= <-]. by exists j, n'.
    + apply (tidy_active _ Hs).
  - eapply kept_forall; [by apply quiet_sys|apply (tidy_others _ Hs)].
Qed.

Lemma locks_tidy s id t q j :
  tidy s -> lock id t (st_queue s) = Some q -> getJob id q = Some j ->
  tidy (mkState (st_system s) q
          (<[id := NotificationQueueService.process (j_data j)]> (st_active s)) (st_others s)).
Proof.
  intros Hs (Ho & j0 & Hj0 & Hr & Hj & Hoth)%lock_inv Hj'. rewrite Hj in Hj'. injection Hj' as <-.
  destruct (tidy_jobs _ Hs) as [Hopt Hjobs].
  destruct (Hjobs _ _ Hj0) as [Hd ? ? Hleft (n & Hn & _)]. simpl. rewrite Hd.
  assert (Hfin : finished (j_state j0) = false).
  { unfold ready in Hr. by destruct (j_state j0). }
  split; simpl.
  - apply Hs.
  - split; [congruence|]. intros id' j'. destruct (decide (id' = id)) as [->|Hne].
    + rewrite Hj. intros [= <-]. split; simpl; auto. exists n. by split.
    + rewrite Hoth by done. apply Hjobs.
  - intros id' p'. rewrite lookup_insert. case_decide as Hid.
    + subst. intros [= <-]. exists (in_state Active j0), n. split_and!; try done. constructor.
    + intros Hp'. rewrite Hoth by done. by apply (tidy_active _ Hs).
  - apply Hs.
Qed.

Lemma settles_tidy s id ok t q p :
  tidy s -> st_active s !! id = Some p ->
  match p with Ret _ => Some true | Throw _ => Some false | _ => None end = Some ok ->
  settle id ok t (st_queue s) = Some q ->
  tidy (mkState (st_system s) q (delete id (st_active s)) (st_others s)).
Proof.
  intros Hs Hp Hok Hset. destruct (tidy_active _ Hs _ _ Hp) as (j & n & Hj & Hst & Hn & Hat).
  destruct (settle_inv _ _ _ _ _ Hset) as (Ho & j0 & Hj0 & _ & Hj').
  rewrite Hj0 in Hj. injection Hj as ->. destruct (tidy_jobs _ Hs) as [Hopt Hjobs].
  assert (Hdone : ok = true -> NotificationsRepository.claimable n = false).
  { intros ->. destruct Hat; try done. }
  split; simpl.
  - apply Hs.
  - split; [congruence|]. intros id' j'. destruct (decide (id' = id)) as [->|Hne].
    + rewrite Hj'. intros [= <-]. destruct (Hjobs _ _ Hj0) as [? Hjo ? Hleft _].
      rewrite Hst in Hleft. specialize (Hleft eq_refl). split; simpl; try done; [lia| |].
      * rewrite Hjo. simpl. destruct ok; [done|]. destruct (Z.ltb_spec (j_attemptsMade j + 1) 5); [lia|done].
      * exists n. split; [done|]. intros Hco. apply Hdone. destruct ok; [done|].
        by destruct (_ <? _) in Hco.
    + intros Hg. destruct (getJob id' (st_queue s)) as [j2|] eqn:Hj2.
      * destruct (settle_others _ _ _ _ _ _ _ Hset Hne Hj2) as [Hk|(Hk & _)]; [|congruence].
        assert (j' = j2) as -> by congruence. by apply Hjobs.
      * rewrite (settle_none _ _ _ _ _ _ Hset Hj2) in Hg. done.
  - intros id' p'. rewrite lookup_delete. case_decide; [done|]. intros Hp'.
    destruct (tidy_active _ Hs _ _ Hp') as (j2 & m & Hj2 & Hst2 & ? & ?). exists j2, m.
    split_and!; try done.
    destruct (settle_others _ _ _ _ _ _ _ Hset (not_eq_sym H) Hj2) as [Hk|(_ & Hf & _)]; [done|].
    by rewrite Hst2 in Hf.
  - apply Hs.
Qed.

Lemma dies_tidy s id :
  tidy s -> tidy (mkState (st_system s) (st_queue s) (delete id (st_active s)) (st_others s)).
Proof.
  intros [? ? Ha ?]. split; simpl; try done. intros id' p'. rewrite lookup_delete.
  case_decide; [done|apply Ha].
Qed.

Lemma stalls_tidy s id q :
  tidy s -> st_active s !! id = None -> stall id (st_queue s) = Some q ->
  tidy (mkState (st_system s) q (st_active s) (st_others s)).
Proof.
  intros Hs Hno (Ho & j & st & Hj & Hst & Hst' & Hj' & Hoth)%stall_inv.
  destruct (tidy_jobs _ Hs) as [Hopt Hjobs]. split; simpl.
  - apply Hs.
  - split; [congruence|]. intros id' j'. destruct (decide (id' = id)) as [->|Hne].
    + rewrite Hj'. intros [= <-]. destruct (Hjobs _ _ Hj) as [? ? ? Hleft (n & Hn & _)].
      rewrite Hst in Hleft. split; simpl; auto. exists n. split; [done|]. by destruct Hst' as [-> | ->].
    + rewrite Hoth by done. apply Hjobs.
  - intros id' p' Hp'. destruct (decide (id' = id)) as [->|Hne]; [congruence|].
    rewrite Hoth by done. by apply (tidy_active _ Hs).
  - apply Hs.
Qed.

Lemma moves_tidy s s' : tidy s -> moves s s' -> tidy s'.
Proof.
  intros Hs (e & Hperm & He). destruct e as [p|i v|i|id|id v|id|id|id|sys]; simpl in He.
  - simplify_eq. by apply begins_tidy.
  - apply bind_Some in He as (c & Hc & [= <-]). eapply acts_tidy; [|done|exact Hc]. by destruct v.
  - apply bind_Some in He as (c & Hc & [= <-]). by eapply (acts_tidy s (Crash i)); [|done|exact Hc].
  - apply bind_Some in He as (q & Hq & He). apply bind_Some in He as (j & Hj & [= <-]).
    by eapply locks_tidy.
  - apply bind_Some in He as (p & Hp & He). apply bind_Some in He as (c & Hc & He).
    apply bind_Some in He as (p' & Hp' & [= <-]). by eapply works_tidy.
  - apply bind_Some in He as (p & Hp & He). apply bind_Some in He as (ok & Hok & He).
    apply bind_Some in He as (q & Hq & [= <-]). by eapply settles_tidy.
  - apply bind_Some in He as (p & Hp & [= <-]). by apply dies_tidy.
  - destruct (st_active s !! id) eqn:Hno; [done|]. apply bind_Some in He as (q & Hq & [= <-]).
    by eapply stalls_tidy.
  - simplify_eq. destruct Hperm. by apply elsewhere_tidy.
Qed.

Lemma rtc_tidy s s' : tidy s -> rtc moves s s' -> tidy s'.
Proof. intros Hs H. induction H; eauto using moves_tidy. Qed.

Lemma reached_tidy sys s : sys_wf sys -> rtc moves (opened sys) s -> tidy s.
Proof. intros Hw. by apply rtc_tidy, opened_tidy. Qed.

End machine.
