(* ===== verification/DeliveryOutcome.v ===== *)
(** * How a delivery ends

    From any state the delivery queue may reach (DeliveryQueueSpec.v): a delivery that is owed
    and has a job that waits, or no job and a place among the first hundred of the recovery, can
    be delivered; one whose job has failed five times stays as it is; and one that was claimed
    and then neither finished nor marked as failed is lost. *)
From S2P Require Import Prelude JsStrings Errors Effects Prisma Schema Orders Evolution OrderFlow.
From S2P Require Import System Outbox OutboxSpec Workers WorkersFlow Rabbit RabbitSpec.
From S2P Require Import DeliveryQueue DeliveryQueueSpec.
Import Delivery.

Section outcome.
Context {Cl : Clients} {P : Prisma} {U : Uuids} {D : Decimals} {HP : HttpPlatform} {ET : ErrorText}
  {PL : PrismaLaws P} {UL : UuidsLaws U} {B : BullMQ} {BL : BullMQLaws B}.
Implicit Types (s : state) (sys : system) (id : string) (j : job) (n : NotificationDelivery).

Abbreviation world_of s := (sys_world (st_system s)).
Abbreviation time s := (w_now (sys_world (st_system s))).

(** A delivery that is still to be made. *)
Definition owed s id n : Prop :=
  deliveries (st_system s) !! id = Some n /\ NotificationsRepository.claimable n = true.
Definition columns_fit sys : Prop :=
  forall k n, deliveries sys !! k = Some n -> delivery_columns n = true.

(** It is delivered, and its job completed. *)
Definition ended_well s id : Prop :=
  (exists n, deliveries (st_system s) !! id = Some n /\ nd_status n = DelDelivered) /\
  exists j, getJob id (st_queue s) = Some j /\ j_state j = Completed.
Definition can_deliver s id : Prop := exists s', rtc moves s s' /\ ended_well s' id.

(** What the recovery finds. *)
Definition pending (w : world) : list string :=
  map nd_id (findMany NotificationsRepository.claimable
    (fun a b => nd_createdAt a <=? nd_createdAt b) 0 (Some 100%nat) (notificationDeliveries (w_db w))).

Lemma elem_of_pending w id :
  id ∈ pending w -> exists k n, notificationDeliveries (w_db w) !! k = Some n /\ nd_id n = id /\
    NotificationsRepository.claimable n = true.
Proof. by apply (findPending_inv 100 w (pending w) w). Qed.

(** As many failed jobs as the queue keeps. *)
Definition crowded s : Prop :=
  exists l, NoDup l /\ (5000 <= length l)%nat /\
    forall i, i ∈ l -> exists j, getJob i (st_queue s) = Some j /\ j_state j = Failed.

Lemma with_same_world sys : with_world (sys_world sys) sys = sys.
Proof. by destruct sys. Qed.

Lemma move_by e s s' : permitted e s -> step e s = Some s' -> moves s s'.
Proof. intros. by exists e. Qed.

(** ** Time passes *)

Definition later (t : Z) (w : world) : world := mkWorld (w_db w) t (w_nonce w).

Lemma waits s t :
  time s <= t ->
  moves s (mkState (with_world (later t (world_of s)) (st_system s)) (st_queue s) (st_active s)
             (st_others s)).
Proof.
  intros Ht. apply (move_by (Elsewhere (with_world (later t (world_of s)) (st_system s)))); [|done].
  split; [|done]. apply quiet_sys, time_passes_evolves. by exists t.
Qed.

(** A job that waits becomes ready, with nothing else changed. *)
Lemma becomes_ready s id j :
  getJob id (st_queue s) = Some j -> j_state j = Queued \/ (exists u, j_state j = Delayed u) ->
  exists t, time s <= t /\ ready t j = true.
Proof.
  intros _ [Hq|[u Hu]].
  - exists (time s). unfold ready. rewrite Hq. split; [lia|done].
  - exists (Z.max (time s) u). unfold ready. rewrite Hu. split; lia.
Qed.

(** ** A processor, step by step *)

Lemma works_all id k : forall s p c p',
  st_active s !! id = Some p ->
  perform_all (replicate k (Run 0)) (mkConfig (world_of s) [p]) = Some c -> threads c = [p'] ->
  rtc moves s (mkState (with_world (shared c) (st_system s)) (st_queue s)
                 (<[id := p']> (st_active s)) (st_others s)).
Proof.
  induction k as [|k IH]; intros s p c p' Hp Hc Hth; simpl in Hc.
  { injection Hc as <-. simpl in Hth. injection Hth as <-. simpl.
    rewrite with_same_world, insert_id by done. by destruct s. }
  destruct p as [| |X m f]; simpl in Hc; [done..|].
  set (next := match m (world_of s) with
               | Ok (b, w) => mkConfig w [f (Ok b)]
               | Err e => mkConfig (world_of s) [f (Err e)] end).
  assert (Hnext : perform (Run 0) (mkConfig (world_of s) [Step m f]) = Some next).
  { unfold next. simpl. by destruct (m (world_of s)) as [[b w]|e]. }
  assert (Hrest : perform_all (replicate k (Run 0)) next = Some c).
  { unfold next. destruct (m (world_of s)) as [[b w]|e]; exact Hc. }
  assert (Hone : exists q, threads next = [q]).
  { unfold next. destruct (m (world_of s)) as [[b w]|e]; eauto. }
  destruct Hone as [q Hq].
  set (s1 := mkState (with_world (shared next) (st_system s)) (st_queue s)
    (<[id := q]> (st_active s)) (st_others s)).
  eapply (rtc_l _ _ s1).
  { apply (move_by (Works id Taken)); [done|]. unfold step. rewrite Hp. cbn [mbind option_bind].
    unfold way_action. rewrite Hnext. cbn [mbind option_bind]. by rewrite Hq. }
  assert (Hn : next = mkConfig (shared next) [q]) by (rewrite <-Hq; by destruct next).
  rewrite Hn in Hrest.
  pose proof (IH s1 q c p') as H. simpl in H. rewrite lookup_insert_eq, insert_insert_eq in H.
  by apply H.
Qed.

Lemma locks_ready s id j :
  tidy s -> getJob id (st_queue s) = Some j -> ready (time s) j = true ->
  exists q, moves s (mkState (st_system s) q
      (<[id := NotificationQueueService.process id]> (st_active s)) (st_others s)) /\
    getJob id q = Some (in_state Active j).
Proof.
  intros Hs Hj Hr. destruct (lock_ready _ _ _ _ Hj Hr) as [q Hq].
  pose proof Hq as (_ & j0 & Hj0 & _ & Hj' & _)%lock_inv.
  assert (j0 = j) as -> by congruence. exists q. split; [|done].
  apply (move_by (Locks id)); [done|]. unfold step. rewrite Hq. cbn [mbind option_bind].
  rewrite Hj'. cbn [mbind option_bind].
  destruct (tidy_jobs _ Hs) as [_ Hjobs]. simpl. by rewrite (js_data _ _ _ (Hjobs _ _ Hj)).
Qed.

Lemma settles_active s id p (ok : bool) j :
  st_active s !! id = Some p ->
  match p with Ret _ => Some true | Throw _ => Some false | _ => None end = Some ok ->
  getJob id (st_queue s) = Some j -> j_state j = Active ->
  exists q, moves s (mkState (st_system s) q (delete id (st_active s)) (st_others s)) /\
    getJob id q = Some (settled ok (time s) j).
Proof.
  intros Hp Hok Hj Hst. destruct (settle_active id ok (time s) _ _ Hj Hst) as [q Hq].
  pose proof Hq as (_ & j0 & Hj0 & _ & Hj')%settle_inv. assert (j0 = j) as -> by congruence.
  exists q. split; [|done]. apply (move_by (Settles id)); [done|]. unfold step.
  rewrite Hp. cbn [mbind option_bind]. rewrite Hok. cbn [mbind option_bind]. by rewrite Hq.
Qed.

(** A ready job of an owed delivery delivers it. *)
Lemma ready_delivers s id j n :
  tidy s -> getJob id (st_queue s) = Some j -> ready (time s) j = true ->
  owed s id n -> columns_fit (st_system s) -> can_deliver s id.
Proof.
  intros Hs Hj Hr [Hn Hcl] Hcols. destruct (locks_ready _ _ _ Hs Hj Hr) as (q & Hlock & Hj1).
  pose proof (delivery_job id (world_of s) (tidy_wf _ Hs) Hcols) as Hjob. rewrite Hn, Hcl in Hjob.
  destruct Hjob as (n' & w' & Hrun & Hdb & Hst & _).
  destruct (run_is_schedule (NotificationQueueService.process id) (world_of s)) as [k Hk].
  rewrite Hrun in Hk.
  set (s1 := mkState (st_system s) q (<[id := NotificationQueueService.process id]> (st_active s))
    (st_others s)) in *.
  pose proof (works_all id k s1 _ _ (Ret tt) ltac:(apply lookup_insert_eq) Hk eq_refl) as Hworks.
  set (s2 := mkState _ _ _ _) in Hworks.
  destruct (settles_active s2 id (Ret tt) true (in_state Active j)) as (q' & Hset & Hj2);
    [apply lookup_insert_eq|done|done|done|].
  eexists. split.
  - eapply rtc_l; [exact Hlock|]. etrans; [exact Hworks|]. by apply rtc_once.
  - split; simpl.
    + exists n'. rewrite Hdb, lookup_insert_eq. done.
    + eexists. by split.
Qed.

Lemma waiting_delivers s id j n :
  tidy s -> getJob id (st_queue s) = Some j ->
  j_state j = Queued \/ (exists u, j_state j = Delayed u) ->
  owed s id n -> columns_fit (st_system s) -> can_deliver s id.
Proof.
  intros Hs Hj Hst Hn Hcols. destruct (becomes_ready _ _ _ Hj Hst) as (t & Ht & Hr).
  pose proof (waits s t Ht) as Hw. eassert (Hd : can_deliver _ id).
  { eapply ready_delivers; [eapply moves_tidy; [exact Hs|exact Hw]|exact Hj|exact Hr|exact Hn|exact Hcols]. }
  destruct Hd as (s' & Hr' & He). exists s'. split; [|done]. by eapply rtc_l.
Qed.

(** ** The recovery *)

Definition queued_job id : job := mkJob id (mkJobOptions 5 1000) 0 Queued.

Definition add_all (l : list string) (q : queue) : queue :=
  foldl (fun q id => add id id (mkJobOptions 5 1000) q) q l.

Lemma add_all_kept l id j (q : queue) :
  getJob id q = Some j -> getJob id (add_all l q) = Some j.
Proof.
  revert q. induction l as [|i l IH]; intros q Hq; simpl; [done|]. apply IH.
  destruct (getJob i q) as [ji|] eqn:Hi; [by rewrite add_known by (rewrite Hi; eauto)|].
  rewrite add_fresh by done. case_bool_decide; [congruence|done].
Qed.

Lemma add_all_new l id (q : queue) :
  id ∈ l -> getJob id q = None -> getJob id (add_all l q) = Some (queued_job id).
Proof.
  revert q. induction l as [|i l IH]; intros q Hin Hq; simpl; [by apply not_elem_of_nil in Hin|].
  destruct (decide (id = i)) as [->|Hne].
  { apply add_all_kept. by rewrite add_fresh, bool_decide_eq_true_2 by done. }
  apply IH; [by apply elem_of_cons in Hin as [?|?]|].
  destruct (getJob i q) as [ji|] eqn:Hi; [by rewrite add_known by (rewrite Hi; eauto)|].
  rewrite add_fresh by done. by rewrite bool_decide_eq_false_2.
Qed.

Lemma adds_all i l : forall s,
  st_others s !! i = Some (for_each (NotificationQueueService.enqueue true) l) ->
  exists s', rtc moves s s' /\ sys_world (st_system s') = world_of s /\
    st_queue s' = add_all l (st_queue s) /\ st_active s' = st_active s.
Proof.
  induction l as [|id l IH]; intros s Hi; [by exists s|].
  set (sys' := mkSystem (world_of s) (sys_log (st_system s) ++ [JobAdded id 5 1000])
    (sys_running (st_system s)) (sys_reachable (st_system s)) (sys_cache (st_system s))).
  set (c := mkConfig sys' (<[i := for_each (NotificationQueueService.enqueue true) l]> (st_others s))).
  assert (Hm : moves s (after_others c s)).
  { apply (move_by (Goes i Taken)); [done|]. simpl. rewrite Hi. reflexivity. }
  destruct (IH (after_others c s)) as (s' & Hr & Hw & Hq & Ha).
  { simpl. apply list_lookup_insert_eq. by eapply lookup_lt_Some. }
  exists s'. split_and!; [by eapply rtc_l|done| |done].
  rewrite Hq. simpl. unfold news. simpl. by rewrite drop_app_length.
Qed.

Lemma recovers s :
  exists s', rtc moves s s' /\ sys_world (st_system s') = world_of s /\
    st_queue s' = add_all (pending (world_of s)) (st_queue s) /\ st_active s' = st_active s.
Proof.
  set (i := length (st_others s)).
  set (s1 := mkState (st_system s) (st_queue s) (st_active s) (st_others s ++ [started Recovery])).
  assert (H1 : moves s s1) by by apply (move_by (Begins Recovery)).
  assert (Hi : st_others s1 !! i = Some (started Recovery)).
  { simpl. by rewrite lookup_app_r, Nat.sub_diag by (unfold i; lia). }
  set (c := mkConfig (st_system s) (<[i := for_each (NotificationQueueService.enqueue true)
    (pending (world_of s))]> (st_others s1))).
  assert (Hf : on_world (NotificationsRepository.findPending 100) (st_system s) =
    Ok (pending (world_of s), st_system s)).
  { transitivity (Ok (pending (world_of s), with_world (world_of s) (st_system s)));
      [reflexivity|by rewrite with_same_world]. }
  assert (Hk : exists k, started Recovery =
      Step (on_world (NotificationsRepository.findPending 100)) k /\
      forall l, k (Ok l) = for_each (NotificationQueueService.enqueue true) l).
  { eexists. split; reflexivity. }
  destruct Hk as (k & Hk & Hkl).
  assert (H2 : moves s1 (after_others c s1)).
  { apply (move_by (Goes i Taken)); [done|]. unfold step, perform, way_action. cbn [threads shared].
    rewrite Hi, Hk. cbn [st_system s1]. by rewrite Hf, Hkl. }
  destruct (adds_all i (pending (world_of s)) (after_others c s1)) as (s' & Hr & Hw & Hq & Ha).
  { simpl. apply list_lookup_insert_eq. by eapply lookup_lt_Some. }
  exists s'. split_and!; [eapply rtc_l; [done|by eapply rtc_l]|done| |done].
  rewrite Hq. simpl. unfold news. simpl. by rewrite drop_all.
Qed.

(** ** What is owed can be delivered, or has failed *)

(** C13: A notification that is still to be delivered, PENDING or FAILED with fewer than five
    attempts, in any state that consumers, recoveries, processors, their failures and their
    deaths may lead to, has no completed job. If its job waits, for a worker or for its next
    attempt, it can be delivered; so it can if it has no job and is among the first hundred the
    recovery finds. A job carries the identifier of its delivery and is attempted at most five
    times. (A delivery that was left PROCESSING is not among these: [claimed_delivery_lost].) *)
Theorem delivery_owed sys s id n :
  sys_wf sys -> rtc moves (opened sys) s -> owed s id n -> columns_fit (st_system s) ->
  match getJob id (st_queue s) with
  | None => id ∈ pending (sys_world (st_system s)) -> can_deliver s id
  | Some j => j_data j = id /\ 0 <= j_attemptsMade j <= 5 /\
      match j_state j with
      | Completed => False
      | Queued | Delayed _ => can_deliver s id
      | Active | Failed => True
      end
  end.
Proof.
  intros Hw Hr Hn Hcols. pose proof (reached_tidy _ _ Hw Hr) as Hs.
  destruct (tidy_jobs _ Hs) as [_ Hjobs]. destruct (getJob id (st_queue s)) as [j|] eqn:Hj.
  - destruct (Hjobs _ _ Hj) as [Hd _ Ha _ (m & Hm & Hc)]. split; [done|]. split; [done|].
    destruct (j_state j) as [| |u| |] eqn:Hst; [|done| | |done].
    + eapply waiting_delivers; eauto.
    + eapply waiting_delivers; eauto.
    + destruct Hn as [Hn Hcl]. assert (m = n) as -> by congruence. by rewrite Hc in Hcl.
  - intros Hp. destruct (recovers s) as (s' & Hr' & Hsw & Hq & _).
    assert (Hj' : getJob id (st_queue s') = Some (queued_job id)).
    { rewrite Hq. by apply add_all_new. }
    destruct (ready_delivers s' id (queued_job id) n) as (s2 & Hr2 & He).
    + eapply reached_tidy; [exact Hw|]. by etrans.
    + done.
    + done.
    + split; [|apply Hn]. rewrite Hsw. apply Hn.
    + unfold columns_fit. by rewrite Hsw.
    + exists s2. split; [by etrans|done].
Qed.

(** ** A job that fails for good *)

(** One attempt during which the database cannot be reached. *)
Lemma attempt_fails s id j :
  tidy s -> getJob id (st_queue s) = Some j -> ready (time s) j = true ->
  exists s', rtc moves s s' /\ deliveries (st_system s') = deliveries (st_system s) /\
    getJob id (st_queue s') = Some (settled false (time s) j).
Proof.
  intros Hs Hj Hr. destruct (locks_ready _ _ _ Hs Hj Hr) as (q & Hlock & Hj1).
  set (e := JsError "Can't reach database server").
  set (with_processor := fun p => mkState (st_system s) q (<[id := p]> (st_active s)) (st_others s)).
  assert (Hfail : forall p p', perform (Fault 0 e) (mkConfig (world_of s) [p]) =
      Some (mkConfig (world_of s) [p']) -> moves (with_processor p) (with_processor p')).
  { intros p p' Hp. apply (move_by (Works id (Fails e))); [done|].
    unfold step, with_processor. cbn [st_active st_system st_queue st_others].
    rewrite lookup_insert_eq. cbn [mbind option_bind]. unfold way_action. rewrite Hp.
    cbn -[with_world]. by rewrite with_same_world, insert_insert_eq. }
  destruct (settles_active (with_processor (Throw e)) id (Throw e) false (in_state Active j))
    as (q' & Hset & Hj2); [apply lookup_insert_eq|done|done|done|].
  eexists. split_and!.
  - eapply rtc_l; [exact Hlock|].
    eapply rtc_l; [apply (Hfail _ (handler id e)); reflexivity|].
    eapply rtc_l; [apply (Hfail _ (Throw e)); reflexivity|]. by apply rtc_once.
  - done.
  - exact Hj2.
Qed.

Lemma attempts_fail k : forall s id j,
  tidy s -> getJob id (st_queue s) = Some j ->
  j_state j = Queued \/ (exists u, j_state j = Delayed u) -> 5 - j_attemptsMade j = Z.of_nat k ->
  exists s' j', rtc moves s s' /\ deliveries (st_system s') = deliveries (st_system s) /\
    getJob id (st_queue s') = Some j' /\ j_state j' = Failed.
Proof.
  induction k as [|k IH]; intros s id j Hs Hj Hst Hk.
  { destruct (tidy_jobs _ Hs) as [_ Hjobs]. pose proof (js_left _ _ _ (Hjobs _ _ Hj)) as Hl.
    destruct Hst as [Hst|[u Hst]]; rewrite Hst in Hl; specialize (Hl eq_refl); lia. }
  destruct (becomes_ready _ _ _ Hj Hst) as (t & Ht & Hr). pose proof (waits s t Ht) as Hw.
  set (s1 := mkState _ _ _ _) in Hw.
  assert (Hs1 : tidy s1) by by eapply moves_tidy.
  destruct (attempt_fails s1 id j Hs1 Hj Hr) as (s2 & Hr2 & Hd2 & Hj2).
  assert (Hs2 : tidy s2) by by eapply rtc_tidy.
  assert (Hrs : rtc moves s s2) by by eapply rtc_l.
  destruct (tidy_jobs _ Hs) as [_ Hjobs]. pose proof (js_options _ _ _ (Hjobs _ _ Hj)) as Ho.
  unfold settled in Hj2. rewrite Ho in Hj2. simpl in Hj2.
  destruct (Z.ltb_spec (j_attemptsMade j + 1) 5) as [Hlt|Hge].
  - destruct (IH s2 id _ Hs2 Hj2) as (s3 & j3 & Hr3 & Hd3 & Hj3 & Hf).
    + right. by eexists.
    + simpl. lia.
    + exists s3, j3. split_and!; [by etrans|by rewrite Hd3, Hd2|done|done].
  - exists s2. eexists. by split_and!.
Qed.

(** ** A delivery that is claimed and not finished *)

(** One step of the processor, at work on [w]. *)
Definition working s (q : queue) id (w : world) (p : prog world unit) : state :=
  mkState (with_world w (st_system s)) q (<[id := p]> (st_active s)) (st_others s).

Lemma works_once s q id w p v w' p' :
  perform (way_action v 0) (mkConfig w [p]) = Some (mkConfig w' [p']) ->
  moves (working s q id w p) (working s q id w' p').
Proof.
  intros Hp. apply (move_by (Works id v)); [done|]. unfold step, working.
  cbn [st_active st_system st_queue st_others]. rewrite lookup_insert_eq. cbn [mbind option_bind].
  unfold way_action in *. cbn [sys_world with_world]. rewrite Hp.
  cbn -[with_world]. by rewrite insert_insert_eq.
Qed.

(** An attempt whose processor claims the delivery and cannot reach the database after that. *)
Lemma attempt_breaks s id j n :
  tidy s -> getJob id (st_queue s) = Some j -> ready (time s) j = true -> owed s id n ->
  columns_fit (st_system s) ->
  exists s', rtc moves s s' /\
    deliveries (st_system s') =
      <[id := set_claimed (time s) n]> (deliveries (st_system s)) /\
    getJob id (st_queue s') = Some (settled false (time s) j).
Proof.
  intros Hs Hj Hr [Hn Hcl] Hcols. destruct (locks_ready _ _ _ Hs Hj Hr) as (q & Hlock & Hj1).
  set (e := JsError "Can't reach database server").
  pose proof (claim_run id (world_of s) (tidy_wf _ Hs) Hcols) as Hclaim. rewrite Hn, Hcl in Hclaim.
  set (w1 := with_db _ _) in Hclaim.
  destruct (settles_active (working s q id w1 (Throw e)) id (Throw e) false (in_state Active j))
    as (q' & Hset & Hj2); [apply lookup_insert_eq|done|done|done|].
  eexists. split_and!.
  - eapply rtc_l; [exact Hlock|].
    eapply (rtc_l _ _ (working s q id w1 (delivering id))).
    { rewrite <-(with_same_world (st_system s)) at 1.
      apply (works_once s q id (world_of s) _ Taken). cbn [way_action perform threads shared].
      unfold NotificationQueueService.process, NotificationsRepository.deliver.
      simpl. rewrite Hclaim. reflexivity. }
    eapply rtc_l; [apply (works_once s q id w1 _ (Fails e) w1 (handler id e)); reflexivity|].
    eapply rtc_l; [apply (works_once s q id w1 _ (Fails e) w1 (Throw e)); reflexivity|].
    apply rtc_once. exact Hset.
  - done.
  - exact Hj2.
Qed.

(** A job that waits for a delivery nobody may claim ends without touching it. *)
Lemma waiting_completes s id j n :
  tidy s -> getJob id (st_queue s) = Some j ->
  j_state j = Queued \/ (exists u, j_state j = Delayed u) ->
  deliveries (st_system s) !! id = Some n -> NotificationsRepository.claimable n = false ->
  columns_fit (st_system s) ->
  exists s' j', rtc moves s s' /\ deliveries (st_system s') !! id = Some n /\
    getJob id (st_queue s') = Some j' /\ j_state j' = Completed.
Proof.
  intros Hs Hj Hst Hn Hcl Hcols. destruct (becomes_ready _ _ _ Hj Hst) as (t & Ht & Hr).
  pose proof (waits s t Ht) as Hw. set (s1 := mkState _ _ _ _) in Hw.
  assert (Hs1 : tidy s1) by by eapply moves_tidy.
  destruct (locks_ready s1 id j Hs1 Hj Hr) as (q & Hlock & Hj1).
  pose proof (delivery_job id (world_of s1) (tidy_wf _ Hs1) Hcols) as Hrun.
  change (notificationDeliveries (w_db (world_of s1))) with (deliveries (st_system s)) in Hrun.
  rewrite Hn, Hcl in Hrun.
  destruct (run_is_schedule (NotificationQueueService.process id) (world_of s1)) as [k Hk].
  rewrite Hrun in Hk. set (s2 := mkState (st_system s1) q _ _) in Hlock.
  pose proof (works_all id k s2 _ _ (Ret tt) ltac:(apply lookup_insert_eq) Hk eq_refl) as Hworks.
  set (s3 := mkState _ _ _ _) in Hworks.
  destruct (settles_active s3 id (Ret tt) true (in_state Active j)) as (q' & Hset & Hj2);
    [apply lookup_insert_eq|done|done|done|].
  exists (mkState (st_system s3) q' (delete id (st_active s3)) (st_others s3)).
  eexists. split_and!; [|exact Hn|exact Hj2|done].
  eapply rtc_l; [exact Hw|]. eapply rtc_l; [exact Hlock|]. etrans; [exact Hworks|].
  by apply rtc_once.
Qed.

(** A processor that claims a delivery and then can neither finish it nor mark it as failed
    leaves it PROCESSING; its next attempt may not claim it, and completes the job of a
    notification that has not been delivered, and that the recovery does not look for. *)
Theorem claimed_delivery_lost sys s id n j :
  sys_wf sys -> rtc moves (opened sys) s -> owed s id n -> columns_fit (st_system s) ->
  getJob id (st_queue s) = Some j -> j_state j = Queued \/ (exists u, j_state j = Delayed u) ->
  j_attemptsMade j < 4 ->
  exists s' n' j', rtc moves s s' /\ deliveries (st_system s') !! id = Some n' /\
    nd_status n' = DelProcessing /\ getJob id (st_queue s') = Some j' /\ j_state j' = Completed /\
    id ∉ pending (world_of s').
Proof.
  intros Hw Hr Hn Hcols Hj Hst Hlt. pose proof (reached_tidy _ _ Hw Hr) as Hs.
  destruct (becomes_ready _ _ _ Hj Hst) as (t & Ht & Hrd). pose proof (waits s t Ht) as Hm.
  set (s1 := mkState _ _ _ _) in Hm. assert (Hs1 : tidy s1) by by eapply moves_tidy.
  destruct (attempt_breaks s1 id j n Hs1 Hj Hrd Hn Hcols) as (s2 & Hr2 & Hd2 & Hj2).
  assert (Hs2 : tidy s2) by by eapply rtc_tidy.
  pose proof (js_options _ _ _ (proj2 (tidy_jobs _ Hs) _ _ Hj)) as Ho.
  destruct (waiting_completes s2 id _ (set_claimed (time s1) n) Hs2 Hj2)
    as (s3 & j3 & Hr3 & Hd3 & Hj3 & Hf).
  - right. unfold settled. rewrite Ho. cbn [jo_attempts].
    destruct (Z.ltb_spec (j_attemptsMade j + 1) 5); [by eexists|lia].
  - rewrite Hd2. apply lookup_insert_eq.
  - done.
  - intros k m. rewrite Hd2. rewrite lookup_insert. case_decide; [|apply Hcols]. intros [= <-].
    destruct Hn as [Hn Hc].
    exact (claimed_columns _ _ _ (tidy_wf _ Hs1) Hn (Hcols _ _ Hn) Hc).
  - exists s3, (set_claimed (time s1) n), j3. split_and!; [|done..|].
    { eapply rtc_l; [exact Hm|]. by etrans. }
    intros (k & m & Hk & Hid & Hcm)%elem_of_pending. assert (Hs3 : tidy s3) by by eapply rtc_tidy.
    assert (k = id) as -> by (rewrite <-Hid; symmetry; apply (dw_id _ _ (wf_deliveries _ (tidy_wf _ Hs3) _ _ Hk))).
    assert (m = set_claimed (time s1) n) as -> by congruence. done.
Qed.

(** A failed job stays, and its delivery with it, until the queue has too many. *)
Definition left_over s id j n : Prop :=
  getJob id (st_queue s) = Some j /\ deliveries (st_system s) !! id = Some n.

Lemma others_left_over s c id j n :
  tidy s -> left_over s id j n -> adder (st_system s) (shared c) ->
  left_over (after_others c s) id j n.
Proof.
  intros Hs [Hj Hn] [_ Hadd]. split; simpl.
  - destruct (tidy_jobs _ Hs) as [Ho Hjobs].
    apply (receive_all_sound (shared c) (news (st_system s) (shared c)) (st_queue s)); [|split|done].
    + by apply adds_news.
    + done.
    + intros i ji Hi. eapply job_sound_keeps; [apply Hadd|by apply Hjobs].
  - eapply lookup_weaken; [done|apply Hadd].
Qed.

Lemma acts_left_over s a c id j n :
  inward a -> tidy s -> left_over s id j n ->
  perform a (mkConfig (st_system s) (st_others s)) = Some c ->
  left_over (after_others c s) id j n.
Proof.
  intros Ha Hs Hl Hp. apply others_left_over; [done|done|].
  destruct (perform_covered_by sys_evolves adder sys_evolves_refl adder_refl
    (fun _ _ H => proj1 H) a (mkConfig (st_system s) (st_others s)) c) as (_ & _ & HG); try done.
  - apply (tidy_others _ Hs).
  - by destruct a.
  - by destruct a.
Qed.

Lemma move_left_over s s' id j n :
  tidy s -> j_state j = Failed -> left_over s id j n -> moves s s' ->
  left_over s' id j n \/ crowded s'.
Proof.
  intros Hs Hf Hl (e & Hperm & He). pose proof Hl as [Hj Hn].
  assert (Hother : forall i p, st_active s !! i = Some p -> i <> id).
  { intros i p Hp ->. destruct (tidy_active _ Hs _ _ Hp) as (j' & _ & Hj' & Hst & _). congruence. }
  destruct e as [p|i v|i|i|i v|i|i|i|sys]; simpl in He.
  - simplify_eq. by left.
  - apply bind_Some in He as (c & Hc & [= <-]). left.
    eapply acts_left_over; [|done|done|exact Hc]. by destruct v.
  - apply bind_Some in He as (c & Hc & [= <-]). left.
    by eapply (acts_left_over s (Crash i)); [|done|done|exact Hc].
  - apply bind_Some in He as (q & Hq & He). apply bind_Some in He as (ji & Hji & [= <-]). left.
    apply lock_inv in Hq as (_ & j0 & Hj0 & Hr & _ & Hoth). split; [|done]. simpl.
    rewrite Hoth; [done|]. intros <-. assert (j0 = j) as -> by congruence.
    unfold ready in Hr. by rewrite Hf in Hr.
  - apply bind_Some in He as (p & Hp & He). apply bind_Some in He as (c & Hc & He).
    apply bind_Some in He as (p' & Hp' & [= <-]). left. split; [done|]. simpl.
    destruct (tidy_active _ Hs _ _ Hp) as (ji & ni & _ & _ & Hni & Hat).
    destruct (works_stage i ni _ p v c (tidy_wf _ Hs) Hni Hat Hc) as (_ & n' & _ & Hdb & _).
    rewrite Hdb, lookup_insert_ne by (by eapply Hother). done.
  - apply bind_Some in He as (p & Hp & He). apply bind_Some in He as (ok & Hok & He).
    apply bind_Some in He as (q & Hq & [= <-]).
    destruct (settle_others _ _ _ _ _ _ _ Hq (not_eq_sym (Hother _ _ Hp)) Hj)
      as [Hk|(_ & _ & l & Hnd & Hlen & Hall)]; [by left|right].
    exists l. rewrite Hf in Hlen, Hall. split_and!; [done| |done].
    by rewrite (proj1 (tidy_jobs _ Hs)) in Hlen.
  - apply bind_Some in He as (p & Hp & [= <-]). by left.
  - destruct (st_active s !! i) eqn:Hno; [done|]. apply bind_Some in He as (q & Hq & [= <-]). left.
    apply stall_inv in Hq as (_ & j0 & st & Hj0 & Hst & _ & _ & Hoth). split; [|done]. simpl.
    rewrite Hoth; [done|]. intros <-. congruence.
  - simplify_eq. left. destruct Hperm as [_ Hd]. split; [done|]. by rewrite <-Hd in Hn.
Qed.

(** C35: Five failed attempts can leave a notification behind for good. From any state in which
    its job waits there is a run, by attempts in which the database cannot be reached, so that
    none gets to claim the delivery, that leads to a failed job and leaves the delivery as it
    was, still to be made.
    Once the job of a delivery that is still to be made has failed, nothing that happens
    afterwards delivers the notification, the recovery included, since the queue ignores a job
    under an identifier it holds, until five thousand jobs have failed. *)
Theorem failed_job_strands sys s id j n :
  sys_wf sys -> rtc moves (opened sys) s -> owed s id n -> getJob id (st_queue s) = Some j ->
  (j_state j = Queued \/ (exists u, j_state j = Delayed u) ->
   exists s' j', rtc moves s s' /\ owed s' id n /\ getJob id (st_queue s') = Some j' /\
     j_state j' = Failed) /\
  (j_state j = Failed -> forall s', rtc moves s s' ->
   (owed s' id n /\ getJob id (st_queue s') = Some j) \/
   exists s1, rtc moves s s1 /\ rtc moves s1 s' /\ crowded s1).
Proof.
  intros Hw Hr [Hn Hcl] Hj. pose proof (reached_tidy _ _ Hw Hr) as Hs. split.
  - intros Hst. destruct (tidy_jobs _ Hs) as [_ Hjobs].
    pose proof (js_attempts _ _ _ (Hjobs _ _ Hj)) as Ha.
    destruct (attempts_fail (Z.to_nat (5 - j_attemptsMade j)) s id j Hs Hj Hst)
      as (s' & j' & Hr' & Hd & Hj' & Hf); [lia|].
    exists s', j'. split_and!; [done|split; [by rewrite Hd|done]|done|done].
  - intros Hf s' Hr'. assert (Hl : left_over s id j n) by done. clear Hj Hr Hn.
    induction Hr' as [s|s s1 s' Hm Hr' IH].
    + left. destruct Hl. by split.
    + pose proof (moves_tidy _ _ Hs Hm) as Hs1.
      destruct (move_left_over _ _ _ _ _ Hs Hf Hl Hm) as [Hl1|Hc].
      * destruct (IH Hs1 Hl1) as [?|(s2 & ? & ? & ?)]; [by left|right]. exists s2.
        split_and!; [by eapply rtc_l|done|done].
      * right. exists s1. split_and!; [by apply rtc_once|done|done].
Qed.

End outcome.
