(* ===== verification/Journey.v ===== *)
(** * From an order to its notification

    The components put together: the event a created order leaves in the outbox is published by
    a batch (Outbox.v), routed to the queue of the notification consumer, stored by it as a
    delivery with its job (Rabbit.v, Workers.v), and delivered by the job, to the user who has
    ordered; between these stages everything else may go on. *)
From S2P Require Import Prelude JsStrings Errors Effects Prisma Schema Orders OrdersSpec Evolution.
From S2P Require Import OrderFlow System Outbox OutboxSpec Workers WorkersFlow Rabbit RabbitSpec.
Import OutboxPublisherService RabbitConsumersService.

Section journey.
Context {Cl : Clients} {P : Prisma} {U : Uuids} {D : Decimals} {HP : HttpPlatform} {ET : ErrorText}
  {T : TopicMatching} {PL : PrismaLaws P} {UL : UuidsLaws U} {TL : TopicLaws T}.
Implicit Types (s : system) (w : world) (e : OutboxEvent).

Abbreviation deliveries_of w := (notificationDeliveries (w_db w)).

(** The event of an order of the user. *)
Record created_event (userId : string) (e : OutboxEvent) : Prop := {
  ce_type : ob_type e = "OrderCreated"%string;
  ce_id : is_uuid (ob_id e) = true;
  ce_given : ob_id e <> ""%string;
  ce_user : json_get "userId" (ob_payload e) = Some (JStr userId);
  ce_uuid : is_uuid userId = true;
}.

(** A created order leaves one. *)
Lemma creation_announces userId dto corr w view w' :
  is_uuid userId = true -> OrdersRepository.create userId dto corr w = Ok (view, w') ->
  exists e, outboxEvents (w_db w') !! ob_id e = Some e /\ created_event userId e /\
    ob_aggregateId e = o_id (ov_order view) /\ ob_publishedAt e = None /\
    ob_nextAttemptAt e <= w_now w'.
Proof.
  intros Hu H. unfold OrdersRepository.create in H.
  apply tx_bind_Ok in H as (lines & w1 & _ & H). apply tx_bind_Ok in H as (o & w2 & _ & H).
  apply tx_bind_Ok in H as (v & w3 & Hv & H). unfold tx_gets in Hv. injection Hv as <- <-.
  apply tx_bind_Ok in H as (a & w4 & _ & H). apply tx_bind_Ok in H as (e & w5 & He & H).
  unfold mret, tx_ret in H. injection H as <- <-.
  apply outboxEvent_create_inv in He as (_ & -> & ->). eexists. simpl.
  split; [apply lookup_insert_eq|]. split_and!; [|done|done|simpl; lia].
  split; [done|apply uuid_at_format| |done|done].
  simpl. intros Heq. pose proof (uuid_at_length (w_nonce w4)) as Hl. by rewrite Heq in Hl.
Qed.

(** What the broker hands to a consumer: the publication of the event. *)
Definition message_of e : message :=
  mkMessage (Json (event_json (event_of (leased e)))) "order.created"
    {| messageId := Some (ob_id e); correlation := truthy (ob_correlationId e);
       messageType := Some (ob_type e); deliveryMode := 2; expiration := None;
       x_retry_count := None; x_final_error := None |}.

Lemma published_message userId e :
  created_event userId e ->
  publication (leased e) =
    Published EVENT_EXCHANGE (msg_routingKey (message_of e)) (msg_content (message_of e))
      (msg_properties (message_of e)).
Proof. intros [Ht _ _ _ _]. unfold publication. simpl. by rewrite Ht. Qed.

(** The fields of the message. *)
Lemma event_field e :
  let j := event_json (event_of (leased e)) in
  json_get "id" j = Some (JStr (ob_id e)) /\ json_get "type" j = Some (JStr (ob_type e)) /\
  payload_of j = ob_payload e.
Proof.
  unfold payload_of, event_json, event_of, leased. simpl.
  by destruct (truthy (ob_correlationId e)).
Qed.

Lemma processedMessage_create_Ok consumer id w :
  processedMessages (w_db w) !! uuid_at (w_nonce w) = None -> ~ processed consumer id (w_db w) ->
  varchar 100 consumer = true -> is_uuid id = true ->
  exists m w', processedMessage_create consumer id w = Ok (m, w') /\
    deliveries_of w' = deliveries_of w.
Proof.
  intros Hk Hno Hc Hid. unfold processedMessage_create.
  erewrite tx_bind_eq by done. erewrite tx_bind_eq by done. eexists _, _. split.
  - apply db_create_Ok; [split; [exact Hk|]|done|simpl; by rewrite Hc, Hid].
    intros k q Hq. simpl. destruct (String.eqb_spec consumer (pm_consumer q)) as [->|]; [|done].
    destruct (String.eqb_spec id (pm_eventId q)) as [->|]; [|done].
    destruct Hno. by exists k, q.
  - done.
Qed.

(** Processing a first message stores the delivery. *)
Lemma first_processing userId e w :
  wf (w_db w) -> created_event userId e -> fresh_draws 2 w = true ->
  (forall k q, deliveries_of w !! k = Some q -> nd_eventId q <> ob_id e) ->
  exists key n w', NotificationsRepository.processOrderCreated (event_json (event_of (leased e))) w =
      Ok (Some key, w') /\ key <> ""%string /\
    deliveries_of w' !! key = Some n /\ nd_status n = DelPending /\
    nd_userId n = userId /\ nd_payload n = ob_payload e.
Proof.
  intros Hwf [Ht Hid Hgiven Hu Hus] Hf Hno.
  destruct (event_field e) as (Ei & _ & Ep).
  assert (Hnew : ~ processed "notification" (ob_id e) (w_db w)).
  { intros (i & m & Hm & Hc & He). destruct (wf_notified _ Hwf _ _ Hm Hc) as (k & q & Hq & Hqe).
    apply (Hno _ _ Hq). congruence. }
  unfold NotificationsRepository.processOrderCreated. rewrite Ei. cbn [need_string].
  erewrite tx_bind_eq by done.
  destruct (find_processed "notification" (ob_id e) w) as [[o w0]|x] eqn:Hfind; [|done].
  pose proof (find_processed_inv _ _ _ _ _ Hfind) as [-> Ho].
  destruct o as [m|]; [done|]. unfold NotificationsRepository.CONSUMER.
  erewrite tx_bind_eq by exact Hfind. unfold userId_of. rewrite Ep, Hu.
  pose proof (fresh_draw _ _ 0 Hf ltac:(lia)) as H0%unused_id_spec.
  pose proof (fresh_draw _ _ 1 Hf ltac:(lia)) as H1%unused_id_spec.
  destruct H0 as (_ & _ & _ & _ & _ & _ & H0 & _). destruct H1 as (_ & _ & _ & _ & _ & H1 & _).
  rewrite Nat.add_0_r in H0. rewrite Nat.add_1_r in H1.
  erewrite tx_bind_eq by done. erewrite tx_bind_eq by done.
  erewrite tx_bind_eq.
  2: { apply db_create_Ok; [split; [exact H0|]|done|].
       - intros k q Hq. simpl. destruct (String.eqb_spec (ob_id e) (nd_eventId q)) as [Heq|]; [|done].
         by destruct (Hno _ _ Hq).
       - simpl. unfold delivery_columns. simpl. by rewrite Hid, Hus. }
  match goal with |- context [(_ ← processedMessage_create _ _; _) ?w1] =>
    destruct (processedMessage_create_Ok "notification" (ob_id e) w1) as (m & w' & Hm & Hd);
      [exact H1|exact Hnew|done|exact Hid|] end.
  erewrite tx_bind_eq by exact Hm. eexists _, _, w'. split; [reflexivity|]. rewrite Hd.
  split; [intros Heq; pose proof (uuid_at_length (w_nonce w)) as Hl; simpl in Heq; by rewrite Heq in Hl|].
  split; [apply lookup_insert_eq|done].
Qed.

(** The consumer with a first message: the delivery is stored and its job queued. *)
Lemma first_message userId e s :
  sys_wf s -> created_event userId e -> fresh_draws 2 (sys_world s) = true ->
  (forall k q, deliveries_of (sys_world s) !! k = Some q -> nd_eventId q <> ob_id e) ->
  exists key n s', run (consume true notification (message_of e)) s = (Ok tt, s') /\
    sys_log s' = sys_log s ++ [JobAdded key 5 1000; Acked "notification" (message_of e)] /\
    deliveries_of (sys_world s') !! key = Some n /\ nd_status n = DelPending /\
    nd_userId n = userId /\ nd_payload n = ob_payload e.
Proof.
  intros Hw He Hf Hno.
  destruct (first_processing userId e (sys_world s) Hw He Hf Hno)
    as (key & n & w' & Hp & Hne & Hn & Hst & Hu & Hpl).
  destruct (event_field e) as (Ei & Et & Ep). destruct He as [Hty Hid Hgiven Hus Huu].
  exists key, n. unfold consume. rewrite run_try_catch, run_bind.
  assert (Hwork : run (work true notification (message_of e)) s =
    (Ok tt, logged (JobAdded key 5 1000) (with_world w' s))).
  { unfold work, message_of. cbn [msg_content]. cbv zeta in Ei, Et, Ep.
    assert (Epl : json_get "payload" (event_json (event_of (leased e))) = Some (ob_payload e)).
    { unfold payload_of in Ep. destruct (json_get "payload" _); simpl in Ep; [congruence|].
      rewrite <-Ep in Hus. done. }
    assert (Hid' : json_truthy (Some (JStr (ob_id e))) = true) by (simpl; by destruct (ob_id e)).
    assert (Hpl' : json_truthy (Some (ob_payload e)) = true) by (by destruct (ob_payload e)).
    rewrite Ei, Et, Epl, Hid', Hpl', Hty. cbn [is_null event_json json_truthy negb orb].
    rewrite run_bind, run_lift. unfold NotificationEventHandler.handle. rewrite Et, Hty, run_await, Hp.
    cbn [fst snd]. assert (Htr : truthy (Some key) = Some key) by (by destruct key).
    rewrite Htr. done. }
  rewrite Hwork, tell_run. eexists. split; [reflexivity|].
  split; [simpl; by rewrite <-app_assoc|done].
Qed.

(** Whom a delivery is for does not change. *)
Lemma rtc_addressee w w' k n :
  deliveries_of w !! k = Some n -> rtc evolves w w' ->
  exists n', deliveries_of w' !! k = Some n' /\ nd_userId n' = nd_userId n /\
    nd_payload n' = nd_payload n.
Proof.
  intros Hn H. revert n Hn. induction H as [|w1 w2 w3 (HE & _) _ IH]; intros n Hn; [by exists n|].
  destruct (table_evolves_fwd _ _ _ _ _ _ (te_deliveries _ _ _ HE) Hn) as (n' & Hn' & Hc).
  destruct (IH _ Hn') as (n2 & ? & ? & ?). exists n2.
  destruct Hc as [->|(_ & _ & ? & _ & _ & ? & _)]; split_and!; congruence.
Qed.

Lemma sys_wf_rtc s s' : sys_wf s -> rtc sys_evolves s s' -> sys_wf s'.
Proof. intros Hw H. induction H as [|s1 s2 s3 HE _ IH]; [done|]. by apply IH, (sys_wf_stable s1). Qed.

(** The job delivers to the addressee. *)
Lemma job_delivers key n w :
  wf (w_db w) -> (forall k q, deliveries_of w !! k = Some q -> delivery_columns q = true) ->
  deliveries_of w !! key = Some n -> NotificationsRepository.claimable n = true ->
  exists n' w', run (NotificationQueueService.process key) w = (Ok tt, w') /\
    deliveries_of w' !! key = Some n' /\ nd_status n' = DelDelivered /\
    nd_userId n' = nd_userId n.
Proof.
  intros Hwf Hcols Hn Hc. pose proof (delivery_job key w Hwf Hcols) as H. rewrite Hn, Hc in H.
  destruct H as (n' & w' & Hrun & Hdb & Hst & _ & _ & Hu). exists n', w'.
  split; [done|]. rewrite Hdb, lookup_insert_eq. done.
Qed.

(** C6: An order notifies whom it should. When the event of an order is among the next batch, a
    batch of an idle instance that reaches the broker marks it as published and sends its
    message, which the broker confirms and the topology routes to the queue of the notification consumer. Whatever
    happens before the message arrives, a consumer that is the first to have it stores a PENDING
    delivery for the user who has ordered, with the payload of the event, queues its job under
    the key of the delivery and acknowledges. Whatever happens until the job runs, the delivery
    stays that user's, and if it is still to be made the job makes it. *)
Theorem order_notified i s e userId :
  sys_wf s -> sys_reachable s = true -> i ∉ sys_running s -> (String.length i <= 100)%nat ->
  (forall e, e ∈ picked (sys_world s) 25 -> publishable e) ->
  e ∈ picked (sys_world s) 25 -> created_event userId e ->
  let m := message_of e in
  exists s1, run (publishBatch i false) s = (Ok tt, s1) /\
    (exists e1, outbox_of s1 !! ob_id e = Some e1 /\
       ob_publishedAt e1 = Some (w_now (sys_world s))) /\
    broker_has (Published EVENT_EXCHANGE (msg_routingKey m) (msg_content m) (msg_properties m))
      (sys_log s1) /\
    queue_of notification ∈ routes EVENT_EXCHANGE (msg_routingKey m) /\
    forall s2, rtc sys_evolves s1 s2 -> fresh_draws 2 (sys_world s2) = true ->
      (forall k q, deliveries_of (sys_world s2) !! k = Some q -> nd_eventId q <> ob_id e) ->
      exists key s3 n, run (consume true notification m) s2 = (Ok tt, s3) /\
        sys_log s3 = sys_log s2 ++ [JobAdded key 5 1000; Acked "notification" m] /\
        deliveries_of (sys_world s3) !! key = Some n /\ nd_status n = DelPending /\
        nd_userId n = userId /\ nd_payload n = ob_payload e /\
        forall w4, rtc evolves (sys_world s3) w4 ->
          (forall k q, deliveries_of w4 !! k = Some q -> delivery_columns q = true) ->
          exists n4, deliveries_of w4 !! key = Some n4 /\ nd_userId n4 = userId /\
            (NotificationsRepository.claimable n4 = true ->
             exists n5 w5, run (NotificationQueueService.process key) w4 = (Ok tt, w5) /\
               deliveries_of w5 !! key = Some n5 /\ nd_status n5 = DelDelivered /\
               nd_userId n5 = userId).
Proof.
  intros Hw Hr Hi Hl Hpub He Hce m.
  destruct (batch_run i s Hw Hr Hi Hpub Hl) as (t & Hrun & Hout).
  assert (Hevs : e ∈ returning (picked (sys_world s) 25)) by (by rewrite returning_spec).
  set (s1 := outbox_and_log _ _ _) in Hrun. assert (Hs1 : sys_wf s1).
  { eapply sys_wf_rtc; [exact Hw|].
    exact (run_guarded _ _ _ _ s _ _ (publishBatch_guarded i false) Hw Hrun). }
  exists s1. split; [done|]. split_and!.
  - destruct (returning_picked (sys_world s) 25 e) as [Hin _]; [|done|].
    { intros k x Hx. apply (bw_id _ _ (wf_outbox _ Hw _ _ Hx)). }
    eexists. change (outbox_of s1) with t. rewrite Hout.
    change (outboxEvents (w_db (sys_world s))) with (outbox_of s) in Hin. rewrite Hin. cbn [fmap option_fmap option_map].
    by rewrite bool_decide_eq_true_2 by (apply list_elem_of_fmap; eauto).
  - unfold m. rewrite <-(published_message userId) by done.
    split; apply elem_of_app; right; apply list_elem_of_In, in_flat_map; exists (leased e);
      (split; [by apply list_elem_of_In, list_elem_of_fmap_2|simpl; auto]).
  - destruct event_routes as [Ho _]. simpl. rewrite Ho. by left.
  - intros s2 H12 Hf Hno. assert (Hs2 : sys_wf s2) by (by eapply sys_wf_rtc).
    destruct (first_message userId e s2 Hs2 Hce Hf Hno)
      as (key & n & s3 & Hrun3 & Hlog3 & Hn & Hst & Hu & Hpl).
    exists key, s3, n. do 6 (split; [done|]). intros w4 H34 Hcols.
    assert (Hs3 : wf (w_db (sys_world s3))).
    { eapply sys_wf_rtc; [exact Hs2|].
      exact (run_guarded _ _ _ _ s2 _ _ (consume_guarded true notification m) Hs2 Hrun3). }
    destruct (rtc_addressee _ _ _ _ Hn H34) as (n4 & Hn4 & Hu4 & _).
    exists n4. split; [done|]. split; [congruence|]. intros Hc.
    destruct (job_delivers key n4 w4) as (n5 & w5 & ? & ? & ? & ?); [by eapply rtc_wf|done..|].
    exists n5, w5. split_and!; [done..|congruence].
Qed.

End journey.
