(* ===== verification/App.v ===== *)
(** * The whole system

    Requests, the outbox publisher, the consumers and the delivery jobs, started at any time
    and interleaved in any way, with steps that fail, answers that are lost, processes that
    die, a clock that moves on and a broker that comes and goes. *)
From S2P Require Import Prelude JsStrings Errors Effects Prisma Schema Orders OrdersSpec Payments.
From S2P Require Import Evolution OrderFlow PaymentsSpec Auth AuthFlow AuthSpec Restaurants.
From S2P Require Import System Outbox OutboxSpec Workers WorkersFlow Rabbit RabbitSpec.
From S2P Require Import Cache CacheSpec.

Section app.
Context {Cl : Clients} {P : Prisma} {U : Uuids} {D : Decimals} {DT : Dates} {J : Jwt} {A : Argon2}
  {C : AuthConfig} {HP : HttpPlatform} {ET : ErrorText} {R : Redis} {PL : PrismaLaws P}
  {UL : UuidsLaws U} {RL : RedisLaws R}.

(** A request handler, its answer set aside. *)
Definition aside {X : Type} (p : prog system X) : prog system unit :=
  prog_then (fun _ => Ret tt) p.
Definition request {X : Type} (p : prog world X) : prog system unit := aside (lift p).

(** What may be started in the state [s]: anything, with any arguments. Of an order that is
    [informed] it is understood that a status update names a version the order has had, as the
    API asks its clients to; nothing is asked for the other orders. *)
Inductive starts (s : system) : prog system unit -> Prop :=
| start_register dto : starts s (request (AuthService.register dto))
| start_login dto : starts s (request (AuthService.login dto))
| start_refresh token : starts s (request (AuthService.refresh token))
| start_logout token : starts s (request (AuthService.logout token))
| start_users : starts s (request UsersService.list)
| start_role id role : starts s (request (UsersService.updateRole id role))
| start_restaurants : starts s (aside RestaurantsService.listActive)
| start_restaurant fuel dto : starts s (aside (RestaurantsService.create fuel dto))
| start_order user dto corr : starts s (request (OrdersService.create user dto corr))
| start_orders user q : starts s (request (OrdersService.list user q))
| start_status user id dto corr : read_version id (us_version dto) (sys_world s) ->
    starts s (request (OrdersService.updateStatus user id dto corr))
| start_payment user id key dto corr :
    starts s (request (PaymentsService.complete user id key dto corr))
| start_audit : starts s (request AuditService.list)
| start_batch i skip : starts s (OutboxPublisherService.publishBatch i skip)
| start_message q c m : starts s (RabbitConsumersService.consume q c m)
| start_recovery q : starts s (NotificationQueueService.recoverPending q)
| start_job id : starts s (request (NotificationQueueService.process id)).

(** The environment: time passes, the broker comes and goes, Redis drops keys. *)
Definition outside (s s' : system) : Prop :=
  time_passes (sys_world s) (sys_world s') /\ sys_log s' = sys_log s /\
  sys_running s' = sys_running s /\ sys_cache s' ⊆ sys_cache s.

Abbreviation execution := (reachable starts outside).
Abbreviation system_step := (sys_step starts outside).

(** ** Everything that starts is guarded *)

Lemma outside_evolves s s' : outside s s' -> sys_evolves s s'.
Proof.
  intros (Ht & Hl & _ & Hc). apply (sys_step_evolves _ _ []).
  - by apply time_passes_evolves.
  - by rewrite Hl, app_nil_r.
  - intros k e He Hp. right. exists e. split; [|done]. destruct Ht as (t & _ & Hw).
    by rewrite Hw in He.
  - by intros c m ?%not_elem_of_nil.
  - apply cache_sound_mono; [by apply time_passes_evolves|done].
Qed.

Lemma request_covered {X : Type} (p : prog world X) s :
  sys_wf s -> guarded evolves quiet p wf_world -> covered sys_evolves s (request p).
Proof.
  intros Hs Hg. apply guarded_covered with (I := sys_wf); [|done].
  apply guarded_map. apply (guarded_lift p wf_world Hg).
Qed.

Lemma starts_covered s p : sys_wf s -> starts s p -> covered sys_evolves s p.
Proof.
  intros Hs []; try (by apply request_covered; [done|]; auto using register_guarded,
    login_guarded, refresh_guarded, logout_guarded, user_list_guarded, updateRole_guarded,
    create_guarded, list_guarded, pay_guarded, process_guarded).
  - apply guarded_covered with (I := sys_wf); [|done]. apply guarded_map, restaurants_list_guarded.
  - apply guarded_covered with (I := sys_wf); [|done]. apply guarded_map, restaurants_create_guarded.
  - exists (fun s => wf_world (sys_world s) /\ read_version id (us_version dto) (sys_world s)).
    split; [done|]. apply guarded_map.
    apply (guarded_lift _ (fun w => wf_world w /\ read_version id (us_version dto) w)).
    apply updateStatus_guarded.
  - apply request_covered; [done|]. apply guarded_wf, read_only_preserves, gets_read_only.
  - apply guarded_covered with (I := sys_wf); [apply publishBatch_guarded|done].
  - apply guarded_covered with (I := sys_wf); [apply consume_guarded|done].
  - apply guarded_covered with (I := sys_wf); [apply recover_guarded|done].
Qed.

Lemma system_evolves s0 c c' :
  sys_wf s0 -> execution s0 c -> system_step c c' -> sys_evolves (shared c) (shared c').
Proof.
  intros H0 Hr Hs. eapply guarded_sound; [..|exact H0|exact Hr|exact Hs].
  - apply sys_evolves_refl.
  - apply outside_evolves.
  - apply sys_wf_stable.
  - apply starts_covered.
Qed.

Lemma system_keeps (Q : system -> Prop) s0 c :
  stable sys_evolves Q -> sys_wf s0 -> Q s0 -> execution s0 c -> Q (shared c).
Proof.
  intros HQ H0 Hq Hr. eapply guarded_invariant; [..|exact HQ|exact H0|exact Hq|exact Hr].
  - apply sys_evolves_refl.
  - apply outside_evolves.
  - apply sys_wf_stable.
  - apply starts_covered.
Qed.

Lemma system_wf s0 c : sys_wf s0 -> execution s0 c -> sys_wf (shared c).
Proof. intros. by eapply system_keeps; [apply sys_wf_stable|..]. Qed.

Abbreviation db_of c := (w_db (sys_world (shared c))).

(** ** Orders *)

(** C1: The order state machine under concurrency. In every interleaving, whatever versions the
    clients send, an order never disappears, a new one is PENDING with version 1, and from one
    state to the next an order is untouched or takes one step: its version goes up by one, it
    does not go back to PENDING, and its owner, restaurant, total and date stay. If the
    clients that update an order only name versions it has had, each such step is one the
    transition table allows from its present status. *)
Theorem orders_follow_transitions s0 c c' :
  sys_wf s0 -> execution s0 c -> system_step c c' ->
  (forall k o, orders (db_of c) !! k = Some o ->
     exists o', orders (db_of c') !! k = Some o' /\
       (o' = o \/
        ((informed k -> o_status o' ∈ OrdersService.transitions (o_status o)) /\
         o_status o' <> PENDING /\ o_version o' = o_version o + 1 /\
         o_userId o' = o_userId o /\ o_restaurantId o' = o_restaurantId o /\
         o_totalAmount o' = o_totalAmount o /\ o_createdAt o' = o_createdAt o))) /\
  (forall k o', orders (db_of c) !! k = None -> orders (db_of c') !! k = Some o' ->
     o_status o' = PENDING /\ o_version o' = 1).
Proof.
  intros H0 Hr Hs. destruct (system_evolves _ _ _ H0 Hr Hs) as ((Ht & _) & _).
  destruct (te_orders _ _ _ Ht) as [Hf Hn]. split; [|exact Hn].
  intros k o Ho. destruct (Hf _ _ Ho) as (o' & Ho' & Hc). exists o'. split; [done|].
  pose proof (ow_id _ _ _ (wf_orders _ (system_wf _ _ H0 Hr) _ _ Ho)) as Hid.
  destruct Hc as [->|(? & Hi & ? & _ & ? & ? & ? & ?)]; [by left|right].
  rewrite Hid in Hi. by split_and!.
Qed.

(** C9: Every order is accounted for, in every state of every execution, whatever versions the
    clients send: its total is the sum of its stored lines, it has its OrderCreated event and
    its audit record, each version it has passed has an audit record of its own, and it is
    PENDING in its first version only. If the clients that update it only name versions it has
    had, its version, at most 5, is bounded by how far its status is. *)
Theorem orders_accounted s0 c k o :
  sys_wf s0 -> execution s0 c -> orders (db_of c) !! k = Some o ->
  o_totalAmount o = sum_lines (items_of k (orderItems (db_of c))) /\
  has_event "OrderCreated" k (outboxEvents (db_of c)) /\
  has_audit (audit_of "ORDER_CREATED" k) (auditLogs (db_of c)) /\
  (forall n, 1 <= n < o_version o -> has_audit (audited_from k n) (auditLogs (db_of c))) /\
  1 <= o_version o /\ (o_status o = PENDING -> o_version o = 1) /\
  (informed k -> o_version o <= 1 + rank (o_status o) /\ o_version o <= 5).
Proof.
  intros H0 Hr Ho. destruct (wf_orders _ (system_wf _ _ H0 Hr) _ _ Ho) as [? ? ? Hk ? ? ? ?].
  split_and!; try done. intros Hi. specialize (Hk Hi).
  split; [done|]. destruct (o_status o); simpl in *; lia.
Qed.

(** ** Payments *)

(** C3: Payments are sound in every state of every execution: a payment is for the total of an
    existing order, which it has taken out of PENDING, it has its PaymentCompleted event and
    its audit record, and no two payments share an idempotency key. *)
Theorem payments_sound s0 c k p :
  sys_wf s0 -> execution s0 c -> payments (db_of c) !! k = Some p ->
  (exists o, orders (db_of c) !! p_orderId p = Some o /\ p_amount p = o_totalAmount o /\
     o_status o <> PENDING) /\
  has_event "PaymentCompleted" k (outboxEvents (db_of c)) /\
  has_audit (audit_of "PAYMENT_COMPLETED" k) (auditLogs (db_of c)) /\
  (forall k' p', payments (db_of c) !! k' = Some p' ->
     p_idempotencyKey p' = p_idempotencyKey p -> k' = k).
Proof.
  intros H0 Hr Hp. pose proof (system_wf _ _ H0 Hr) as Hwf.
  destruct (wf_payments _ Hwf _ _ Hp) as [? ? ? ?]. split_and!; try done.
  intros k' p' Hp' Hk. by eapply (wf_payment_keys _ Hwf).
Qed.

(** ** Accounts *)

(** C14: Accounts and tokens under concurrency: no two accounts have the same email up to case
    and surrounding blanks; from one state to the next an account keeps everything but its role
    and the time of its last change; and a refresh token, once revoked, is never live again. *)
Theorem accounts_sound s0 c c' :
  sys_wf s0 -> execution s0 c -> system_step c c' ->
  (forall k k' u u', users (db_of c) !! k = Some u -> users (db_of c) !! k' = Some u' ->
     normalize_email (u_email u) = normalize_email (u_email u') -> k = k') /\
  (forall k u, users (db_of c) !! k = Some u -> exists u', users (db_of c') !! k = Some u' /\
     u_id u' = u_id u /\ u_email u' = u_email u /\ u_passwordHash u' = u_passwordHash u /\
     u_displayName u' = u_displayName u /\ u_active u' = u_active u /\
     u_createdAt u' = u_createdAt u) /\
  (forall k t, refreshTokens (db_of c) !! k = Some t -> is_Some (rt_revokedAt t) ->
     exists t', refreshTokens (db_of c') !! k = Some t' /\ is_Some (rt_revokedAt t')).
Proof.
  intros H0 Hr Hs. pose proof (system_wf _ _ H0 Hr) as Hwf.
  destruct (system_evolves _ _ _ H0 Hr Hs) as (HE & _). split_and!.
  - intros k k' u u' Hu Hu' He. eapply (wf_emails _ Hwf); [done|done|].
    by rewrite <- (wf_normal_emails _ Hwf _ _ Hu), <- (wf_normal_emails _ Hwf _ _ Hu').
  - intros k u Hu. destruct HE as (Ht & _).
    destruct (table_evolves_fwd _ _ _ _ _ _ (te_users _ _ _ Ht) Hu) as (u' & Hu' & Hc).
    exists u'. split; [done|]. by destruct Hc as [->|Hc].
  - intros k t Ht Hrev. by apply (rtc_revoked _ _ _ _ Ht Hrev (rtc_once _ _ HE)).
Qed.

(** ** Messages *)

Lemma sys_safe_stable : stable sys_evolves sys_safe.
Proof. intros s s' Hs (_ & _ & H). auto. Qed.

(** C4: The outbox loses nothing: in every state of every execution, whatever fails, an event
    that is marked as published has been sent and confirmed by the broker (under its own
    identifier), an event is never removed nor its content changed, and a published one is never touched
    again. *)
Theorem outbox_at_least_once s0 c c' :
  sys_wf s0 -> sys_safe s0 -> execution s0 c -> system_step c c' ->
  (forall k e, outboxEvents (db_of c) !! k = Some e -> is_Some (ob_publishedAt e) ->
     accepted k (sys_log (shared c))) /\
  (forall k e, outboxEvents (db_of c) !! k = Some e ->
     exists e', outboxEvents (db_of c') !! k = Some e' /\ ob_type e' = ob_type e /\
       ob_aggregateId e' = ob_aggregateId e /\ ob_payload e' = ob_payload e /\
       (is_Some (ob_publishedAt e) -> e' = e)).
Proof.
  intros H0 Hsafe Hr Hs. split.
  - by destruct (system_keeps sys_safe s0 c sys_safe_stable H0 Hsafe Hr).
  - destruct (system_evolves _ _ _ H0 Hr Hs) as ((Ht & _) & _). intros k e He.
    destruct (table_evolves_fwd _ _ _ _ _ _ (te_outbox _ _ _ Ht) He) as (e' & He' & Hc).
    exists e'. split; [done|].
    destruct Hc as [->|(Hn & _ & ? & _ & ? & ? & _)]; [done|]. split_and!; try done.
    rewrite Hn. by intros [? ?].
Qed.

(** C7: A message is only acknowledged when it is safe to: in every state of every execution,
    an acknowledged message has been worked (its audit record stored; its notification
    stored and the delivery job queued), or a copy of it, content unchanged, has been sent for a
    retry or to the dead letters, and the broker has confirmed it. *)
Theorem acknowledged_only_when_safe s0 c consumer m :
  sys_wf s0 -> sys_safe s0 -> execution s0 c ->
  Acked consumer m ∈ sys_log (shared c) ->
  handled consumer m (shared c) \/ republished consumer m (sys_log (shared c)).
Proof.
  intros H0 Hsafe Hr Hin.
  destruct (system_keeps sys_safe s0 c sys_safe_stable H0 Hsafe Hr) as [_ Ha]. by apply Ha.
Qed.

(** C12: Notifications under concurrency: an event has at most one delivery, a delivery is
    attempted at most five times, and from one state to the next it is untouched, claimed
    (from PENDING or FAILED, one attempt more), delivered (after an attempt) or, while in
    progress, failed; once DELIVERED it stays DELIVERED. *)
Theorem deliveries_follow_machine s0 c c' k n :
  sys_wf s0 -> execution s0 c -> system_step c c' ->
  notificationDeliveries (db_of c) !! k = Some n ->
  0 <= nd_attempts n <= 5 /\
  (forall k' n', notificationDeliveries (db_of c) !! k' = Some n' ->
     nd_eventId n' = nd_eventId n -> k' = k) /\
  exists n', notificationDeliveries (db_of c') !! k = Some n' /\
    nd_userId n' = nd_userId n /\ nd_payload n' = nd_payload n /\
    (n' = n \/
     ((nd_status n = DelPending \/ nd_status n = DelFailed) /\ nd_status n' = DelProcessing /\
      nd_attempts n' = nd_attempts n + 1) \/
     (nd_status n' = DelDelivered /\ nd_attempts n' = nd_attempts n /\ 1 <= nd_attempts n) \/
     (nd_status n = DelProcessing /\ nd_status n' = DelFailed /\ nd_attempts n' = nd_attempts n)) /\
    (nd_status n = DelDelivered -> nd_status n' = DelDelivered).
Proof.
  intros H0 Hr Hs Hn. pose proof (system_wf _ _ H0 Hr) as Hwf.
  destruct (system_evolves _ _ _ H0 Hr Hs) as ((Ht & _) & _).
  split; [by apply (dw_attempts _ _ (wf_deliveries _ Hwf _ _ Hn))|]. split.
  { intros k' n' Hn' He. by eapply (wf_delivery_events _ Hwf). }
  destruct (table_evolves_fwd _ _ _ _ _ _ (te_deliveries _ _ _ Ht) Hn) as (n' & Hn' & Hc).
  exists n'. split; [done|]. destruct Hc as [->|(_ & _ & Hu & _ & _ & Hp & _ & Hc)].
  { split_and!; try done. by left. }
  split_and!; [done|done| |].
  - right. destruct Hc as [(? & ? & _ & ?)|[?|?]]; [by left|by right; left|by right; right].
  - intros Hd. destruct Hc as [([?|?] & _)|[(? & _)|(? & _)]]; congruence.
Qed.

(** ** The cache *)

(** C15: What the cache serves is true: in every state of every execution, whatever requests
    interleave and whatever Redis drops, a cached listing is the JSON text of restaurants
    that are in the database, active, each with items of its own menu that are available. *)
Theorem cached_listing_truthful s0 c data expires :
  sys_wf s0 -> sys_safe s0 -> execution s0 c ->
  sys_cache (shared c) !! ACTIVE_RESTAURANTS_KEY = Some (data, expires) ->
  exists views, data = listing_json views /\
    forall v, v ∈ views ->
      (exists k, restaurants (db_of c) !! k = Some (rv_restaurant v)) /\
      r_active (rv_restaurant v) = true /\
      (forall m, m ∈ rv_menu v -> (exists k, menuItems (db_of c) !! k = Some m) /\
         mi_restaurantId m = r_id (rv_restaurant v) /\ mi_available m = true).
Proof.
  intros H0 Hsafe Hr Hc.
  destruct (system_keeps sys_safe s0 c sys_safe_stable H0 Hsafe Hr) as (_ & _ & Hs).
  destruct (Hs _ _ Hc) as (views & -> & Hv). exists views. split; [done|].
  intros v (Hk & Ha & Hm)%(proj1 (Forall_forall _ _) Hv). split_and!; [done|done|].
  by apply Forall_forall.
Qed.

End app.
