(* ===== verification/Api.v ===== *)
(** * The API

    A request as it comes from the socket, up to its answer: its route (Routes.v), the guards,
    the interceptor and the filter around it (Pipeline.v), the pipes on its parameters, its
    query and its body (Validation.v, Reading.v), the handler of its controller
    (src/src/*/*.controller.ts) and the service that handler calls. *)
From S2P Require Import Prelude JsStrings Errors Effects Prisma Schema Orders Payments Auth Http.
From S2P Require Import Routes Throttle Restaurants System Cache Outbox Health Pipeline Workers.
From S2P Require Import Validation ValidationSpec Reading.

(** ** Requests *)

(** The parts of an HTTP request the program reads: the path and the whole URL, the query and
    the body as they have been parsed, the headers. A body is a JSON object; without one it is
    the empty object, as the pipe makes of it. *)
Record http_request := mkHttpRequest {
  hr_method : verb;
  hr_path : string;
  hr_url : string;
  hr_ip : string;
  hr_query : query;
  hr_body : object;
  hr_correlation : option string;
  hr_authorization : option string;
  hr_idempotencyKey : option string;
}.

(** ** The pipes *)

(** [ParseUUIDPipe], and [Promise.all] on the two parameters of a handler that have pipes: one
    of the refusals is the one that counts. *)
Class NestPipes := {
  ParseUUIDPipe_transform : string -> result string;
  all_pipes : forall {A B : Type}, result A -> result B -> result (A * B);
}.
Class NestPipesLaws (U : Uuids) (N : NestPipes) : Prop := {
  uuid_passes : forall s, is_uuid s = true -> ParseUUIDPipe_transform s = Ok s;
  uuid_only : forall s s', ParseUUIDPipe_transform s = Ok s' -> s' = s /\ is_uuid s = true;
  uuid_refused : forall s e, ParseUUIDPipe_transform s = Err e ->
    AllExceptionsFilter.statusOf e = 400;
  all_pass : forall A B (a : A) (b : B), all_pipes (Ok a) (Ok b) = Ok (a, b);
  all_pass_only : forall A B (x : result A) (y : result B) a b,
    all_pipes x y = Ok (a, b) -> x = Ok a /\ y = Ok b;
  one_refuses : forall A B (x : result A) (y : result B) e,
    all_pipes x y = Err e -> x = Err e \/ y = Err e;
}.

(** What a handler is called with. *)
Inductive call :=
| call_register (dto : RegisterDto) | call_login (dto : LoginDto)
| call_refresh (token : string) | call_logout (token : string)
| call_users | call_updateRole (id : string) (role : Role)
| call_restaurants | call_newRestaurant (dto : CreateRestaurantDto)
| call_gappyRestaurant (name : string) (menuItems : list (entry CreateMenuItemDto))
| call_createOrder (dto : CreateOrderDto)
| call_gappyOrder (restaurantId : string) (items : list (entry CreateOrderItemDto))
| call_orders (query : ListOrdersQueryDto)
| call_updateStatus (id : string) (dto : UpdateOrderStatusDto)
| call_complete (orderId : string) (key : option string) (dto : CompletePaymentDto)
| call_audit | call_live | call_ready | call_render.

(** The request in an instance, by its class; only lists have gaps. *)
Definition the_register (d : received RegisterClass) : RegisterDto :=
  match d with Whole d => match d with Register d => d end | Gappy g => match g with end end.
Definition the_login (d : received LoginClass) : LoginDto :=
  match d with Whole d => match d with Login d => d end | Gappy g => match g with end end.
Definition the_token (d : received RefreshClass) : string :=
  match d with Whole d => match d with Refresh token => token end | Gappy g => match g with end end.
Definition the_role (d : received RoleClass) : Role :=
  match d with Whole d => match d with UpdateRole role => role end | Gappy g => match g with end end.
Definition new_restaurant (d : received RestaurantClass) : call :=
  match d with
  | Whole d => match d with NewRestaurant d => call_newRestaurant d end
  | Gappy g => match g with GappyRestaurant name menuItems => call_gappyRestaurant name menuItems end
  end.
Definition new_order (d : received OrderClass) : call :=
  match d with
  | Whole d => match d with NewOrder d => call_createOrder d end
  | Gappy g => match g with GappyOrder restaurantId items => call_gappyOrder restaurantId items end
  end.
Definition the_status (d : received StatusClass) : UpdateOrderStatusDto :=
  match d with Whole d => match d with UpdateStatus d => d end | Gappy g => match g with end end.
Definition the_query (d : received OrderListClass) : ListOrdersQueryDto :=
  match d with Whole d => match d with ListOrders q => q end | Gappy g => match g with end end.
Definition the_payment (d : received PaymentClass) : CompletePaymentDto :=
  match d with Whole d => match d with Complete d => d end | Gappy g => match g with end end.

Section arguments.
Context `{ValidationLibrary, NestPipes}.

Definition Body (c : dto_class) (rq : http_request) : result (received c) := given c (hr_body rq).
Definition Query (c : dto_class) (rq : http_request) : result (received c) :=
  given c (query_object (hr_query rq)).
(** [@Param(name, ParseUUIDPipe)]. *)
Definition ParamUUID (name : string) (ps : parameters) : result string :=
  ParseUUIDPipe_transform
    (from_option snd "" (List.find (fun p => String.eqb p.1 name) ps)).

(** The decorated parameters of the handlers, through their pipes. *)
Definition arguments (r : route) (ps : parameters) (rq : http_request) : result call :=
  match r with
  | AuthRoute AuthController.register =>
      d ← Body RegisterClass rq; mret (call_register (the_register d))
  | AuthRoute AuthController.login => d ← Body LoginClass rq; mret (call_login (the_login d))
  | AuthRoute AuthController.refresh =>
      d ← Body RefreshClass rq; mret (call_refresh (the_token d))
  | AuthRoute AuthController.logout => d ← Body RefreshClass rq; mret (call_logout (the_token d))
  | UsersRoute UsersController.list => mret call_users
  | UsersRoute UsersController.updateRole =>
      both ← all_pipes (ParamUUID "id" ps) (Body RoleClass rq);
      mret (call_updateRole both.1 (the_role both.2))
  | RestaurantsRoute RestaurantsController.list => mret call_restaurants
  | RestaurantsRoute RestaurantsController.create =>
      d ← Body RestaurantClass rq; mret (new_restaurant d)
  | OrdersRoute OrdersController.create =>
      d ← Body OrderClass rq; mret (new_order d)
  | OrdersRoute OrdersController.list =>
      q ← Query OrderListClass rq; mret (call_orders (the_query q))
  | OrdersRoute OrdersController.updateStatus =>
      both ← all_pipes (ParamUUID "id" ps) (Body StatusClass rq);
      mret (call_updateStatus both.1 (the_status both.2))
  | PaymentsRoute PaymentsController.complete =>
      both ← all_pipes (ParamUUID "orderId" ps) (Body PaymentClass rq);
      mret (call_complete both.1 (hr_idempotencyKey rq) (the_payment both.2))
  | AuditRoute AuditController.list => mret call_audit
  | HealthRoute Http.HealthController.live => mret call_live
  | HealthRoute Http.HealthController.ready => mret call_ready
  | MetricsRoute MetricsController.render => mret call_render
  end.

End arguments.

(** ** The handlers *)

(** What a handler answers with. *)
Inductive reply :=
| Tokens (pair : TokenPair) | Revoked (revoked : bool)
| Users (users : list PublicUser) | OneUser (user : PublicUser)
| Restaurants (listing : Listing) | OneRestaurant (restaurant : RestaurantView)
| OneOrder (order : OrderView) | Page (page : OrderPage) | OnePayment (payment : Payment)
| AuditRecords (records : list AuditLog) | Status (status : json) | Text (text : string).

(** [@CurrentUser()]: the claims of a token the service has signed. *)
Definition CurrentUser (user : option RequestUser) : option AuthenticatedUser :=
  u ← user;
  match ru_id u, ru_email u, ru_role u with
  | Some (JStr id), Some (JStr email), Some (JStr role) =>
      mkAuthenticatedUser id email <$> role_named role
  | _, _, _ => None
  end.
Definition no_user : exn := JsError "Cannot read properties of undefined (reading 'id')".

Section handlers.
Context `{Prisma, Uuids, Decimals, Dates, Jwt, Argon2, AuthConfig, HttpPlatform, Redis, PromClient}.

(** [dto.menuItems.map(...)] reads the name of every item: null has no properties, and a list
    has no name to trim. *)
Definition named_dish (e : entry CreateMenuItemDto) : result CreateMenuItemDto :=
  match e with
  | Item i => Ok i
  | Nothing => Err (JsError "Cannot read properties of null (reading 'name')")
  | Inner => Err (JsError "Cannot read properties of undefined (reading 'trim')")
  end.

(** [dto.items.map((item) => item.menuItemId)]: that of a list is undefined. *)
Definition item_id (e : entry CreateOrderItemDto) : result (option string) :=
  match e with
  | Item i => Ok (Some (ci_menuItemId i))
  | Inner => Ok None
  | Nothing => Err (JsError "Cannot read properties of null (reading 'menuItemId')")
  end.

(** OrdersService.create on a list that has a gap. It does not get further than the menu:
    Prisma refuses a list of keys with [undefined] in it. *)
Definition create_gappy (restaurantId : string) (items : list (entry CreateOrderItemDto)) :
    prog world OrderView :=
  match mapM item_id items with
  | Err e => Throw e
  | Ok ids =>
      if negb (bool_decide (size (list_to_set ids : gset (option string)) = length ids)) then
        Throw (BadRequestException "Each menu item may appear only once; increase quantity instead")
      else
        await (restaurant ← db_findFirst Schema.Restaurants
                 (fun r => String.eqb (r_id r) restaurantId && r_active r);
               match restaurant with
               | None => tx_throw (NotFoundException "Active restaurant not found")
               | Some _ => tx_throw (JsError "Can not use `undefined` value within array")
               end)
  end.

(** One of the checks of [Promise.allSettled]. *)
Definition settle {A : Type} (p : prog system A) : prog system (result A) :=
  try_catch (a ← p; Ret (Ok a)) (fun e => Ret (Err e)).
Fixpoint settle_all {A : Type} (ps : list (prog system A)) : prog system (list (result A)) :=
  match ps with
  | [] => Ret []
  | p :: ps => r ← settle p; rs ← settle_all ps; Ret (r :: rs)
  end.
Definition ready : prog system json :=
  results ← settle_all HealthController.checks;
  match HealthController.ready results with Ok j => Ret j | Err e => Throw e end.

Definition with_user {A : Type} (user : option RequestUser) (f : AuthenticatedUser -> prog world A) :
    prog world A :=
  match CurrentUser user with Some u => f u | None => Throw no_user end.

(** [this.metrics.render()]. *)
Definition rendered : tx server string := tx_gets (fun s => MetricsService.render (sv_metrics s)).

(** The handlers, and the services they call; [fuel] is for the [SCAN] loop of the cache. *)
Definition controller (fuel : nat) (c : call) (user : option RequestUser)
    (correlationId : option string) : prog server reply :=
  match c with
  | call_register dto => Tokens <$> serve (lift (AuthService.register dto))
  | call_login dto => Tokens <$> serve (lift (AuthService.login dto))
  | call_refresh token => Tokens <$> serve (lift (AuthService.refresh token))
  | call_logout token => Revoked <$> serve (lift (AuthService.logout token))
  | call_users => Users <$> serve (lift UsersService.list)
  | call_updateRole id role => OneUser <$> serve (lift (UsersService.updateRole id role))
  | call_restaurants => Restaurants <$> serve RestaurantsService.listActive
  | call_newRestaurant dto => OneRestaurant <$> serve (RestaurantsService.create fuel dto)
  | call_createOrder dto =>
      OneOrder <$> serve (lift (with_user user (fun u =>
        OrdersService.create u dto correlationId)))
  | call_gappyRestaurant name menuItems =>
      match mapM named_dish menuItems with
      | Err e => Throw e
      | Ok menuItems =>
          OneRestaurant <$> serve (RestaurantsService.create fuel (mkCreateRestaurantDto name menuItems))
      end
  | call_gappyOrder restaurantId items =>
      OneOrder <$> serve (lift (with_user user (fun _ => create_gappy restaurantId items)))
  | call_orders query =>
      Page <$> serve (lift (with_user user (fun u => OrdersService.list u query)))
  | call_updateStatus id dto =>
      OneOrder <$> serve (lift (with_user user (fun u =>
        OrdersService.updateStatus u id dto correlationId)))
  | call_complete orderId key dto =>
      OnePayment <$> serve (lift (with_user user (fun u =>
        PaymentsService.complete u orderId key dto correlationId)))
  | call_audit => AuditRecords <$> serve (lift AuditService.list)
  | call_live => (fun t => Status (HealthController.live t)) <$> serve (await (on_world now))
  | call_ready => Status <$> serve ready
  | call_render => Text <$> await rendered
  end.

End handlers.

(** ** From the socket to the answer *)

Section handle.
Context `{Prisma, Uuids, Decimals, Dates, Jwt, Argon2, AuthConfig, HttpPlatform, Redis, PromClient,
  Router, Throttler, ValidationLibrary, NestPipes}.

Definition found_route (rq : http_request) : option (route * parameters) :=
  resolve application_routes (hr_method rq) (hr_path rq).

Definition segment_text (s : segment) : string :=
  match s with Literal name => name | Param name => String.append ":" name end.
Definition request_of (rq : http_request) : request :=
  let r := fst <$> found_route rq in
  mkRequest (hr_method rq) r (hr_ip rq) (hr_url rq) ""
    ((fun r => url_path (map segment_text (route_pattern r))) <$> r)
    (hr_correlation rq) (hr_authorization rq).

Definition handle (fuel : nat) (rq : http_request) : prog server (answer reply) :=
  respond
    (fun user correlationId =>
       match found_route rq with
       | None => Throw (no_route (hr_method rq) (hr_url rq))
       | Some (r, ps) =>
           match arguments r ps rq with
           | Ok c => controller fuel c user correlationId
           | Err e => Throw e
           end
       end)
    (request_of rq).

End handle.
