(* ===== verification/ApiSpec.v ===== *)
(** * Whatever comes over HTTP

    Requests of any form (Api.v), from any number of clients, interleaved with everything else
    that runs (App.v): what the services guarantee holds of them, and the limits of the routes
    are kept. *)
From S2P Require Import Prelude JsStrings Errors Effects Prisma Schema Orders Payments Auth Http.
From S2P Require Import OrdersSpec Evolution OrderFlow PaymentsSpec AuthFlow AuthSpec.
From S2P Require Import Routes Throttle Restaurants System Cache CacheSpec Outbox Health Pipeline.
From S2P Require Import Workers WorkersFlow Validation ValidationSpec Reading App Api.

Section api.
Context {Cl : Clients} {P : Prisma} {U : Uuids} {D : Decimals} {DT : Dates} {J : Jwt} {A : Argon2}
  {C : AuthConfig} {HP : HttpPlatform} {ET : ErrorText} {R : Redis} {M : PromClient}
  {Ro : Router} {Th : Throttler} {V : ValidationLibrary} {N : NestPipes}
  {PL : PrismaLaws P} {UL : UuidsLaws U} {RL : RedisLaws R} {TL : ThrottlerLaws Th}.

(** ** What a step of the server may do *)

Definition clock (s : server) : Z := w_now (sys_world (sv_system s)).
(** The limits are kept, and what has been seen is past. *)
Definition hits_kept (s : server) : Prop :=
  up_to (clock s) (sv_hits s) /\ within_limits (sv_hits s).

Definition sv_evolves (s s' : server) : Prop :=
  sys_evolves (sv_system s) (sv_system s') /\
  (exists new, sv_hits s' = sv_hits s ++ new) /\
  (hits_kept s -> hits_kept s').

Definition on_sys (I : system -> Prop) (s : server) : Prop := I (sv_system s).

(** A step that leaves the throttler alone. *)
Lemma unseen_evolves s s' :
  sys_evolves (sv_system s) (sv_system s') -> sv_hits s' = sv_hits s -> sv_evolves s s'.
Proof.
  intros Hs Hh. split; [done|]. split; [exists []; by rewrite Hh, app_nil_r|].
  intros [Ht Hl]. unfold hits_kept, clock. rewrite Hh. split; [|done].
  eapply up_to_later; [exact Ht|]. apply Hs.
Qed.

Lemma sv_evolves_refl s : sv_evolves s s.
Proof. apply unseen_evolves; [apply sys_evolves_refl|done]. Qed.

Lemma on_sys_stable I : stable sys_evolves I -> stable sv_evolves (on_sys I).
Proof. intros HI s s' Hs (HE & _). by eapply HI. Qed.

Lemma guarded_serve {X : Type} (p : prog system X) I :
  guarded sys_evolves sys_evolves p I -> guarded sv_evolves sv_evolves (serve p) (on_sys I).
Proof.
  revert I. induction p as [a|e|B m k IH]; intros I; [done..|].
  intros (K & HI & HK & Hm & Hk & He). exists (fun b => on_sys (K b)). split_and!.
  - by apply on_sys_stable.
  - intros b. by apply on_sys_stable.
  - intros s b s' Hs Hb. unfold on_system in Hb.
    destruct (m (sv_system s)) as [[c sys]|e] eqn:Hms; [|done]. simplify_eq.
    destruct (Hm _ _ _ Hs Hms). split; [by apply unseen_evolves|done].
  - intros b. by apply IH.
  - intros e. by apply IH.
Qed.

(** ** The stages of a request *)

Section stages.
Context (I : server -> Prop) (HI : stable sv_evolves I).

(** A step that does not touch the system. *)
Lemma guarded_beside {X : Type} (m : tx server X) :
  (forall s a s', m s = Ok (a, s') -> sv_system s' = sv_system s /\ sv_hits s' = sv_hits s) ->
  guarded sv_evolves sv_evolves (await m) I.
Proof.
  intros Hm. apply guarded_await; [done|]. intros s a s' _ Hs. destruct (Hm _ _ _ Hs) as [E Eh].
  apply unseen_evolves; [rewrite E; apply sys_evolves_refl|done].
Qed.

(** One that does what any step of the system may do. *)
Lemma guarded_on_world {X : Type} (m : tx world X) :
  (forall w a w', m w = Ok (a, w') -> quiet w w') ->
  guarded sv_evolves sv_evolves (await (on_system (on_world m))) I.
Proof.
  intros Hm. apply guarded_await; [done|]. intros s a s' _ Hs.
  unfold on_system, on_world in Hs. destruct (m (sys_world (sv_system s))) as [[b w]|e] eqn:Hw; [|done].
  simplify_eq. apply unseen_evolves; [|done]. by apply quiet_sys, (Hm _ _ _ Hw).
Qed.

Lemma finalize_guarded {X : Type} (callback : prog server unit) (p : prog server X) :
  guarded sv_evolves sv_evolves callback I -> guarded sv_evolves sv_evolves p I ->
  guarded sv_evolves sv_evolves (HttpMetricsInterceptor.finalize callback p) I.
Proof.
  intros Hc. assert (Hend : forall q : prog server X,
      (forall J : server -> Prop, guarded sv_evolves sv_evolves q J) ->
      guarded sv_evolves sv_evolves (prog_then (fun _ => q) callback) I).
  { intros q Hq. apply guarded_then; auto. }
  revert I HI Hc Hend. induction p as [a|e|B m k IH]; intros K HK Hc Hend Hp; simpl.
  - by apply Hend.
  - by apply Hend.
  - destruct Hp as (L & _ & HL & Hm & Hk & He). exists (fun b s => L b s /\ K s).
    assert (Hst : forall b, stable sv_evolves (fun s => L b s /\ K s)).
    { intros b s s' [HLs HKs] HE. split; [by eapply HL|by eapply HK]. }
    split_and!; [done|done| | |].
    + intros s b s' Hs Hb. destruct (Hm _ _ _ Hs Hb). split_and!; [done|done|by eapply HK].
    + intros b. apply IH; [done| | |].
      * eapply guarded_impl; [done| |exact Hc]. by intros s [_ ?].
      * intros q Hq. eapply guarded_impl; [done| |by apply Hend]. by intros s [_ ?].
      * eapply guarded_impl; [done| |exact (Hk b)]. by intros s [? _].
    + intros e. apply IH; auto.
Qed.

Lemma intercept_guarded {X : Type} rq statusCode (p : prog server X) :
  guarded sv_evolves sv_evolves p I ->
  guarded sv_evolves sv_evolves (HttpMetricsInterceptor.intercept rq statusCode p) I.
Proof.
  intros Hp. unfold HttpMetricsInterceptor.intercept.
  assert (Hr : guarded sv_evolves sv_evolves (await hrtime) I).
  { apply guarded_beside. unfold hrtime, tx_gets. by intros s a s' [= _ <-]. }
  apply guarded_then; [done|done|exact Hr|]. intros started. apply finalize_guarded; [|done].
  apply guarded_then; [done|done|exact Hr|]. intros finished. apply guarded_beside.
  unfold on_metrics. by intros s a s' [= _ <-].
Qed.

(** What the throttler sees keeps the limits. *)
Lemma throttler_guarded r ip :
  guarded sv_evolves sv_evolves (ThrottlerGuard.canActivate r ip) I.
Proof.
  unfold ThrottlerGuard.canActivate. apply guarded_then; [done|done| |by intros []].
  apply guarded_await; [done|]. unfold ThrottlerGuard.note. intros s a s' _ [= _ <-].
  split; [apply sys_evolves_refl|]. split; [by eexists|].
  intros [Ht Hl]. split; [by apply seen_up_to|by apply seen_within_limits].
Qed.

End stages.

Lemma use_quiet supplied w id w' : CorrelationIdMiddleware.use supplied w = Ok (id, w') -> quiet w w'.
Proof.
  rewrite use_eq. destruct (usable supplied); [intros [= _ <-]|intros [= _ <-]].
  - apply evolves_refl.
  - by apply evolves_same.
Qed.

Lemma authorize_guarded r auth :
  guarded sv_evolves sv_evolves (serve (lift (authorize r auth))) (on_sys sys_wf).
Proof.
  apply guarded_serve, (guarded_lift _ wf_world). unfold authorize.
  assert (Hst : stable evolves wf_world) by apply wf_stable.
  apply guarded_then; [apply quiet_evolves|done| |].
  - unfold JwtAuthGuard.canActivate. destruct (IS_PUBLIC r); [done|].
    destruct (JwtAuthGuard.bearer auth) as [token|]; [|done].
    apply guarded_try_catch; [apply quiet_evolves|done| |done].
    apply guarded_then; [apply quiet_evolves|done| |].
    + apply guarded_await; [done|]. unfold AuthService.jwt_verifyAsync. intros w a w' _ Hs.
      destruct (jwt_verify _ _ _); [|done]. injection Hs as _ <-. apply evolves_refl.
    + intros payload. by destruct (negb _).
  - intros user. by destruct (RolesGuard.canActivate _ _).
Qed.

(** A request whose handler is guarded. *)
Lemma respond_guarded {X : Type} (handler : option RequestUser -> option string -> prog server X)
    rq (I : system -> Prop) :
  stable sys_evolves I -> (forall s, I s -> sys_wf s) ->
  (forall user corr, guarded sv_evolves sv_evolves (handler user corr) (on_sys I)) ->
  guarded sv_evolves sv_evolves (respond handler rq) (on_sys I).
Proof.
  intros HI Hwf Hh. pose proof (on_sys_stable I HI) as Hst. unfold respond.
  apply guarded_then; [done|done|apply guarded_on_world; [done|apply use_quiet]|].
  intros id. unfold RequestContextService.run. apply guarded_try_catch; [done|done| |].
  - destruct (rq_route rq) as [r|]; [|done].
    apply guarded_then; [done|done|by apply throttler_guarded|]. intros _.
    apply guarded_then; [done|done| |].
    + eapply guarded_impl; [exact Hst| |apply authorize_guarded]. intros s. apply Hwf.
    + intros user. apply guarded_then; [done|done|by apply intercept_guarded|done].
  - intros e. apply guarded_then; [done|done|apply guarded_on_world; [done|]|done].
    unfold now, tx_gets. intros w a w' [= _ <-]. apply evolves_refl.
Qed.

(** ** The handlers *)

Lemma settle_all_guarded {X : Type} (ps : list (prog system X)) :
  (forall p, p ∈ ps -> guarded sys_evolves sys_evolves p sys_wf) ->
  guarded sys_evolves sys_evolves (settle_all ps) sys_wf.
Proof.
  induction ps as [|p ps IH]; intros Hps; [done|]. simpl.
  apply guarded_then; [done|apply sys_wf_stable| |].
  - apply guarded_try_catch; [done|apply sys_wf_stable| |done].
    apply guarded_then; [done|apply sys_wf_stable|apply Hps; by left|done].
  - intros r. apply guarded_then; [done|apply sys_wf_stable| |done].
    apply IH. intros q Hq. apply Hps. by right.
Qed.

Lemma same_state_guarded {X : Type} (m : tx system X) :
  (forall s a s', m s = Ok (a, s') -> s' = s) -> guarded sys_evolves sys_evolves (await m) sys_wf.
Proof.
  intros Hm. apply guarded_await; [apply sys_wf_stable|]. intros s a s' _ Hs.
  rewrite (Hm _ _ _ Hs). apply sys_evolves_refl.
Qed.

Lemma ready_guarded : guarded sys_evolves sys_evolves ready sys_wf.
Proof.
  apply guarded_then; [done|apply sys_wf_stable| |].
  - apply settle_all_guarded. intros p Hp.
    repeat (apply elem_of_cons in Hp as [->|Hp]); [..|by apply not_elem_of_nil in Hp].
    + apply same_state_guarded. by intros s a s' [= _ <-].
    + apply same_state_guarded. by intros s a s' [= _ <-].
    + apply guarded_then; [done|apply sys_wf_stable| |intros _].
      * apply same_state_guarded. intros s a s'. unfold ensureConnected.
        destruct (sys_reachable s); [by intros [= _ <-]|done].
      * apply same_state_guarded. by intros s a s' [= _ <-].
  - intros results. by destruct (HealthController.ready results).
Qed.

(** What a status update of an order whose clients are informed names: a version the order has
    had. Where they are not, anything. *)
Definition known_version (c : call) (s : system) : Prop :=
  match c with
  | call_updateStatus id dto => read_version id (us_version dto) (sys_world s)
  | _ => True
  end.
Definition may_call (c : call) (s : system) : Prop := sys_wf s /\ known_version c s.

Lemma may_call_stable c : stable sys_evolves (may_call c).
Proof.
  intros s s' [Hwf Hk] Hs. split; [by eapply sys_wf_stable|]. destruct c; try done. simpl in *.
  by apply (read_version_stable _ _ _ _ (conj Hwf Hk) (proj1 Hs)).
Qed.

(** The first error of a list. *)
Lemma mapM_Err {X Y : Type} (f : X -> result Y) l e :
  mapM f l = Err e -> exists x, x ∈ l /\ f x = Err e.
Proof.
  induction l as [|x l IH]; [done|].
  change (mapM f (x :: l)) with (y ← f x; ys ← mapM f l; mret (y :: ys)).
  destruct (f x) as [y|e'] eqn:Hx; simpl.
  - destruct (mapM f l) as [ys|e'']; [done|]. intros [= ->].
    destruct IH as (x' & ? & ?); [done|]. exists x'. split; [by right|done].
  - intros [= ->]. exists x. split; [by left|done].
Qed.
Lemma mapM_Ok {X Y : Type} (f : X -> result Y) l ys :
  mapM f l = Ok ys -> Forall (fun x => exists y, f x = Ok y) l.
Proof.
  revert ys. induction l as [|x l IH]; intros ys; [done|].
  change (mapM f (x :: l)) with (y ← f x; ys ← mapM f l; mret (y :: ys)).
  destruct (f x) as [y|e'] eqn:Hx; simpl; [|done].
  destruct (mapM f l) as [zs|e'']; [|done]. intros _. constructor; [eauto|by eapply IH].
Qed.

(** An order whose list has a gap is never made. *)
Definition menu_unread (restaurantId : string) : tx world OrderView :=
  restaurant ← db_findFirst Schema.Restaurants (fun r => String.eqb (r_id r) restaurantId && r_active r);
  match restaurant with
  | None => tx_throw (NotFoundException "Active restaurant not found")
  | Some _ => tx_throw (JsError "Can not use `undefined` value within array")
  end.
Lemma menu_unread_Err restaurantId w :
  exists e, menu_unread restaurantId w = Err e /\
    (AllExceptionsFilter.statusOf e = 404 \/ AllExceptionsFilter.statusOf e = 500).
Proof.
  unfold menu_unread. erewrite tx_bind_eq by reflexivity.
  destruct (findFirst _ _); eexists; (split; [reflexivity|]); [by right|by left].
Qed.

Lemma create_gappy_run restaurantId items w :
  exists e, run (create_gappy restaurantId items) w = (Err e, w) /\
    AllExceptionsFilter.statusOf e ∈ [400; 404; 500].
Proof.
  unfold create_gappy. fold (menu_unread restaurantId).
  destruct (mapM item_id items) as [ids|e] eqn:Hi.
  - destruct (negb _); [eexists; split; [done|set_solver]|].
    destruct (menu_unread_Err restaurantId w) as (e & He & Hst). exists e.
    rewrite run_await, He. split; [done|]. destruct Hst as [-> | ->]; set_solver.
  - apply mapM_Err in Hi as ([i| |] & _ & [= <-]). eexists. split; [done|set_solver].
Qed.

Lemma create_gappy_guarded restaurantId items :
  guarded evolves quiet (create_gappy restaurantId items) wf_world.
Proof.
  unfold create_gappy. fold (menu_unread restaurantId). destruct (mapM _ _); [|done].
  destruct (negb _); [done|]. apply guarded_wf. intros w v w' _ H.
  destruct (menu_unread_Err restaurantId w) as (e & He & _). congruence.
Qed.

Lemma with_user_guarded {X : Type} user (f : AuthenticatedUser -> prog world X) I :
  (forall u, guarded evolves quiet (f u) I) -> guarded evolves quiet (with_user user f) I.
Proof. intros Hf. unfold with_user. by destruct (CurrentUser user). Qed.

Lemma controller_guarded fuel c user corr :
  guarded sv_evolves sv_evolves (controller fuel c user corr) (on_sys (may_call c)).
Proof.
  assert (Hwf : forall X (p : prog server X), guarded sv_evolves sv_evolves p (on_sys sys_wf) ->
    guarded sv_evolves sv_evolves p (on_sys (may_call c))).
  { intros X p Hp. eapply guarded_impl; [apply on_sys_stable, may_call_stable| |exact Hp].
    by intros s [? _]. }
  assert (Hdb : forall X (p : prog world X), guarded evolves quiet p wf_world ->
    guarded sv_evolves sv_evolves (serve (lift p)) (on_sys (may_call c))).
  { intros X p Hp. apply Hwf, guarded_serve, (guarded_lift _ wf_world Hp). }
  destruct c; try (cbn [controller]; destruct (mapM named_dish _); [|done]); apply guarded_map;
    try lazymatch goal with |- context [OrdersService.updateStatus] => idtac | _ => apply Hdb end;
    auto using register_guarded, login_guarded,
    refresh_guarded, logout_guarded, user_list_guarded, updateRole_guarded.
  - apply Hwf, guarded_serve, restaurants_list_guarded.
  - apply Hwf, guarded_serve, restaurants_create_guarded.
  - apply Hwf, guarded_serve, restaurants_create_guarded.
  - apply with_user_guarded. intros u. apply create_guarded.
  - apply with_user_guarded. intros u. apply create_gappy_guarded.
  - apply with_user_guarded. intros u. apply list_guarded.
  - apply guarded_serve, (guarded_lift _ (fun w => wf_world w /\ read_version id (us_version dto) w)),
      with_user_guarded.
    intros u. apply updateStatus_guarded.
  - apply with_user_guarded. intros u. apply pay_guarded.
  - apply guarded_wf, read_only_preserves, gets_read_only.
  - apply Hwf, guarded_serve, same_state_guarded. intros [] a s' [= _ <-]. done.
  - apply Hwf, guarded_serve, ready_guarded.
  - apply Hwf. apply guarded_beside; [apply on_sys_stable, sys_wf_stable|].
    by intros s a s' [= _ <-].
Qed.

(** ** Requests *)

(** What a request comes to before its handler runs. *)
Definition asked (rq : http_request) : option call :=
  match found_route rq with
  | Some (r, ps) => match arguments r ps rq with Ok c => Some c | Err _ => None end
  | None => None
  end.
Definition admissible (rq : http_request) (s : system) : Prop :=
  sys_wf s /\ forall c, asked rq = Some c -> known_version c s.

Lemma admissible_stable rq : stable sys_evolves (admissible rq).
Proof.
  intros s s' [Hwf Hk] Hs. split; [by eapply sys_wf_stable|].
  intros c Hc. by apply (may_call_stable c s s' (conj Hwf (Hk c Hc))).
Qed.

Lemma handle_guarded fuel rq :
  guarded sv_evolves sv_evolves (handle fuel rq) (on_sys (admissible rq)).
Proof.
  apply respond_guarded; [apply admissible_stable|by intros s [? _]|]. intros user corr.
  assert (Hc : forall c, asked rq = Some c ->
    guarded sv_evolves sv_evolves (controller fuel c user corr) (on_sys (admissible rq))).
  { intros c Hc. eapply guarded_impl; [apply on_sys_stable, admissible_stable| |apply controller_guarded].
    intros s [? Hk]. split; [done|by apply Hk]. }
  unfold asked in Hc. destruct (found_route rq) as [[r ps]|]; [|done].
  destruct (arguments r ps rq) as [c|e]; [|done]. by apply Hc.
Qed.

(** ** Executions *)

(** What may start: any request, but that of an order whose clients are informed a status
    update only names a version it has had; and whatever else the processes start (App.v). *)
Inductive arrives (s : server) : prog server unit -> Prop :=
| arrives_request fuel rq :
    (forall c, asked rq = Some c -> known_version c (sv_system s)) ->
    arrives s (prog_then (fun _ => Ret tt) (handle fuel rq))
| arrives_other p : starts (sv_system s) p -> arrives s (serve p).

(** The environment moves as in App.v, and the throttler's memory is the process's own. *)
Definition around (s s' : server) : Prop :=
  outside (sv_system s) (sv_system s') /\ sv_hits s' = sv_hits s.

Abbreviation http_execution := (reachable arrives around).
Abbreviation http_step := (sys_step arrives around).
Abbreviation orders_of s := (orders (w_db (sys_world (sv_system s)))).

Lemma around_evolves s s' : around s s' -> sv_evolves s s'.
Proof. intros [Ho Hh]. apply unseen_evolves; [by apply outside_evolves|done]. Qed.

Lemma arrives_covered s p : on_sys sys_wf s -> arrives s p -> covered sv_evolves s p.
Proof.
  intros Hs [fuel rq Hk|q Hq].
  - apply guarded_covered with (I := on_sys (admissible rq)); [|by split].
    apply guarded_map, handle_guarded.
  - destruct (starts_covered _ _ Hs Hq) as (I & HI & Hg).
    apply guarded_covered with (I := on_sys I); [by apply guarded_serve|done].
Qed.

Lemma http_evolves s0 c c' :
  on_sys sys_wf s0 -> http_execution s0 c -> http_step c c' -> sv_evolves (shared c) (shared c').
Proof.
  intros H0 Hr Hs. eapply guarded_sound; [..|exact H0|exact Hr|exact Hs].
  - apply sv_evolves_refl.
  - apply around_evolves.
  - apply on_sys_stable, sys_wf_stable.
  - apply arrives_covered.
Qed.

Lemma http_keeps (Q : server -> Prop) s0 c :
  stable sv_evolves Q -> on_sys sys_wf s0 -> Q s0 -> http_execution s0 c -> Q (shared c).
Proof.
  intros HQ H0 Hq Hr. eapply guarded_invariant; [..|exact HQ|exact H0|exact Hq|exact Hr].
  - apply sv_evolves_refl.
  - apply around_evolves.
  - apply on_sys_stable, sys_wf_stable.
  - apply arrives_covered.
Qed.

(** C2: The guarantees of the services hold of whatever clients send, in any form and number, with
    or without tokens, interleaved with each other and with the publishers, consumers and jobs:
    the database stays well formed, what counts as published has been confirmed by the broker,
    acknowledged messages are safe and the cache is true; and from one state to the next an
    order is untouched or takes one step, in which its version goes up by one, it does not go
    back to PENDING, and its owner, restaurant and total stay; new orders are PENDING with
    version 1. Such a step is one the transition table allows if the clients that update the
    order only name versions it has had; the service does not check that they do. *)
Theorem http_sound s0 c c' :
  on_sys sys_wf s0 -> on_sys sys_safe s0 -> http_execution s0 c -> http_step c c' ->
  on_sys sys_wf (shared c') /\ on_sys sys_safe (shared c') /\
  (forall k o, orders_of (shared c) !! k = Some o ->
     exists o', orders_of (shared c') !! k = Some o' /\
       (o' = o \/
        ((informed k -> o_status o' ∈ OrdersService.transitions (o_status o)) /\
         o_status o' <> PENDING /\ o_version o' = o_version o + 1 /\
         o_userId o' = o_userId o /\ o_restaurantId o' = o_restaurantId o /\
         o_totalAmount o' = o_totalAmount o))) /\
  (forall k o', orders_of (shared c) !! k = None -> orders_of (shared c') !! k = Some o' ->
     o_status o' = PENDING /\ o_version o' = 1).
Proof.
  intros H0 Hsafe Hr Hs. assert (Hr' : http_execution s0 c') by by eapply reach_step.
  split; [by eapply http_keeps; [apply on_sys_stable, sys_wf_stable|..]|].
  split; [by eapply http_keeps; [apply on_sys_stable, sys_safe_stable|..]|].
  assert (Hwf : on_sys sys_wf (shared c))
    by (by eapply http_keeps; [apply on_sys_stable, sys_wf_stable|..]).
  destruct (http_evolves _ _ _ H0 Hr Hs) as (((Ht & _) & _) & _).
  destruct (te_orders _ _ _ Ht) as [Hf Hn]. split; [|exact Hn].
  intros k o Ho. destruct (Hf _ _ Ho) as (o' & Ho' & Hc). exists o'. split; [done|].
  pose proof (ow_id _ _ _ (wf_orders _ Hwf _ _ Ho)) as Hid.
  destruct Hc as [->|(? & Hi & ? & _ & ? & ? & ? & _)]; [by left|right].
  rewrite Hid in Hi. by split_and!.
Qed.

Lemma hits_kept_stable : stable sv_evolves hits_kept.
Proof. intros s s' Hs (_ & _ & H). auto. Qed.

(** ** The outcome of a request *)

(** Nothing is stored, told to a server or cached. *)
Definition untouched (s s' : server) : Prop :=
  w_db (sys_world (sv_system s')) = w_db (sys_world (sv_system s)) /\
  clock s' = clock s /\ sys_log (sv_system s') = sys_log (sv_system s) /\
  sys_cache (sv_system s') = sys_cache (sv_system s).

Context {JL : JwtLaws J} {ML : PromClientLaws M} {RoL : RouterLaws Ro}
  {VL : ValidationLibraryLaws V} {NL : NestPipesLaws U N}.

Lemma given_refused c (i : input c) e :
  given c (as_object i) = Err e -> AllExceptionsFilter.statusOf e = 400.
Proof. intros H. pose proof (given_outcome c i) as Ho. rewrite H in Ho. by destruct Ho as (m & ms & ->). Qed.

Lemma body_refused c rq e :
  c <> OrderListClass -> Body c rq = Err e -> AllExceptionsFilter.statusOf e = 400.
Proof.
  intros Hc H. assert (Hg : exists i : input c, as_object i = hr_body rq)
    by (destruct c; try done; by exists (hr_body rq)).
  destruct Hg as [i Hi]. unfold Body in H. rewrite <-Hi in H. by eapply given_refused.
Qed.

Lemma arguments_refused r ps rq e :
  arguments r ps rq = Err e -> AllExceptionsFilter.statusOf e = 400.
Proof.
  intros H.
  assert (Hboth : forall X name c (f : string * received c -> X) e', c <> OrderListClass ->
    (both ← all_pipes (ParamUUID name ps) (Body c rq); mret (f both)) = Err e' ->
    AllExceptionsFilter.statusOf e' = 400).
  { intros X name c f e' Hc He. destruct (all_pipes _ _) as [both|e''] eqn:Ha; [done|].
    simplify_eq/=. apply one_refuses in Ha as [Ha|Ha]; [by eapply uuid_refused|by eapply body_refused]. }
  destruct r as [[]|[]|[]|[]|[]|[]|[]|[]]; cbn [arguments] in H; try done;
    try (by eapply Hboth; [|exact H]);
    lazymatch type of H with
    | context [Query] => destruct (Query OrderListClass rq) as [q|e'] eqn:Hx; [done|]; simplify_eq/=;
        by apply (given_refused OrderListClass (hr_query rq))
    | context [Body ?c rq] => destruct (Body c rq) as [d|e'] eqn:Hx; [done|]; simplify_eq/=;
        by eapply (body_refused c); [|exact Hx]
    end.
Qed.

(** A handler that is called with a list that has a gap. *)
Definition gappy_call (c : call) : bool :=
  match c with call_gappyRestaurant _ _ | call_gappyOrder _ _ => true | _ => false end.
Definition gap_in (c : call) : bool :=
  match c with
  | call_gappyRestaurant _ menuItems => existsb is_gap menuItems
  | call_gappyOrder _ items => existsb is_gap items
  | _ => false
  end.

Lemma new_restaurant_gap (d : received RestaurantClass) :
  match d with Whole d => dto_valid d = true | Gappy g => has_gap g = true end ->
  gappy_call (new_restaurant d) = true -> gap_in (new_restaurant d) = true.
Proof.
  destruct d as [d|g]; [|by refine (match g with GappyRestaurant _ _ => _ end)].
  by refine (match d with NewRestaurant _ => _ end).
Qed.
Lemma new_order_gap (d : received OrderClass) :
  match d with Whole d => dto_valid d = true | Gappy g => has_gap g = true end ->
  gappy_call (new_order d) = true -> gap_in (new_order d) = true.
Proof.
  destruct d as [d|g]; [|by refine (match g with GappyOrder _ _ => _ end)].
  by refine (match d with NewOrder _ => _ end).
Qed.

Lemma arguments_gap r ps rq c :
  arguments r ps rq = Ok c -> gappy_call c = true -> gap_in c = true.
Proof.
  pose proof (given_outcome RestaurantClass (hr_body rq)) as Hr.
  pose proof (given_outcome OrderClass (hr_body rq)) as Ho. cbn [as_object] in Hr, Ho.
  intros H Hc. destruct r as [[]|[]|[]|[]|[]|[]|[]|[]]; cbn [arguments] in H;
    try (lazymatch type of H with (?x ≫= _) = _ => destruct x eqn:Hx; [|done] end);
    injection H as <-; try done; unfold Body in Hx.
  - rewrite Hx in Hr. by apply new_restaurant_gap.
  - rewrite Hx in Ho. by apply new_order_gap.
Qed.

Lemma named_dishes_Err items :
  existsb is_gap items = true -> exists m, mapM named_dish items = Err (JsError m).
Proof.
  intros Hg. destruct (mapM named_dish items) as [l|e] eqn:Hm.
  - apply mapM_Ok in Hm. rewrite Forall_forall in Hm. apply existsb_exists in Hg as (e & He & Hge).
    destruct (Hm e) as [y Hy]; [by apply list_elem_of_In|]. by destruct e.
  - apply mapM_Err in Hm as ([i| |] & _ & [= <-]); eauto.
Qed.

Lemma run_map {S X Y : Type} (g : X -> Y) (p : prog S X) (s : S) :
  run (g <$> p) s =
    match run p s with (Ok a, s') => (Ok (g a), s') | (Err e, s') => (Err e, s') end.
Proof. exact (run_bind p (fun a => Ret (g a)) s). Qed.

Lemma gappy_run fuel c user corr s :
  gap_in c = true ->
  exists e, run (controller fuel c user corr) s = (Err e, s) /\
    AllExceptionsFilter.statusOf e ∈ [400; 404; 500].
Proof.
  intros Hg. destruct c as [| | | | | | | |name items| |rid items| | | | | | |]; try done; cbn [controller].
  - destruct (named_dishes_Err items Hg) as [m ->]. eexists. split; [done|set_solver].
  - assert (Hw : forall w, exists e, run (with_user user (fun _ => create_gappy rid items)) w = (Err e, w) /\
      AllExceptionsFilter.statusOf e ∈ [400; 404; 500]).
    { intros w. unfold with_user. destruct (CurrentUser user); [apply create_gappy_run|].
      eexists. split; [done|set_solver]. }
    destruct (Hw (sys_world (sv_system s))) as (e & He & Hst). exists e. split; [|done].
    rewrite run_map, run_serve, run_lift, He. simpl. by destruct s as [[] ? ? ?].
Qed.

(** The guards refuse with a 401 or a 403. *)
Lemma authorize_refused r auth w e :
  fst (run (authorize r auth) w) = Err e ->
  AllExceptionsFilter.statusOf e = 401 \/ AllExceptionsFilter.statusOf e = 403.
Proof.
  unfold authorize. rewrite run_bind, guard_run.
  assert (Hroles : forall user e', RolesGuard.canActivate (ROLES r) user = Err e' ->
    AllExceptionsFilter.statusOf e' = 403).
  { intros user e'. unfold RolesGuard.canActivate.
    repeat case_match; intros; simplify_eq; done. }
  assert (Hend : forall user w', fst (run (match RolesGuard.canActivate (ROLES r) user with
    | Ok _ => Ret user | Err e => Throw e end : prog world (option RequestUser)) w') = Err e -> AllExceptionsFilter.statusOf e = 403).
  { intros user w' H. destruct (RolesGuard.canActivate _ _) eqn:Hr; simpl in H; [done|].
    simplify_eq. by eapply Hroles. }
  destruct (IS_PUBLIC r); [intros H; right; by eapply Hend|].
  destruct (JwtAuthGuard.bearer auth) as [token|]; [|intros [= <-]; by left].
  destruct (jwt_verify _ _ _) as [payload|]; [|intros [= <-]; by left].
  destruct (match json_get "type" payload with Some (JStr s) => _ | _ => _ end);
    [intros H; right; by eapply Hend|intros [= <-]; by left].
Qed.

(** Who is refused has asked for a route that is not public. *)
Lemma refused_private r auth w e : fst (run (authorize r auth) w) = Err e -> IS_PUBLIC r = false.
Proof.
  destruct (IS_PUBLIC r) eqn:Hp; [|done]. unfold authorize. rewrite Hp.
  assert (Hroles : ROLES r = None) by (by destruct r as [[]|[]|[]|[]|[]|[]|[]|[]]).
  by rewrite Hroles.
Qed.

(** The request at the guards: its server with its correlation identifier drawn. *)
Definition drawn (w1 : world) (s : server) : server :=
  with_system (with_world w1 (sv_system s)) s.

Lemma use_untouched supplied s id w1 :
  CorrelationIdMiddleware.use supplied (sys_world (sv_system s)) = Ok (id, w1) ->
  untouched s (drawn w1 s).
Proof.
  rewrite use_eq. destruct (usable supplied); intros [= _ <-]; by destruct s as [[[]] ? ? ?].
Qed.

Lemma noted_untouched rq s0 s : untouched s0 s -> untouched s0 (noted rq s).
Proof. unfold noted. by destruct (rq_route rq). Qed.

(** What becomes of a request, run alone. *)
Lemma handle_run fuel rq s :
  exists id w1 a s', CorrelationIdMiddleware.use (hr_correlation rq) (sys_world (sv_system s)) =
      Ok (id, w1) /\ run (handle fuel rq) s = (Ok a, s') /\ an_correlation a = id /\
    match found_route rq with
    | None => an_status a = 404 /\ untouched s s'
    | Some (r, ps) =>
        if blocked (sv_hits s) r (hr_ip rq) (route_limit r) (clock s)
        then an_status a = 429 /\ untouched s s'
        else match fst (run (authorize r (hr_authorization rq)) w1) with
             | Err e => an_status a = AllExceptionsFilter.statusOf e /\ untouched s s'
             | Ok user =>
                 match arguments r ps rq with
                 | Err e => an_status a = AllExceptionsFilter.statusOf e /\ untouched s s'
                 | Ok c =>
                     let (result, s2) := run (controller fuel c user (Some id))
                       (noted (request_of rq) (drawn w1 s)) in
                     sv_system s' = sv_system s2 /\
                     match result with
                     | Ok reply => an_status a = success_status r /\ an_body a = Data reply
                     | Err e => an_status a = AllExceptionsFilter.statusOf e
                     end
                 end
             end
    end.
Proof.
  unfold handle.
  match goal with |- context [respond ?h _] => set (handler := h) end.
  destruct (respond_run handler (request_of rq) s) as (id & w1 & Hu & _ & H).
  cbv zeta in H. fold (drawn w1 s) in H. pose proof (use_untouched _ _ _ _ Hu) as Hs1.
  pose proof (noted_untouched (request_of rq) _ _ Hs1) as Hs2.
  assert (Hclock : clock (drawn w1 s) = clock s) by apply Hs1.
  assert (Hlet : let_through (request_of rq) (drawn w1 s) =
    match found_route rq with
    | None => Err (no_route (hr_method rq) (hr_url rq))
    | Some (r, ps) =>
        if blocked (sv_hits s) r (hr_ip rq) (route_limit r) (clock s) then Err ThrottlerException
        else match fst (run (authorize r (hr_authorization rq)) w1) with
             | Ok user => Ok (r, user) | Err e => Err e end
    end).
  { unfold let_through, request_of. simpl. destruct (found_route rq) as [[r ps]|]; [|done].
    simpl. change (w_now w1) with (clock (drawn w1 s)). rewrite Hclock.
    by destruct (blocked _ _ _ _ _). }
  rewrite Hlet in H. clear Hlet.
  assert (Hh : forall user r ps, found_route rq = Some (r, ps) ->
    handler user (Some id) = match arguments r ps rq with
      | Ok c => controller fuel c user (Some id) | Err e => Throw e end).
  { intros user r ps Hf. unfold handler. by rewrite Hf. }
  clearbody handler.
  destruct (found_route rq) as [[r ps]|] eqn:Hf.
  - destruct (blocked _ _ _ _ _) eqn:Hb.
    + destruct H as (a & Ha & Hid & Hst & _). rewrite exception_status in Hst. by eexists id, w1, a, _.
    + destruct (fst (run (authorize r _) w1)) as [user|e] eqn:Hg.
      * rewrite (Hh user r ps eq_refl) in H. destruct (arguments r ps rq) as [c|e] eqn:Hc.
        -- destruct (run (controller fuel c user (Some id)) _) as [result s2] eqn:Hrun.
           destruct H as (a & Ha & Hid & Hr). eexists id, w1, a, _.
           do 3 (split; [eassumption|]). rewrite Hg, Hrun. split; [done|].
           destruct result; [by subst a|by destruct Hr].
        -- destruct H as (a & Ha & Hid & Hst & _). eexists id, w1, a, _.
           do 3 (split; [eassumption|]). by rewrite Hg.
      * destruct H as (a & Ha & Hid & Hst & _). eexists id, w1, a, _.
        do 3 (split; [eassumption|]). by rewrite Hg.
  - destruct H as (a & Ha & Hid & Hst & _). rewrite no_route_status in Hst. by eexists id, w1, a, _.
Qed.

(** C10: Every request whose body, if it has one, is a JSON object, run alone, comes to one of these
    ends: 404 for a URL that is no route's, 429 beyond the limit of the route, 401 or 403 from the
    guards of a route that is not public, 400 from the pipes, and in these cases nothing is
    stored, told to a server or cached; or else to what its handler, called with what the pipes
    have made of the request, comes to: the status of the route and the handler's answer, or
    the status of its exception. A list with null or a list for an item is not refused by the
    pipes: its handler then fails with a 400, 404 or 500, and nothing is stored, told or cached. *)
Theorem request_outcome fuel rq s :
  exists id w1 a s', CorrelationIdMiddleware.use (hr_correlation rq) (sys_world (sv_system s)) =
      Ok (id, w1) /\ run (handle fuel rq) s = (Ok a, s') /\ an_correlation a = id /\
    match found_route rq with
    | None => an_status a = 404 /\ untouched s s'
    | Some (r, ps) =>
        if blocked (sv_hits s) r (hr_ip rq) (route_limit r) (clock s)
        then an_status a = 429 /\ untouched s s'
        else match fst (run (authorize r (hr_authorization rq)) w1) with
             | Err e => (an_status a = 401 \/ an_status a = 403) /\ IS_PUBLIC r = false /\
                 untouched s s'
             | Ok user =>
                 match arguments r ps rq with
                 | Err e => an_status a = 400 /\ untouched s s'
                 | Ok c =>
                     let (result, s2) := run (controller fuel c user (Some id))
                       (noted (request_of rq) (drawn w1 s)) in
                     sv_system s' = sv_system s2 /\
                     match result with
                     | Ok reply => an_status a = success_status r /\ an_body a = Data reply
                     | Err e => an_status a = AllExceptionsFilter.statusOf e
                     end /\
                     (gappy_call c = true -> an_status a ∈ [400; 404; 500] /\ untouched s s')
                 end
             end
    end.
Proof.
  destruct (handle_run fuel rq s) as (id & w1 & a & s' & Hu & Ha & Hid & H).
  exists id, w1, a, s'. do 3 (split; [done|]).
  destruct (found_route rq) as [[r ps]|]; [|done]. destruct (blocked _ _ _ _ _); [done|].
  destruct (fst (run (authorize r _) w1)) as [user|e] eqn:Hg.
  - destruct (arguments r ps rq) as [c|e] eqn:Hc; [|by rewrite (arguments_refused _ _ _ _ Hc) in H].
    destruct (gappy_call c) eqn:Hgap.
    + destruct (gappy_run fuel c user (Some id) (noted (request_of rq) (drawn w1 s)))
        as (e & Hrun & Hst); [by eapply arguments_gap|].
      rewrite Hrun in *. destruct H as [Hs ->]. split_and!; [done..|]. intros _. split; [done|].
      pose proof (noted_untouched (request_of rq) _ _ (use_untouched _ _ _ _ Hu)) as Hun.
      unfold untouched, clock in *. by rewrite Hs.
    + destruct (run (controller fuel c user (Some id)) _) as [result s2]. by destruct H.
  - destruct H as [-> Ht]. split; [by eapply authorize_refused|].
    split; [by eapply refused_private|done].
Qed.

(** ** The limits are kept *)

(** C11: The limits of the routes are kept whatever arrives: in every state of every execution, at
    most so many requests for a handler from one address have been let past the throttler in any
    window of its time as its limit says: 5 a minute for logins and for registrations, 10 for
    refreshed tokens, 100 for every other route. A request beyond the limit is answered with a
    429, and nothing is stored, told to a server or cached. *)
Theorem limits_kept s0 c :
  on_sys sys_wf s0 -> sv_hits s0 = [] -> http_execution s0 c ->
  (forall r ip t,
     (passed r ip (t - ttl (route_limit r)) t (sv_hits (shared c)) <= limit (route_limit r))%nat) /\
  (forall ip t,
     (passed (AuthRoute AuthController.login) ip (t - 60000) t (sv_hits (shared c)) <= 5)%nat) /\
  (forall fuel rq r ps, found_route rq = Some (r, ps) ->
     (limit (route_limit r) <=
      passed r (hr_ip rq) (clock (shared c) - ttl (route_limit r)) (clock (shared c))
        (sv_hits (shared c)))%nat ->
     exists a s', run (handle fuel rq) (shared c) = (Ok a, s') /\ an_status a = 429 /\
       untouched (shared c) s').
Proof.
  intros H0 Hnone Hr.
  assert (Hkept : hits_kept (shared c)).
  { apply (http_keeps hits_kept s0); [apply hits_kept_stable|done| |done].
    unfold hits_kept. rewrite Hnone. split; [constructor|]. intros r ip t. apply Nat.le_0_l. }
  destruct Hkept as [_ Hl]. split_and!; [exact Hl| |].
  - intros ip t. exact (Hl (AuthRoute AuthController.login) ip t).
  - intros fuel rq r ps Hf Hfull.
    destruct (handle_run fuel rq (shared c)) as (id & w1 & a & s' & _ & Ha & _ & H).
    rewrite Hf, blocked_full in H by done. exists a, s'. by split.
Qed.

End api.
