(* ===== verification/ApiJourney.v ===== *)
(** * An order over HTTP

    The stages of the API on one request: from the URL, the token and the JSON body of a client
    to the stored order and the answer. *)
From S2P Require Import Prelude JsStrings Errors Effects Prisma Schema Orders OrdersSpec Payments.
From S2P Require Import Evolution Auth Http Routes Throttle Restaurants System Cache Pipeline.
From S2P Require Import Validation ValidationSpec ValidationWritten Reading Api ApiSpec.

Section journey.
Context {Cl : Clients} {P : Prisma} {U : Uuids} {D : Decimals} {DT : Dates} {J : Jwt} {A : Argon2}
  {C : AuthConfig} {HP : HttpPlatform} {ET : ErrorText} {R : Redis} {M : PromClient}
  {Ro : Router} {Th : Throttler} {V : ValidationLibrary} {N : NestPipes}
  {PL : PrismaLaws P} {UL : UuidsLaws U} {TL : ThrottlerLaws Th} {JL : JwtLaws J}
  {ML : PromClientLaws M} {RoL : RouterLaws Ro} {VL : ValidationLibraryLaws V}
  {NL : NestPipesLaws U N}.

(** ** Lemmas *)

Lemma run_fmap {S X Y : Type} (f : X -> Y) (p : prog S X) s :
  run (f <$> p) s =
  (match fst (run p s) with Ok x => Ok (f x) | Err e => Err e end, snd (run p s)).
Proof.
  change (f <$> p) with (p ≫= fun x => Ret (f x)). rewrite run_bind.
  by destruct (run p s) as [[x|e] s'].
Qed.

(** The user of a token is the user the handlers get. *)
Lemma CurrentUser_claims user :
  CurrentUser (Some (claims_of user)) =
  Some (mkAuthenticatedUser (tu_id user) (tu_email user) (tu_role user)).
Proof. unfold CurrentUser, claims_of. simpl. by rewrite role_read. Qed.

(** A program of the database, run by a handler. *)
Lemma run_on_database {X Y : Type} (f : X -> Y) (p : prog world X) s x w :
  run p (sys_world (sv_system s)) = (Ok x, w) ->
  run (f <$> serve (lift p)) s = (Ok (f x), with_system (with_world w (sv_system s)) s).
Proof. intros Hp. by rewrite run_fmap, run_serve, run_lift, Hp. Qed.

(** The route of a URL that was made for it. *)
Lemma found_at rq r values :
  hr_method rq = route_method r -> hr_path rq = route_url r values ->
  length values = length (param_names (route_pattern r)) -> Forall plain values ->
  found_route rq = Some (r, zip (param_names (route_pattern r)) values).
Proof.
  intros Hm Hu Hl Hv. unfold found_route. rewrite Hm, Hu.
  by apply route_found; [apply application_routes_all|..].
Qed.

Definition bearer_token (user : TokenUser) (t : Z) : option string :=
  Some (String.append "Bearer "
    (jwt_sign (AuthService.access_claims user) JWT_ACCESS_SECRET JWT_ACCESS_TTL_SECONDS t)).

Lemma distinct_ids (ids : list string) :
  NoDup ids -> bool_decide (size (list_to_set ids : gset string) = length ids) = true.
Proof. intros Hn. apply bool_decide_eq_true. by apply size_list_to_set. Qed.

(** A request within its limit, with a live token for a route its user may call, whose
    arguments pass the pipes, is answered with what the handler answers. *)
Lemma handled_with fuel rq s r ps c user t id w1 :
  found_route rq = Some (r, ps) -> IS_PUBLIC r = false -> permitted r (tu_role user) = true ->
  hr_authorization rq = bearer_token user t ->
  t <= clock s < t + JWT_ACCESS_TTL_SECONDS * 1000 - 1000 ->
  blocked (sv_hits s) r (hr_ip rq) (route_limit r) (clock s) = false ->
  CorrelationIdMiddleware.use (hr_correlation rq) (sys_world (sv_system s)) = Ok (id, w1) ->
  arguments r ps rq = Ok c ->
  exists a s', run (handle fuel rq) s = (Ok a, s') /\ an_correlation a = id /\
    let (result, s2) := run (controller fuel c (Some (claims_of user)) (Some id))
      (noted (request_of rq) (drawn w1 s)) in
    sv_system s' = sv_system s2 /\
    match result with
    | Ok reply => an_status a = success_status r /\ an_body a = Data reply
    | Err e => an_status a = AllExceptionsFilter.statusOf e
    end.
Proof.
  intros Hf Hpub Hperm Hauth Ht Hb Hu Hc.
  destruct (handle_run fuel rq s) as (id' & w1' & a & s' & Hu' & Ha & Hid & H).
  rewrite Hu in Hu'. injection Hu' as <- <-. exists a, s'. do 2 (split; [done|]).
  rewrite Hf, Hb, Hauth in H. unfold bearer_token in H.
  assert (Hnow : w_now w1 = clock s) by apply (use_untouched _ _ _ _ Hu).
  rewrite access_token_run, Hperm in H by (done || by rewrite Hnow). simpl fst in H. by rewrite Hc in H.
Qed.

(** ** An order *)

(** The request of a client that orders: the URL, the token, the JSON of the order. *)
Record orders_over (user : TokenUser) (t : Z) (d : CreateOrderDto) (rq : http_request) : Prop := {
  oo_method : hr_method rq = POST;
  oo_path : hr_path rq = "/v1/orders"%string;
  oo_token : hr_authorization rq = bearer_token user t;
  oo_body : hr_body rq = written (NewOrder d);
}.

Lemma order_arguments user t d rq :
  orders_over user t d rq -> CreateOrderDto_valid d = true -> recognised (NewOrder d) ->
  found_route rq = Some (OrdersRoute OrdersController.create, []) /\
  arguments (OrdersRoute OrdersController.create) [] rq = Ok (call_createOrder d).
Proof.
  intros [Hm Hp _ Hb] Hv Hr. split.
  - by apply (found_at rq (OrdersRoute OrdersController.create) []).
  - cbn [arguments]. unfold Body. by rewrite Hb, (given_written (NewOrder d) Hv Hr).
Qed.

(** C5: An order over HTTP: a user with a live access token, who posts to /v1/orders the JSON of an
    order for available items of an active restaurant, within the limit of the route, gets a
    201 with the correlation identifier of the request and the order: PENDING, of version 1,
    of that user and restaurant, for exactly the sum of the menu's prices. The order is stored
    with its audit record and its OrderCreated event, and no other order is touched. *)
Theorem order_over_http fuel rq s user t d lines id w1 :
  orders_over user t d rq -> CreateOrderDto_valid d = true -> recognised (NewOrder d) ->
  t <= clock s < t + JWT_ACCESS_TTL_SECONDS * 1000 - 1000 ->
  blocked (sv_hits s) (OrdersRoute OrdersController.create) (hr_ip rq)
    (route_limit (OrdersRoute OrdersController.create)) (clock s) = false ->
  CorrelationIdMiddleware.use (hr_correlation rq) (sys_world (sv_system s)) = Ok (id, w1) ->
  keyed mi_id (menuItems (w_db w1)) -> creatable (tu_id user) d (Some id) lines w1 ->
  exists a s' view, run (handle fuel rq) s = (Ok a, s') /\ an_status a = 201 /\
    an_correlation a = id /\ an_body a = Data (OneOrder view) /\
    let o := ov_order view in
    o_userId o = tu_id user /\ o_restaurantId o = co_restaurantId d /\ o_status o = PENDING /\
    o_version o = 1 /\ o_totalAmount o = lines_sum lines /\
    let before := w_db (sys_world (sv_system s)) in
    let db' := w_db (sys_world (sv_system s')) in
    orders before !! o_id o = None /\ orders db' = <[o_id o := o]> (orders before) /\
    has_audit (audit_of "ORDER_CREATED" (o_id o)) (auditLogs db') /\
    has_event "OrderCreated" (o_id o) (outboxEvents db').
Proof.
  intros Hrq Hv Hr Ht Hb Hu Hk Hc. destruct (order_arguments _ _ _ _ Hrq Hv Hr) as [Hf Ha].
  assert (Hperm : permitted (OrdersRoute OrdersController.create) (tu_role user) = true) by done.
  destruct (handled_with fuel rq s _ _ _ user t id w1 Hf eq_refl Hperm (oo_token _ _ _ _ Hrq) Ht Hb Hu Ha)
    as (a & s' & Hrun & Hid & H).
  set (s1 := noted (request_of rq) (drawn w1 s)) in *.
  assert (Hw : sys_world (sv_system s1) = w1) by (unfold s1, noted; by destruct (rq_route _)).
  destruct (create_order_succeeds _ (tu_id user) d (Some id) lines w1 Hk Hc) as (view & w2 & Hcreate & Htotal).
  assert (Hs : run (with_user (Some (claims_of user)) (fun u => OrdersService.create u d (Some id)))
    (sys_world (sv_system s1)) = (Ok view, w2)).
  { unfold with_user. rewrite CurrentUser_claims. unfold OrdersService.create.
    rewrite distinct_ids by apply Hc. cbn [negb au_id]. by rewrite run_await, Hw, Hcreate. }
  cbn [controller] in H. rewrite (run_on_database OneOrder _ s1 view w2 Hs) in H.
  destruct H as (Hsys & Hst & Hbody). exists a, s', view. do 4 (split; [done|]). cbv zeta.
  assert (Hdb : w_db (sys_world (sv_system s')) = w_db w2) by by rewrite Hsys.
  assert (Hold : w_db (sys_world (sv_system s)) = w_db w1) by (symmetry; apply (use_untouched _ _ _ _ Hu)).
  rewrite Hdb, Hold.
  destruct (create_inv (tu_id user) d (Some id) w1 view w2 Hk Hcreate)
    as (lines' & o & items & tb & ak & al & ek & e & _ & _ & _ & _ & Hnew & Ho & _ & _ & _ &
        _ & Hact & (Hagg & _) & _ & He & Hview & _ & _ & Hdb2).
  rewrite Hview in Htotal |- *. rewrite Hdb2. simpl.
  split_and!; [by rewrite Ho..|exact Htotal|exact Hnew|done| |].
  - exists ak, al. by rewrite lookup_insert_eq.
  - exists ek, e. by rewrite lookup_insert_eq, He.
Qed.

End journey.
