(* ===== verification/Platform.v ===== *)
(** * A concrete platform

    Instances of every parameter of the development, with their laws: they show that the
    hypotheses of the theorems can hold together, and they let the program run on concrete
    inputs. Tokens are a readable encoding of their claims, hashes are prefixes; nothing
    here is meant to be secure. *)
From S2P Require Import JsNumbers ScalingLab.
From S2P Require Import Cache.
From S2P Require Import Prelude JsStrings Errors Effects Prisma Schema Orders Evolution Auth.
From S2P Require Import System Outbox.
From S2P Require Import Http Routes Throttle Rabbit Environment Pipeline Startup Modules DeliveryQueue.
From stdpp Require Import countable.
#[local] Open Scope Z_scope.

(** ** Clients, UUIDs, numbers, dates *)

(** Whoever updates an order only names versions it has had. *)
#[export] Instance demo_clients : Clients := fun _ => True.

#[export] Instance demo_uuids : Uuids := {|
  uuid_at n := text (take 36 (chars (pretty (N.of_nat n)) ++
    chars "-uuid-" ++ replicate 36 (Ascii.ascii_of_nat 48)));
  is_uuid s := (String.length s =? 36)%nat;
|}.

Lemma length_text l : String.length (text l) = length l.
Proof. induction l as [|a l IH]; simpl; [done|]. by f_equal. Qed.

#[export] Instance demo_uuids_laws : UuidsLaws demo_uuids.
Proof.
  assert (H : forall n, String.length (@uuid_at demo_uuids n) = 36%nat).
  { intros n. cbn -[text take chars replicate app]. rewrite length_text, length_take, !length_app, length_replicate. lia. }
  split; [|done]. intros n. cbn -[uuid_at]. by rewrite H.
Qed.

#[export] Instance demo_decimals : Decimals := {| decimal_toString := pretty |}.
#[export] Instance demo_dates : Dates := {| Date_parse s := if String.eqb s "epoch" then Some 0 else None |}.
#[export] Instance demo_http : HttpPlatform := {|
  HttpStatus_name n :=
    if n =? 400 then Some "BAD_REQUEST" else if n =? 404 then Some "NOT_FOUND"
    else if n =? 409 then Some "CONFLICT" else None;
  toISOString t := pretty t |}.
#[export] Instance demo_error_text : ErrorText := {|
  error_message e := match e with JsError m => m | PrismaClientKnownRequestError c => c
                     | HttpException _ _ => "Http Exception" end |}.

(** ** JSON values are countable *)

Fixpoint json_tree (j : json) : gen_tree (bool + Z + string) :=
  match j with
  | JNull => GenNode 0 []
  | JBool b => GenLeaf (inl (inl b))
  | JNum n => GenLeaf (inl (inr n))
  | JStr s => GenLeaf (inr s)
  | JArr l => GenNode 1 (map json_tree l)
  | JObj fs => GenNode 2 (flat_map (fun '(k, v) => [GenLeaf (inr k); json_tree v]) fs)
  end.

Fixpoint tree_json (t : gen_tree (bool + Z + string)) : json :=
  match t with
  | GenLeaf (inl (inl b)) => JBool b
  | GenLeaf (inl (inr n)) => JNum n
  | GenLeaf (inr s) => JStr s
  | GenNode 1 l => JArr (map tree_json l)
  | GenNode 2 l =>
      JObj ((fix go (l : list (gen_tree (bool + Z + string))) : list (string * json) :=
               match l with
               | GenLeaf (inr k) :: v :: l => (k, tree_json v) :: go l
               | _ => []
               end) l)
  | GenNode _ _ => JNull
  end.

Fixpoint tree_json_tree (j : json) : tree_json (json_tree j) = j.
Proof.
  destruct j as [|b|n|s|l|fs]; simpl; try done.
  - f_equal. induction l as [|j l IH]; simpl; [done|]. by rewrite tree_json_tree, IH.
  - f_equal. induction fs as [|[k v] fs IH]; simpl; [done|]. by rewrite tree_json_tree, IH.
Qed.

#[export] Instance json_eq_dec : EqDecision json.
Proof.
  intros x y. destruct (decide (json_tree x = json_tree y)) as [H|H].
  - left. by rewrite <- (tree_json_tree x), H, tree_json_tree.
  - right. congruence.
Defined.
#[export] Instance json_countable : Countable json := inj_countable' json_tree tree_json tree_json_tree.

(** ** Tokens *)

(** A positive number as a text of 0s and 1s, and back. *)
Fixpoint bits (p : positive) : list Ascii.ascii :=
  match p with
  | xH => []
  | xO p => Ascii.ascii_of_nat 48 :: bits p
  | xI p => Ascii.ascii_of_nat 49 :: bits p
  end.
Fixpoint of_bits (l : list Ascii.ascii) : positive :=
  match l with
  | [] => xH
  | a :: l => if Ascii.eqb a (Ascii.ascii_of_nat 48) then xO (of_bits l) else xI (of_bits l)
  end.
Lemma of_bits_bits p : of_bits (bits p) = p.
Proof. induction p as [p IH|p IH|]; cbn; by rewrite ?IH. Qed.

(** What a token says: its secret, when it expires, its claims. *)
Definition demo_token (secret : string) (expires : Z) (claims : json) : string :=
  text (Ascii.ascii_of_nat 116 :: bits (encode (secret, expires, claims))).
Definition read_token (token : string) : option (string * Z * json) :=
  match chars token with
  | _ :: l => decode (of_bits l)
  | [] => None
  end.

Lemma read_demo_token secret expires claims :
  read_token (demo_token secret expires claims) = Some (secret, expires, claims).
Proof. unfold read_token, demo_token. by rewrite chars_text, of_bits_bits, decode_encode. Qed.

#[export] Instance demo_jwt : Jwt := {|
  jwt_sign claims secret ttl t := demo_token secret (t + ttl * 1000) claims;
  jwt_verify token secret t :=
    match read_token token with
    | Some (secret', expires, claims) =>
        if String.eqb secret' secret && (t <? expires) then Some claims else None
    | None => None
    end;
|}.

Lemma bits_no_space p : space ∉ bits p.
Proof.
  induction p as [p IH|p IH|]; cbn; [..|apply not_elem_of_nil];
    apply not_elem_of_cons; by split.
Qed.

#[export] Instance demo_jwt_laws : JwtLaws demo_jwt.
Proof.
  split; cbn -[demo_token read_token].
  - intros claims secret ttl t t' Ht. exists claims. rewrite read_demo_token, String.eqb_refl.
    replace (t' <? t + ttl * 1000) with true by lia. done.
  - intros claims secret ttl t t' claims'. rewrite read_demo_token, String.eqb_refl.
    destruct (_ <? _); simpl; [|done]. by intros [= <-].
  - intros token secret t t' c c'. destruct (read_token token) as [[[s e] x]|]; [|done].
    do 2 destruct (_ && _); try done. by intros [= <-] [= <-].
  - intros claims secret ttl t. split; [done|]. unfold demo_token. rewrite chars_text.
    apply not_elem_of_cons. split; [done|apply bits_no_space].
  - intros claims secret secret' ttl t t' Hne. rewrite read_demo_token.
    by destruct (String.eqb_spec secret secret').
Qed.

(** ** Hashes *)

#[export] Instance demo_argon2 : Argon2 := {|
  argon2_hash _ p := text (take 255 (chars p));
  argon2_verify h p := Ok (String.eqb h (text (take 255 (chars p))));
|}.
#[export] Instance demo_argon2_laws : Argon2Laws demo_argon2.
Proof.
  split; cbn -[take].
  - intros _ p. by rewrite String.eqb_refl.
  - intros _ p. rewrite length_text, length_take. lia.
Qed.

#[export] Instance demo_config : AuthConfig := {|
  JWT_ACCESS_SECRET := "access"; JWT_REFRESH_SECRET := "refresh";
  JWT_ACCESS_TTL_SECONDS := 900; JWT_REFRESH_TTL_SECONDS := 604800 |}.

(** ** Topics *)

(** The name [n] of a pattern [n.#]. *)
Definition hash_name (p : string) : option string :=
  match rev (chars p) with
  | h :: d :: l =>
      if Ascii.eqb h (Ascii.ascii_of_nat 35) && Ascii.eqb d (Ascii.ascii_of_nat 46)
      then Some (text (rev l)) else None
  | _ => None
  end.

#[export] Instance demo_topics : TopicMatching := {|
  topic_match p k :=
    match hash_name p with
    | Some name => String.eqb k name || String.prefix (String.append name ".") k
    | None => String.eqb p k
    end;
|}.

Lemma hash_name_dot name : hash_name (dot name "#") = Some name.
Proof.
  unfold hash_name, dot. rewrite !chars_append, !rev_app_distr. simpl.
  by rewrite rev_involutive, text_chars.
Qed.

Lemma prefix_append s r : String.prefix s (String.append s r) = true.
Proof.
  induction s as [|a s IH]; simpl; [by destruct r|].
  destruct (Ascii.ascii_dec a a); [done|congruence].
Qed.

Lemma append_assoc (a b c : string) :
  String.append a (String.append b c) = String.append (String.append a b) c.
Proof.
  rewrite <- (text_chars (String.append a _)), !chars_append, app_assoc.
  by rewrite <- !chars_append, text_chars.
Qed.

#[export] Instance demo_topics_laws : TopicLaws demo_topics.
Proof.
  split; cbn -[hash_name].
  - intros p k Hp. assert (hash_name p = None) as ->; [|done].
    unfold hash_name. destruct (rev (chars p)) as [|h [|d l]] eqn:Hr; try done.
    assert (Hin : In h (chars p)) by (rewrite <- (rev_involutive (chars p)), Hr; apply in_rev;
      rewrite rev_involutive; by left).
    rewrite forallb_forall in Hp. specialize (Hp _ Hin). unfold no_wildcard in Hp.
    by destruct (Ascii.eqb h _).
  - intros name rest. rewrite hash_name_dot. unfold dot. rewrite append_assoc, prefix_append.
    by rewrite orb_true_r.
  - intros name k _. rewrite hash_name_dot. intros [?%String.eqb_eq|?]%orb_true_iff; auto.
Qed.

(** ** Redis *)

(** The text [p] of a pattern [p*]. *)
Definition star_prefix (pattern : string) : string :=
  match rev (chars pattern) with
  | a :: l => if Ascii.eqb a (Ascii.ascii_of_nat 42) then text (rev l) else pattern
  | [] => pattern
  end.

(** A scan that gives everything in one turn. *)
#[export] Instance demo_redis : Redis := {|
  redis_get k t st :=
    match st !! k with Some (v, e) => if t <? e then Some v else None | None => None end;
  redis_set k v ttl t st := <[k := (v, t + ttl * 1000)]> st;
  redis_scan cursor pattern _ _ st :=
    ("0"%string, List.filter (String.prefix (star_prefix pattern)) (map fst (map_to_list st)));
  redis_del ks _ st :=
    (Z.of_nat (length ks), foldr (fun k (c : store) => base.delete k c) st ks);
  scan_rank _ _ := 0%nat;
|}.

Lemma star_prefix_star prefix : star_prefix (String.append prefix "*") = prefix.
Proof.
  unfold star_prefix. rewrite chars_append, rev_app_distr. simpl.
  by rewrite rev_involutive, text_chars.
Qed.

#[export] Instance demo_redis_laws : RedisLaws demo_redis.
Proof.
  split; cbn -[star_prefix].
  - done.
  - done.
  - intros ks _ st k. induction ks as [|k' ks IH]; simpl; [done|].
    destruct (decide (k' = k)) as [->|Hne].
    + by rewrite lookup_delete_eq, bool_decide_eq_true_2 by (by left).
    + rewrite lookup_delete_ne, IH by done.
      rewrite (bool_decide_ext (k ∈ ks) (k ∈ k' :: ks)); [done|].
      rewrite elem_of_cons. split; [by right|by intros [->|?]].
  - intros prefix count l ks k _ Hit Hk Hall. destruct l as [|[t st] [|]]; try done.
    simpl in Hit. injection Hit as <-. rewrite star_prefix_star.
    apply list_elem_of_In, filter_In. split; [|done].
    destruct (Hall t st) as (v & e & Hst & _); [by left|].
    apply list_elem_of_In, list_elem_of_fmap. exists (k, (v, e)). split; [done|].
    by apply elem_of_map_to_list.
  - intros prefix count cursor t st k _. rewrite star_prefix_star.
    by intros [_ ?]%list_elem_of_In%filter_In.
  - done.
Qed.

(** ** Validation *)

(** The URL parser and the collation of the lab, on what it needs of them. *)
#[export] Instance demo_urls : UrlParser := {|
  URL_protocol s :=
    if js_startsWith "http://" s then Some "http:"%string
    else if js_startsWith "https://" s then Some "https:"%string else None |}.
#[export] Instance demo_collation : Collation := {|
  localeCompare s s' := match String.compare s s' with Lt => -1 | Eq => 0 | Gt => 1 end |}.

Definition demo_accepts (d : decorator) (v : value) : bool :=
  match d, v with
  | IsIn l, VString s => bool_decide (s ∈ l)
  | IsInt, VNumber x => isInteger x
  | Min n, VNumber x => JsNumbers.leb (JsNumbers.of_Z n) x
  | IsString, VString _ => true
  | IsUrl _, VString s => bool_decide (is_Some (@URL_protocol demo_urls s))
  | IsOptional, _ => true
  | _, _ => false
  end.

Definition demo_plainToInstance (fields : list field) (config : environment) : instance := fun name =>
  match List.find (fun f => String.eqb (f_name f) name) fields with
  | Some f =>
      match config !! name with
      | None => f_initial f
      | Some s => if f_number f then VNumber (Number s) else VString s
      end
  | None => from_option VString VUndefined (config !! name)
  end.

Definition demo_field_ok (f : field) (v : value) : bool :=
  (existsb (fun d => match d with IsOptional => true | _ => false end) (f_decorators f) &&
   match v with VUndefined => true | _ => false end) ||
  forallb (fun d => match d with IsOptional => true | _ => demo_accepts d v end) (f_decorators f).

#[export] Instance demo_validator : ClassValidator := {|
  plainToInstance := demo_plainToInstance;
  accepts := demo_accepts;
  validateSync fields v :=
    map (fun f => mkValidationError (f_name f) [])
      (List.filter (fun f => negb (demo_field_ok f (v (f_name f)))) fields);
  stringify_errors errors := js_join ", " (map property errors);
|}.

Lemma find_named (fields : list field) f : f ∈ fields -> base.NoDup (map f_name fields) ->
  List.find (fun g => String.eqb (f_name g) (f_name f)) fields = Some f.
Proof.
  induction fields as [|g fields IH]; intros Hf Hnd; [by apply not_elem_of_nil in Hf|].
  apply list.NoDup_cons in Hnd as [Hg Hnd]. apply elem_of_cons in Hf as [->|Hf]; simpl.
  - by rewrite String.eqb_refl.
  - destruct (String.eqb_spec (f_name g) (f_name f)) as [He|]; [|by apply IH].
    destruct Hg. rewrite He. by apply list_elem_of_fmap_2.
Qed.

#[export] Instance demo_validator_laws : ClassValidatorLaws demo_validator.
Proof.
  split; try (by intros l [] || by intros [] || by intros n []).
  - intros fields config f Hf Hnd. simpl. unfold demo_plainToInstance. by rewrite find_named.
  - intros fields v p. simpl. rewrite map_map, list_elem_of_fmap. split.
    + intros (f & -> & [Hf Hok]%list_elem_of_In%filter_In). exists f.
      split_and!; [by apply list_elem_of_In|done|by apply negb_true_iff].
    + intros (f & Hf & <- & Hok). exists f. split; [done|].
      apply list_elem_of_In, filter_In. split; [by apply list_elem_of_In|]. by apply negb_true_iff.
Qed.

(** ** Metrics: counts by name and labels *)

Abbreviation counts := (gmap (string * list (string * string)) Z).
Definition demo_count (n : string) (l : labels) (c : counts) : counts :=
  <[(n, l) := default 0 (c !! (n, l)) + 1]> c.

#[export] Instance demo_prom : PromClient := {|
  registry := counts * counts;
  inc n l r := (demo_count n l r.1, r.2);
  observe n l _ r := (r.1, demo_count n l r.2);
  counter_value n l r := default 0 (r.1 !! (n, l));
  histogram_count n l r := default 0 (r.2 !! (n, l));
  metrics_text r := pretty (size r.1);
|}.

Lemma demo_count_value (n n' : string) (l l' : labels) (c : counts) :
  default 0 (demo_count n l c !! (n', l')) =
  default 0 (c !! (n', l')) + if bool_decide (n' = n /\ l' = l) then 1 else 0.
Proof.
  unfold demo_count. case_bool_decide as Hb.
  - destruct Hb as [-> ->]. by rewrite lookup_insert_eq.
  - rewrite lookup_insert_ne by naive_solver. simpl. lia.
Qed.

#[export] Instance demo_prom_laws : PromClientLaws demo_prom.
Proof. split; intros; simpl; try done; apply demo_count_value. Qed.

(** ** Routes and limits *)

#[export] Instance demo_router : Router := {|
  route_match v controller handler path := fits (pattern v controller handler) (segments path);
  no_route method url :=
    NotFoundException (js_join " " ["Cannot"; verb_name method; url]%string);
|}.

Lemma split_join l :
  Forall plain l -> l <> [] -> js_split slash (js_join "/" l) = l.
Proof.
  induction 1 as [|s l (_ & Hs & _) Hl IH]; [done|]. intros _. destruct l as [|s' l].
  - simpl. by apply js_split_none.
  - change (js_join "/" (s :: s' :: l)) with (String.append s (String slash (js_join "/" (s' :: l)))).
    rewrite js_split_append by done. by rewrite IH.
Qed.

Lemma segments_url_path l : Forall plain l -> segments (url_path l) = l.
Proof.
  intros Hl. unfold segments, url_path.
  change (js_split slash (String.append "/" (js_join "/" l)))
    with (""%string :: js_split slash (js_join "/" l)).
  destruct l as [|s l]; [done|]. rewrite split_join by done.
  revert Hl. generalize (s :: l) as l'. intros l' Hl. cbn [List.filter String.eqb negb].
  induction Hl as [|s' l'' (Hs & _) _ IH]; [done|]. cbn [List.filter].
  destruct (String.eqb_spec s' ""); [done|]. simpl. by rewrite IH.
Qed.

#[export] Instance demo_router_laws : RouterLaws demo_router.
Proof. split; [|done]. intros v c h l _ Hl. simpl. by rewrite segments_url_path. Qed.

#[export] Instance demo_throttler : Throttler := {|
  blocked l r ip o t := (limit o <=? passed r ip (t - ttl o) t l)%nat;
  ThrottlerException :=
    HttpException 429 (ResponseString "ThrottlerException: Too Many Requests");
|}.

#[export] Instance demo_throttler_laws : ThrottlerLaws demo_throttler.
Proof.
  split; simpl; [|intros l r ip o t _ Hlt|done].
  - intros. by apply Nat.leb_le.
  - apply Nat.leb_gt. eapply Nat.le_lt_trans; [|exact Hlt]. unfold passed. clear Hlt.
    induction l as [|h l IH]; simpl; [done|].
    assert (Hc : counts_for r ip (t - ttl o) t h = true -> counts_for r ip (t - ttl o - 1) t h = true).
    { unfold counts_for. rewrite !andb_true_iff, !Z.ltb_lt. intuition lia. }
    destruct (counts_for r ip (t - ttl o) t h); [rewrite Hc by done; simpl in *; lia|].
    destruct (counts_for r ip (t - ttl o - 1) t h); simpl in *; lia.
Qed.

(** ** URLs: the Redis of the examples *)

#[export] Instance demo_url_parts : UrlParts := {|
  parse_url s :=
    if js_startsWith "redis://" s
    then Some (mkUrlParts "redis:" (js_slice_from 8 s) "" "" "") else None;
  decodeURIComponent s := Some s;
|}.

(** ** A queue that never forgets a job *)

Definition active (j : job) : bool := bool_decide (j_state j = Active).
Definition change (id : string) (may : job -> bool) (f : job -> job)
    (q : QueueOptions * gmap string job) : option (QueueOptions * gmap string job) :=
  j ← q.2 !! id;
  if may j then Some (q.1, <[id := f j]> q.2) else None.

#[export] Instance demo_bullmq : BullMQ := {|
  queue := QueueOptions * gmap string job;
  new_queue o := (o, ∅);
  options q := q.1;
  getJob id q := q.2 !! id;
  add id d o q :=
    match q.2 !! id with Some _ => q | None => (q.1, <[id := mkJob d o 0 Queued]> q.2) end;
  lock id t q := change id (ready t) (in_state Active) q;
  settle id ok t q := change id active (settled ok t) q;
  stall id q := change id active (in_state Queued) q;
|}.

Lemma change_may id may f (q : QueueOptions * gmap string job) j :
  q.2 !! id = Some j -> may j = true -> is_Some (change id may f q).
Proof. intros Hj Hm. unfold change. rewrite Hj. simpl. rewrite Hm. eauto. Qed.

Lemma change_inv id may f q q' :
  change id may f q = Some q' -> q'.1 = q.1 /\
  exists j, q.2 !! id = Some j /\ may j = true /\ q'.2 !! id = Some (f j) /\
    forall id', id' <> id -> q'.2 !! id' = q.2 !! id'.
Proof.
  unfold change. intros (j & Hj & H)%bind_Some. destruct (may j) eqn:Hm; simplify_eq.
  split; [done|]. exists j. simpl. split_and!; [done|done|apply lookup_insert_eq|].
  intros id' Hne. by apply lookup_insert_ne.
Qed.

Lemma active_state j : active j = true <-> j_state j = Active.
Proof. apply bool_decide_eq_true. Qed.

#[export] Instance demo_bullmq_laws : BullMQLaws demo_bullmq.
Proof.
  split; cbn [queue new_queue options getJob add lock settle stall demo_bullmq].
  - done.
  - done.
  - intros id d o q [j ->]. done.
  - intros id d o q id' ->. case_bool_decide as Heq; simpl.
    + subst. apply lookup_insert_eq.
    + by apply lookup_insert_ne.
  - intros id d o q. by destruct (q.2 !! id).
  - intros id t q j. apply change_may.
  - intros id t q q' (? & j & ? & ? & ? & ?)%change_inv. eauto 7.
  - intros id ok t q j Hj Ha. eapply change_may; [exact Hj|by apply active_state].
  - intros id ok t q q' (? & j & ? & ?%active_state & ? & ?)%change_inv. eauto 7.
  - intros id ok t q q' id' j (_ & ? & _ & _ & _ & Ho)%change_inv Hne Hj. left. by rewrite Ho.
  - intros id ok t q q' id' (_ & j & Hj & _ & _ & Ho)%change_inv Hn. rewrite Ho; congruence.
  - intros id q j Hj Ha. eapply change_may; [exact Hj|by apply active_state].
  - intros id q q' (? & j & ? & ?%active_state & ? & ?)%change_inv. split; [done|].
    exists j, Queued. split_and!; auto.
Qed.

(** ** The modules of NestJS *)

#[export] Instance demo_nest : NestLibrary := {|
  library_exports m :=
    if String.eqb m "ConfigModule" then ["ConfigService"%string]
    else if String.eqb m "JwtModule" then ["JwtService"%string] else [];
  library_global m := String.eqb m "ConfigModule";
  core := ["Reflector"; "HttpAdapterHost"]%string;
|}.
#[export] Instance demo_nest_laws : NestLibraryLaws demo_nest.
Proof. split; cbn; set_solver. Qed.
