(* ===== verification/Scenario.v ===== *)
(** * A concrete run

    Alice registers, a restaurant opens, Alice orders and pays, the outbox publishes the
    events and the consumers process them, on the platform of Platform.v and the in-memory
    database client. Each state is computed by running the program on the one before;
    that every one of them is well formed follows from the theorems of the components. *)
From S2P Require Import Cache CacheSpec.
From S2P Require Import Prelude JsStrings Errors Effects Prisma Schema Orders OrdersSpec Payments.
From S2P Require Import Evolution OrderFlow PaymentsSpec Auth AuthFlow Restaurants System Outbox.
From S2P Require Import OutboxSpec Workers WorkersFlow Rabbit RabbitSpec App Platform.
Export MemPrisma MemPrismaLaws.

(** The state after a program has run alone. *)
Definition after {S A : Type} (p : prog S A) (s : S) : S := snd (run p s).
Definition answers {S A : Type} (p : prog S A) (s : S) : bool :=
  match fst (run p s) with Ok _ => true | Err _ => false end.

Lemma run_answers {S A : Type} (p : prog S A) s :
  answers p s = true -> exists a, run p s = (Ok a, after p s).
Proof.
  unfold answers, after. destruct (run p s) as [[a|e] s']; simpl; [|done]. by exists a.
Qed.

Lemma after_evolves {A : Type} (p : prog world A) w :
  guarded evolves quiet p wf_world -> wf (w_db w) -> rtc evolves w (after p w).
Proof.
  intros Hg Hw. unfold after. destruct (run p w) as [r w'] eqn:Hr. simpl.
  by eapply run_evolves.
Qed.

Lemma after_wf {A : Type} (p : prog world A) w :
  guarded evolves quiet p wf_world -> wf (w_db w) -> wf (w_db (after p w)).
Proof. intros Hg Hw. eapply rtc_wf; [exact Hw|]. by apply after_evolves. Qed.

(** ** The cast *)

Definition alice_dto : RegisterDto := mkRegisterDto " Alice@Example.com" "correct horse battery" "Alice".
Definition alice_login : LoginDto := mkLoginDto "ALICE@example.com " "correct horse battery".
Definition corr : option string := Some "corr-1"%string.

(** Nothing stored; the clock shows 1000 seconds. *)
Definition w0 : world := mkWorld empty_db 1000000 0.
Definition w1 : world := after (AuthService.register alice_dto) w0.
Definition alice : AuthenticatedUser := mkAuthenticatedUser (uuid_at 1) "alice@example.com" USER.
Definition boss : AuthenticatedUser := mkAuthenticatedUser (uuid_at 1) "boss@example.com" MANAGER.

Definition trattoria : CreateRestaurantDto :=
  mkCreateRestaurantDto " Trattoria " [mkCreateMenuItemDto "Soup" 450; mkCreateMenuItemDto "Pasta" 1250].
Definition s1 : system := mkSystem w1 [] ∅ true ∅.
Definition opening : prog system RestaurantView := RestaurantsService.create 1 trattoria.
Definition w2 : world := sys_world (after opening s1).

Definition rest_id : string := uuid_at (w_nonce w1).
Definition soup : string := uuid_at (w_nonce w1 + 1).
Definition pasta : string := uuid_at (w_nonce w1 + 2).
Definition supper : CreateOrderDto :=
  mkCreateOrderDto rest_id [mkCreateOrderItemDto pasta 2; mkCreateOrderItemDto soup 1].
Definition order_id : string := uuid_at (w_nonce w2).
Definition w3 : world := after (OrdersService.create alice supper corr) w2.

Definition pay_key : string := "0123456789abcdef"%string.
Definition pay_dto : CompletePaymentDto := mkCompletePaymentDto None.
Definition w4 : world := after (PaymentsService.complete alice order_id (Some pay_key) pay_dto corr) w3.

Definition move (status : OrderStatus) (version : Z) : prog world OrderView :=
  OrdersService.updateStatus boss order_id (mkUpdateOrderStatusDto status version) corr.
Definition w5 : world := after (move PREPARING 2) w4.

(** ** The states are well formed *)

Lemma w0_wf : wf (w_db w0).
Proof.
  split; try (intros ?; intros; simplify_map_eq).
Qed.
Lemma w1_wf : wf (w_db w1).
Proof. apply after_wf; [apply register_guarded|apply w0_wf]. Qed.
Lemma sys_rtc s s' : rtc sys_evolves s s' -> rtc evolves (sys_world s) (sys_world s').
Proof.
  induction 1 as [x|x y z (HE & _) _ IH]; [apply rtc_refl|]. by eapply rtc_l.
Qed.
Lemma w2_evolves : rtc evolves w1 w2.
Proof.
  unfold w2, after. destruct (run opening s1) as [r s] eqn:Hr.
  assert (H : rtc sys_evolves s1 s).
  { exact (run_guarded _ _ _ _ s1 _ _ (restaurants_create_guarded 1 trattoria) (w1_wf : sys_wf s1) Hr). }
  exact (sys_rtc _ _ H).
Qed.
Lemma w2_wf : wf (w_db w2).
Proof. eapply rtc_wf; [apply w1_wf|apply w2_evolves]. Qed.
Lemma w3_wf : wf (w_db w3).
Proof. apply after_wf; [apply create_guarded|apply w2_wf]. Qed.
Lemma w4_wf : wf (w_db w4).
Proof. apply after_wf; [apply pay_guarded|apply w3_wf]. Qed.

Lemma w1_eq : w1 = after (AuthService.register alice_dto) w0.
Proof. reflexivity. Qed.

(** From here on the states are only looked into by evaluation. *)
#[global] Opaque w0 w1 w2 w3 w4.
#[global] Opaque rest_id soup pasta order_id alice boss.

(** Reading off a state: the program computes it. *)
Ltac evaluate := vm_compute; reflexivity.

Lemma w4_order : (o_version <$> orders (w_db w4) !! order_id) = Some 2.
Proof. evaluate. Qed.

Lemma w4_read : read_version order_id 2 w4.
Proof.
  pose proof w4_order as Hv. intros _.
  destruct (orders (w_db w4) !! order_id) as [o|]; [|discriminate Hv].
  exists o. split; [reflexivity|]. injection Hv as ->. lia.
Qed.

Lemma w5_evolves : rtc evolves w4 w5.
Proof.
  destruct (run_answers (move PREPARING 2) w4) as [v Hrun]; [evaluate|].
  eapply rtc_subrel; [apply quiet_evolves|].
  unfold w5. apply (run_guarded _ _ _ _ _ _ _ (updateStatus_guarded boss order_id
    (mkUpdateOrderStatusDto PREPARING 2) corr) (conj w4_wf w4_read) Hrun).
Qed.
#[global] Opaque w5.
Lemma w5_wf : wf (w_db w5).
Proof. eapply rtc_wf; [apply w4_wf|apply w5_evolves]. Qed.

(** ** The processes *)

Abbreviation execution := (reachable starts outside).
Abbreviation system_step := (sys_step starts outside).

(** One program started in [s] and run for [n] steps. *)
Section stages.
Context {S : Type}.
Implicit Types (p : prog S unit) (s : S).

Definition schedule p (n : nat) : list (action S unit) := Spawn p :: replicate n (Run 0).
Definition possible p (n : nat) s : bool :=
  match perform_all (schedule p n) (mkConfig s []) with Some _ => true | None => false end.
Definition stage p (n : nat) s : config S unit :=
  default (mkConfig s []) (perform_all (schedule p n) (mkConfig s [])).

Lemma perform_all_snoc {A : Type} (l : list (action S A)) a c :
  perform_all (l ++ [a]) c = perform_all l c ≫= perform a.
Proof.
  revert c. induction l as [|b l IH]; intros c; simpl.
  - by destruct (perform a c).
  - destruct (perform b c); simpl; [apply IH|done].
Qed.

Lemma schedule_S p n : schedule p (Datatypes.S n) = schedule p n ++ [Run 0].
Proof. unfold schedule. by rewrite replicate_S_end. Qed.

Lemma possible_S p n s :
  possible p (Datatypes.S n) s = true ->
  possible p n s = true /\ perform (Run 0) (stage p n s) = Some (stage p (Datatypes.S n) s).
Proof.
  unfold possible, stage. rewrite schedule_S, perform_all_snoc.
  destruct (perform_all (schedule p n) _) as [c|]; simpl; [|done].
  destruct (threads c !! 0%nat) as [[| |B m k]|]; try done.
  destruct (m (shared c)) as [[b s']|e]; done.
Qed.

Variable admissible : S -> prog S unit -> Prop.
Variable env : S -> S -> Prop.

Lemma stage_reached p n s :
  admissible s p -> possible p n s = true -> reachable admissible env s (stage p n s).
Proof.
  intros Hp. induction n as [|n IH]; intros Hn.
  - apply reach_step with (c := mkConfig s []); [apply reach_init|]. by apply (SysStep _ _ _ _ (Spawn p)).
  - destruct (possible_S _ _ _ Hn) as [Hn' Hs]. eapply reach_step; [by apply IH|].
    by apply (SysStep _ _ _ _ (Run 0)).
Qed.

Lemma stage_steps p n s :
  possible p (Datatypes.S n) s = true ->
  sys_step admissible env (stage p n s) (stage p (Datatypes.S n) s).
Proof. intros [_ Hs]%possible_S. by apply (SysStep _ _ _ _ (Run 0)). Qed.

(** Actions that are allowed whatever the state. *)
Lemma actions_reached l s c c' :
  Forall (fun a => forall d, allowed admissible env a d) l ->
  perform_all l c = Some c' -> reachable admissible env s c -> reachable admissible env s c'.
Proof.
  revert c. induction l as [|a l IH]; intros c Hl Hp Hr; simpl in Hp; [by simplify_eq|].
  inversion_clear Hl. apply bind_Some in Hp as (d & Hd & Hp). eapply IH; [done|exact Hp|].
  eapply reach_step; [exact Hr|]. by apply (SysStep _ _ _ _ a).
Qed.

End stages.

Lemma stage_reachable p n s : starts s p -> possible p n s = true -> execution s (stage p n s).
Proof. apply stage_reached. Qed.
Lemma stage_step p n s : possible p (S n) s = true -> system_step (stage p n s) (stage p (S n) s).
Proof. apply stage_steps. Qed.

(** The system with the order paid, and nothing told to the servers yet. *)
Definition s4 : system := mkSystem w4 [] ∅ true ∅.
Lemma s4_wf : sys_wf s4.
Proof. apply w4_wf. Qed.

Definition nothing_published (d : db) : bool :=
  forallb (fun e => bool_decide (ob_publishedAt e = None)) (rows (outboxEvents d)).
Lemma nothing_published_safe w b r :
  nothing_published (w_db w) = true -> sys_safe (mkSystem w [] b r ∅).
Proof.
  intros H. split_and!.
  - intros k e He Hs. unfold nothing_published in H. rewrite forallb_forall in H.
    assert (Hin : In e (rows (outboxEvents (w_db w)))) by (apply list_elem_of_In, elem_of_rows; eauto).
    specialize (H _ Hin). apply bool_decide_eq_true in H. rewrite H in Hs. by destruct Hs.
  - by intros c m ?%not_elem_of_nil.
  - intros data e. simpl. by rewrite lookup_empty.
Qed.
Lemma s4_safe : sys_safe s4.
Proof. apply nothing_published_safe. evaluate. Qed.

Definition batch : prog system unit := OutboxPublisherService.publishBatch "node-1" false.
Definition s5 : system := after batch s4.

(** The OrderCreated event, and the message the broker delivers for it. *)
Definition event_id : string := uuid_at (w_nonce w2 + 4).
Definition order_event : json := event_json
  (mkDomainEvent event_id "OrderCreated" "1000000" "Order" order_id corr
     (JObj [("orderId", JStr order_id); ("userId", JStr (uuid_at 1)); ("restaurantId", JStr rest_id);
            ("totalAmount", JStr "2950")])).
Definition order_message : message :=
  mkMessage (Json order_event) "order.created"
    (mkProperties (Some event_id) corr (Some "OrderCreated"%string) 2 None None None).
Definition delivery_id : string := uuid_at (w_nonce w4).
#[global] Opaque event_id delivery_id.

Definition consuming (c : RabbitConsumersService.ConsumerName) : prog system unit :=
  RabbitConsumersService.consume true c order_message.

Lemma consuming_starts s c : starts s (consuming c).
Proof. exact (start_message s true c order_message). Qed.

(** The system after the notification consumer is done with the message. *)
Definition s6 : system := shared (stage (consuming RabbitConsumersService.notification) 3 s4).
Definition delivering : prog system unit := request (NotificationQueueService.process delivery_id).
Lemma s6_wf : sys_wf s6.
Proof.
  apply (system_wf s4); [apply s4_wf|]. apply stage_reachable; [apply consuming_starts|evaluate].
Qed.
#[global] Opaque s6.
