(* ===== verification/Races.v ===== *)
(** * Two races

    Interleavings the program allows and should not, played on the state of Scenario.v: they
    show why App.v claims the order transitions and the version bound only of clients that name
    a version the order has had in a status update, and why AuthSpec.v speaks of a refresh token
    used twice in a row and not at once. *)
From S2P Require Import Prelude JsStrings Errors Effects Prisma Schema Orders Auth Platform.
From S2P Require Import Scenario.

Definition status_of (id : string) (w : world) : option (OrderStatus * Z) :=
  (fun o => (o_status o, o_version o)) <$> orders (w_db w) !! id.

Lemma triple_inv {A B C : Type} (a a' : A) (b b' : B) (c c' : C) :
  Some (a, b, c) = Some (a', b', c') -> a = a' /\ b = b' /\ c = c'.
Proof. by intros [= -> -> ->]. Qed.

(** Cancel the order under the version it will have next; make it ready under the present one. *)
Definition cancel_ahead : prog world OrderView := move CANCELLED 4.
Definition make_ready : prog world OrderView := move READY 3.

(** The optimistic lock does not protect the check that precedes it: a client that sends
    the version the order will have next, and whose request reads the order before another
    request makes it READY and commits after it, cancels an order that is READY, a
    transition the state machine forbids. *)
Theorem version_race :
  exists c c', perform_all [Run 0; Run 1; Run 1] (mkConfig w5 [cancel_ahead; make_ready]) = Some c /\
    perform (Run 0) c = Some c' /\
    status_of order_id w5 = Some (PREPARING, 3) /\
    status_of order_id (shared c) = Some (READY, 4) /\
    status_of order_id (shared c') = Some (CANCELLED, 5) /\ CANCELLED ∉ OrdersService.transitions READY.
Proof.
  assert (H : (c ← perform_all [Run 0; Run 1; Run 1] (mkConfig w5 [cancel_ahead; make_ready]);
      c' ← perform (Run 0) c;
      Some (status_of order_id w5, status_of order_id (shared c), status_of order_id (shared c'))) =
    Some (Some (PREPARING, 3), Some (READY, 4), Some (CANCELLED, 5))) by evaluate.
  apply bind_Some in H as (c & Hc & H). apply bind_Some in H as (c' & Hc' & H).
  apply triple_inv in H as (H0 & H1 & H2). exists c, c'. split_and!; try assumption.
  by intros [?|?%not_elem_of_nil]%elem_of_cons.
Qed.

(** The refresh token Alice got when she registered. *)
Definition first_token : string :=
  match run (AuthService.register alice_dto) w0 with (Ok p, _) => refreshToken p | _ => ""%string end.
Definition live_tokens (w : world) : nat :=
  length (where_rows (fun t => bool_decide (rt_revokedAt t = None)) (refreshTokens (w_db w))).
(** The first request stops before its rotation, the second one runs, the first goes on. *)
Definition both_refresh : list (action world TokenPair) :=
  replicate 9 (Run 0) ++ replicate 10 (Run 1) ++ [Run 0].

(** The rotation of a refresh token does not ask that it is still live: two refreshes with
    one token, interleaved between the check of the first and its rotation, both succeed, and
    leave two live tokens where there was one. *)
Theorem refresh_race :
  exists c p p', perform_all both_refresh
      (mkConfig w1 [AuthService.refresh first_token; AuthService.refresh first_token]) = Some c /\
    threads c = [Ret p; Ret p'] /\ refreshToken p <> refreshToken p' /\
    live_tokens w1 = 1%nat /\
    live_tokens (shared c) = 2%nat.
Proof.
  assert (H : (c ← perform_all both_refresh
        (mkConfig w1 [AuthService.refresh first_token; AuthService.refresh first_token]);
      Some (match threads c with
            | [Ret p; Ret p'] => Some (String.eqb (refreshToken p) (refreshToken p')) | _ => None end,
        live_tokens w1, live_tokens (shared c))) =
    Some (Some false, 1%nat, 2%nat)) by evaluate.
  apply bind_Some in H as (c & Hc & H). apply triple_inv in H as (Ht & Hb & Ha).
  destruct (threads c) as [|[p|e|B m k] [|[p'|e'|B' m' k'] [|]]] eqn:Hthreads; try discriminate Ht.
  injection Ht as Ht. apply String.eqb_neq in Ht. exists c, p, p'. split_and!; assumption.
Qed.
