(* ===== verification/Witnesses.v ===== *)
(** * The theorems at work

    Each theorem with a hypothesis, applied to the run of Scenario.v: its hypotheses hold
    there together, and what it concludes is about that run. *)
From S2P Require Import Cache CacheSpec.
From S2P Require Import Prelude JsStrings Errors Effects Prisma Schema Orders OrdersSpec Payments.
From S2P Require Import Evolution OrderFlow PaymentsSpec Auth AuthFlow AuthSpec Http Restaurants.
From S2P Require Import System Outbox OutboxSpec Workers WorkersFlow Rabbit RabbitSpec App.
From S2P Require Import Platform Scenario.

(** A row of a computed state, from what one of its columns is. *)
Lemma column_row {A B : Type} (f : A -> B) (o : option A) b :
  f <$> o = Some b -> exists a, o = Some a /\ f a = b.
Proof. intros (a & -> & ->)%fmap_Some. eauto. Qed.

Lemma column_row2 {A B C : Type} (f : A -> B) (g : A -> C) (o : option A) b c :
  (fun a => (f a, g a)) <$> o = Some (b, c) -> exists a, o = Some a /\ f a = b /\ g a = c.
Proof. intros (a & -> & [= <- <-])%column_row. eauto. Qed.

Abbreviation db_of c := (w_db (sys_world (shared c))).

(** ** The whole system *)

(** Making the order ready for preparation, from the paid state: two steps. *)
Definition preparing : prog system unit := request (move PREPARING 2).
Lemma preparing_starts : starts s4 preparing.
Proof. apply start_status. apply w4_read. Qed.

Lemma orders_follow_transitions_witness :
  exists o o', orders (db_of (stage preparing 1 s4)) !! order_id = Some o /\
    orders (db_of (stage preparing 2 s4)) !! order_id = Some o' /\
    o_version o = 2 /\ o_version o' = 3 /\
    (o' = o \/ o_status o' ∈ OrdersService.transitions (o_status o)).
Proof.
  destruct (orders_follow_transitions s4 (stage preparing 1 s4) (stage preparing 2 s4) s4_wf)
    as [H _].
  - apply stage_reachable; [apply preparing_starts|evaluate].
  - apply stage_step. evaluate.
  - destruct (column_row o_version (orders (db_of (stage preparing 1 s4)) !! order_id) 2)
      as (o & Ho & Hv); [evaluate|].
    destruct (column_row o_version (orders (db_of (stage preparing 2 s4)) !! order_id) 3)
      as (o' & Ho' & Hv'); [evaluate|].
    exists o, o'. destruct (H _ _ Ho) as (o2 & Ho2 & Hc). rewrite Ho' in Ho2.
    injection Ho2 as <-. repeat (split; [assumption|]).
    destruct Hc as [?|(Hi & _)]; [left; assumption|right]. apply Hi. exact I.
Defined.

Lemma orders_accounted_witness :
  exists o, orders (db_of (stage preparing 2 s4)) !! order_id = Some o /\
    o_totalAmount o = sum_lines (items_of order_id (orderItems (db_of (stage preparing 2 s4)))) /\
    o_totalAmount o = 2950.
Proof.
  destruct (column_row o_totalAmount (orders (db_of (stage preparing 2 s4)) !! order_id) 2950)
    as (o & Ho & Hv); [evaluate|].
  exists o. split; [assumption|]. split; [|assumption].
  apply (orders_accounted s4 (stage preparing 2 s4) order_id o s4_wf); [|assumption].
  apply stage_reachable; [apply preparing_starts|evaluate].
Defined.

Definition pay_id : string := uuid_at (w_nonce w3).
#[global] Opaque pay_id.

Lemma payments_sound_witness :
  exists p o, payments (db_of (stage preparing 2 s4)) !! pay_id = Some p /\
    orders (db_of (stage preparing 2 s4)) !! p_orderId p = Some o /\
    p_amount p = o_totalAmount o /\ p_amount p = 2950.
Proof.
  destruct (column_row p_amount (payments (db_of (stage preparing 2 s4)) !! pay_id) 2950)
    as (p & Hp & Hv); [evaluate|].
  destruct (payments_sound s4 (stage preparing 2 s4) pay_id p s4_wf) as [(o & Ho & Ha & _) _].
  - apply stage_reachable; [apply preparing_starts|evaluate].
  - assumption.
  - exists p, o. repeat (split; [assumption|]). assumption.
Defined.

(** Alice logs out, in the state right after her registration. *)
Definition first_token : string :=
  match run (AuthService.register alice_dto) w0 with (Ok p, _) => refreshToken p | _ => ""%string end.
#[global] Opaque first_token.
Lemma s1_wf : sys_wf s1.
Proof. apply w1_wf. Qed.
Definition leaving : prog system unit := request (AuthService.logout first_token).

Lemma leaving_starts : starts s1 leaving.
Proof. exact (start_logout s1 first_token). Qed.

Lemma accounts_sound_witness :
  exists u u', users (db_of (stage leaving 1 s1)) !! uuid_at 1 = Some u /\
    users (db_of (stage leaving 2 s1)) !! uuid_at 1 = Some u' /\
    u_email u' = u_email u /\ u_email u = "alice@example.com"%string.
Proof.
  destruct (column_row u_email (users (db_of (stage leaving 1 s1)) !! uuid_at 1) "alice@example.com")
    as (u & Hu & He); [evaluate|].
  destruct (accounts_sound s1 (stage leaving 1 s1) (stage leaving 2 s1) s1_wf) as (_ & H & _).
  - apply stage_reachable; [exact leaving_starts|evaluate].
  - apply stage_step. evaluate.
  - destruct (H _ _ Hu) as (u' & Hu' & _ & He' & _). exists u, u'.
    repeat (split; [assumption|]). assumption.
Defined.

Lemma outbox_at_least_once_witness :
  exists e, outboxEvents (db_of (stage batch 10 s4)) !! event_id = Some e /\
    ob_publishedAt e = Some 1000000 /\ accepted event_id (sys_log (shared (stage batch 10 s4))).
Proof.
  destruct (column_row ob_publishedAt (outboxEvents (db_of (stage batch 10 s4)) !! event_id)
    (Some 1000000)) as (e & He & Hp); [evaluate|].
  destruct (outbox_at_least_once s4 (stage batch 10 s4) (stage batch 11 s4) s4_wf s4_safe) as [H _].
  - apply stage_reachable; [apply start_batch|evaluate].
  - apply stage_step. evaluate.
  - exists e. split; [assumption|]. split; [assumption|]. apply (H _ e); [assumption|].
    rewrite Hp. eexists. reflexivity.
Defined.

Lemma acknowledged_only_when_safe_witness :
  let c := stage (consuming RabbitConsumersService.audit) 2 s4 in
  sys_log (shared c) = [Acked "audit" order_message] /\
  (handled "audit" order_message (shared c) \/ republished "audit" order_message (sys_log (shared c))).
Proof.
  assert (Hr : execution s4 (stage (consuming RabbitConsumersService.audit) 2 s4))
    by (apply stage_reachable; [apply consuming_starts|evaluate]).
  intros c.
  assert (Hlog : sys_log (shared c) = [Acked "audit" order_message]) by evaluate.
  split; [exact Hlog|].
  apply (acknowledged_only_when_safe s4 c "audit" order_message s4_wf s4_safe Hr).
  rewrite Hlog. left.
Defined.

Lemma deliveries_follow_machine_witness :
  exists n n', notificationDeliveries (db_of (stage delivering 1 s6)) !! delivery_id = Some n /\
    notificationDeliveries (db_of (stage delivering 2 s6)) !! delivery_id = Some n' /\
    nd_status n = DelProcessing /\ nd_payload n' = nd_payload n.
Proof.
  destruct (column_row nd_status (notificationDeliveries (db_of (stage delivering 1 s6)) !! delivery_id)
    DelProcessing) as (n & Hn & Hs); [evaluate|].
  destruct (deliveries_follow_machine s6 (stage delivering 1 s6) (stage delivering 2 s6)
    delivery_id n s6_wf) as (_ & _ & n' & Hn' & _ & Hp & _).
  - apply stage_reachable; [apply start_job|evaluate].
  - apply stage_step. evaluate.
  - assumption.
  - exists n, n'. repeat (split; [assumption|]). assumption.
Defined.

(** ** Orders *)

(** What a step or a program answers, from what one part of its answer is. *)
Lemma tx_value {A B : Type} (m : tx world A) w (f : A -> B) b :
  match m w with Ok (a, _) => Some (f a) | Err _ => None end = Some b ->
  exists a w', m w = Ok (a, w') /\ f a = b.
Proof. destruct (m w) as [[a w']|e]; [|discriminate]. intros [= <-]. eauto. Qed.
Lemma run_value {S A B : Type} (p : prog S A) s (f : A -> B) b :
  match run p s with (Ok a, _) => Some (f a) | _ => None end = Some b ->
  exists a, run p s = (Ok a, after p s) /\ f a = b.
Proof. unfold after. destruct (run p s) as [[a|e] s']; [|discriminate]. intros [= <-]. eauto. Qed.
Lemma some_row {A : Type} (o : option A) :
  match o with Some _ => true | None => false end = true -> is_Some o.
Proof. destruct o; [eauto|discriminate]. Qed.

Lemma create_order_correct_witness :
  exists view w' lines, OrdersRepository.create (uuid_at 1) supper corr w2 = Ok (view, w') /\
    o_totalAmount (ov_order view) = 2950 /\ priced_items (w_db w2) supper lines /\
    lines_sum lines = 2950.
Proof.
  destruct (tx_value (OrdersRepository.create (uuid_at 1) supper corr) w2
    (fun v => o_totalAmount (ov_order v)) 2950) as (view & w' & Hrun & Ht); [evaluate|].
  destruct (create_order_correct (uuid_at 1) supper corr w2 view w' (wf_menu _ w2_wf) Hrun)
    as (o & lines & items & t & ak & a & ek & e & _ & Hpriced & _ & Ho & _ & _ & _ & _ & _ & _ &
        _ & _ & _ & _ & _ & _ & _ & Hv & _).
  exists view, w', lines. repeat (split; [assumption|]).
  rewrite Hv, Ho in Ht. exact Ht.
Defined.

Lemma create_order_errors_witness :
  OrdersRepository.create (uuid_at 1) (mkCreateOrderDto "nowhere" []) corr w0 =
    Err (NotFoundException "Active restaurant not found").
Proof.
  destruct (create_order_errors (uuid_at 1) (mkCreateOrderDto "nowhere" []) corr w0
    (wf_menu _ w0_wf)) as [H _].
  apply H. intros (k & r & Hr & _). assert (restaurants (w_db w0) = ∅) as He by evaluate.
  rewrite He, lookup_empty in Hr. discriminate Hr.
Defined.

Definition supper_lines : list LineItem :=
  [mkLineItem pasta "Pasta" 1250 2 2500; mkLineItem soup "Soup" 450 1 450].

Lemma menu_line_row t rid i l :
  (fun m => (mi_available m, mi_restaurantId m, mkLineItem (ci_menuItemId i) (mi_name m) (mi_price m)
     (ci_quantity i) (mi_price m * ci_quantity i))) <$> t !! ci_menuItemId i = Some (true, rid, l) ->
  menu_line t rid i l.
Proof. intros (m & Hm & [= Ha Hr Hl])%column_row. exists m. auto. Qed.

Lemma supper_creatable : creatable (uuid_at 1) supper corr supper_lines w2.
Proof.
  split; [| | | |repeat constructor|evaluate|evaluate|evaluate].
  - apply column_row2. evaluate.
  - apply Forall2_cons; split; [|apply Forall2_cons; split; [|apply Forall2_nil_2]].
    + apply menu_line_row. evaluate.
    + apply menu_line_row. evaluate.
  - apply (bool_decide_unpack _). evaluate.
  - apply some_row. evaluate.
Qed.

Lemma create_order_succeeds_witness :
  exists view w', OrdersRepository.create (uuid_at 1) supper corr w2 = Ok (view, w') /\
    o_totalAmount (ov_order view) = lines_sum supper_lines.
Proof.
  exact (create_order_succeeds _ (uuid_at 1) supper corr supper_lines w2 (wf_menu _ w2_wf)
    supper_creatable).
Defined.

Lemma boss_may status o : may_update boss status o = true.
Proof. reflexivity. Qed.

Lemma status_update_outcome_witness :
  exists view w', run (move READY 3) w5 = (Ok view, w') /\
    o_status (ov_order view) = READY /\ o_version (ov_order view) = 4.
Proof.
  destruct (column_row2 o_status (fun o => (o_version o, order_columns o))
    (orders (w_db w5) !! order_id) PREPARING (3, true)) as (o & Ho & Hs & Hvc); [evaluate|].
  apply pair_equal_spec in Hvc as [Hv Hc].
  pose proof (status_update_outcome _ boss order_id (mkUpdateOrderStatusDto READY 3) corr w5) as H.
  cbv zeta in H. rewrite Ho, boss_may, Hs, Hv in H.
  destruct H as (view & w' & k & a & Hrun & Hst & Hver & _).
  - intros k o' Ho'. exact (ow_id _ _ _ (wf_orders _ w5_wf _ _ Ho')).
  - apply some_row. evaluate.
  - evaluate.
  - evaluate.
  - evaluate.
  - intros o' Ho'. injection Ho' as <-. rewrite Hv. split; [assumption|]. lia.
  - exists view, w'. split; [exact Hrun|]. split; assumption.
Defined.

Lemma list_pages_partition_witness :
  exists l pages, listing w5 (mkListOrdersQueryDto 1 1 None None None None) None None None l /\
    concat (map (fun page => ov_order <$> pg_data page) pages) = l.
Proof.
  destruct (list_pages_partition w5 (mkListOrdersQueryDto 1 1 None None None None) None None None)
    as (l & pages & Hl & _ & _ & Hc & _).
  - intros k o Ho. exact (ow_id _ _ _ (wf_orders _ w5_wf _ _ Ho)).
  - reflexivity.
  - reflexivity.
  - reflexivity.
  - exists l, pages. split; assumption.
Defined.

Lemma list_scope_witness :
  exists page, run (OrdersService.list alice (mkListOrdersQueryDto 1 10 None None None None)) w5 =
      (Ok page, w5) /\ length (pg_data page) = 1%nat /\
    Forall (fun v => o_userId (ov_order v) = au_id alice) (pg_data page).
Proof.
  destruct (run_value (OrdersService.list alice (mkListOrdersQueryDto 1 10 None None None None)) w5
    (fun p => length (pg_data p)) 1%nat) as (page & Hrun & Hlen); [evaluate|].
  destruct (list_scope alice (mkListOrdersQueryDto 1 10 None None None None) w5 page _ eq_refl
    ltac:(discriminate) Hrun) as [Hw Hall].
  exists page. rewrite Hw in Hrun. repeat (split; [assumption|]). assumption.
Defined.

(** ** Payments *)

(** A second order, after the first one is being prepared. *)
Definition w6 : world := after (OrdersService.create alice supper corr) w5.
Lemma w6_evolves : rtc evolves w4 w6.
Proof.
  etrans; [apply w5_evolves|]. exact (after_evolves _ _ (create_guarded _ _ _) w5_wf).
Qed.
Definition order2_id : string := uuid_at (w_nonce w5).
#[global] Opaque w6 order2_id.

Definition paying : prog world Payment := PaymentsService.complete alice order_id (Some pay_key) pay_dto corr.
Lemma paying_pays : exists p, run paying w3 = (Ok p, w4) /\ p_amount p = 2950.
Proof. apply (run_value paying w3 p_amount 2950). evaluate. Qed.

Lemma payment_retry_witness :
  exists p, run paying w3 = (Ok p, w4) /\ run paying w5 = (Ok p, w5) /\ p_amount p = 2950.
Proof.
  destruct paying_pays as (p & Hrun & Ha). exists p. split; [exact Hrun|]. split; [|exact Ha].
  exact (payment_retry alice order_id (Some pay_key) pay_dto pay_dto corr corr w3 p w4 w5 w3_wf
    Hrun w5_evolves).
Defined.

Lemma payment_key_bound_witness :
  run (PaymentsService.complete alice order2_id (Some pay_key) pay_dto corr) w6 =
    (Err (ConflictException "Idempotency key is already bound to another order"), w6).
Proof.
  destruct paying_pays as (p & Hrun & _).
  destruct (column_row (may_pay alice) (orders (w_db w6) !! order2_id) true) as (o & Ho & Hmay);
    [evaluate|].
  refine (payment_key_bound alice alice order_id order2_id (Some pay_key) pay_dto pay_dto corr corr
    w3 p w4 w6 o w3_wf Hrun w6_evolves _ Ho Hmay).
  apply String.eqb_neq. evaluate.
Defined.

Lemma payment_refused_witness :
  run (PaymentsService.complete alice order_id (Some "short"%string) pay_dto corr) w3 =
    (Err (BadRequestException PaymentsService.key_message), w3).
Proof.
  apply (payment_refused alice order_id (Some "short"%string) pay_dto corr w3). left.
  apply Nat.ltb_lt. reflexivity.
Defined.

Lemma supper_payable : exists o, payable alice order_id pay_key pay_dto corr o w3 /\
  o_totalAmount o = 2950.
Proof.
  destruct (column_row2 (may_pay alice) (fun o => (order_columns (paid_order (w_now w3) o), o_totalAmount o))
    (orders (w_db w3) !! order_id) true (true, 2950)) as (o & Ho & Hm & Hct); [evaluate|].
  apply pair_equal_spec in Hct as [Hc Ht].
  exists o. split; [|exact Ht].
  split; [|exact Ho|exact Hm| | |exact Hc|evaluate|evaluate|evaluate].
  - apply (bool_decide_unpack _). evaluate.
  - assert (payments (w_db w3) = ∅) as He by evaluate.
    unfold unused_key. rewrite He. intros k p Hp. by rewrite lookup_empty in Hp.
  - apply some_row. evaluate.
Qed.

Lemma payment_completes_witness :
  exists p w', run paying w3 = (Ok p, w') /\ p_amount p = 2950 /\ p_status p = PayCompleted.
Proof.
  destruct supper_payable as (o & Hpay & Ht).
  destruct (payment_completes _ alice order_id pay_key pay_dto corr o w3 w3_wf Hpay)
    as (p & w' & Hrun & _ & _ & Ha & Hs & _).
  exists p, w'. rewrite <- Ht. repeat (split; [assumption|]). assumption.
Defined.

(** ** Restaurants *)

Lemma restaurant_orderable_witness :
  exists view s', run opening s1 = (Ok view, s') /\
    active_restaurant (w_db (sys_world s')) (r_id (rv_restaurant view)) /\
    r_name (rv_restaurant view) = "Trattoria"%string /\ mi_price <$> rv_menu view = [450; 1250].
Proof.
  destruct (run_value opening s1 (fun v => length (rv_menu v)) 2%nat) as (view & Hrun & Hlen);
    [evaluate|].
  destruct (restaurant_orderable 1 trattoria s1 view (after opening s1) [1; 2] Hrun (eq_sym Hlen))
    as (Hact & Hname & Hprice & _).
  exists view, (after opening s1). repeat (split; [assumption|]). assumption.
Defined.

(** Another restaurant, after a listing has been cached. *)
Definition s2 : system := after RestaurantsService.listActive (mkSystem w2 [] ∅ true ∅).
Definition osteria : CreateRestaurantDto := mkCreateRestaurantDto "Osteria" [mkCreateMenuItemDto "Risotto" 1400].
Definition osteria_opens : tx world RestaurantView := RestaurantsRepository.create (js_trim (cr_name osteria))
  (map (fun i => mkCreateMenuItemDto (js_trim (cm_name i)) (cm_price i)) (cr_menuItems osteria)).

Lemma new_restaurant_listed_witness :
  exists view w s3 views v s4', osteria_opens (sys_world s2) = Ok (view, w) /\
    run (RestaurantsService.create 1 osteria) s2 = (Ok view, s3) /\
    run RestaurantsService.listActive s3 = (Ok (mkListing (listing_json views) "miss"), s4') /\
    v ∈ views /\ rv_restaurant v = rv_restaurant view.
Proof.
  destruct (tx_value osteria_opens (sys_world s2) (fun v => length (rv_menu v)) 1%nat)
    as (view & w & Hc & _); [evaluate|].
  assert (Hfuel : (scan_rank (size (sys_cache s2)) "0" < 1)%nat) by (apply Nat.ltb_lt; evaluate).
  destruct (new_restaurant_listed 1 osteria s2 view w Hc Hfuel)
    as (s3 & views & v & s4' & Hrun & _ & _ & Hl & Hv & Hr & _).
  exists view, w, s3, views, v, s4'. repeat (split; [assumption|]). assumption.
Defined.

Lemma listing_cached_witness :
  exists views s', run RestaurantsService.listActive s4 = (Ok (mkListing (listing_json views) "miss"), s') /\
    run RestaurantsService.listActive s' = (Ok (mkListing (listing_json views) "hit"), s').
Proof.
  destruct (listing_cached s4) as (views & s' & Hrun & _ & _ & H); [evaluate|].
  exists views, s'. split; [exact Hrun|]. specialize (H s' eq_refl).
  assert (Ht : (RedisCacheService.cache_now s' <? RedisCacheService.cache_now s4 + 60000) = true).
  { assert (He : (RedisCacheService.cache_now (after RestaurantsService.listActive s4) <?
      RedisCacheService.cache_now s4 + 60000) = true) by evaluate.
    unfold after in He. rewrite Hrun in He. exact He. }
  rewrite Ht in H. exact H.
Defined.

Lemma cached_listing_truthful_witness :
  let c := stage (aside RestaurantsService.listActive) 3 s4 in
  exists data expires views, sys_cache (shared c) !! ACTIVE_RESTAURANTS_KEY = Some (data, expires) /\
    data = listing_json views /\ expires = 1060000.
Proof.
  assert (Hr : execution s4 (stage (aside RestaurantsService.listActive) 3 s4))
    by (apply stage_reachable; [exact (start_restaurants s4)|evaluate]).
  intros c. destruct (column_row snd (sys_cache (shared c) !! ACTIVE_RESTAURANTS_KEY) 1060000)
    as ([data e] & Hc & He); [evaluate|].
  destruct (cached_listing_truthful s4 c data e s4_wf s4_safe Hr Hc) as (views & Hd & _).
  exists data, e, views. repeat (split; [assumption|]). exact He.
Defined.

(** ** Accounts and tokens *)

Lemma all_rows {R : Type} (f : R -> bool) (t : gmap string R) :
  forallb f (rows t) = true -> forall k r, t !! k = Some r -> f r = true.
Proof. rewrite forallb_forall. intros H k r Hr. apply H, list_elem_of_In, elem_of_rows. eauto. Qed.

Lemma alice_registers :
  exists pair, run (AuthService.register alice_dto) w0 = (Ok pair, w1) /\ refreshToken pair = first_token.
Proof.
  rewrite w1_eq. apply (run_value (AuthService.register alice_dto) w0 refreshToken first_token).
  evaluate.
Qed.

Lemma no_row {R : Type} (o : option R) :
  match o with Some _ => false | None => true end = true -> o = None.
Proof. by destruct o. Qed.

Lemma register_then_login_witness :
  exists pair pair' w3', run (AuthService.register alice_dto) w0 = (Ok pair, w1) /\
    run (AuthService.login alice_login) w2 = (Ok pair', w3') /\
    tu_id (tp_user pair') = tu_id (tp_user pair).
Proof.
  destruct alice_registers as (pair & Hrun & _).
  destruct (register_then_login alice_dto pair w0 w1 w2 alice_login w0_wf Hrun w2_evolves)
    as (pair' & w3' & Hlogin & Hid & _); [evaluate|reflexivity|apply no_row; evaluate|].
  exists pair, pair', w3'. split; [exact Hrun|]. split; assumption.
Defined.

Lemma register_twice_witness :
  run (AuthService.register (mkRegisterDto "ALICE@EXAMPLE.COM" "another password" "Al")) w2 =
    (Err (ConflictException "An account already exists for this email"), w2).
Proof.
  destruct alice_registers as (pair & Hrun & _).
  refine (register_twice alice_dto (mkRegisterDto "ALICE@EXAMPLE.COM" "another password" "Al") pair
    w0 w1 w2 w0_wf Hrun w2_evolves _).
  evaluate.
Defined.

Lemma login_uniform_witness :
  run (AuthService.login (mkLoginDto "alice@example.com" "wrong password")) w1 =
    (Err (UnauthorizedException "Invalid email or password"), w1).
Proof.
  apply (login_uniform (mkLoginDto "alice@example.com" "wrong password") w1 w1_wf).
  intros k u Hu _. right.
  assert (H : forall k u, users (w_db w1) !! k = Some u ->
    match argon2_verify (u_passwordHash u) "wrong password" with Ok false => true | _ => false end = true).
  { apply all_rows. evaluate. }
  specialize (H k u Hu). cbn [ld_password]. destruct (argon2_verify _ _) as [[]|]; [discriminate H|reflexivity|discriminate H].
Defined.

Lemma first_refresh :
  exists pair, run (AuthService.refresh first_token) w1 = (Ok pair, after (AuthService.refresh first_token) w1).
Proof. apply run_answers. evaluate. Qed.

Lemma refresh_single_use_witness :
  let w := after (AuthService.refresh first_token) w1 in
  run (AuthService.refresh first_token) w =
    (Err (UnauthorizedException "Refresh token is invalid or expired"), w).
Proof.
  destruct first_refresh as (pair & Hrun).
  exact (proj2 (refresh_single_use first_token w1 pair _ _ w1_wf Hrun (rtc_refl _ _))).
Defined.

Definition alice_token : TokenUser := mkTokenUser (uuid_at 1) "alice@example.com" USER.
Definition issuing : prog world TokenPair := AuthService.issueTokenPair alice_token None.

Lemma issued_token_refreshes_witness :
  exists pair pair' w3', run issuing w1 = (Ok pair, after issuing w1) /\
    run (AuthService.refresh (refreshToken pair)) (after issuing w1) = (Ok pair', w3') /\
    tu_id (tp_user pair') = uuid_at 1.
Proof.
  destruct (run_answers issuing w1) as (pair & Hrun); [evaluate|].
  destruct (issued_token_refreshes alice_token w1 (after issuing w1) None pair (after issuing w1)
    w1_wf Hrun (rtc_refl _ _)) as (pair' & w3' & Hrefresh & Hid).
  - apply String.eqb_neq. evaluate.
  - apply (bool_decide_unpack _). evaluate.
  - intros tok Htok. assert (H : forall k t, refreshTokens (w_db (after issuing w1)) !! k = Some t ->
      bool_decide (rt_revokedAt t = None) = true) by (apply all_rows; evaluate).
    exact (bool_decide_eq_true_1 _ (H _ _ Htok)).
  - intros u Hu. assert (H : forall k u, users (w_db (after issuing w1)) !! k = Some u ->
      u_active u = true) by (apply all_rows; evaluate).
    exact (H _ _ Hu).
  - apply no_row. evaluate.
  - exists pair, pair', w3'. split; [exact Hrun|]. split; [exact Hrefresh|exact Hid].
Defined.

Lemma logout_revokes_witness :
  let w := after (AuthService.logout first_token) w1 in
  run (AuthService.logout first_token) w1 = (Ok true, w) /\
  run (AuthService.refresh first_token) w = (Err AuthService.invalid_refresh, w).
Proof.
  destruct (run_value (AuthService.logout first_token) w1 (fun b => b) true) as (b & Hrun & ->);
    [evaluate|].
  destruct (logout_revokes first_token w1 w1_wf) as [_ H].
  destruct (H _ Hrun _ (rtc_refl _ _)) as [Hr _]. split; assumption.
Defined.

(** ** Requests *)

Lemma correlation_bounded_witness :
  exists id w', CorrelationIdMiddleware.use None w1 = Ok (id, w') /\
    (1 <= String.length id <= 100)%nat.
Proof.
  destruct (correlation_bounded None w1) as (id & w' & Hrun & _ & Hlen & _).
  exists id, w'. split; assumption.
Defined.

Lemma access_token_opens_witness :
  run (authorize (OrdersRoute OrdersController.create) (Some (String.append "Bearer "
    (jwt_sign (AuthService.access_claims alice_token) JWT_ACCESS_SECRET JWT_ACCESS_TTL_SECONDS 1000000)))) w1 =
    (Ok (Some (claims_of alice_token)), w1).
Proof.
  refine (proj1 (access_token_opens alice_token (OrdersRoute OrdersController.create) w1 1000000 _ eq_refl)).
  apply (bool_decide_unpack _). evaluate.
Defined.

Lemma tokens_not_interchangeable_witness :
  run (AuthService.refresh (jwt_sign (AuthService.access_claims alice_token) JWT_REFRESH_SECRET 900 0)) w1 =
    (Err AuthService.invalid_refresh, w1).
Proof.
  exact (proj2 (tokens_not_interchangeable alice_token "some-jti" (OrdersRoute OrdersController.list) w1 0 900
    JWT_REFRESH_SECRET eq_refl)).
Defined.

(** ** The outbox *)

Lemma leased_wf i limit w l w' :
  wf (w_db w) -> OutboxPublisherService.lease i limit w = Ok (l, w') -> wf (w_db w').
Proof.
  intros Hw Hl. set (s := mkSystem w [] ∅ true ∅).
  assert (H : on_world (OutboxPublisherService.lease i limit) s = Ok (l, with_world w' s))
    by (unfold on_world; simpl; by rewrite Hl).
  exact (sys_wf_stable s _ Hw (lease_sys i limit s l _ Hw H)).
Qed.

Definition later : Z := 1020000.
Definition leasing (i : string) : tx world (list LeasedOutboxEvent) := OutboxPublisherService.lease i 25.

Lemma lease_exclusive_witness :
  exists l w l' w', leasing "node-1" w4 = Ok (l, w) /\ length l = 2%nat /\
    leasing "node-2" (mkWorld (w_db w) later (w_nonce w)) = Ok (l', w') /\
    forall id, id ∈ map le_id l -> id ∉ map le_id l'.
Proof.
  destruct (tx_value (leasing "node-1") w4
    (fun l => length l) 2%nat) as (l & w & Hl & Hlen); [evaluate|].
  assert (H : match leasing "node-1" w4 with
    | Ok (_, w) => match leasing "node-2" (mkWorld (w_db w) later (w_nonce w)) with
                   | Ok (l', _) => Some (length l') | Err _ => None end
    | Err _ => None end = Some 0%nat) by evaluate.
  rewrite Hl in H. apply tx_value in H as (l' & w' & Hl' & _).
  destruct (lease_exclusive "node-1" 25 w4 l w w4_wf Hl) as (_ & Hrow & _ & Hx).
  exists l, w, l', w'. repeat (split; [assumption|]). intros id Hid.
  assert (Hin : exists r, r ∈ l /\ le_id r = id).
  { apply list_elem_of_fmap in Hid as (r & Hr & Hin). exists r. split; [exact Hin|]. symmetry. exact Hr. }
  destruct Hin as (r & Hin & Hr). destruct (Hrow r Hin) as (e & _ & _ & _ & _ & _ & He).
  rewrite Hr in He.
  destruct (Hx id (mkWorld (w_db w) later (w_nonce w))
    (OutboxPublisherService.set_lock "node-1" (w_now w4) e) Hid) as [Hno _].
  - exact (leased_wf "node-1" 25 w4 l w w4_wf Hl).
  - exact He.
  - reflexivity.
  - reflexivity.
  - apply (Hno "node-2"%string 25%nat l' w'); [|exact Hl'].
    apply (bool_decide_unpack _). evaluate.
Defined.

Definition order_record : LeasedOutboxEvent :=
  mkLeasedOutboxEvent event_id "OrderCreated" "Order" order_id
    (JObj [("orderId", JStr order_id)]) corr 0 1000000.

(** Published by an instance that does not hold the event: it is sent and counted, not marked. *)
Lemma publish_one_outcome_witness :
  run (OutboxPublisherService.publishOne "node-1" order_record) s4 =
    (Ok tt, logged (Counted "node-1" "OrderCreated") (sent order_record s4)).
Proof.
  destruct (column_row2 ob_lockedBy (fun e => (outbox_columns e, ob_attempts e))
    (outbox_of s4 !! event_id) None (true, 0)) as (e & He & Hl & Hca); [evaluate|].
  apply pair_equal_spec in Hca as [Hc Ha].
  destruct (publish_one_outcome "node-1" order_record s4 e "order.created" s4_wf He eq_refl)
    as (_ & _ & H).
  - apply Z.leb_le. reflexivity.
  - exact Hc.
  - rewrite Ha. reflexivity.
  - apply H. rewrite Hl. discriminate.
Defined.

Lemma batch_publishes_witness :
  exists evs t, evs ≡ₚ picked w4 25 /\
    run batch s4 = (Ok tt, outbox_and_log t
      (flat_map (publishing "node-1") (map OutboxPublisherService.leased evs)) s4) /\
    forall k, k ∉ map ob_id evs -> t !! k = outbox_of s4 !! k.
Proof.
  destruct (batch_publishes "node-1" s4 s4_wf eq_refl) as (evs & t & Hevs & Hrun & _ & Hrest).
  - apply not_elem_of_empty.
  - assert (H : forall k e, outbox_of s4 !! k = Some e ->
      match routingKeyFor (ob_type e) with Some _ => outbox_columns e | None => false end = true)
      by (apply all_rows; evaluate).
    intros e He. destruct (elem_of_picked _ _ _ He) as [_ [k Hk]].
    specialize (H k e Hk). unfold publishable.
    destruct (routingKeyFor (ob_type e)); [|discriminate H]. split; [eexists; reflexivity|exact H].
  - apply Nat.leb_le. reflexivity.
  - exists evs, t. split; [exact Hevs|]. split; [exact Hrun|exact Hrest].
Defined.

(** ** Messages *)

Lemma event_routing_witness :
  routes EVENT_EXCHANGE "order.created" = ["notification.events"; "audit.events"]%string.
Proof. exact (proj1 (event_routing "OrderCreated" "order.created" eq_refl)). Defined.

Lemma retry_fans_out_witness :
  routes RETRY_EXCHANGE "order.created" = ["notification.events.retry"; "audit.events.retry"]%string.
Proof. exact (proj1 retry_fans_out). Defined.

Lemma consume_settles_witness :
  exists s, run (consuming RabbitConsumersService.audit) s4 = (Ok tt, s) /\
    exists new, sys_log s = sys_log s4 ++ new /\ filter settlement new = [Acked "audit" order_message].
Proof.
  destruct (consume_settles true RabbitConsumersService.audit order_message s4) as (s & Hrun & _ & H).
  exists s. split; [exact Hrun|exact H].
Defined.

Lemma retries_bounded_witness :
  exists props, RabbitConsumersService.republication RabbitConsumersService.audit order_message (JsError "no") =
      Published RETRY_EXCHANGE "order.created" (Json order_event) props /\
    x_retry_count props = Some 1 /\ expiration props = Some "1000"%string.
Proof.
  destruct (retries_bounded RabbitConsumersService.audit order_message (JsError "no")) as [H _].
  - apply Z.leb_le. reflexivity.
  - destruct H as (props & Hp & Hc & _ & He & _); [reflexivity|].
    exists props. split; [exact Hp|]. split; [exact Hc|]. rewrite He. reflexivity.
Defined.

(** ** The workers *)

Lemma audit_once_witness :
  exists w, AuditRepository.processEvent order_event w4 = Ok (true, w) /\
    AuditRepository.processEvent order_event w = Ok (false, w).
Proof.
  destruct (tx_value (AuditRepository.processEvent order_event) w4 (fun b => b) true)
    as (b & w & Hrun & ->); [evaluate|].
  exists w. split; [exact Hrun|].
  exact (proj2 (audit_once order_event w4 w w Hrun (rtc_refl _ _))).
Defined.

Lemma notification_once_witness :
  exists key w, NotificationsRepository.processOrderCreated order_event w4 = Ok (Some key, w) /\
    NotificationsRepository.processOrderCreated order_event w = Ok (Some key, w).
Proof.
  destruct (tx_value (NotificationsRepository.processOrderCreated order_event) w4 (fun o => o)
    (Some delivery_id)) as (o & w & Hrun & ->); [evaluate|].
  assert (Hnew : ~ processed "notification" event_id (w_db w4)).
  { intros (k & p & Hp & _). assert (processedMessages (w_db w4) = ∅) as He by evaluate.
    rewrite He, lookup_empty in Hp. discriminate Hp. }
  destruct (notification_once order_event w4 (Some delivery_id) w w event_id w4_wf eq_refl Hnew Hrun
    (rtc_refl _ _)) as (key & n & Hk & _ & _ & _ & _ & _ & Hagain).
  exists key, w. rewrite <- Hk. split; [exact Hrun|]. rewrite Hk. exact Hagain.
Defined.

Lemma delivery_job_witness :
  exists n w, run (NotificationQueueService.process delivery_id) (sys_world s6) = (Ok tt, w) /\
    notificationDeliveries (w_db w) !! delivery_id = Some n /\ nd_status n = DelDelivered.
Proof.
  destruct (column_row NotificationsRepository.claimable
    (notificationDeliveries (w_db (sys_world s6)) !! delivery_id) true) as (n & Hn & Hc); [evaluate|].
  pose proof (delivery_job delivery_id (sys_world s6) s6_wf) as H. rewrite Hn, Hc in H.
  destruct H as (n' & w & Hrun & Hdb & Hs & _).
  - apply all_rows. evaluate.
  - exists n', w. split; [exact Hrun|]. split; [|exact Hs]. rewrite Hdb. apply lookup_insert_eq.
Defined.
