(* ===== verification/ServiceWitnesses.v ===== *)
(** * The services around the API at work

    The seed, the configuration, the readiness probe and the connection of the publisher: their
    theorems applied to concrete inputs, on the platform of Platform.v. *)
From S2P Require Import Prelude JsStrings Errors Effects JsNumbers Prisma Schema Orders Evolution.
From S2P Require Import Auth AuthFlow AuthSpec Seed Http Environment System Outbox.
From S2P Require Import Connection ConnectionSpec Health Pipeline Rabbit Startup Platform Scenario.

(** ** The seed *)

Lemma seed_admin_witness :
  exists k u w', run (Seed.seed (Some "postgresql://db"%string) (Some " Root@Example.com"%string)
      (Some "a long password"%string)) w0 = (Ok tt, w') /\
    u_email u = "root@example.com"%string /\ u_role u = ADMIN /\
    w_db w' = t_set Users (<[k := u]> (users (w_db w0))) (w_db w0).
Proof.
  destruct (seed_admin "postgresql://db" " Root@Example.com" "a long password" w0
    (mkLoginDto "root@example.com" "a long password") w0_wf) as (k & u & w' & Hr & Hu & Hdb & _);
    try discriminate; try reflexivity.
  destruct Hu as (_ & He & _ & Hro & _). exists k, u, w'. split; [exact Hr|].
  split; [exact He|]. split; [exact Hro|exact Hdb].
Defined.

(** ** The configuration *)

Definition environment_of (access : string) : environment :=
  <["DATABASE_URL" := "postgresql://db"]> (<["REDIS_URL" := "redis://cache"]>
  (<["RABBITMQ_URL" := "amqp://broker"]> (<["JWT_ACCESS_SECRET" := access]>
  (<["JWT_REFRESH_SECRET" := "another-secret-of-32-characters!"]>
  (<["JWT_ACCESS_TTL_SECONDS" := "60"]> ∅)))))%string.

Definition short_secret : string := "too short".
Definition long_secret : string := "a-secret-of-at-least-32-characters".

Definition is_Ok {A : Type} (r : result A) : bool := match r with Ok _ => true | Err _ => false end.
Lemma is_Ok_true {A : Type} (r : result A) : is_Ok r = true -> exists a, r = Ok a.
Proof. destruct r; [eauto|discriminate]. Qed.

Lemma starts_up : exists v, validateEnvironment (environment_of long_secret) = Ok v.
Proof. apply is_Ok_true. vm_compute. reflexivity. Qed.

Lemma environment_accepted_witness :
  text_given (environment_of long_secret) "JWT_ACCESS_SECRET" 32 /\
  ~ exists v, validateEnvironment (environment_of short_secret) = Ok v.
Proof.
  split.
  - destruct (proj1 (environment_accepted (environment_of long_secret)) starts_up)
      as (_ & _ & _ & [H _] & _). exact H.
  - intros H. apply (environment_accepted (environment_of short_secret)) in H
      as (_ & _ & _ & [(s & Hs & Hl) _] & _).
    assert (environment_of short_secret !! "JWT_ACCESS_SECRET"%string = Some short_secret) as He
      by (vm_compute; reflexivity).
    rewrite He in Hs. injection Hs as <-. apply Nat.leb_le in Hl. discriminate Hl.
Defined.

Lemma configured_tokens_witness :
  exists C : AuthConfig, (32 <= String.length JWT_ACCESS_SECRET)%nat /\ 60 <= JWT_ACCESS_TTL_SECONDS.
Proof.
  destruct starts_up as [v Hv].
  destruct (configured_tokens (environment_of long_secret) v Hv) as (C & _ & Hl & _ & Ht & _).
  exists C. split; assumption.
Defined.

Lemma startup_after_validation_witness :
  exists log, startup Api (environment_of long_secret) =
    Ok ([PrismaConnect "postgresql://db" log; RedisConnect "redis://cache" 2] ++
        rabbit_connected "amqp://broker").
Proof.
  destruct starts_up as [v Hv].
  destruct (startup_after_validation (environment_of long_secret) v Hv)
    as (_ & _ & db & re & ra & log & Hdb & Hre & Hra & H).
  destruct H as [Hapi _]; [vm_compute; reflexivity|].
  assert (db = "postgresql://db"%string) as -> by (vm_compute in Hdb; congruence).
  assert (re = "redis://cache"%string) as -> by (vm_compute in Hre; congruence).
  assert (ra = "amqp://broker"%string) as -> by (vm_compute in Hra; congruence).
  exists log. exact Hapi.
Defined.

Lemma openapi_starts_witness : startup Api (openapi_environment ∅) = Ok [].
Proof. apply (openapi_starts ∅). intros name s Hs. rewrite lookup_empty in Hs. discriminate Hs. Defined.

(** ** The readiness probe *)

Definition away : system := mkSystem w0 [] ∅ false ∅.
Definition probe : list (action system unit) :=
  [Run 2; Fault 1 (JsError "connect ETIMEDOUT"); Run 0].

Lemma readiness_witness :
  exists c results e, perform_all probe (mkConfig away HealthController.checks) = Some c /\
    allSettled (threads c) = Some results /\ HealthController.ready results = Err e /\
    AllExceptionsFilter.statusOf e = 503.
Proof.
  destruct (perform_all probe (mkConfig away HealthController.checks)) as [c|] eqn:Hc;
    [|vm_compute in Hc; discriminate Hc].
  assert (Hs : exists results, allSettled (threads c) = Some results).
  { vm_compute in Hc. injection Hc as <-. eexists. reflexivity. }
  destruct Hs as [results Hr]. exists c, results.
  destruct (readiness away probe c results) as (_ & e & He & Heq & _).
  - repeat constructor.
  - exact Hc.
  - exact Hr.
  - exists e. split; [reflexivity|]. split; [exact Hr|]. split; [exact He|]. rewrite Heq. reflexivity.
Defined.

(** ** The connection *)

Definition sample_event : DomainEvent :=
  mkDomainEvent "e1" "OrderCreated" "2024-01-01" "Order" "o1" None (JObj []).
Definition connecting_calls : list RabbitConnection.event :=
  [RabbitConnection.Call RabbitConnection.ModuleInit;
   RabbitConnection.Call (RabbitConnection.Publish sample_event);
   RabbitConnection.Dialled 0; RabbitConnection.Opened 0; RabbitConnection.Declared 0].
Definition disconnecting : list RabbitConnection.event :=
  [RabbitConnection.GoesOn 1; RabbitConnection.GoesOn 0; RabbitConnection.Answers 1 (Ok tt);
   RabbitConnection.Closes 0].

Definition reached (l : list RabbitConnection.event) : RabbitConnection.state :=
  default RabbitConnection.init (RabbitConnection.run l RabbitConnection.init).

Lemma connection_sound_witness :
  exists c, RabbitConnection.channel (reached connecting_calls) = Some c /\
    RabbitConnection.connection (reached connecting_calls) = Some c.
Proof.
  destruct (connection_sound connecting_calls (reached connecting_calls)) as (Heq & _ & Hgo & _ & _ & _).
  - vm_compute. reflexivity.
  - destruct (Hgo 1%nat (RabbitConnection.Publish sample_event)) as [c Hc]; [vm_compute; reflexivity|].
    exists c. split; [exact Hc|]. rewrite <- Heq. exact Hc.
Defined.

Lemma publisher_refines_witness :
  ConnectionSpec.schedule (refined away RabbitConnection.init)
    (refined away (reached (connecting_calls ++ disconnecting))) /\
  RabbitConnection.taken (reached (connecting_calls ++ disconnecting)) =
    [RabbitPublisherService.message_of sample_event "order.created";
     Confirmed (RabbitPublisherService.message_of sample_event "order.created")].
Proof.
  split; [|vm_compute; reflexivity].
  apply (publisher_refines away (connecting_calls ++ disconnecting)). vm_compute. reflexivity.
Defined.

(** ** A request that fails *)

Definition probe_request : request :=
  mkRequest GET (Some (HealthRoute Http.HealthController.ready)) "127.0.0.1" "/v1/health/ready" ""
    (Some "/v1/health/ready"%string) None None.
Definition failing (user : option RequestUser) (store : option string) : prog server json :=
  Throw (ServiceUnavailableException "One or more dependencies are unavailable" []).
Definition idle : server := mkServer _ away (∅, ∅) 0 [].
Definition counted_as : labels :=
  [("method", "GET"); ("route", "/v1/health/ready"); ("status", "200")]%string.

(** It is answered with a 503 and counted as a 200. *)
Lemma request_answered_witness :
  exists a s, Effects.run (respond failing probe_request) idle = (Ok a, s) /\
    an_status a = 503 /\
    counter_value "scaleforge_http_requests_total" counted_as (sv_metrics s) = 1.
Proof.
  destruct (request_answered failing probe_request idle)
    as (id & w1 & a & s & _ & _ & Hrun & _ & H).
  assert (Hlet : let_through probe_request (with_system (with_world w1 (sv_system idle)) idle) =
    Ok (HealthRoute Http.HealthController.ready, None)) by reflexivity.
  cbv zeta in H. rewrite Hlet in H. destruct H as (_ & _ & Hc & Ha & _).
  exists a, s. split; [exact Hrun|]. split; [rewrite Ha; reflexivity|].
  etransitivity; [exact (Hc counted_as)|]. vm_compute. reflexivity.
Defined.
