(* ===== verification/ProcessWitnesses.v ===== *)
(** * The processes at work

    The wiring and the shutdown of both processes, the consumers on their channel and the
    delivery queue: their theorems applied to concrete inputs, on the platform of Platform.v. *)
From S2P Require Import Prelude JsStrings Errors Effects JsNumbers Prisma Schema Orders Evolution.
From S2P Require Import Auth Http Environment System Outbox Workers Rabbit Consumers ConsumersSpec.
From S2P Require Import Startup Modules Shutdown DeliveryQueue DeliveryQueueSpec DeliveryOutcome.
From S2P Require Import OutboxSpec RabbitSpec WorkersFlow Journey.
From S2P Require Import Platform Scenario ServiceWitnesses.

(** ** The wiring and the shutdown *)

Lemma wiring_complete_witness :
  exists order, construction Api = Some order /\ in_order order /\ order ≡ₚ classes Api.
Proof.
  destruct (wiring_complete Api) as (_ & _ & _ & (order & Ho & Hp & Hi & _) & _).
  exists order. split; [exact Ho|]. split; [exact Hi|exact Hp].
Defined.

(** The worker of the example opens everything it may open. *)
Lemma worker_opens :
  exists commands, startup Worker (environment_of long_secret) = Ok commands /\
    opened_by commands =
      [Database; Cache; DeliveryQueue; DeliveryWorker; AmqpConnection; AmqpChannel].
Proof.
  destruct starts_up as [v Hv].
  destruct (validated_texts _ _ Hv) as (db & re & ra & _ & Hre & _ & Gdb & Gre & Gra).
  assert (re = "redis://cache"%string) as -> by (vm_compute in Hre; congruence).
  assert (Hs : skips (environment_of long_secret) = false) by (vm_compute; reflexivity).
  unfold startup. rewrite Hv. change (Ok ?a ≫= ?f) with (f a). cbv beta.
  unfold hooks, run_hooks, PrismaService_start, RedisCacheService_start,
    RabbitConsumersService_start, NotificationQueueService_start.
  rewrite Gdb, Gre, Gra, Hs.
  assert (Hc : exists c, redisConnection "redis://cache" = Ok c)
    by (eexists; cbn -[of_Z Number]; reflexivity).
  destruct Hc as [c Hc]. cbn [mbind result_bind]. rewrite Hc. eexists. split; reflexivity.
Qed.

(** The channel cannot be closed, and the hooks run backwards. *)
Definition stuck (r : resource) : bool := bool_decide (r = AmqpChannel).

Lemma shutdown_complete_witness :
  exists left, run (shutdown (reverse (stop_hooks stuck Worker)))
    [Database; Cache; DeliveryQueue; DeliveryWorker; AmqpConnection; AmqpChannel] = (Ok tt, left) /\
    forall r, r ∈ left -> r = AmqpChannel.
Proof.
  destruct worker_opens as (commands & Hs & <-).
  assert (Hf : forall r, stuck r = true -> r = AmqpChannel)
    by (intros r Hr; unfold stuck in Hr; apply bool_decide_eq_true in Hr; exact Hr).
  destruct (shutdown_complete stuck (fun r Hr => or_introl (Hf r Hr)) Worker
    (environment_of long_secret) commands (reverse (stop_hooks stuck Worker)) Hs
    (reverse_Permutation _)) as (left & Hr & Hl).
  exists left. split; [exact Hr|]. intros r Hin. apply Hf, (Hl r Hin).
Defined.

(** ** The consumers *)

Section consumers.
Import RabbitConsumersService ConsumersChannel.

(** The consumers come up, and take a message. *)
Definition coming_up : list event :=
  Starts false :: replicate (5 + length assertRabbitTopology) Advances ++
  [Delivers notification order_message].
(** Its work fails, and its copy is confirmed. *)
Definition fails_once : list event :=
  [Ends 0 (Err (JsError "timeout")); Confirms 0 (Ok tt)].
Definition consumers_at (l : list event) : state := default init (run l init).


End consumers.

(** What holds of every row, by a test on the list of the rows. *)
Lemma every_row {A : Type} (test : A -> bool) (m : gmap string A) :
  forallb test (map snd (map_to_list m)) = true -> forall k x, m !! k = Some x -> test x = true.
Proof.
  intros H k x Hx. rewrite forallb_forall in H. apply H, in_map_iff. exists (k, x).
  split; [reflexivity|]. apply list_elem_of_In, elem_of_map_to_list. exact Hx.
Qed.

(** ** The delivery queue *)

Section delivery.
Import Delivery.

Lemma owed_if s id :
  NotificationsRepository.claimable <$> deliveries (st_system s) !! id = Some true ->
  exists n, owed s id n.
Proof. intros (n & Hn & Hc)%fmap_Some. exists n. split; [exact Hn|symmetry; exact Hc]. Qed.

(** The row the notification consumer has left is owed. *)
Lemma delivery_pending : exists n, owed (opened s6) delivery_id n.
Proof. apply owed_if. evaluate. Qed.

Lemma s6_columns : columns_fit s6.
Proof. refine (every_row delivery_columns _ _). evaluate. Qed.

(** The queue has lost the job: the recovery finds the delivery. *)
Lemma delivery_owed_witness : can_deliver (opened s6) delivery_id.
Proof.
  destruct delivery_pending as [n Hn].
  pose proof (delivery_owed s6 (opened s6) delivery_id n s6_wf (rtc_refl _ _) Hn s6_columns) as H.
  unfold opened in H. cbn [st_queue st_system] in H. rewrite getJob_new in H. apply H.
  apply (bool_decide_unpack _). evaluate.
Defined.

(** The consumer queues its job. *)
Definition consumes : list event :=
  [Begins (Message RabbitConsumersService.notification order_message);
   Goes 0 Taken; Goes 0 Taken; Goes 0 Taken].
Definition queue_at (l : list event) : state := default (opened s4) (run l (opened s4)).

Lemma consumes_moves l : forall s s',
  Forall (fun e => forall t, permitted e t) l -> run l s = Some s' -> rtc moves s s'.
Proof.
  induction l as [|e l IH]; intros s s' Hl H; simpl in H.
  - injection H as <-. apply rtc_refl.
  - apply Forall_cons in Hl as [He Hl]. apply bind_Some in H as (s1 & Hs1 & H).
    eapply rtc_l; [exists e; split; [apply He|exact Hs1]|by apply IH].
Qed.

(** Five attempts fail. *)
Lemma failed_job_strands_witness :
  exists s' j' n, rtc moves (queue_at consumes) s' /\ owed s' delivery_id n /\
    getJob delivery_id (st_queue s') = Some j' /\ j_state j' = Failed.
Proof.
  assert (Hn : exists n, owed (queue_at consumes) delivery_id n) by (apply owed_if; evaluate).
  destruct Hn as [n Hn].
  assert (Hj : exists j, getJob delivery_id (st_queue (queue_at consumes)) = Some j /\
    j_state j = Queued) by (vm_compute; eexists; split; reflexivity).
  destruct Hj as (j & Hj & Hq).
  destruct (failed_job_strands s4 (queue_at consumes) delivery_id j n s4_wf) as [H _].
  - apply (consumes_moves consumes); [repeat constructor|].
    unfold queue_at. destruct (run consumes (opened s4)) eqn:Hr; [reflexivity|].
    exfalso. assert (Hs : bool_decide (is_Some (run consumes (opened s4))) = true) by evaluate.
    rewrite Hr in Hs. discriminate Hs.
  - exact Hn.
  - exact Hj.
  - destruct (H (or_introl Hq)) as (s' & j' & Hm & Ho & Hj' & Hf).
    exists s', j', n. split; [exact Hm|]. split; [exact Ho|]. split; [exact Hj'|exact Hf].
Defined.

End delivery.

(** ** From an order to its notification *)

Section journey.
Import OutboxPublisherService RabbitConsumersService.

Definition publishableb (e : OutboxEvent) : bool :=
  bool_decide (is_Some (routingKeyFor (ob_type e))) && outbox_columns e.
Lemma s4_publishable : forall e, e ∈ picked (sys_world s4) 25 -> publishable e.
Proof.
  assert (H : forall k e, outbox_of s4 !! k = Some e -> publishableb e = true)
    by (refine (every_row publishableb _ _); evaluate).
  intros e (_ & k & He)%elem_of_picked. apply H, andb_true_iff in He as [Hb Hc].
  split; [exact (bool_decide_eq_true_1 _ Hb)|exact Hc].
Qed.

(** The event of the order, in the next batch. *)
Definition is_order_event (e : OutboxEvent) : bool :=
  String.eqb (ob_type e) "OrderCreated" && is_uuid (ob_id e) && negb (String.eqb (ob_id e) "") &&
  bool_decide (json_get "userId" (ob_payload e) = Some (JStr (uuid_at 1))).
Lemma order_event_waits : exists e, e ∈ picked (sys_world s4) 25 /\ created_event (uuid_at 1) e.
Proof.
  assert (H : existsb is_order_event (picked (sys_world s4) 25) = true) by evaluate.
  apply existsb_exists in H as (e & Hin & H). exists e. split; [apply list_elem_of_In; exact Hin|].
  apply andb_true_iff in H as [H Hu]. apply andb_true_iff in H as [H Hne].
  apply andb_true_iff in H as [Hty Hid]. split.
  - apply String.eqb_eq. exact Hty.
  - exact Hid.
  - intros Heq. rewrite Heq in Hne. discriminate Hne.
  - apply bool_decide_eq_true in Hu. exact Hu.
  - reflexivity.
Qed.

Lemma order_notified_witness :
  exists e key s3 n, run (consume true notification (message_of e)) (after batch s4) = (Ok tt, s3) /\
    notificationDeliveries (w_db (sys_world s3)) !! key = Some n /\ nd_status n = DelPending /\
    nd_userId n = uuid_at 1.
Proof.
  destruct order_event_waits as (e & Hpick & Hce). exists e.
  destruct (order_notified "node-1" s4 e (uuid_at 1) s4_wf) as (s1 & Hrun & _ & _ & _ & H).
  - reflexivity.
  - apply (bool_decide_unpack _). evaluate.
  - apply (bool_decide_unpack _). evaluate.
  - exact s4_publishable.
  - exact Hpick.
  - exact Hce.
  - assert (Hs1 : after batch s4 = s1) by (unfold after, batch; rewrite Hrun; reflexivity).
    subst s1.
    destruct (H (after batch s4) (rtc_refl _ _)) as (key & s3 & n & Hc & _ & Hn & Hst & Hu & _).
    + evaluate.
    + intros k q Hq. exfalso.
      assert (Hno : map_to_list (notificationDeliveries (w_db (sys_world (after batch s4)))) = [])
        by evaluate.
      apply elem_of_map_to_list in Hq. rewrite Hno in Hq. apply not_elem_of_nil in Hq. exact Hq.
    + exists key, s3, n. split; [exact Hc|]. split; [exact Hn|]. split; [exact Hst|exact Hu].
Defined.

End journey.
