(* ===== verification/ValidationPlatform.v ===== *)
(** * A concrete validation library

    An instance of the library of Validation.v, with its laws, and the theorems about the pipe
    applied to concrete requests on it. An email is text with an at sign, a UUID is 36
    characters, a token and a date are any text. *)
From S2P Require Import Prelude JsStrings Errors Effects JsNumbers Prisma Schema Orders.
From S2P Require Import Payments Auth Restaurants Validation ValidationSpec ValidationWritten.
From S2P Require Import Reading.
#[local] Open Scope Z_scope.
#[local] Opaque of_Z decimal one.

(** ** Decimals *)

Definition is_decimal (p : nat) (z : Z) : bool :=
  bool_decide (decimal (places p z) (- Z.of_nat p) = Finite z).

Lemma is_decimal_places p n z :
  (p <= 6)%nat -> 0 <= n <= 10 ^ 15 -> decimal n (- Z.of_nat p) = Finite z -> is_decimal p z = true.
Proof.
  intros Hp Hn Hz. apply bool_decide_eq_true. by rewrite (places_decimal p n z).
Qed.

(** ** The library *)

Definition demo_accepts (d : decorator) (v : value) : bool :=
  match d, v with
  | (IsString | IsJWT | IsDateString), Str _ => true
  | IsEmail, Str s => existsb (Ascii.eqb (Ascii.ascii_of_nat 64)) (chars s)
  | IsUUID, Str s => (String.length s =? 36)%nat
  | Length a b, Str s => bool_decide (a <= String.length s <= b)%nat
  | MinLength n, Str s => bool_decide (n <= String.length s)%nat
  | MaxLength n, Str s => bool_decide (String.length s <= n)%nat
  | IsInt, Num (Finite z) => z mod one =? 0
  | IsNumber p, Num (Finite z) => is_decimal p z
  | Min m, Num x => leb m x
  | Max m, Num x => leb x m
  | IsEnum l, Str s => bool_decide (s ∈ l)
  | IsArray, Arr _ => true
  | ArrayMinSize n, Arr l => bool_decide (n <= length l)%nat
  | ArrayMaxSize n, Arr l => bool_decide (length l <= n)%nat
  | _, _ => false
  end.

Definition others_of (C : list field) (o : object) : object :=
  List.filter (fun p => negb (bool_decide (p.1 ∈ map f_name C))) o.

Fixpoint demo_convert (t : ftype) (initial given : value) : value :=
  match given, t with
  | Undefined, _ => initial
  | Str s, AsNumber => Num (Number s)
  | Arr _, AsNumber => Arr []
  | Arr l, Items C =>
      Arr (map (fun v => match v with
        | Obj o => Obj (map (fun f => match f with mkField n _ t i => (n, demo_convert t i (get n o)) end) C
                        ++ others_of C o)
        | v => v end) l)
  | _, _ => given
  end.
Definition demo_instance (C : list field) (o : object) : object :=
  map (fun f => (f_name f, demo_convert (f_type f) (f_initial f) (get (f_name f) o))) C ++
  others_of C o.

Definition demo_rule (v : value) (d : decorator) : bool :=
  match d with IsOptional | ValidateNested => true | _ => demo_accepts d v end.
Definition nested (ds : list decorator) : bool :=
  existsb (fun d => match d with ValidateNested => true | _ => false end) ds.

(** The items of a list are in order. *)
Fixpoint demo_items (t : ftype) : value -> bool :=
  match t with
  | Items C =>
      let ok o :=
        forallb (fun k => bool_decide (k ∈ map f_name C)) (keys o) &&
        forallb (fun f => match f with mkField n ds t _ =>
          (existsb (fun d => match d with IsOptional => true | _ => false end) ds &&
           absent (get n o)) ||
          (forallb (demo_rule (get n o)) ds && (negb (nested ds) || demo_items t (get n o)))
          end) C in
      fix item (v : value) : bool :=
        match v with
        | Undefined | Null => true
        | Obj o => ok o
        | Arr l => forallb item l
        | _ => false
        end
  | _ => fun _ => true
  end.
Definition demo_field (f : field) (v : value) : bool :=
  (optional f && absent v) ||
  (forallb (demo_rule v) (f_decorators f) &&
   (negb (nested (f_decorators f)) || demo_items (f_type f) v)).
Definition demo_validate (C : list field) (o : object) : list string :=
  if forallb (fun k => bool_decide (k ∈ map f_name C)) (keys o) &&
     forallb (fun f => demo_field f (get (f_name f) o)) C
  then [] else ["the request is not valid"%string].

#[export] Instance demo_library : ValidationLibrary := {|
  ValidationPipe_transform o metatype body :=
    let entity := demo_instance metatype body in
    match demo_validate metatype entity with
    | [] => Ok (if transform o then entity else body)
    | messages => Err (refusal messages)
    end;
  plainToInstance _ := demo_instance;
  validate _ _ := demo_validate;
  accepts := demo_accepts;
|}.

Lemma demo_get C o f :
  f ∈ C -> NoDup (map f_name C) ->
  get (f_name f) (demo_instance C o) =
    demo_convert (f_type f) (f_initial f) (get (f_name f) o).
Proof.
  unfold demo_instance, get at 1. generalize (others_of C o) as rest.
  induction C as [|f' C IH]; intros rest Hf Hnd; [by apply not_elem_of_nil in Hf|].
  simpl in Hnd. apply NoDup_cons in Hnd as [Hno Hnd]. simpl.
  destruct (String.eqb_spec (f_name f') (f_name f)) as [Heq|Hne].
  - apply elem_of_cons in Hf as [->|Hf]; [done|]. destruct Hno. rewrite Heq.
    by apply list_elem_of_fmap_2.
  - apply elem_of_cons in Hf as [->|Hf]; [done|]. by apply IH.
Qed.

Lemma demo_keys C o k : k ∉ map f_name C -> (k ∈ keys (demo_instance C o) <-> k ∈ keys o).
Proof.
  intros Hno. unfold keys, demo_instance. rewrite map_app, map_map. simpl. rewrite elem_of_app.
  unfold others_of. rewrite !list_elem_of_In, !in_map_iff. split.
  - intros [(f & <- & Hf)|(p & <- & [Hin _]%filter_In)]; [|eauto]. destruct Hno.
    by apply list_elem_of_In, in_map.
  - intros (p & <- & Hin). right. exists p. split; [done|]. apply filter_In. split; [done|].
    by rewrite bool_decide_eq_false_2.
Qed.

Lemma demo_validate_nil C o :
  demo_validate C o = [] <->
  forallb (fun k => bool_decide (k ∈ map f_name C)) (keys o) &&
  forallb (fun f => demo_field f (get (f_name f) o)) C = true.
Proof. unfold demo_validate. by destruct (_ && _). Qed.

(** Values with their lists. *)
Fixpoint value_list_ind (Q : value -> Prop)
    (H0 : Q Undefined) (H1 : Q Null) (H2 : forall b, Q (Boolean b)) (H3 : forall x, Q (Num x))
    (H4 : forall s, Q (Str s)) (H5 : forall l, Forall Q l -> Q (Arr l)) (H6 : forall o, Q (Obj o))
    (v : value) : Q v :=
  match v with
  | Undefined => H0 | Null => H1 | Boolean b => H2 b | Num x => H3 x | Str s => H4 s
  | Obj o => H6 o
  | Arr l => H5 l ((fix all l : Forall Q l :=
      match l with
      | [] => Forall_nil_2 Q
      | v :: l => Forall_cons_2 Q v l (value_list_ind Q H0 H1 H2 H3 H4 H5 H6 v) (all l)
      end) l)
  end.

Lemma demo_items_ok C v : demo_items (Items C) v = nested_ok C v.
Proof.
  induction v as [| | | | |l IH|o] using value_list_ind; try done.
  - change (forallb (demo_items (Items C)) l = forallb (nested_ok C) l).
    induction IH as [|v l Hv _ IH]; simpl; [done|]. by rewrite <-IH, <-Hv.
  - apply eq_bool_prop_intro. rewrite !Is_true_true. cbn [demo_items nested_ok].
    rewrite bool_decide_eq_true. cbn [validate demo_library]. rewrite demo_validate_nil.
    assert (Heq : forallb (fun f => match f with mkField n ds t _ =>
        (existsb (fun d => match d with IsOptional => true | _ => false end) ds && absent (get n o)) ||
        (forallb (demo_rule (get n o)) ds && (negb (nested ds) || demo_items t (get n o))) end) C =
      forallb (fun f => demo_field f (get (f_name f) o)) C).
    { induction C as [|[n ds t i] C IH]; simpl; [done|]. by rewrite IH. }
    by rewrite Heq.
Qed.

Lemma nested_spec ds : nested ds = true <-> ValidateNested ∈ ds.
Proof.
  unfold nested. rewrite existsb_exists. split.
  - intros (d & Hd & Hn). destruct d; try done. by apply list_elem_of_In.
  - intros Hd. exists ValidateNested. split; [by apply list_elem_of_In|done].
Qed.

Lemma demo_field_ok f v : demo_field f v = true <-> field_ok f v.
Proof.
  unfold demo_field, field_ok. rewrite orb_true_iff, !andb_true_iff, orb_true_iff, negb_true_iff.
  assert (Hr : forallb (demo_rule v) (f_decorators f) = forallb (rule_ok v) (f_decorators f)) by done.
  rewrite Hr. f_equiv. f_equiv.
  assert (Hi : demo_items (f_type f) v = true <-> forall C, items_of f = Some C ->
    nested_ok C v = true).
  { unfold items_of. destruct (f_type f) as [| |C]; [naive_solver..|].
    rewrite demo_items_ok. naive_solver. }
  rewrite Hi. rewrite <-nested_spec. destruct (nested (f_decorators f)); naive_solver.
Qed.

#[export] Instance demo_library_laws : ValidationLibraryLaws demo_library.
Proof.
  split.
  - done.
  - intros fields o f Hf Hn. cbn [plainToInstance demo_library]. rewrite demo_get by done.
    unfold converted, items_of.
    destruct (get (f_name f) o) as [| | | | |l|], (f_type f) as [| |C]; simpl; try done; [by eexists|].
    eexists. split; [done|]. induction l as [|v l IH]; constructor; [|exact IH].
    destruct v as [| | | | |l'|o']; simpl; try done; [eauto|]. unfold demo_instance.
    do 2 f_equal. apply map_ext. by intros [].
  - intros fields o k. apply demo_keys.
  - intros fields o. cbn [validate demo_library]. rewrite demo_validate_nil, andb_true_iff, !forallb_forall.
    setoid_rewrite bool_decide_eq_true. setoid_rewrite demo_field_ok.
    setoid_rewrite list_elem_of_In. done.
  - done.
  - intros d v Hd Ha. destruct v; [..|by eauto| |];
      repeat (apply elem_of_cons in Hd as [->|Hd]; [done|]); by apply not_elem_of_nil in Hd.
  - done.
  - done.
  - done.
  - intros v. cbn [accepts demo_library demo_accepts]. pose proof one_pos.
    destruct v as [| | |[| |z]| | |]; try (split; [done|by intros [n ?]]).
    rewrite Z.eqb_eq. split.
    + intros Hz. exists (z / one). do 2 f_equal. pose proof (Z.div_mod z one). lia.
    + intros [n [= ->]]. by apply Z.mod_mul; lia.
  - intros p v Ha. destruct v as [| | |[| |z]| | |]; try done. cbn in Ha.
    apply bool_decide_eq_true in Ha. eauto.
  - intros p n z. apply is_decimal_places.
  - done.
  - done.
  - done.
  - done.
  - done.
  - done.
Qed.

(** ** Requests *)

Definition is_err {A : Type} (r : result A) : bool := match r with Err _ => true | Ok _ => false end.

Definition sign_up : object :=
  [("email", Str "ada@example.com"); ("password", Str "correct horse battery");
   ("displayName", Str "Ada")]%string.
(** Who signs up cannot choose a role. *)
Definition as_admin : object := ("role"%string, Str "ADMIN") :: sign_up.


(** A text for an item is refused, and so is a page that is asked for twice. *)
Example text_item_refused :
  is_err (ValidationPipe_transform globalPipe Classes.CreateOrderDto
    [("restaurantId", Str "9b2c0f5e-3f57-4d0e-9a63-1f5f6f0c7a11"); ("items", Arr [Str "pasta"])]%string)
  = true.
Proof. vm_compute. reflexivity. Qed.
Example page_twice_refused :
  is_err (ValidationPipe_transform globalPipe Classes.ListOrdersQueryDto
    (query_object [("page", Repeated ["1"; "2"])]%string)) = true.
Proof. vm_compute. reflexivity. Qed.

Definition dinner : CreateOrderDto :=
  mkCreateOrderDto "9b2c0f5e-3f57-4d0e-9a63-1f5f6f0c7a11"
    [mkCreateOrderItemDto "1d6a3b52-7c1e-4b9a-8a57-0b7f6c9d2e33" 2].

Lemma pipe_roundtrip_witness :
  exists inst, ValidationPipe_transform globalPipe Classes.CreateOrderDto (written (NewOrder dinner)) =
      Ok inst /\ stands_for inst (NewOrder dinner).
Proof.
  apply (pipe_roundtrip (NewOrder dinner)); [reflexivity|].
  split; [reflexivity|]. constructor; [reflexivity|constructor].
Defined.
