(* ===== verification/LabWitnesses.v ===== *)
(** * The lab at work

    A command line, a phase of two requests and its report: each theorem about the scaling lab
    applied to them. *)
From S2P Require Import Prelude JsStrings Errors JsNumbers ScalingLab ScalingLabSpec.
From S2P Require Import LabPhaseSpec LabReportSpec Platform.

(** ** The command line *)

Definition lab_argv : list string :=
  ["--url"; "http://localhost:3000/v1/restaurants"; "--rate"; "2"; "--duration=1";
   "--warmup"; "0"; "--concurrency"; "1"; "--json"]%string.

Definition lab_config : LabConfig :=
  mkLabConfig "http://localhost:3000/v1/restaurants" (of_Z 2) (of_Z 1) (of_Z 0) (of_Z 1) (of_Z 2000)
    true None None.

Lemma lab_parsed : parseArgs lab_argv None = Ok (Config lab_config).
Proof. vm_compute. reflexivity. Qed.

Lemma parseArgs_accepts_witness : wf_config lab_config.
Proof. exact (parseArgs_accepts lab_argv None lab_config lab_parsed). Defined.

Lemma parseArgs_roundtrip_witness :
  parseArgs (to_argv lab_config) (Some "http://elsewhere/"%string) = Ok (Config lab_config).
Proof.
  apply (parseArgs_roundtrip lab_config (Some "http://elsewhere/"%string)).
  - exact (parseArgs_wf lab_argv None lab_config lab_parsed).
  - vm_compute. reflexivity.
Defined.

Lemma inline_value_witness :
  collect ["--url=http://localhost/?page=2"]%string ∅ =
  collect ["--url"; "http://localhost/?page"]%string ∅.
Proof. apply (inline_value "url" "http://localhost/?page=2" [] ∅). vm_compute. reflexivity. Defined.

(** ** A phase

    Two requests a second for one second, one at a time, with timers that may fire two
    milliseconds early; the first one does. *)
Definition answered (ms : Z) : RequestSample := mkRequestSample (of_Z ms) (Some 200) None.

Definition lab_events : list event :=
  [Clock (of_Z 0); Clock (of_Z 0); Clock (of_Z 0);
   Clock (of_Z 1); Settles 0 (answered 120); TimerFires; Clock (of_Z 499);
   Clock (of_Z 501); TimerFires; Clock (of_Z 1000);
   Settles 1 (answered 650); Clock (of_Z 1150)].

Definition lab_rate : number := of_Z 2.
Definition lab_duration : number := of_Z 1.
Abbreviation lab_step := (runPhase_step lab_duration lab_rate (of_Z 1)).
Abbreviation lab_run := (runPhase lab_duration lab_rate (of_Z 1)).
Abbreviation lab_run_from := (runPhase_from lab_duration lab_rate (of_Z 1)).
Abbreviation lab_punctual := (punctual lab_duration lab_rate (of_Z 1) 2).

Lemma lab_interval : intervalMs lab_rate = of_Z 500.
Proof. by apply div_of_Z. Qed.

Lemma lab_deadline s : 0 <= s <= 2 ^ 40 -> deadline lab_duration (of_Z s) = of_Z (s + 1000).
Proof.
  intros Hs. unfold deadline, lab_duration. rewrite (mul_of_Z 1 1000 1000) by lia.
  by apply add_of_Z; lia.
Qed.

Lemma lab_scheduledAt s k : 0 <= s <= 2 ^ 40 -> 0 <= k <= 2 ^ 20 ->
  scheduledAt lab_rate (of_Z s) k = of_Z (s + k * 500).
Proof.
  intros Hs Hk. unfold scheduledAt. rewrite lab_interval, (mul_of_Z k 500 (k * 500)) by lia.
  by apply add_of_Z; lia.
Qed.

Lemma lab_reading n ph :
  0 <= n <= 2 ^ 40 ->
  (ph_control ph = CheckingDeadline ->
   leb (scheduledAt lab_rate (ph_started ph) (ph_scheduled ph)) (of_Z (n + 2)) = true) ->
  on_time lab_rate 2 (Clock (of_Z n)) ph.
Proof.
  intros Hn Hs. pose proof one_pos. exists (n * one). split; [by apply of_Z_exact; lia|].
  split; [nia|]. intros Hc. rewrite <- Z.mul_add_distr_r, <- of_Z_exact by lia. by apply Hs.
Qed.

#[local] Opaque of_Z add mul div sub leb ltb scheduledAt deadline.

(** One event after the other, the numbers by the lemmas above. *)
Lemma punctual_from before events ph ph' e ph2 :
  on_time lab_rate 2 e ph -> lab_step e ph = Some ph2 ->
  (lab_punctual (before ++ [e]) ph2 -> lab_punctual ((before ++ [e]) ++ events) ph') ->
  lab_punctual before ph -> lab_punctual (before ++ e :: events) ph'.
Proof.
  intros Ht Hs Hn Hp. rewrite (app_assoc before [e] events : before ++ e :: events = _).
  apply Hn. by econstructor.
Qed.

Ltac lab_compute :=
  repeat match goal with
    | |- context [bool_decide ?P] =>
        let b := eval vm_compute in (bool_decide P) in change (bool_decide P) with b
    | |- context [size ?X] => let n := eval vm_compute in (size X) in change (size X) with n
    | |- context [?a <? ?b] => let c := eval vm_compute in (a <? b) in change (a <? b) with c
    | |- context [?a <=? ?b] => let c := eval vm_compute in (a <=? b) in change (a <=? b) with c
    | |- context [Z.of_nat ?n] => let c := eval vm_compute in (Z.of_nat n) in change (Z.of_nat n) with c
    | |- context [?a + ?b] => let c := eval vm_compute in (a + b) in change (a + b) with c
    | |- context [?a * ?b] => let c := eval vm_compute in (a * b) in change (a * b) with c
    end.
Ltac lab_numbers :=
  rewrite ?lab_deadline, ?lab_scheduledAt by lia; lab_compute;
  rewrite ?sub_sign_of_Z, ?leb_of_Z by lia; lab_compute; cbn -[size].

Ltac lab_next :=
  eapply punctual_from;
  [ lazymatch goal with
    | |- on_time _ _ (Clock _) _ =>
        apply lab_reading; [lia|]; cbn;
        first [intros Hc; discriminate Hc|intros _; lab_numbers; reflexivity]
    | |- _ => exact I
    end
  | cbn -[size]; lab_numbers; unfold ScalingLab.schedule; cbn -[size]; lab_numbers; reflexivity
  | ].

Definition lab_result : PhaseResult :=
  mkPhaseResult [answered 120; answered 650] 2 0 (sub (of_Z 1150) (of_Z 0)).


Lemma lab_phase : exists ph, lab_punctual lab_events ph /\ ph_control ph = Returned lab_result /\
  ph_scheduled ph = 2.
Proof.
  eexists. split.
  - apply (fun H : lab_punctual [] phase_init -> lab_punctual ([] ++ lab_events) _ => H (punctual_init _ _ _ _)).
    unfold lab_events. lab_next. lab_next. lab_next. lab_next. do 8 lab_next. rewrite app_nil_r. exact (fun H => H).
  - split; reflexivity.
Qed.

Lemma phase_accounts_witness :
  exists ph, lab_run lab_events = Some ph /\
    ph_scheduled ph = ph_drops ph + Z.of_nat (ph_tasks ph) /\
    map snd (settlements lab_events) = [answered 120; answered 650] /\
    scheduled lab_result = clientBackpressureDrops lab_result + 2.
Proof.
  destruct lab_phase as (ph & Hp & Hret & Hs). exists ph.
  destruct (phase_accounts lab_duration lab_rate (of_Z 1) 1 lab_events ph) as (H1 & _ & _ & _ & H).
  - exact (of_Z_exact 1 ltac:(lia)).
  - lia.
  - exact (punctual_run _ _ _ _ _ _ Hp).
  - split; [exact (punctual_run _ _ _ _ _ _ Hp)|]. split; [exact H1|].
    destruct (H lab_result Hret) as (_ & Hsm & _ & Hn). split; [symmetry; exact Hsm|exact Hn].
Defined.

Lemma phase_terminates_witness :
  exists ph, lab_run lab_events = Some ph /\ ph_scheduled ph <= 3 /\
    Z.of_nat (length lab_events) <= 4 * 3 + 5.
Proof.
  destruct lab_phase as (ph & Hp & _). exists ph.
  destruct (phase_terminates lab_duration lab_rate (of_Z 1) 2 3 (1000 * one)) with lab_events ph
    as (Hs & Hl & _).
  - lia.
  - lia.
  - unfold lab_duration. rewrite (mul_of_Z 1 1000 1000) by lia. apply of_Z_exact. lia.
  - pose proof one_pos. lia.
  - rewrite lab_interval, (mul_of_Z 3 500 1500) by lia. rewrite (of_Z_exact 1500) by lia.
    rewrite leb_Finite. pose proof one_pos. apply Z.leb_le. lia.
  - exact Hp.
  - split; [exact (punctual_run _ _ _ _ _ _ Hp)|]. split; assumption.
Defined.

(** A loop that wakes up late. *)
Definition late_events : list event :=
  [Clock (of_Z 0); Clock (of_Z 900); Clock (of_Z 900); Clock (of_Z 900); Clock (of_Z 900)].

Lemma late_phase : exists ph, lab_punctual late_events ph /\ ph_scheduled ph = 2.
Proof.
  eexists. split.
  - apply (fun H : lab_punctual [] phase_init -> lab_punctual ([] ++ late_events) _ =>
      H (punctual_init _ _ _ _)).
    unfold late_events. do 5 lab_next. rewrite app_nil_r. exact (fun H => H).
  - reflexivity.
Qed.

Lemma behind_schedule_drops_witness :
  exists ph, lab_run late_events = Some ph /\ ph_scheduled ph = 2 /\ ph_drops ph = 1.
Proof.
  destruct late_phase as (ph & Hp & Hs). exists ph.
  destruct (behind_schedule_drops lab_duration lab_rate (of_Z 1) 1 late_events ph) as (_ & _ & Hd).
  - exact (of_Z_exact 1 ltac:(lia)).
  - lia.
  - repeat constructor.
  - exact (punctual_run _ _ _ _ _ _ Hp).
  - split; [exact (punctual_run _ _ _ _ _ _ Hp)|]. split; [exact Hs|]. rewrite Hd, Hs. reflexivity.
Defined.

(** ** The report *)

Definition three_latencies : list Z := [120 * one; 650 * one; 30 * one].

Lemma three_printable : Forall printable_latency three_latencies.
Proof. pose proof one_pos. unfold printable_latency. repeat constructor; lia. Qed.

Lemma percentile_nearest_rank_witness :
  exists x, of_rank (ceil_div (95 * Z.of_nat (length three_latencies)) 100) x three_latencies /\
    percentile (map Finite three_latencies) f95 = Some (decimal (hundredths_of x) (-2)).
Proof.
  apply (percentile_nearest_rank three_latencies 95 f95 fraction_95).
  - cbn. lia.
  - exact three_printable.
Defined.

Definition lab_samples : list RequestSample := [answered 120; answered 650].

Lemma latencies_in_order_witness :
  in_order (p50 (latencySummary lab_samples)) (p95 (latencySummary lab_samples)) /\
  in_order (p99 (latencySummary lab_samples)) (max (latencySummary lab_samples)).
Proof.
  destruct (latencies_in_order lab_samples [120 * one; 650 * one]) as (_ & H & _ & H').
  - unfold lab_samples, answered. cbn [map durationMs]. by rewrite !of_Z_exact by lia.
  - cbn. lia.
  - pose proof one_pos. unfold printable_latency. repeat constructor; lia.
  - split; assumption.
Defined.

Lemma report_accounts_witness :
  t_scheduled (traffic (summarize lab_config lab_result)) =
    completed (traffic (summarize lab_config lab_result)) +
    t_drops (traffic (summarize lab_config lab_result)) /\
  completed (traffic (summarize lab_config lab_result)) = 2.
Proof.
  destruct lab_phase as (ph & Hp & Hret & _).
  destruct (report_accounts lab_config lab_duration lab_rate (of_Z 1) lab_events ph lab_result
    (punctual_run _ _ _ _ _ _ Hp) Hret) as (H & _).
  - repeat constructor.
  - split; [exact H|reflexivity].
Defined.

Definition lab_process : process := conclude lab_config [] lab_result.

Lemma main_returns argv env warmup_events events c ph r :
  parseArgs argv env = Ok (Config c) -> ltb (of_Z 0) (warmupSeconds c) = false ->
  runPhase (durationSeconds c) (ratePerSecond c) (concurrency c) events = Some ph ->
  ph_control ph = Returned r ->
  main argv env warmup_events events = Some (conclude c [] r).
Proof.
  intros Hp Hw Hr Hret. unfold main, warmup_line, phase_end. rewrite Hp, Hw. cbn [mbind option_bind].
  rewrite Hr. cbn [mbind option_bind]. by rewrite Hret.
Qed.

Lemma no_warmup : ltb (of_Z 0) (of_Z 0) = false.
Proof. rewrite of_Z_0. reflexivity. Qed.

Lemma lab_ends : main lab_argv None [] lab_events = Some lab_process.
Proof.
  destruct lab_phase as (ph & Hp & Hret & _).
  exact (main_returns lab_argv None [] lab_events lab_config ph lab_result lab_parsed no_warmup
    (punctual_run _ _ _ _ _ _ Hp) Hret).
Qed.

Lemma exit_code_witness :
  exists c r, parseArgs lab_argv None = Ok (Config c) /\
    phase_end c (durationSeconds c) lab_events = Some (Ok r) /\ meets c r.
Proof.
  destruct (exit_code lab_argv None [] lab_events lab_process lab_ends) as [(H & _)|[(_ & _ & H)|H]].
  - exfalso. discriminate H.
  - exfalso. rewrite lab_parsed in H. discriminate H.
  - destruct H as (c & r & Hp & He & H0 & _). exists c, r. split; [exact Hp|]. split; [exact He|].
    exact (proj1 H0 eq_refl).
Defined.
