(* ===== verification/ApiWitnesses.v ===== *)
(** * The API on concrete requests

    The theorems about the API (Routes.v, ApiSpec.v, ApiJourney.v) applied to requests that come
    to the run of Scenario.v over HTTP. *)
From S2P Require Import Cache CacheSpec.
From S2P Require Import Prelude JsStrings Errors Effects Prisma Schema Orders OrdersSpec Payments.
From S2P Require Import Evolution OrderFlow Auth Http Routes Throttle Restaurants System Pipeline.
From S2P Require Import Workers App Platform Scenario Witnesses.
From S2P Require Import Validation ValidationSpec ValidationWritten Reading ValidationPlatform.
From S2P Require Import Api ApiSpec ApiJourney.

(** ** The pipes of NestJS *)

#[export] Instance demo_pipes : NestPipes := {|
  ParseUUIDPipe_transform s :=
    if is_uuid s then Ok s else Err (BadRequestException "Validation failed (uuid is expected)");
  all_pipes A B x y :=
    match x, y with
    | Ok a, Ok b => Ok (a, b)
    | Err e, _ => Err e
    | Ok _, Err e => Err e
    end;
|}.

#[export] Instance demo_pipes_laws : NestPipesLaws demo_uuids demo_pipes.
Proof.
  split; cbn -[is_uuid].
  - by intros s ->.
  - intros s s'. destruct (is_uuid s); [by intros [= ->]|done].
  - intros s e. destruct (is_uuid s); [done|by intros [= <-]].
  - done.
  - intros A B [a'|e] [b'|e'] a b; try done. by intros [= -> ->].
  - intros A B [a|e] [b|e'] e''; try done; intros [= <-]; auto.
Qed.

(** ** Requests *)

Definition token_of (user : AuthenticatedUser) : option string :=
  bearer_token (mkTokenUser (au_id user) (au_email user) (au_role user)) 1000000.
Definition client : string := "10.0.0.7".

(** Alice orders her supper. *)
Definition post_supper : http_request :=
  mkHttpRequest POST "/v1/orders" "/v1/orders" client [] (written (NewOrder supper)) corr
    (token_of alice) None.
(** The manager has her order prepared. *)
Definition patch_order : http_request :=
  mkHttpRequest PATCH (route_url (OrdersRoute OrdersController.updateStatus) [order_id])
    "/v1/orders/1/status" client []
    (written (UpdateStatus (mkUpdateOrderStatusDto PREPARING 2))) corr (token_of boss) None.
(** Somebody tries passwords. *)
Definition post_login : http_request :=
  mkHttpRequest POST "/v1/auth/login" "/v1/auth/login" client []
    (written (Login (mkLoginDto "alice@example.com" "letmein"))) corr None None.
(** Somebody signs up as an administrator. *)
Definition post_admin : http_request :=
  mkHttpRequest POST "/v1/auth/register" "/v1/auth/register" client [] as_admin corr None None.

Abbreviation orders_of s := (orders (w_db (sys_world (sv_system s)))).
Definition served (s : system) : server := mkServer _ s (∅, ∅) 0 [].
Definition at_work (rq : http_request) : prog server unit :=
  prog_then (fun _ => Ret tt) (handle 1 rq).

(** ** Routes *)

Lemma routes_unambiguous_witness :
  resolve application_routes PATCH (route_url (OrdersRoute OrdersController.updateStatus) [order_id]) =
    Some (OrdersRoute OrdersController.updateStatus, [("id"%string, order_id)]) /\
  resolve (reverse application_routes) GET "/v1/health/live" =
    resolve application_routes GET "/v1/health/live".
Proof.
  destruct (routes_unambiguous application_routes application_routes_all) as [H _].
  destruct (routes_unambiguous (reverse application_routes)) as (_ & H' & _).
  { intros r. apply elem_of_reverse, application_routes_all. }
  split.
  - apply (H (OrdersRoute OrdersController.updateStatus) [order_id]); [reflexivity|].
    constructor; [|constructor]. apply plainb_plain. evaluate.
  - apply (H' GET ["v1"; "health"; "live"]%string).
    repeat constructor; apply plainb_plain; reflexivity.
Defined.

(** ** In every interleaving *)

Lemma patch_arrives : arrives (served s4) (at_work patch_order).
Proof.
  apply arrives_request. intros c Hc.
  assert (Hasked : asked patch_order =
    Some (call_updateStatus order_id (mkUpdateOrderStatusDto PREPARING 2))) by evaluate.
  rewrite Hasked in Hc. injection Hc as <-. exact w4_read.
Qed.

Lemma http_sound_witness :
  exists o o', orders_of (shared (stage (at_work patch_order) 5 (served s4))) !! order_id = Some o /\
    orders_of (shared (stage (at_work patch_order) 6 (served s4))) !! order_id = Some o' /\
    o_version o = 2 /\ o_version o' = 3 /\
    (o' = o \/ o_status o' ∈ OrdersService.transitions (o_status o)).
Proof.
  destruct (http_sound (served s4) (stage (at_work patch_order) 5 (served s4))
    (stage (at_work patch_order) 6 (served s4)) s4_wf s4_safe) as (_ & _ & H & _).
  - apply stage_reached; [apply patch_arrives|evaluate].
  - apply stage_steps. evaluate.
  - destruct (column_row o_version
      (orders_of (shared (stage (at_work patch_order) 5 (served s4))) !! order_id) 2)
      as (o & Ho & Hv); [evaluate|].
    destruct (column_row o_version
      (orders_of (shared (stage (at_work patch_order) 6 (served s4))) !! order_id) 3)
      as (o' & Ho' & Hv'); [evaluate|].
    exists o, o'. destruct (H _ _ Ho) as (o2 & Ho2 & Hc). rewrite Ho' in Ho2.
    injection Ho2 as <-. repeat (split; [assumption|]).
    destruct Hc as [?|(Hi & _)]; [left; assumption|right]. apply Hi. exact I.
Defined.

(** ** Five logins a minute *)

(** Five logins, each up to the throttler. *)
Definition five_logins : list (action server unit) :=
  flat_map (fun i => [Spawn (at_work post_login); Run i; Run i]) [0; 1; 2; 3; 4]%nat.
Definition tried : config server unit :=
  default (mkConfig (served s4) []) (perform_all five_logins (mkConfig (served s4) [])).

Lemma tried_reached : perform_all five_logins (mkConfig (served s4) []) = Some tried.
Proof.
  assert (Hp : bool_decide (is_Some (perform_all five_logins (mkConfig (served s4) []))) = true)
    by (vm_compute; reflexivity).
  apply bool_decide_eq_true in Hp as [c Hc]. unfold tried. by rewrite Hc.
Qed.
#[global] Opaque tried.

Lemma login_arrives s : arrives s (at_work post_login).
Proof.
  apply arrives_request. intros c Hc. vm_compute in Hc. injection Hc as <-. exact I.
Qed.

Lemma limits_kept_witness :
  exists a s', run (handle 1 post_login) (shared tried) = (Ok a, s') /\ an_status a = 429 /\
    untouched (shared tried) s'.
Proof.
  destruct (limits_kept (served s4) tried) as (_ & _ & H).
  - exact s4_wf.
  - reflexivity.
  - eapply actions_reached; [|exact tried_reached|apply reach_init].
    unfold five_logins. cbn [flat_map app].
    repeat (apply Forall_cons_2; [intros d; first [apply login_arrives|exact I]|]). apply Forall_nil_2.
  - apply (H 1%nat post_login (AuthRoute AuthController.login) []); [reflexivity|].
    apply Nat.leb_le. evaluate.
Defined.

(** ** Outcomes *)

Lemma request_outcome_witness :
  exists a s', run (handle 1 post_admin) (served s4) = (Ok a, s') /\ an_status a = 400 /\
    untouched (served s4) s'.
Proof.
  destruct (request_outcome 1 post_admin (served s4)) as (id & w1 & a & s' & _ & Hrun & _ & H).
  - exists a, s'. split; [exact Hrun|].
    assert (Hf : found_route post_admin = Some (AuthRoute AuthController.register, [])) by evaluate.
    rewrite Hf in H.
    destruct (arguments (AuthRoute AuthController.register) [] post_admin) as [c|e] eqn:Hargs;
      [vm_compute in Hargs; discriminate Hargs|]. exact H.
Defined.

Lemma order_over_http_witness :
  exists a s' view, run (handle 1 post_supper) (served (mkSystem w2 [] ∅ true ∅)) = (Ok a, s') /\
    an_status a = 201 /\ an_body a = Data (OneOrder view) /\
    o_totalAmount (ov_order view) = 2950.
Proof.
  destruct (order_over_http 1 post_supper (served (mkSystem w2 [] ∅ true ∅))
    (mkTokenUser (au_id alice) (au_email alice) (au_role alice)) 1000000 supper supper_lines
    "corr-1" w2) as (a & s' & view & Hrun & Hst & _ & Hbody & _ & _ & _ & _ & Htotal & _).
  - split; reflexivity.
  - evaluate.
  - split; [evaluate|]. repeat constructor; evaluate.
  - vm_compute. split; [intros Hgt; discriminate Hgt|reflexivity].
  - reflexivity.
  - reflexivity.
  - exact (wf_menu _ w2_wf).
  - exact supper_creatable.
  - exists a, s', view. split; [exact Hrun|]. split; [exact Hst|]. split; [exact Hbody|].
    rewrite Htotal. reflexivity.
Defined.
